(* ===== verification/_CoqProject ===== *)
-Q . S2P
Prelude.v
GoStrings.v
Text.v
Paths.v
ApiTypes.v
RunSet.v
GoTime.v
Sha256.v
Naming.v
Control.v
Pump.v
EventHub.v
CommandLog.v
Events.v
FileSys.v
Snapshot.v
Retention.v
Recovery.v
LinkTree.v
Promotion.v
Lock.v
Kube.v
Identity.v
Program.v
Safety.v
Builders.v
Credentials.v
Capture.v
Resources.v
Transfers.v
Guard.v
BackupRun.v
RestoreRun.v
Machine.v
Writes.v
Steps.v
Lifecycle.v
Refinement.v
Cluster.v
RunLaws.v
CleanupLaws.v
HistoryLaws.v
MachineLaws.v
RestoreLaws.v
Recorder.v
Applier.v
Rsync.v
Peers.v
ControlServer.v
Wire.v
Daemon.v
Transport.v
TransportLaws.v
Wiring.v
OutputLaws.v
Flags.v
CliFlags.v
JobArgs.v
ServeTarget.v
ServeTargetLaws.v
SendSource.v
SendSourceLaws.v
LiveApi.v
LiveApiLaws.v
ControlTLS.v
ControlTLSLaws.v
