(* ===== verification/Prelude.v ===== *)
(** * kube-rsync-machine: a verification development (root file)

    kube-rsync-machine backs up Kubernetes volumes with rsync.  A custom resource RsyncMachine
    names a target volume, a strategy (snapshots or a mirror), a retention and a schedule; a
    BackupSource is a volume that a machine copies to a directory of its target; a BackupJob is
    one run over all the sources of a machine; a RestoreJob reads one snapshot back.  The
    program has two planes.  The controllers (src/internal/controller) reconcile the custom
    resources: they compute what a run copies, take the guard of the target, create Jobs,
    Services and Secrets, and follow their status.  The data plane (src/internal/dataplane) runs inside
    the Jobs: a target receives files into a partial directory of its volume and promotes that
    directory to a snapshot, and sources send them.  They talk through the control service
    (src/internal/control, served by src/internal/controlgrpc): targets stream their commands
    from it, and targets and sources report events to it, which it publishes to a hub.  The event
    applier of the manager (src/internal/manager) writes the events of the hub into the status of the
    objects, and the live API (src/internal/liveapi) shows both to a web client.

    ** Conventions

    A Go function is a definition of the same name.  An error result is [result] with the
    error's text and its kind; strings are byte strings; a Go map that is iterated is a list in
    iteration order, and a theorem about it holds for every order; times are nanoseconds since the
    Unix epoch.  An integer that can leave its width is kept there (the sequence numbers of the
    hub, the words of SHA-256).  A struct field that the code only copies (security contexts,
    affinities, resource requirements) is its serialised form.

    Four forms of effect are used.  The data plane is a state and error monad over a file system
    ([FileSys]), with a list of injected faults that says which system calls fail.  The control
    service and the target lock are step relations, one lock region, channel operation or system call
    at a time, so that their theorems hold for every interleaving.  The reconcilers are programs of
    requests ([Program]): the API server, the clock, the control service, the certificate authority and
    the metrics form an environment of which nothing is assumed, so a law of a reconciler
    holds whatever other clients do between two of its requests, and whichever of them fail; the event
    applier, the live API and the manager's certificate are such programs, too.  The processes of the data
    plane ([ServeTarget], [SendSource]) are functions of what happens to them: a list of connections,
    commands and endings, in any order; what they tell the control service is a list of messages.

    ** Files

    Shared ground.
    - [Prelude]: errors, their kinds and wrapping, insertion sort, record updates, list lemmas.
    - [GoStrings], [Text], [GoTime], [Sha256]: the functions of the packages strings, path, filepath, time
      and sha256 that the source calls; [Flags]: package flag.
    - [ApiTypes]: src/api/v1alpha1/types.go.
    - [Naming]: names and labels of builders.go, helpers.go and src/internal/snapshot/helpers.go.

    Run sets.
    - [RunSet]: src/internal/controller/helpers.go.
    - [Paths]: the relative paths of snapshot.go and transport.go of the data plane.

    The control service (src/internal/control).
    - [Control]: types.go and the validation of messages.
    - [Pump], [EventHub]: eventhub.go; [CommandLog]: service.go.
    - [Events]: src/internal/controller/events.go, which applies events to the objects;
      [Applier]: src/internal/manager/event_applier.go, which calls it on what the hub sends.
    - [Peers]: identities in certificates (src/internal/tlsutil) and what peers require of each other
      (src/internal/manager/control_client_verifier.go, controlgrpc, dataplane);
      [ControlServer]: src/internal/controlgrpc/server.go;
      [ControlTLS], [ControlTLSLaws]: src/internal/manager/control_tls.go and image.go.

    The target volume (src/internal/dataplane/snapshot.go).
    - [FileSys]: nodes with inodes, paths with symbolic links, the system calls.
    - [Snapshot]: the operations; [Retention], [Recovery], [LinkTree], [Promotion]: their laws.
    - [Lock]: the lock file.

    Transfers (src/internal/dataplane).
    - [Wire]: the header of a transfer, its framing and its JSON; [Daemon]: the rsync daemon and the
      bridge that a connection is proxied to; [Transport], [TransportLaws]: transport.go, the
      receivers and senders; [Rsync], [OutputLaws]: rsync.go and logging.go, the
      command line of rsync and what is read out of its output.
    - [CliFlags]: the flags and the dispatch of src/internal/cli/cli.go; [ServeTarget], [ServeTargetLaws]: its
      command serve-target, with controlclient.go; [SendSource], [SendSourceLaws]: send-source and restore.
    - [Wiring], [JobArgs]: the Jobs that the controllers build against the commands that parse their arguments.

    The controllers (src/internal/controller/reconcilers.go unless another file is named).
    - [Kube]: the objects they store; [Program]: requests and programs; [Safety]: a logic for them.
    - [Identity]: src/internal/tlsutil; [Builders]: builders.go; [Credentials]: credentials.go;
      [Capture]: src/internal/snapshot/helpers.go.
    - [Resources]: creating, owning and deleting generated objects; [Transfers]: the status of
      transfers and the run history; [Guard]: the lease of a target and the runs that
      compete for it; [BackupRun], [RestoreRun], [Machine]: the Reconcile methods and their handlers.
    - [Writes], [Steps], [Lifecycle], [Refinement]: every status write of the BackupJob
      reconciler is a step of an abstract life of a run.
    - [Cluster]: concrete libraries and API servers, on which the laws are applied.
    - [RunLaws], [CleanupLaws], [HistoryLaws], [MachineLaws], [RestoreLaws]: the laws.
    - [Recorder]: src/internal/metrics/recorder.go.

    The web client's server.
    - [LiveApi], [LiveApiLaws]: src/internal/liveapi/server.go.

    ** What the theorems show

    A run's life.  [Lifecycle.status_write] is the specification: which writes of a BackupJob's
    status may be issued after what was read and done before.  [Refinement.reconcile_writes] is
    the simulation, handler by handler.  From it: phases move along the edges of a graph
    ([phase_moves]); a run starts only with the target's guard in hand, no restore reading from the
    machine, and its credentials, Job and Service set up ([start_guarded]); it succeeds only when every
    source has a complete sender and the target was told to finalize ([success_justified]).
    [guard_answer] says what holding the guard means, [finalizer_last] what a deleted run leaves,
    [restore_waits] when a restore may create anything, [history_prunes_exactly] which
    runs pruning the history deletes, [next_due] when a schedule is due.

    What a run copies.  [run_set_complete] says which sources are in a run set;
    [run_set_snapshot_destinations] that no two sources of a snapshot machine have the same destination, and
    [run_set_mirror_destinations] that on a mirror the destination of a source that deletes is neither above nor below
    another's (nothing keeps those of two sources of a snapshot machine in one namespace from being nested, and then
    one transfer can harm another: [nested_destinations_harm]); [run_set_order_independent] that the iteration order of Go's maps is not seen, [effective_agrees_with_dataplane] that the
    controllers and the data plane read a destination path in the same way.

    The target volume.  The invariant is [Retention.target]: a well-formed tree with no pending fault,
    whose tiers are directories or absent and whose link [latest] names a place for a
    snapshot.  [FinalizeBackup_promotes] gives the whole effect of a promotion,
    [FinalizeBackup_durable] says that retention does not take the new snapshot away,
    [FinalizeBackup_retry] that a promotion can be repeated, [FinalizeBackup_missing_source] when it is
    refused; the theorems on [ApplyRetention], [RecoverSpace], [CleanupStalePartials] and
    [ScanRestorePoints] say exactly what is removed or listed.  [restored_snapshot_inside] keeps a
    restore inside the target.  [lock_exclusive] is mutual exclusion of the lock file.

    Transfers.  [backup_job_arguments], [restore_job_arguments] and [sender_meets_receiver] say that the two
    planes mean the same by a Job's arguments; [transfer_header_roundtrip] and [header_read_exactly] that a receiver
    reads what a sender wrote, and nothing else.  [connection_reaches] says what a connection to a
    receiver can set off: rsync's daemon, on the directory of the sender that it proved to be, and no other call that
    changes the volume but the preparation of that directory.  [seed_from_latest] gives what a transfer starts from, [receiver_complete] when
    a receiver is done.  [completed_is_true], [failure_is_reported] and [target_waits_for] are the contract of
    serve-target with the control service, [transfer_is_told] that of the senders; [progress_by_line] and
    [summary_read_back] say what their statistics are.

    The control service.  [identity_roundtrip] and [server_authorizes] say who may speak for whom,
    [control_bundle_is_stored] that the replicas of the manager share one key pair.  [applier_follows] is a
    refinement: the statuses are the events of the hub, applied in order.  [hub_accounts],
    [hub_serial_order], [hub_replay] and
    [publish_never_blocks] for the hub, [commands_exactly_once] and [enqueue_idempotent] for the command
    log; the theorems on [ApplyTargetEventToBackupJob] and [ApplySourceEventToBackupJob] for the objects.

    The live API.  [api_only_reads] says that it writes nothing, [served_inside] that its files are below
    their root, [namespaced_path_roundtrip] which paths it takes, [listed_backups] what a list holds.

    Some theorems show behaviour the code hardly means: [resume_takes_no_guard], the interrupted copy
    of a tier ([FinalizeBackup_interrupted_copy]), publications that overtake each other
    ([hub_reordering]), an enqueuer that waits for ever ([enqueue_can_block_forever]), and the second
    case of [valid_machine_resolves]; in the data plane, nested destinations ([nested_destinations_harm]), a
    source path that leaves its volume ([a_source_outside_its_volume]), a destination path that becomes a
    setting of rsync's daemon ([a_destination_rewrites_the_configuration]), a transfer that is lost after its
    sender ended ([a_lost_transfer_blocks_the_target]), a sender that ends without a last event
    ([an_unnamed_target]); and in the live API the lists of all namespaces ([global_list_misses]).

    ** Bounds

    [filepath.WalkDir] recurses on fuel that [walk_fuel] takes from the tree: it exceeds the length of
    every path, and [LinkTree] proves that a walk does not run out of it.  A path follows at most
    forty symbolic links, as in Linux.  The loop of [nextDueSchedule] makes 10000 steps in the code;
    [next_due] shows that they are enough for the one day it looks back when the schedule has a resolution of a minute, and
    says what is due when they are not (an interval of a second).  [acquireTargetGuard] tries three
    times in the code, and so does its model; so it is with the attempts of
    [EnsureControlGRPCTLSSecret] and the fifty of [dialRsyncDaemon].
    The reader of JSON has twice the length of its text as fuel, which [json_terminates] shows to be enough.
    How often the library retries a write after a conflict is a parameter ([ConflictRetry]).  All other
    recursion is structural.  A number in the output of rsync is kept in the range of its type: the
    conversions of strconv saturate, and a float64 is a [spec_float] of 53 digits.

    ** Libraries

    Code outside src/ is a parameter: [Quantities] (resource.ParseQuantity), [Unstructured]
    (nested fields), [ControllerUtil] (finalizers and controller references), [TLSChecks]
    (certificates as the reconcilers see them), [Cron] (schedules; [next_is_later] is what is relied on of any, [schedule_law] of one of
    five fields), [NameChecks] (the Kubernetes
    name checks), [X509] (certificates and keys), [Authorities] (making them), [ConflictRetry] (client-go's
    retry), [FloatConversion] (decimal texts to float64), [RsyncTunnel] (rsync, with
    the calls of the system that start it; nothing is assumed of what it does to the volume),
    [TargetEnvironment] (what the control service and the machine answer serve-target).  Each
    has a concrete instance in [Cluster] or beside the theorems that need it.  What the
    reconciliation
    library does with the result of a failed Reconcile is its own: an error drops the requeue.

    ** Clocks

    A handler of [Events] reads the clock more than once in Go; its model reads it once.  The reconcilers
    ask for the time wherever the code does.

    ** Not modelled

    - What the rsync processes do, and the bytes that are copied between their connections and the TLS
      connections: input of the model, or the parameter [RsyncTunnel].
    - Making keys and certificates (certs.go of tlsutil) and the credentials objects of gRPC: crypto/x509 and
      libraries; who asks for a certificate, and for whom, is modelled.
    - The streams of gRPC, and net/http, the encoding of responses and the flushing of event streams under the live API.
    - The command manager, the wiring of the controllers and servers (manager.go, SetupWithManager), the
      listeners (Serve) and the timer loop of the scheduler: calls of controller-runtime and of Go's library
      that start what is modelled here.
    - The discovery of the snapshot API, a call of a library; the question for it is a request.
    - Registration of the metrics; log lines and usage texts.
    - Interleavings inside one process of the data plane: [ServeTarget] runs its receiver and the recovery of
      space one after the other, where the source may run them at once.  [Lock] follows the calls
      on the lock file when none of them fails; what becomes of a promotion that is interrupted is
      [FinalizeBackup_interrupted_copy], for the copy of a tier.
    - [Handler] takes the paths that are clean already: http.ServeMux redirects the others to their clean form.  [ServeFile]
      stands for a call of http.ServeFile, which refuses a path with [..] in it and redirects one that ends in
      index.html by itself.
    - encoding/json is used for one small object, the header of a transfer: [Wire] defines what its documentation says of
      reading ([json_value]) and writing one, so that headers can be evaluated.
    - Generated deep copies, the registration of types and CRDs, the web client, test harnesses. *)
From stdpp Require Export base tactics option list strings numbers sorting sets gmap.
From stdpp Require Import options.
From Stdlib Require Import Ascii.

(** Literals are read as strings, [++] stays list append, [+:+] is string append. *)
#[global] Open Scope stdpp_scope.
#[global] Open Scope Z_scope.
#[global] Open Scope list_scope.

Create HintDb krm.

(** ** Go errors

    A Go [error] as the source builds it: [errors.New] or an [fmt.Errorf]
    without a wrapped error, an error of the operating system with its kind
    (what [errors.Is(err, os.ErrNotExist)] looks at), and an [fmt.Errorf] whose
    [%w] verb wraps another error between two pieces of text. *)
Inductive errkind :=
  | KNotExist | KExist | KNotEmpty | KNotDir | KIsDir | KInvalid | KLoop
  | KNoSpace | KEOF | KIO | KClosed
  | KNotFound | KAlreadyExists | KConflict.

#[export] Instance errkind_eq_dec : EqDecision errkind.
Proof. solve_decision. Defined.

Inductive goerr :=
  | ErrNew (msg : string)
  | ErrSys (k : errkind) (msg : string)
  | ErrWrap (pre : string) (e : goerr) (post : string).

#[export] Instance goerr_eq_dec : EqDecision goerr.
Proof. solve_decision. Defined.

(** [err.Error()] *)
Fixpoint error_text (e : goerr) : string :=
  match e with
  | ErrNew m => m
  | ErrSys _ m => m
  | ErrWrap pre e post => pre +:+ error_text e +:+ post
  end.

(** [errors.Is(err, target)] for the sentinel errors of package os. *)
Fixpoint errors_is (k : errkind) (e : goerr) : bool :=
  match e with
  | ErrNew _ => false
  | ErrSys k' _ => bool_decide (k = k')
  | ErrWrap _ e _ => errors_is k e
  end.

(** [fmt.Errorf("pre: %w", e)] *)
Definition wrap (pre : string) (e : goerr) : goerr := ErrWrap pre e "".

(** ** Results of fallible functions *)
Inductive result (A : Type) :=
  | Ok (a : A)
  | Err (e : goerr).
Arguments Ok {A} _.
Arguments Err {A} _.

#[export] Instance result_eq_dec {A} `{EqDecision A} : EqDecision (result A).
Proof. solve_decision. Defined.

#[export] Instance result_ret : MRet result := λ A a, Ok a.
#[export] Instance result_bind : MBind result := λ A B f m,
  match m with Ok a => f a | Err e => Err e end.
#[export] Instance result_fmap : FMap result := λ A B f m,
  match m with Ok a => Ok (f a) | Err e => Err e end.

(** [if err != nil { return f(err) }] *)
Definition map_err {A} (f : goerr → goerr) (m : result A) : result A :=
  match m with Ok a => Ok a | Err e => Err (f e) end.

Definition is_ok {A} (m : result A) : bool :=
  match m with Ok _ => true | Err _ => false end.

Definition result_to_option {A} (m : result A) : option A :=
  match m with Ok a => Some a | Err _ => None end.

(** A loop that stops at the first error, [for _, x := range xs]. *)
Fixpoint for_each {A} (f : A → result unit) (xs : list A) : result unit :=
  match xs with
  | [] => Ok tt
  | x :: xs => _ ← f x; for_each f xs
  end.

(** A loop that appends one element per iteration and stops at the first error. *)
Fixpoint map_result {A B} (f : A → result B) (xs : list A) : result (list B) :=
  match xs with
  | [] => Ok []
  | x :: xs => y ← f x; ys ← map_result f xs; Ok (y :: ys)
  end.

(** ** Lemmas on results *)
Lemma bind_Ok {A B} (m : result A) (f : A → result B) b :
  m ≫= f = Ok b ↔ ∃ a, m = Ok a ∧ f a = Ok b.
Proof. destruct m; cbn; naive_solver. Qed.

Lemma bind_Err {A B} (m : result A) (f : A → result B) e :
  m ≫= f = Err e ↔ m = Err e ∨ ∃ a, m = Ok a ∧ f a = Err e.
Proof. destruct m; cbn; naive_solver. Qed.

Lemma map_err_Ok {A} f (m : result A) a : map_err f m = Ok a ↔ m = Ok a.
Proof. destruct m; naive_solver. Qed.

Lemma map_err_Err {A} f (m : result A) e :
  map_err f m = Err e ↔ ∃ e', m = Err e' ∧ e = f e'.
Proof. destruct m; naive_solver. Qed.

Lemma fmap_Ok {A B} (f : A → B) (m : result A) b :
  f <$> m = Ok b ↔ ∃ a, m = Ok a ∧ b = f a.
Proof. destruct m; cbn; naive_solver. Qed.

Lemma for_each_Ok {A} (f : A → result unit) xs :
  for_each f xs = Ok tt ↔ ∀ x, x ∈ xs → f x = Ok tt.
Proof.
  induction xs as [|x xs IH]; cbn.
  { split; [intros _ x Hx; by inversion Hx | done]. }
  destruct (f x) as [[]|e] eqn:Hx; cbn.
  - rewrite IH. set_solver.
  - split; [done|]. intros H. specialize (H x). rewrite Hx in H. set_solver.
Qed.

Lemma map_result_Ok {A B} (f : A → result B) xs ys :
  map_result f xs = Ok ys ↔ Forall2 (λ x y, f x = Ok y) xs ys.
Proof.
  revert ys. induction xs as [|x xs IH]; intros ys; cbn.
  { split; [by intros [= <-] | by inversion 1]. }
  rewrite bind_Ok. setoid_rewrite bind_Ok. setoid_rewrite IH. split.
  - intros (y & Hy & ys' & Hys & [= <-]). by constructor.
  - inversion 1; subst. eauto.
Qed.

Lemma is_ok_true {A} (m : result A) : is_ok m = true ↔ ∃ a, m = Ok a.
Proof. destruct m; naive_solver. Qed.

(** Splits a hypothesis [m ≫= f = Ok b] into its stages. *)
Ltac inv_ok :=
  repeat match goal with
  | H : mbind _ _ = Ok _ |- _ => apply bind_Ok in H as (? & ? & ?)
  | H : map_err _ _ = Ok _ |- _ => apply map_err_Ok in H
  | H : Ok _ = Ok _ |- _ => injection H as H; subst
  | H : Err _ = Ok _ |- _ => discriminate H
  | H : Ok _ = Err _ |- _ => discriminate H
  end.

(** Case analysis on the [decide] a hypothesis or the goal is stuck on. *)
Ltac caseD := repeat (case_decide; simplify_eq/=; try done).

(** ** Sorting

    [sort.Strings] and [sort.Slice]: the sorted permutation of the input.  Go's
    sort is not stable; every use in the source orders by a key that is unique
    among the elements or is stated with a tie-break, and the lemmas below say
    that the result then does not depend on the algorithm. *)
Definition sort_Strings (l : list string) : list string := merge_sort String.le l.

Definition sort_by {A} (R : relation A) `{!RelDecision R} (l : list A) : list A :=
  merge_sort R l.

Lemma sort_Strings_perm l : sort_Strings l ≡ₚ l.
Proof. apply merge_sort_Permutation. Qed.

Lemma sort_Strings_sorted l : StronglySorted String.le (sort_Strings l).
Proof. apply (StronglySorted_merge_sort _). Qed.

Lemma sort_Strings_unique l l' :
  l ≡ₚ l' → sort_Strings l = sort_Strings l'.
Proof.
  intros Hp. apply (StronglySorted_unique String.le).
  - apply sort_Strings_sorted.
  - apply sort_Strings_sorted.
  - by rewrite !sort_Strings_perm.
Qed.

Lemma sort_Strings_id l : StronglySorted String.le l → sort_Strings l = l.
Proof.
  intros Hs. apply (StronglySorted_unique String.le);
    auto using sort_Strings_sorted, sort_Strings_perm.
Qed.

Lemma elem_of_sort_Strings x l : x ∈ sort_Strings l ↔ x ∈ l.
Proof. by rewrite sort_Strings_perm. Qed.

Lemma length_sort_Strings l : length (sort_Strings l) = length l.
Proof. by rewrite sort_Strings_perm. Qed.

Lemma NoDup_sort_Strings l : NoDup l → NoDup (sort_Strings l).
Proof. by rewrite sort_Strings_perm. Qed.

(** A sort by a string key. *)
Definition key_le {A} (key : A → string) : relation A :=
  λ a b, String.le (key a) (key b).

#[export] Instance key_le_dec {A} (key : A → string) : RelDecision (key_le key).
Proof. intros a b. unfold key_le. apply _. Defined.

#[export] Instance key_le_total {A} (key : A → string) : Total (key_le key).
Proof. intros a b. apply (total String.le). Qed.

#[export] Instance key_le_trans {A} (key : A → string) : Transitive (key_le key).
Proof. intros a b c. unfold key_le. apply (transitivity (R := String.le)). Qed.

Definition sort_by_key {A} (key : A → string) (l : list A) : list A :=
  merge_sort (key_le key) l.

Lemma sort_by_key_perm {A} (key : A → string) l : sort_by_key key l ≡ₚ l.
Proof. apply merge_sort_Permutation. Qed.

Lemma sort_by_key_sorted {A} (key : A → string) l :
  StronglySorted (key_le key) (sort_by_key key l).
Proof. apply (StronglySorted_merge_sort _). Qed.

Lemma fmap_sort_by_key {A} (key : A → string) l :
  key <$> sort_by_key key l = sort_Strings (key <$> l).
Proof.
  apply (StronglySorted_unique String.le).
  - apply (StronglySorted_fmap key (key_le key) String.le); [done|].
    apply sort_by_key_sorted.
  - apply sort_Strings_sorted.
  - by rewrite sort_Strings_perm, sort_by_key_perm.
Qed.

(** Two lists with the same elements and distinct keys sort to the same list:
    the order a Go map is iterated in cannot be observed. *)
Lemma sort_by_key_unique {A} (key : A → string) l l' :
  NoDup (key <$> l) → l ≡ₚ l' → sort_by_key key l = sort_by_key key l'.
Proof.
  intros Hnd Hp. apply (StronglySorted_unique_strong (key_le key)).
  - intros x1 x2 H1 H2 Hle1 Hle2.
    rewrite sort_by_key_perm in H1. rewrite sort_by_key_perm, <-Hp in H2.
    assert (key x1 = key x2) as Hk by (by apply (anti_symm String.le)).
    apply list_elem_of_lookup_1 in H1 as [i Hi], H2 as [j Hj].
    assert (i = j) as ->; [|naive_solver].
    eapply NoDup_lookup; [exact Hnd| |]; rewrite list_lookup_fmap.
    + by rewrite Hi.
    + rewrite Hj. cbn. by rewrite Hk.
  - apply sort_by_key_sorted.
  - apply sort_by_key_sorted.
  - by rewrite !sort_by_key_perm.
Qed.

#[export] Hint Resolve sort_Strings_sorted sort_by_key_sorted sort_Strings_perm
  sort_by_key_perm : krm.
#[export] Hint Rewrite @bind_Ok @map_err_Ok @for_each_Ok elem_of_sort_Strings : krm.

(** ** Machine integers *)
Definition max_int64 : Z := 2 ^ 63 - 1.
Definition min_int64 : Z := - 2 ^ 63.
Definition max_uint64 : Z := 2 ^ 64 - 1.

(** Wrap-around of Go's [uint64], [int64] and [int32] arithmetic. *)
Definition wrap_u64 (z : Z) : Z := z `mod` 2 ^ 64.
Definition wrap_i64 (z : Z) : Z := (z + 2 ^ 63) `mod` 2 ^ 64 - 2 ^ 63.
Definition wrap_i32 (z : Z) : Z := (z + 2 ^ 31) `mod` 2 ^ 32 - 2 ^ 31.

Lemma wrap_u64_id z : 0 ≤ z ≤ max_uint64 → wrap_u64 z = z.
Proof. unfold max_uint64, wrap_u64. intros. apply Z.mod_small. lia. Qed.

Lemma wrap_u64_range z : 0 ≤ wrap_u64 z ≤ max_uint64.
Proof.
  unfold max_uint64, wrap_u64. pose proof (Z.mod_pos_bound z (2 ^ 64)). lia.
Qed.

Lemma wrap_u64_add_l x y : wrap_u64 (wrap_u64 x + y) = wrap_u64 (x + y).
Proof. apply Zplus_mod_idemp_l. Qed.

Lemma wrap_i64_id z : min_int64 ≤ z ≤ max_int64 → wrap_i64 z = z.
Proof.
  unfold min_int64, max_int64, wrap_i64. intros.
  rewrite Z.mod_small by lia. lia.
Qed.

Lemma wrap_i64_range z : min_int64 ≤ wrap_i64 z ≤ max_int64.
Proof.
  unfold min_int64, max_int64, wrap_i64.
  pose proof (Z.mod_pos_bound (z + 2 ^ 63) (2 ^ 64)). lia.
Qed.

Lemma wrap_i32_id z : - 2 ^ 31 ≤ z < 2 ^ 31 → wrap_i32 z = z.
Proof. unfold wrap_i32. intros. rewrite Z.mod_small by lia. lia. Qed.

#[export] Hint Resolve wrap_u64_range wrap_i64_range : krm.

(** ** Lists *)

(** The last element, [xs[len(xs)-1]]. *)
Definition last_or {A} (d : A) (l : list A) : A := default d (last l).

Lemma StronglySorted_last {A} (R : relation A) `{!Reflexive R} l x y :
  StronglySorted R l → last l = Some y → x ∈ l → R x y.
Proof.
  intros Hs Hl Hx. apply last_Some in Hl as [l' ->].
  apply elem_of_app in Hx as [Hx|Hx].
  - apply (StronglySorted_app_1_elem_of R l' [y]); [done|done|]. set_solver.
  - apply list_elem_of_singleton in Hx as ->. done.
Qed.

Lemma filter_all {A} (P : A → Prop) `{∀ x, Decision (P x)} (l : list A) :
  Forall P l → filter P l = l.
Proof. induction 1; [done|]. rewrite filter_cons_True by done. by f_equal. Qed.

Lemma filter_none {A} (P : A → Prop) `{∀ x, Decision (P x)} (l : list A) :
  Forall (λ x, ¬ P x) l → filter P l = [].
Proof. induction 1; [done|]. by rewrite filter_cons_False. Qed.

(** ** Record update

    [r <| f := v |>] is the record [r] with its field [f] set to [v], and
    [r <| f ::= g |>] with [g] applied to the field.  A record registers the
    function that rebuilds it from its projections as its [Eta]; the setter of
    a field abstracts that field's projection in it. *)
Class Eta (R : Type) := eta_expand : R → R.

Class Setter {R T : Type} (f : R → T) := update_field : (T → T) → R → R.
Arguments update_field {R T} f {_} _ _.

Ltac derive_setter :=
  lazymatch goal with
  | |- @Setter ?R ?T ?f =>
      let i := constr:(_ : Eta R) in
      let e := eval hnf in (@eta_expand R i) in
      let p := eval pattern f in e in
      lazymatch p with
      | ?k f => let s := eval cbv beta in (λ (g : T → T) (r : R), k (λ r, g (f r)) r) in exact s
      end
  end.
#[export] Hint Extern 1 (Setter _) => derive_setter : typeclass_instances.

Notation "r <| f := v |>" := (update_field f (λ _, v) r)
  (at level 1, f at next level, left associativity).
Notation "r <| f ::= g |>" := (update_field f g r)
  (at level 1, f at next level, left associativity).

(** A loop with an accumulator that stops at the first error. *)
Fixpoint fold_result {A B} (f : B → A → result B) (b : B) (l : list A) : result B :=
  match l with
  | [] => Ok b
  | x :: l => b ← f b x; fold_result f b l
  end.

(** The pairs [(l[i], l[j])] with [i < j], in the order of two nested loops. *)
Fixpoint pairs {A} (l : list A) : list (A * A) :=
  match l with
  | [] => []
  | x :: l => ((λ y, (x, y)) <$> l) ++ pairs l
  end.

Lemma fold_result_app {A B} (f : B → A → result B) b l1 l2 :
  fold_result f b (l1 ++ l2) = fold_result f b l1 ≫= λ b, fold_result f b l2.
Proof.
  revert b. induction l1 as [|x l1 IH]; intros b; cbn; [done|].
  destruct (f b x); cbn; auto.
Qed.

(** Rule for accumulator loops: an invariant indexed by the elements done so far. *)
Lemma fold_result_ind {A B} (f : B → A → result B) (P : list A → B → Prop) b0 :
  P [] b0 →
  (∀ done x b b', P done b → f b x = Ok b' → P (done ++ [x]) b') →
  ∀ l b, fold_result f b0 l = Ok b → P l b.
Proof.
  intros H0 Hstep l. induction l as [|x l IH] using rev_ind; cbn.
  { by intros b [= <-]. }
  intros b. rewrite fold_result_app, bind_Ok. intros (b' & Hl & Hx).
  cbn in Hx. rewrite bind_Ok in Hx. destruct Hx as (b'' & Hx & [= ->]). eauto.
Qed.

Lemma elem_of_pairs {A} (l : list A) x y :
  (x, y) ∈ pairs l ↔ ∃ i j, (i < j)%nat ∧ l !! i = Some x ∧ l !! j = Some y.
Proof.
  induction l as [|z l IH]; cbn.
  { split; [by intros ?%not_elem_of_nil|]. by intros (i & j & _ & ? & _). }
  rewrite elem_of_app, list_elem_of_fmap, IH. split.
  - intros [(y' & [= -> ->] & [j Hj]%list_elem_of_lookup)|(i & j & ? & ? & ?)].
    + exists 0%nat, (S j). split; [lia|done].
    + exists (S i), (S j). split; [lia|done].
  - intros (i & j & Hij & Hi & Hj). destruct j as [|j]; [lia|]. destruct i as [|i].
    + left. simplify_eq/=. eexists. split; [done|]. by eapply list_elem_of_lookup_2.
    + right. exists i, j. split; [lia|done].
Qed.

Lemma fold_result_total {A B} (f : B → A → result B) b l :
  (∀ x, x ∈ l → ∀ b, ∃ b', f b x = Ok b') → ∃ b', fold_result f b l = Ok b'.
Proof.
  revert b. induction l as [|x l IH]; intros b H; cbn; [eauto|].
  destruct (H x ltac:(set_solver) b) as [b' ->]. cbn. apply IH. set_solver.
Qed.

Lemma fold_result_steps {A B} (f : B → A → result B) b l b' :
  fold_result f b l = Ok b' → ∀ x, x ∈ l → ∃ b1 b2, f b1 x = Ok b2.
Proof.
  revert b. induction l as [|y l IH]; intros b; cbn; [set_solver|].
  rewrite bind_Ok. intros (b1 & Hy & Hl) x. rewrite elem_of_cons. intros [->|Hx]; eauto.
Qed.

Lemma omap_nil {A B} (f : A → option B) l : omap f l = [] ↔ ∀ x, x ∈ l → f x = None.
Proof.
  induction l as [|x l IH]; cbn; [set_solver|]. destruct (f x) eqn:Hx.
  - split; [done|]. intros H. specialize (H x ltac:(set_solver)). congruence.
  - rewrite IH. set_solver.
Qed.

Lemma exists_snoc {A} (P : A → Prop) l x :
  (∃ y, y ∈ l ++ [x] ∧ P y) ↔ (∃ y, y ∈ l ∧ P y) ∨ P x.
Proof. setoid_rewrite elem_of_app. setoid_rewrite list_elem_of_singleton. naive_solver. Qed.
