(* ===== verification/GoStrings.v ===== *)
(** * Go's [strings], [path] and [path/filepath] functions

    The parts of the standard library the source uses on strings: [Split],
    [Join], [HasPrefix], [Contains], [TrimSpace], [Quote], [Itoa], and the
    lexical path functions [path.Clean], [path.Join], [filepath.Rel].  Strings
    are byte strings, as in Go.  The lemmas are the library the components use:
    [Split] and [Join] are inverse, [Clean] and [Join] act on segment lists. *)
From stdpp Require Export pretty.
From S2P Require Export Prelude.
From stdpp Require Import options.
From Stdlib Require Import Ascii.

Definition slash : ascii := "/"%char.

(** ** Elementary functions *)

(** [strings.Contains(s, c)] for a one-byte [c]. *)
Fixpoint ContainsByte (s : string) (c : ascii) : bool :=
  match s with
  | EmptyString => false
  | String a s => bool_decide (a = c) || ContainsByte s c
  end.

(** [strings.ContainsAny(s, chars)] for ASCII [chars]. *)
Fixpoint ContainsAny (s : string) (chars : string) : bool :=
  match chars with
  | EmptyString => false
  | String c chars => ContainsByte s c || ContainsAny s chars
  end.

Fixpoint HasPrefix (s p : string) : bool :=
  match p, s with
  | EmptyString, _ => true
  | String _ _, EmptyString => false
  | String a p, String b s => bool_decide (a = b) && HasPrefix s p
  end.

Fixpoint drop_str (n : nat) (s : string) : string :=
  match n, s with
  | O, _ => s
  | S n, String _ s => drop_str n s
  | S _, EmptyString => EmptyString
  end.

Fixpoint take_str (n : nat) (s : string) : string :=
  match n, s with
  | O, _ => EmptyString
  | S n, String a s => String a (take_str n s)
  | S _, EmptyString => EmptyString
  end.

Definition TrimPrefix (s p : string) : string :=
  if HasPrefix s p then drop_str (String.length p) s else s.

Definition HasSuffix (s p : string) : bool :=
  HasPrefix (String.rev s) (String.rev p).

Definition TrimSuffix (s p : string) : string :=
  if HasSuffix s p
  then take_str (String.length s - String.length p) s else s.

(** [strings.Contains(s, sub)]. *)
Fixpoint Contains (s sub : string) : bool :=
  HasPrefix s sub ||
  match s with EmptyString => false | String _ s => Contains s sub end.

(** [strings.Split(s, c)] for a one-byte separator. *)
Fixpoint Split (s : string) (c : ascii) : list string :=
  match s with
  | EmptyString => [""]
  | String a s =>
      if decide (a = c) then "" :: Split s c
      else match Split s c with
           | p :: ps => String a p :: ps
           | [] => [String a ""]
           end
  end.

(** [strings.Join(l, sep)]. *)
Fixpoint strings_Join (l : list string) (sep : string) : string :=
  match l with
  | [] => ""
  | [x] => x
  | x :: l => x +:+ sep +:+ strings_Join l sep
  end.

(** [strings.Cut(s, c)] for a one-byte separator: before, after, found. *)
Fixpoint Cut (s : string) (c : ascii) : option (string * string) :=
  match s with
  | EmptyString => None
  | String a s =>
      if decide (a = c) then Some ("", s)
      else '(b, t) ← Cut s c; Some (String a b, t)
  end.

(** [strings.SplitN(s, c, 2)]. *)
Definition SplitN2 (s : string) (c : ascii) : list string :=
  match Cut s c with Some (a, b) => [a; b] | None => [s] end.

(** ** White space and trimming *)

Definition byte (n : nat) : string := String (ascii_of_nat n) "".
Definition bytes (l : list nat) : string :=
  foldr (λ n s, String (ascii_of_nat n) s) "" l.

(** The UTF-8 encodings of the characters [unicode.IsSpace] accepts. *)
Definition space_encodings : list string :=
  (byte <$> [9; 10; 11; 12; 13; 32]%nat) ++
  (bytes <$> [[194; 133]; [194; 160]; [225; 154; 128];
    [226; 128; 128]; [226; 128; 129]; [226; 128; 130]; [226; 128; 131];
    [226; 128; 132]; [226; 128; 133]; [226; 128; 134]; [226; 128; 135];
    [226; 128; 136]; [226; 128; 137]; [226; 128; 138];
    [226; 128; 168]; [226; 128; 169]; [226; 128; 175];
    [226; 129; 159]; [227; 128; 128]]%nat).

(** Drops, at most [fuel] times, one of the [encs] at the front. *)
Fixpoint trim_front (fuel : nat) (encs : list string) (s : string) : string :=
  match fuel with
  | O => s
  | S fuel =>
      match list_find (λ e, HasPrefix s e = true) encs with
      | Some (_, e) => trim_front fuel encs (drop_str (String.length e) s)
      | None => s
      end
  end.

Definition TrimLeftSpace (s : string) : string :=
  trim_front (String.length s) space_encodings s.

Definition TrimRightSpace (s : string) : string :=
  String.rev (trim_front (String.length s) (String.rev <$> space_encodings) (String.rev s)).

Definition TrimSpace (s : string) : string := TrimRightSpace (TrimLeftSpace s).

(** [strings.Trim(s, cutset)] for an ASCII cutset. *)
Definition singletons (cutset : string) : list string :=
  (λ a, String a "") <$> String.list_ascii_of_string cutset.

Definition TrimLeft (s cutset : string) : string :=
  trim_front (String.length s) (singletons cutset) s.

Definition TrimRight (s cutset : string) : string :=
  String.rev (trim_front (String.length s) (singletons cutset) (String.rev s)).

Definition Trim (s cutset : string) : string := TrimRight (TrimLeft s cutset) cutset.

(** ** Quoting and decimals *)

Definition dquote : string := byte 34.
Definition newline : string := byte 10.
Definition nul : string := byte 0.

Definition hex_digit (n : nat) : ascii :=
  if decide (n < 10)%nat then ascii_of_nat (48 + n) else ascii_of_nat (87 + n).

(** One byte of [strconv.Quote]; bytes from 128 up are kept, which is what Go
    does with a printable UTF-8 character. *)
Definition quote_byte (a : ascii) : string :=
  match nat_of_ascii a with
  | 34%nat => bytes [92; 34]%nat
  | 92%nat => bytes [92; 92]%nat
  | 7%nat => bytes [92; 97]%nat
  | 8%nat => bytes [92; 98]%nat
  | 9%nat => bytes [92; 116]%nat
  | 10%nat => bytes [92; 110]%nat
  | 11%nat => bytes [92; 118]%nat
  | 12%nat => bytes [92; 102]%nat
  | 13%nat => bytes [92; 114]%nat
  | n =>
      if decide (n < 32 ∨ n = 127)%nat
      then bytes [92; 120]%nat +:+
           String (hex_digit (n / 16)) (String (hex_digit (n mod 16)) "")
      else String a ""
  end.

Fixpoint quote_bytes (s : string) : string :=
  match s with
  | EmptyString => ""
  | String a s => quote_byte a +:+ quote_bytes s
  end.

(** [fmt.Sprintf("%q", s)]. *)
Definition Quote (s : string) : string := dquote +:+ quote_bytes s +:+ dquote.

(** [strconv.Itoa], [strconv.FormatInt(_, 10)]. *)
Definition Itoa (z : Z) : string := pretty z.

Definition digit_val (a : ascii) : option Z :=
  let n := Z.of_nat (nat_of_ascii a) in
  if decide (48 ≤ n ≤ 57) then Some (n - 48) else None.

(** A non-empty string of decimal digits, as a number. *)
Fixpoint parse_digits_acc (acc : Z) (s : string) : option Z :=
  match s with
  | EmptyString => Some acc
  | String a s => d ← digit_val a; parse_digits_acc (10 * acc + d) s
  end.
Definition parse_digits (s : string) : option Z :=
  if decide (s = "") then None else parse_digits_acc 0 s.

(** [strconv.Atoi]: an optional sign, digits, and the range of [int]. *)
Definition Atoi (s : string) : option Z :=
  let '(neg, t) := match s with
    | String "-" t => (true, t)
    | String "+" t => (false, t)
    | _ => (false, s)
    end in
  n ← parse_digits t;
  let z := if (neg : bool) then - n else n in
  if decide (min_int64 ≤ z ≤ max_int64) then Some z else None.

(** [strconv.ParseUint(s, 10, 64)]: digits only, and the range of [uint64]. *)
Definition ParseUint (s : string) : option Z :=
  n ← parse_digits s; if decide (n ≤ max_uint64) then Some n else None.

(** ** Lexical paths *)

Definition IsAbs (p : string) : bool := HasPrefix p "/".

(** The segment stack of [path.Clean], most recent segment first. *)
Fixpoint clean_segs (rooted : bool) (acc : list string) (segs : list string) : list string :=
  match segs with
  | [] => reverse acc
  | seg :: segs =>
      if decide (seg = "" ∨ seg = ".") then clean_segs rooted acc segs
      else if decide (seg = "..") then
        match acc with
        | [] => clean_segs rooted (if rooted then [] else [".."]) segs
        | top :: acc' =>
            if decide (top = "..") then clean_segs rooted (".." :: acc) segs
            else clean_segs rooted acc' segs
        end
      else clean_segs rooted (seg :: acc) segs
  end.

(** [path.Clean], and [filepath.Clean] on Linux. *)
Definition Clean (p : string) : string :=
  if decide (p = "") then "."
  else
    let body := strings_Join (clean_segs (IsAbs p) [] (Split p slash)) "/" in
    if IsAbs p then "/" +:+ body else if decide (body = "") then "." else body.

(** [path.Join] and [filepath.Join] on Linux. *)
Definition path_Join (elems : list string) : string :=
  let elems := filter (λ e, e ≠ "") elems in
  if decide (elems = []) then "" else Clean (strings_Join elems "/").

(** The segments of a cleaned path, without the root. *)
Definition rel_segs (p : string) : list string :=
  filter (λ e, e ≠ "" ∧ e ≠ ".") (Split p slash).

Fixpoint strip_common (b t : list string) : list string * list string :=
  match b, t with
  | x :: b', y :: t' => if decide (x = y) then strip_common b' t' else (b, t)
  | _, _ => (b, t)
  end.

(** [filepath.Rel] on Linux. *)
Definition Rel (basepath targpath : string) : result string :=
  let base := Clean basepath in
  let targ := Clean targpath in
  if decide (targ = base) then Ok "."
  else
    let cannot := ErrNew ("Rel: can't make " +:+ targpath +:+ " relative to " +:+ basepath) in
    if negb (bool_decide (IsAbs base = IsAbs targ)) then Err cannot
    else
      let '(b, t) := strip_common (rel_segs base) (rel_segs targ) in
      match b with
      | ".." :: _ => Err cannot
      | _ => Ok (strings_Join (((λ _, "..") <$> b) ++ t) "/")
      end.

(** ** String append *)
Lemma str_app_cons a s t : String a s +:+ t = String a (s +:+ t).
Proof. done. Qed.
Lemma str_app_nil_l s : "" +:+ s = s.
Proof. done. Qed.
Lemma str_app_nil_r s : s +:+ "" = s.
Proof. induction s; rewrite ?str_app_cons; by f_equal. Qed.
Lemma str_app_assoc s t u : (s +:+ t) +:+ u = s +:+ t +:+ u.
Proof. induction s; rewrite ?str_app_nil_l, ?str_app_cons; by f_equal. Qed.
Lemma length_app_str s t : String.length (s +:+ t) = (String.length s + String.length t)%nat.
Proof. induction s; rewrite ?str_app_nil_l, ?str_app_cons; cbn; auto. Qed.
Lemma str_app_eq_nil s t : s +:+ t = "" ↔ s = "" ∧ t = "".
Proof. destruct s; [rewrite str_app_nil_l|rewrite str_app_cons]; naive_solver. Qed.

#[export] Hint Rewrite str_app_cons str_app_nil_l str_app_nil_r str_app_assoc : str.

(** ** Bytes of a string *)
Lemma ContainsByte_app s t c :
  ContainsByte (s +:+ t) c = ContainsByte s c || ContainsByte t c.
Proof.
  induction s as [|a s IH]; [done|]. rewrite str_app_cons. cbn. rewrite IH. apply orb_assoc.
Qed.

(** ** Prefixes *)
Lemma HasPrefix_spec s p : HasPrefix s p = true ↔ ∃ t, s = p +:+ t.
Proof.
  revert s. induction p as [|a p IH]; intros s; cbn.
  { split; [intros _; by exists s | by destruct s]. }
  destruct s as [|b s]; cbn; [split; [done|by intros [t [=]]]|].
  rewrite andb_true_iff, bool_decide_eq_true, IH. setoid_rewrite str_app_cons. naive_solver.
Qed.

Lemma HasPrefix_refl s : HasPrefix s s = true.
Proof. apply HasPrefix_spec. exists "". by rewrite str_app_nil_r. Qed.

Lemma HasPrefix_app p s : HasPrefix (p +:+ s) p = true.
Proof. apply HasPrefix_spec. eauto. Qed.

Lemma HasPrefix_nil s : HasPrefix s "" = true.
Proof. by destruct s. Qed.

Lemma HasPrefix_trans s p q : HasPrefix s p = true → HasPrefix p q = true → HasPrefix s q = true.
Proof.
  rewrite !HasPrefix_spec. intros [t ->] [u ->]. exists (u +:+ t). apply str_app_assoc.
Qed.

Lemma HasPrefix_cons_slash s : HasPrefix s "/" = true ↔ ∃ t, s = String slash t.
Proof. rewrite HasPrefix_spec. done. Qed.

Lemma HasPrefix_slash_app x y :
  x ≠ "" → HasPrefix (x +:+ y) "/" = HasPrefix x "/".
Proof. destruct x as [|a x]; [done|]. intros _. rewrite str_app_cons. by destruct x, y. Qed.

(** ** Split and strings_Join *)
Lemma Split_nonempty s c : Split s c ≠ [].
Proof. induction s; cbn; [done|]. repeat case_match; done. Qed.

Lemma Split_none s c : ContainsByte s c = false → Split s c = [s].
Proof.
  induction s as [|a s IH]; cbn; [done|].
  rewrite orb_false_iff, bool_decide_eq_false. intros [Ha Hs].
  rewrite decide_False by done. by rewrite IH.
Qed.

Lemma Split_sep b c : Split (String c b) c = "" :: Split b c.
Proof. cbn. by rewrite decide_True. Qed.

Lemma Split_abs x : Split ("/" +:+ x) slash = "" :: Split x slash.
Proof. rewrite str_app_cons, str_app_nil_l. apply Split_sep. Qed.

Lemma Split_app a b c :
  ContainsByte a c = false → Split (a +:+ String c b) c = a :: Split b c.
Proof.
  induction a as [|x a IH]; cbn.
  - intros _. rewrite str_app_nil_l. cbn. by rewrite decide_True.
  - rewrite orb_false_iff, bool_decide_eq_false. intros [Hx Ha].
    rewrite str_app_cons. cbn. rewrite decide_False by done. by rewrite IH.
Qed.

Lemma Split_parts s c p : p ∈ Split s c → ContainsByte p c = false.
Proof.
  revert p. induction s as [|a s IH]; intros p; cbn.
  { by intros ->%list_elem_of_singleton. }
  case_decide.
  - rewrite elem_of_cons. intros [->|?]; auto.
  - destruct (Split s c) as [|q qs] eqn:Hs; [by apply Split_nonempty in Hs|].
    rewrite elem_of_cons. intros [->|?]; [|apply IH; set_solver].
    cbn. rewrite bool_decide_false by done. apply IH. set_solver.
Qed.

Lemma Join_cons x l sep : l ≠ [] → strings_Join (x :: l) sep = x +:+ sep +:+ strings_Join l sep.
Proof. by destruct l. Qed.

Lemma Join_Split s c : strings_Join (Split s c) (String c "") = s.
Proof.
  induction s as [|a s IH]; [done|]. cbn [Split]. case_decide as Ha.
  - subst. rewrite Join_cons by apply Split_nonempty. by rewrite IH.
  - destruct (Split s c) as [|p [|q qs]] eqn:Hs; [by apply Split_nonempty in Hs|..].
    + cbn in *. by subst.
    + cbn [strings_Join] in *. rewrite str_app_cons. by f_equal.
Qed.

Lemma Split_Join l c :
  l ≠ [] → Forall (λ p, ContainsByte p c = false) l → Split (strings_Join l (String c "")) c = l.
Proof.
  intros Hl Hf. revert Hl. induction Hf as [|p l Hp Hf IH]; [done|]. intros _.
  destruct l as [|q l]; [by apply Split_none|].
  rewrite Join_cons by done. rewrite str_app_cons, str_app_nil_l, Split_app by done. by rewrite IH.
Qed.

Lemma Join_app l1 l2 sep :
  l1 ≠ [] → l2 ≠ [] → strings_Join (l1 ++ l2) sep = strings_Join l1 sep +:+ sep +:+ strings_Join l2 sep.
Proof.
  intros H1 H2. induction l1 as [|x [|y l1] IH]; [done|..].
  - cbn [app]. by rewrite Join_cons.
  - cbn [app] in *. rewrite !(Join_cons x) by done. rewrite IH by done. by rewrite !str_app_assoc.
Qed.

Lemma Join_inj l1 l2 c :
  l1 ≠ [] → l2 ≠ [] →
  Forall (λ p, ContainsByte p c = false) l1 → Forall (λ p, ContainsByte p c = false) l2 →
  strings_Join l1 (String c "") = strings_Join l2 (String c "") → l1 = l2.
Proof. intros. rewrite <-(Split_Join l1 c), <-(Split_Join l2 c) by done. by f_equal. Qed.

(** ** Cut *)
Lemma Cut_spec s c a b :
  Cut s c = Some (a, b) ↔ s = a +:+ String c b ∧ ContainsByte a c = false.
Proof.
  revert a. induction s as [|x s IH]; intros a; cbn.
  { split; [discriminate|]. intros [H _]. destruct a; [rewrite str_app_nil_l in H|rewrite str_app_cons in H]; discriminate H. }
  case_decide as Hx.
  - subst. split; [by intros [= <- <-]|]. intros [H Ha].
    destruct a as [|y a]; [rewrite str_app_nil_l in H; by simplify_eq|].
    rewrite str_app_cons in H. simplify_eq/=. by rewrite bool_decide_true in Ha.
  - rewrite bind_Some. split.
    + intros ([a' b'] & Hc & [= <- <-]). apply IH in Hc as [-> Hn].
      rewrite str_app_cons. split; [done|]. cbn. by rewrite bool_decide_false.
    + intros [H Ha]. destruct a as [|y a]; [rewrite str_app_nil_l in H; simplify_eq|].
      rewrite str_app_cons in H. simplify_eq/=. apply orb_false_iff in Ha as [_ Ha].
      exists (a, b). split; [by apply IH|done].
Qed.

Lemma Cut_app a b c : ContainsByte a c = false → Cut (a +:+ String c b) c = Some (a, b).
Proof. intros. by apply Cut_spec. Qed.

(** ** Path segments *)

(** A segment that [path.Clean] keeps as it is. *)
Definition plain_seg (p : string) : Prop :=
  p ≠ "" ∧ p ≠ "." ∧ p ≠ ".." ∧ ContainsByte p slash = false.

#[export] Instance plain_seg_dec p : Decision (plain_seg p).
Proof. unfold plain_seg. apply _. Defined.

Lemma plain_seg_nil_app p : plain_seg p → p ≠ "".
Proof. by intros []. Qed.

Lemma clean_segs_plain rooted acc segs :
  Forall plain_seg segs → clean_segs rooted acc segs = reverse acc ++ segs.
Proof.
  intros H. revert acc. induction H as [|p segs (Hp1 & Hp2 & Hp3 & _) Hs IH]; intros acc; cbn.
  { by rewrite (right_id_L [] (++)). }
  rewrite decide_False by naive_solver. rewrite decide_False by done.
  rewrite IH, reverse_cons. by rewrite <-(assoc_L (++)).
Qed.

Lemma Forall_plain_noslash segs :
  Forall plain_seg segs → Forall (λ p, ContainsByte p slash = false) segs.
Proof. intros H. eapply Forall_impl; [exact H|]. by intros ? (?&?&?&?). Qed.

Lemma Join_plain_nonempty segs : segs ≠ [] → Forall plain_seg segs → strings_Join segs "/" ≠ "".
Proof.
  intros Hn H. destruct H as [|p segs (Hp & _) Hs]; [done|].
  destruct segs; [done|]. rewrite Join_cons by done. rewrite str_app_eq_nil. naive_solver.
Qed.

Lemma Join_plain_rel segs : Forall plain_seg segs → IsAbs (strings_Join segs "/") = false.
Proof.
  intros H. destruct H as [|p segs (Hp & _ & _ & Hs) _]; [done|].
  destruct p as [|a p]; [done|]. cbn in Hs.
  apply orb_false_iff in Hs as [Ha%bool_decide_eq_false _].
  assert (IsAbs (strings_Join (String a p :: segs) "/") = bool_decide (slash = a)) as ->.
  { assert (∃ t, strings_Join (String a p :: segs) "/" = String a t) as [t ->].
    { destruct segs; [by exists p|]. rewrite Join_cons, str_app_cons by done. eauto. }
    unfold IsAbs. cbn. by rewrite HasPrefix_nil, andb_true_r. }
  by rewrite bool_decide_false.
Qed.

Lemma Split_Join_plain segs :
  segs ≠ [] → Forall plain_seg segs → Split (strings_Join segs "/") slash = segs.
Proof. intros. apply (Split_Join segs slash); auto using Forall_plain_noslash. Qed.

(** [path.Clean] leaves a plain relative path alone. *)
Lemma Clean_plain segs :
  segs ≠ [] → Forall plain_seg segs → Clean (strings_Join segs "/") = strings_Join segs "/".
Proof.
  intros Hn Hp. unfold Clean.
  rewrite decide_False by (by apply Join_plain_nonempty).
  rewrite (Join_plain_rel segs Hp), Split_Join_plain, clean_segs_plain by done.
  cbn. rewrite decide_False; [done|]. by apply Join_plain_nonempty.
Qed.

Lemma Clean_plain_abs segs :
  Forall plain_seg segs → Clean ("/" +:+ strings_Join segs "/") = "/" +:+ strings_Join segs "/".
Proof.
  intros Hp. unfold Clean. rewrite decide_False by (by rewrite str_app_eq_nil; naive_solver).
  assert (IsAbs ("/" +:+ strings_Join segs "/") = true) as -> by apply (HasPrefix_app "/").
  f_equal. f_equal. rewrite Split_abs.
  destruct (decide (segs = [])) as [->|Hn]; [done|]. rewrite Split_Join_plain by done.
  cbn. by rewrite clean_segs_plain.
Qed.
