(* ===== verification/Text.v ===== *)
(** * Text: byte classes and the functions of package strings that work by character

    Classes of bytes and what is spanned by them, case, fields, replacement; with
    [GoStrings] these are the texts the data plane reads: URIs, flags, the output of rsync. *)
From S2P Require Export GoStrings.
From stdpp Require Import options.
From Stdlib Require Import Ascii.

(** ** Classes of bytes *)

Definition byte_in (lo hi : nat) (c : ascii) : bool := bool_decide (lo ≤ nat_of_ascii c ≤ hi)%nat.

Definition is_letter (c : ascii) : bool :=
  let n := nat_of_ascii c in bool_decide (97 ≤ n ≤ 122 ∨ 65 ≤ n ≤ 90)%nat.
Definition is_digit (c : ascii) : bool :=
  let n := nat_of_ascii c in bool_decide (48 ≤ n ≤ 57)%nat.

Definition lower (c : ascii) : ascii :=
  let n := nat_of_ascii c in if decide (65 ≤ n ≤ 90)%nat then ascii_of_nat (n + 32) else c.

Fixpoint ascii_lower (s : string) : string :=
  match s with EmptyString => "" | String c s => String (lower c) (ascii_lower s) end.

(** The text before and after the last [c]. *)
Fixpoint CutLast (s : string) (c : ascii) : option (string * string) :=
  match s with
  | EmptyString => None
  | String a t =>
      match CutLast t c with
      | Some (b, e) => Some (String a b, e)
      | None => if decide (a = c) then Some ("", t) else None
      end
  end.

Fixpoint all_bytes (P : ascii → bool) (s : string) : bool :=
  match s with EmptyString => true | String c s => P c && all_bytes P s end.

(** The longest prefix of bytes of a class, and the rest. *)
Fixpoint span_bytes (P : ascii → bool) (s : string) : string * string :=
  match s with
  | EmptyString => ("", "")
  | String c s' =>
      if P c then let '(a, b) := span_bytes P s' in (String c a, b) else ("", s)
  end.

(** A byte of the class does not start the text. *)
Definition stops (P : ascii → bool) (s : string) : Prop :=
  match s with String c _ => P c = false | EmptyString => True end.

(** [strings.ReplaceAll(s, old, new)] for one byte [old]. *)
Fixpoint ReplaceByte (s : string) (old : ascii) (new : string) : string :=
  match s with
  | EmptyString => ""
  | String c s => (if decide (c = old) then new else String c "") +:+ ReplaceByte s old new
  end.

Definition upper (c : ascii) : ascii := if byte_in 97 122 c then ascii_of_nat (nat_of_ascii c - 32) else c.

(** [strings.ToUpper] of an ASCII text. *)
Fixpoint ToUpper (s : string) : string :=
  match s with EmptyString => "" | String c s => String (upper c) (ToUpper s) end.

(** ** [strings.Fields] *)

(** What follows a character of white space. *)
Definition after_space (s : string) : option string :=
  match list_find (λ e, HasPrefix s e = true) space_encodings with
  | Some (_, e) => Some (drop_str (String.length e) s)
  | None => None
  end.

(** [word] is the field that is being read. *)
Fixpoint fields_in (fuel : nat) (word s : string) : list string :=
  match fuel with
  | O => []
  | S fuel =>
      let ended := if decide (word = "") then [] else [word] in
      match after_space s with
      | Some rest => ended ++ fields_in fuel "" rest
      | None =>
          match s with
          | EmptyString => ended
          | String c rest => fields_in fuel (word +:+ String c "") rest
          end
      end
  end.

Definition Fields (s : string) : list string := fields_in (S (String.length s)) "" s.

(** ** Laws *)

Lemma all_bytes_app P s t : all_bytes P (s +:+ t) = all_bytes P s && all_bytes P t.
Proof. induction s as [|c s IH]; [done|]. rewrite str_app_cons. cbn [all_bytes]. rewrite IH. apply andb_assoc. Qed.

Lemma all_bytes_mono (P Q : ascii → bool) s :
  (∀ c, P c = true → Q c = true) → all_bytes P s = true → all_bytes Q s = true.
Proof. intros H. induction s as [|c s IH]; [done|]. cbn. rewrite !andb_true_iff. naive_solver. Qed.

Lemma all_bytes_Contains (P : ascii → bool) s c : all_bytes P s = true → P c = false → ContainsByte s c = false.
Proof.
  intros Hs Hc. induction s as [|a s IH]; [done|]. cbn in Hs |- *. apply andb_true_iff in Hs as [Ha Hs].
  rewrite IH by done. rewrite bool_decide_false; [done|]. intros ->. congruence.
Qed.

Lemma take_str_app a b : take_str (String.length a) (a +:+ b) = a.
Proof. induction a as [|c a IH]; [by destruct b|]. rewrite str_app_cons. cbn. by rewrite IH. Qed.

Lemma drop_str_after a b : drop_str (String.length a) (a +:+ b) = b.
Proof. induction a as [|c a IH]; [by destruct b|]. rewrite str_app_cons. cbn. by rewrite IH. Qed.

Lemma TrimPrefix_app p s : TrimPrefix (p +:+ s) p = s.
Proof. unfold TrimPrefix. by rewrite HasPrefix_app, drop_str_after. Qed.

Lemma span_bytes_app P a s : all_bytes P a = true → stops P s → span_bytes P (a +:+ s) = (a, s).
Proof.
  intros Ha Hs. induction a as [|c a IH].
  - rewrite str_app_nil_l. destruct s as [|d s]; [done|]. cbn in Hs |- *. by rewrite Hs.
  - cbn in Ha. apply andb_true_iff in Ha as [Hc Ha]. rewrite str_app_cons. cbn. rewrite Hc. by rewrite IH.
Qed.

Lemma span_bytes_spec P s :
  s = (span_bytes P s).1 +:+ (span_bytes P s).2 ∧ all_bytes P (span_bytes P s).1 = true ∧ stops P (span_bytes P s).2.
Proof.
  induction s as [|c s IH]; [done|]. cbn. destruct (P c) eqn:Hc; [|done].
  destruct (span_bytes P s) as [a b]. cbn in IH |- *. destruct IH as (Hs & Ha & Hb).
  rewrite Hc, Ha. rewrite str_app_cons. split; [by f_equal|done].
Qed.

Lemma ReplaceByte_app s t old new : ReplaceByte (s +:+ t) old new = ReplaceByte s old new +:+ ReplaceByte t old new.
Proof. induction s as [|c s IH]; [done|]. rewrite str_app_cons. cbn [ReplaceByte]. by rewrite IH, str_app_assoc. Qed.

Lemma ReplaceByte_absent s old new : ContainsByte s old = false → ReplaceByte s old new = s.
Proof.
  induction s as [|c s IH]; [done|]. cbn. intros Hc. apply orb_false_iff in Hc as [Hc Hs].
  apply bool_decide_eq_false in Hc. rewrite decide_False by done. rewrite IH by done.
  by rewrite str_app_cons, str_app_nil_l.
Qed.

(** A word without white space is one field. *)
Definition word_byte (c : ascii) : bool := negb (bool_decide (nat_of_ascii c ∈ [9; 10; 11; 12; 13; 32]%nat)) && byte_in 0 127 c.

(** ** Decimals *)

Lemma digit_val_pretty x : (x < 10)%N → digit_val (pretty.pretty_N_char x) = Some (Z.of_N x).
Proof.
  intros Hx. assert (x = 0 ∨ x = 1 ∨ x = 2 ∨ x = 3 ∨ x = 4 ∨ x = 5 ∨ x = 6 ∨ x = 7 ∨ x = 8 ∨ x = 9)%N as Hc by lia.
  destruct_or! Hc; subst; by vm_compute.
Qed.

Lemma parse_pretty_go x s : parse_digits_acc 0 (pretty.pretty_N_go x s) = parse_digits_acc (Z.of_N x) s.
Proof.
  revert s. induction (N.lt_wf_0 x) as [x _ IH]; intros s. destruct (decide (0 < x)%N) as [Hx|Hx].
  - rewrite pretty.pretty_N_go_step by done. rewrite IH by (apply N.div_lt; lia). cbn [parse_digits_acc].
    rewrite digit_val_pretty by (apply N.mod_lt; lia). cbn [mbind option_bind]. f_equal.
    pose proof (N.div_mod x 10 ltac:(done)). lia.
  - assert (x = 0)%N as -> by lia. by rewrite pretty.pretty_N_go_0.
Qed.

Lemma pretty_go_nonempty x s : s ≠ "" → pretty.pretty_N_go x s ≠ "".
Proof.
  revert s. induction (N.lt_wf_0 x) as [x _ IH]; intros s Hs. destruct (decide (0 < x)%N) as [Hx|Hx].
  - rewrite pretty.pretty_N_go_step by done. apply IH; [apply N.div_lt; lia|done].
  - assert (x = 0)%N as -> by lia. by rewrite pretty.pretty_N_go_0.
Qed.

(** The decimal of a positive number does not start with a zero. *)
Definition leading_digit (c : ascii) : bool := byte_in 49 57 c.

Lemma pretty_go_digits x s : (0 < x)%N → ∃ c t, pretty.pretty_N_go x s = String c t +:+ s ∧
  leading_digit c = true ∧ all_bytes is_digit t = true.
Proof.
  revert s. induction (N.lt_wf_0 x) as [x _ IH]; intros s Hx.
  rewrite pretty.pretty_N_go_step by done. set (c := pretty.pretty_N_char (x `mod` 10)).
  assert (x `mod` 10 < 10)%N as Hm by (apply N.mod_lt; lia).
  destruct (decide (0 < x `div` 10)%N) as [Hd|Hd].
  - destruct (IH (x `div` 10)%N ltac:(apply N.div_lt; lia) (String c s) Hd) as (d & t & Hp & Hdig & Ht).
    exists d, (t +:+ String c ""). rewrite Hp. split; [|split; [done|]].
    + by rewrite !str_app_cons, str_app_assoc, str_app_cons, str_app_nil_l.
    + rewrite all_bytes_app, Ht. subst c.
      assert (∀ y, (y < 10)%N → is_digit (pretty.pretty_N_char y) = true) as Hall; [|cbn; by rewrite Hall].
      intros y Hy. assert (y = 0 ∨ y = 1 ∨ y = 2 ∨ y = 3 ∨ y = 4 ∨ y = 5 ∨ y = 6 ∨ y = 7 ∨ y = 8 ∨ y = 9)%N as Hc by lia.
      destruct_or! Hc; subst; by vm_compute.
  - assert (x `div` 10 = 0)%N as -> by (apply N.le_0_r, N.nlt_ge, Hd). rewrite pretty.pretty_N_go_0. exists c, "".
    split; [by rewrite str_app_cons, str_app_nil_l|]. split; [|done]. subst c.
    pose proof (N.div_mod x 10 ltac:(done)).
    assert (∀ y, (0 < y < 10)%N → leading_digit (pretty.pretty_N_char y) = true) as Hall; [|apply Hall; lia].
    intros y Hy. assert (y = 1 ∨ y = 2 ∨ y = 3 ∨ y = 4 ∨ y = 5 ∨ y = 6 ∨ y = 7 ∨ y = 8 ∨ y = 9)%N as Hc by lia.
    destruct_or! Hc; subst; by vm_compute.
Qed.

Lemma Itoa_Zpos p : Itoa (Zpos p) = pretty.pretty_N_go (N.pos p) "".
Proof. done. Qed.

Lemma Itoa_pos n : 0 < n → ∃ c t, Itoa n = String c t ∧ leading_digit c = true ∧ all_bytes is_digit t = true.
Proof.
  intros Hn. destruct n as [|p|p]; [lia| |lia]. rewrite Itoa_Zpos. destruct (pretty_go_digits (N.pos p) "" ltac:(lia)) as (c & t & -> & Hc & Ht).
  exists c, t. by rewrite str_app_nil_r.
Qed.

Lemma leading_is_digit c : leading_digit c = true → is_digit c = true.
Proof. unfold leading_digit, byte_in, is_digit. rewrite !bool_decide_eq_true. lia. Qed.

Lemma Itoa_digits n : 0 ≤ n → Itoa n ≠ "" ∧ all_bytes is_digit (Itoa n) = true.
Proof.
  intros Hn. destruct (decide (n = 0)) as [->|]; [by split; vm_compute|].
  destruct (Itoa_pos n ltac:(lia)) as (c & t & -> & Hc & Ht). split; [done|]. cbn. by rewrite leading_is_digit, Ht.
Qed.

Lemma parse_digits_Itoa n : 0 ≤ n → parse_digits (Itoa n) = Some n.
Proof.
  intros Hn. unfold parse_digits. rewrite decide_False by by apply Itoa_digits.
  destruct n as [|p|p]; [by vm_compute| |lia].
  rewrite Itoa_Zpos, parse_pretty_go. done.
Qed.
