(* ===== verification/Paths.v ===== *)
(** * Relative paths below the target root (internal/dataplane/snapshot.go, transport.go)

    [NormalizeRelativePath] and the functions built on it: every path the data
    plane joins to the target root passes through one of them.  The component's
    contract is [normalized]: a non-empty list of plain segments.  The library
    lemmas say that normalising is idempotent, agrees with [path.Clean], and
    that a normalised path joined to a root stays inside that root. *)
From S2P Require Export GoStrings.
From stdpp Require Import options.
From Stdlib Require Import Ascii.

Definition backslash : ascii := ascii_of_nat 92.

(** ** Operations *)

(** The loop of [NormalizeRelativePath] over the parts. *)
Fixpoint normalize_parts (cleaned : list string) (parts : list string) : result (list string) :=
  match parts with
  | [] => Ok cleaned
  | part :: parts =>
      if decide (part = "" ∨ part = ".") then normalize_parts cleaned parts
      else if decide (part = "..")
      then Err (ErrNew "path must stay below the target root")
      else normalize_parts (cleaned ++ [part]) parts
  end.

Definition NormalizeRelativePath (value : string) : result string :=
  if decide (value = "") then Err (ErrNew "path is empty")
  else if HasPrefix value "/" then Err (ErrNew "absolute paths are not allowed")
  else if ContainsByte value backslash
  then Err (ErrNew "backslash path separators are not allowed")
  else
    cleaned ← normalize_parts [] (Split value slash);
    if decide (cleaned = [])
    then Err (ErrNew "path must contain at least one segment")
    else Ok (strings_Join cleaned "/").

Definition NormalizeDestinationPath (namespace destinationPath : string) : result string :=
  namespace ← map_err (wrap "invalid namespace: ") (NormalizeRelativePath namespace);
  if ContainsByte namespace slash
  then Err (ErrNew "namespace must be a single path segment")
  else if decide (destinationPath = "" ∨ destinationPath = "/") then Ok namespace
  else
    destinationPath ← map_err (wrap "invalid destination path: ")
                        (NormalizeRelativePath destinationPath);
    Ok (namespace +:+ "/" +:+ destinationPath).

Definition NormalizeTargetSubpath (value : string) : result string :=
  if decide (value = "" ∨ value = "." ∨ value = "/") then Ok ""
  else NormalizeRelativePath value.

Definition ensureInside (root path : string) : result unit :=
  rel ← Rel root path;
  if decide (rel = ".." ∨ HasPrefix rel "../" = true)
  then Err (ErrNew (path +:+ " escapes root " +:+ root))
  else Ok tt.

Definition validateRunID (runID : string) : result unit :=
  if decide (runID = "") then Err (ErrNew "run id is required")
  else
    normalized ← map_err (wrap ("invalid run id " +:+ Quote runID +:+ ": "))
                   (NormalizeRelativePath runID);
    if decide (normalized ≠ runID ∨ ContainsByte runID slash = true
               ∨ ContainsAny runID (bytes [13; 10; 61]%nat) = true)
    then Err (ErrNew ("invalid run id " +:+ Quote runID))
    else Ok tt.

(** [parseSourceSpec]: namespace, name, destination. *)
Definition parseSourceSpec (value : string) : result (string * string * string) :=
  match Cut value "=" with
  | None => Ok ("", "", value)
  | Some (left_, right_) =>
      let bad := ErrNew ("source identity " +:+ Quote left_ +:+ " must be namespace/name") in
      match Cut left_ slash with
      | None => Err bad
      | Some (namespace, name) =>
          if decide (namespace = "" ∨ name = "") then Err bad
          else if decide (right_ = "")
          then Err (ErrNew "source destination is required")
          else Ok (namespace, name, right_)
      end
  end.

(** ** The contract *)

(** What an accepted path looks like. *)
Definition normalized (r : string) (segs : list string) : Prop :=
  segs ≠ [] ∧ Forall plain_seg segs ∧ r = strings_Join segs "/".

(** The segments [NormalizeRelativePath] keeps. *)
Definition kept_segs (value : string) : list string :=
  filter (λ p, p ≠ "" ∧ p ≠ ".") (Split value slash).

(** When a path is accepted. *)
Definition acceptable (value : string) : Prop :=
  HasPrefix value "/" = false ∧ ContainsByte value backslash = false ∧
  ".." ∉ Split value slash ∧ kept_segs value ≠ [].

#[export] Instance acceptable_dec v : Decision (acceptable v).
Proof. unfold acceptable. apply _. Defined.

(** ** Lemmas *)

Lemma normalize_parts_Ok cleaned parts r :
  normalize_parts cleaned parts = Ok r ↔
  ".." ∉ parts ∧ r = cleaned ++ filter (λ p, p ≠ "" ∧ p ≠ ".") parts.
Proof.
  revert cleaned. induction parts as [|p parts IH]; intros cleaned; cbn [normalize_parts].
  { rewrite filter_nil, (right_id_L [] (++)). set_solver. }
  rewrite filter_cons. case_decide as Hp.
  - rewrite (decide_False (P := _ ∧ _)) by naive_solver. rewrite IH.
    rewrite not_elem_of_cons. naive_solver.
  - rewrite (decide_True (P := _ ∧ _)) by naive_solver. case_decide as Hd.
    + split; [done|]. intros [H _]. set_solver.
    + rewrite IH, not_elem_of_cons, <-(assoc_L (++)). naive_solver.
Qed.

Lemma NormalizeRelativePath_Ok v r :
  NormalizeRelativePath v = Ok r ↔ acceptable v ∧ r = strings_Join (kept_segs v) "/".
Proof.
  unfold NormalizeRelativePath, acceptable. case_decide as Hv.
  { subst. split; [done|]. intros [(_ & _ & _ & Hk) _]. by cbn in Hk. }
  destruct (HasPrefix v "/"); [naive_solver|].
  destruct (ContainsByte v backslash); [naive_solver|].
  rewrite bind_Ok. setoid_rewrite normalize_parts_Ok. cbn [app]. fold (kept_segs v).
  split.
  - intros (? & [Hd ->] & Heq). case_decide; simplify_eq. done.
  - intros [(_ & _ & ? & ?) ->]. eexists. split; [done|]. by rewrite decide_False.
Qed.

Lemma kept_segs_plain v : ".." ∉ Split v slash → Forall plain_seg (kept_segs v).
Proof.
  intros Hd. apply Forall_forall. intros p [Hp Hin]%list_elem_of_filter.
  repeat split; try naive_solver. by eapply Split_parts.
Qed.

Lemma NormalizeRelativePath_normalized v r :
  NormalizeRelativePath v = Ok r → normalized r (kept_segs v).
Proof.
  intros [(?&?&?&?) ->]%NormalizeRelativePath_Ok. split; [done|].
  split; [by apply kept_segs_plain|done].
Qed.

Lemma kept_segs_Join segs :
  segs ≠ [] → Forall plain_seg segs → kept_segs (strings_Join segs "/") = segs.
Proof.
  intros Hn Hp. unfold kept_segs. rewrite Split_Join_plain by done.
  apply filter_all. eapply Forall_impl; [exact Hp|]. by intros ? (?&?&_).
Qed.

Lemma ContainsByte_Join segs c :
  c ≠ slash → ContainsByte (strings_Join segs "/") c = existsb (λ p, ContainsByte p c) segs.
Proof.
  intros Hc. induction segs as [|p [|q segs] IH]; [done|cbn; by rewrite orb_false_r|].
  rewrite Join_cons, !ContainsByte_app, IH by done. cbn [existsb ContainsByte].
  rewrite bool_decide_false by done. done.
Qed.

Lemma NormalizeRelativePath_normal segs :
  segs ≠ [] → Forall plain_seg segs →
  ContainsByte (strings_Join segs "/") backslash = false →
  NormalizeRelativePath (strings_Join segs "/") = Ok (strings_Join segs "/").
Proof.
  intros Hn Hp Hb. apply NormalizeRelativePath_Ok. unfold acceptable.
  rewrite kept_segs_Join by done. split; [|done]. split; [by apply Join_plain_rel|].
  split; [done|]. split; [|done]. rewrite Split_Join_plain by done.
  intros Hin. eapply Forall_forall in Hp; [|done]. by destruct Hp as (_&_&?&_).
Qed.

Lemma existsb_filter_impl {A} (f : A → bool) (P : A → Prop) `{∀ x, Decision (P x)} l :
  existsb f l = false → existsb f (filter P l) = false.
Proof.
  induction l as [|x l IH]; [done|]. cbn [existsb]. rewrite orb_false_iff. intros [Hx Hl].
  rewrite filter_cons. case_decide; [|auto]. cbn. rewrite Hx. auto.
Qed.

Lemma kept_no_backslash v :
  ContainsByte v backslash = false → ContainsByte (strings_Join (kept_segs v) "/") backslash = false.
Proof.
  intros H. rewrite <-(Join_Split v slash) in H.
  rewrite ContainsByte_Join in * by done. by apply existsb_filter_impl.
Qed.

Lemma clean_segs_filter rooted acc segs :
  ".." ∉ segs →
  clean_segs rooted acc segs = reverse acc ++ filter (λ p, p ≠ "" ∧ p ≠ ".") segs.
Proof.
  revert acc. induction segs as [|p segs IH]; intros acc; cbn [clean_segs].
  { by rewrite filter_nil, (right_id_L [] (++)). }
  rewrite not_elem_of_cons. intros [Hp Hs]. rewrite filter_cons. case_decide.
  - rewrite decide_False by naive_solver. auto.
  - rewrite decide_False by done. rewrite (decide_True (P := _ ∧ _)) by naive_solver.
    rewrite IH, reverse_cons by done. by rewrite <-(assoc_L (++)).
Qed.

(** On the paths it accepts, normalisation is [path.Clean]. *)
Lemma NormalizeRelativePath_is_Clean v r : NormalizeRelativePath v = Ok r → r = Clean v.
Proof.
  intros Hr. pose proof (NormalizeRelativePath_normalized v r Hr) as (Hn & Hp & _).
  apply NormalizeRelativePath_Ok in Hr as [(Ha & Hb & Hd & _) ->]. unfold Clean.
  destruct (decide (v = "")) as [->|]; [done|].
  unfold IsAbs. rewrite Ha. rewrite clean_segs_filter by done. cbn [reverse rev_append app].
  fold (kept_segs v). rewrite decide_False; [done|]. by apply Join_plain_nonempty.
Qed.

(** ** Joining to a root *)

(** A cleaned absolute root: [filepath.Abs] of the target root. *)
Definition clean_root (root : string) (rsegs : list string) : Prop :=
  Forall plain_seg rsegs ∧ root = "/" +:+ strings_Join rsegs "/".

Lemma Split_app_slash a b :
  Split (a +:+ "/" +:+ b) slash = Split a slash ++ Split b slash.
Proof.
  induction a as [|x a IH].
  - rewrite !str_app_nil_l, str_app_cons, str_app_nil_l. apply (Split_sep b slash).
  - rewrite str_app_cons. cbn [Split]. rewrite IH. case_decide; [done|].
    destruct (Split a slash) eqn:Ha; [by apply Split_nonempty in Ha|done].
Qed.

Lemma path_Join_2 a b : a ≠ "" → b ≠ "" → path_Join [a; b] = Clean (a +:+ "/" +:+ b).
Proof.
  intros Ha Hb. unfold path_Join.
  by rewrite filter_all by (by repeat constructor).
Qed.

Lemma path_Join_3 a b c :
  a ≠ "" → b ≠ "" → c ≠ "" → path_Join [a; b; c] = path_Join [a; strings_Join [b; c] "/"].
Proof.
  intros Ha Hb Hc. unfold path_Join.
  rewrite !filter_cons_True by (rewrite ?Join_cons, ?str_app_eq_nil by done; naive_solver).
  rewrite !filter_nil. done.
Qed.

Lemma Clean_join_root root rsegs rest :
  clean_root root rsegs → rest ≠ "" → ".." ∉ Split rest slash →
  Clean (root +:+ "/" +:+ rest) = "/" +:+ strings_Join (rsegs ++ kept_segs rest) "/".
Proof.
  intros [Hp ->] Hr Hd. unfold Clean.
  rewrite decide_False by (by rewrite !str_app_eq_nil; naive_solver).
  assert (IsAbs (("/" +:+ strings_Join rsegs "/") +:+ "/" +:+ rest) = true) as ->.
  { rewrite str_app_assoc. apply (HasPrefix_app "/"). }
  do 2 f_equal. rewrite Split_app_slash, Split_abs.
  rewrite clean_segs_filter.
  - rewrite reverse_nil, (left_id_L [] (++)), filter_app. f_equal. f_equal.
    rewrite filter_cons, decide_False by naive_solver.
    destruct (decide (rsegs = [])) as [->|Hn]; [done|].
    fold (kept_segs (strings_Join rsegs "/")). by apply kept_segs_Join.
  - rewrite elem_of_app, elem_of_cons. intros [[|Hin]|]; [done| |done].
    destruct (decide (rsegs = [])) as [->|Hn]; [by apply list_elem_of_singleton in Hin|].
    rewrite Split_Join_plain in Hin by done. eapply Forall_forall in Hp; [|done].
    by destruct Hp as (_&_&?&_).
Qed.

Lemma path_Join_root root rsegs segs :
  clean_root root rsegs → segs ≠ [] → Forall plain_seg segs →
  path_Join [root; strings_Join segs "/"] = "/" +:+ strings_Join (rsegs ++ segs) "/".
Proof.
  intros Hr Hn Hp. pose proof Hr as [_ Hroot]. rewrite path_Join_2.
  - rewrite (Clean_join_root root rsegs); [|done|by apply Join_plain_nonempty|].
    { by rewrite kept_segs_Join. }
    rewrite Split_Join_plain by done. intros Hin. eapply Forall_forall in Hp; [|done].
    by destruct Hp as (_&_&?&_).
  - subst root. rewrite str_app_eq_nil. naive_solver.
  - by apply Join_plain_nonempty.
Qed.

Lemma strip_common_app xs ys : strip_common xs (xs ++ ys) = ([], ys).
Proof.
  induction xs as [|x xs IH]; cbn; [by destruct ys|]. by rewrite decide_True.
Qed.

Lemma rel_segs_abs segs : Forall plain_seg segs → rel_segs ("/" +:+ strings_Join segs "/") = segs.
Proof.
  intros Hp. unfold rel_segs. rewrite Split_abs, filter_cons, decide_False by naive_solver.
  destruct (decide (segs = [])) as [->|Hn]; [done|].
  by apply (kept_segs_Join segs).
Qed.

Lemma Rel_below root rsegs segs :
  clean_root root rsegs → segs ≠ [] → Forall plain_seg segs →
  Rel root ("/" +:+ strings_Join (rsegs ++ segs) "/") = Ok (strings_Join segs "/").
Proof.
  intros [Hr ->] Hn Hp. unfold Rel.
  assert (Forall plain_seg (rsegs ++ segs)) as Hall by by apply Forall_app.
  rewrite !Clean_plain_abs by done. cbn zeta.
  rewrite !rel_segs_abs, strip_common_app by done.
  rewrite decide_False.
  - rewrite !(HasPrefix_app "/" _ : IsAbs ("/" +:+ _) = true).
    by rewrite bool_decide_true.
  - intros Heq. apply (f_equal rel_segs) in Heq. rewrite !rel_segs_abs in Heq by done.
    apply (f_equal length) in Heq. rewrite length_app in Heq.
    destruct segs; [done|]. cbn in Heq. lia.
Qed.

Lemma plain_not_dotdot_prefix segs :
  segs ≠ [] → Forall plain_seg segs →
  ¬ (strings_Join segs "/" = ".." ∨ HasPrefix (strings_Join segs "/") "../" = true).
Proof.
  intros Hn Hp [H|H].
  - apply (f_equal (λ s, Split s slash)) in H. rewrite Split_Join_plain in H by done.
    subst. apply Forall_cons in Hp as [(_&_&?&_) _]. done.
  - apply HasPrefix_spec in H as [t Ht].
    apply (f_equal (λ s, Split s slash)) in Ht. rewrite Split_Join_plain in Ht by done.
    change ("../" +:+ t) with (".." +:+ String slash t) in Ht. rewrite Split_app in Ht by done. subst.
    apply Forall_cons in Hp as [(_&_&?&_) _]. done.
Qed.

(** A normalised path joined to a clean root stays inside it. *)
Lemma ensureInside_normalized root rsegs segs :
  clean_root root rsegs → segs ≠ [] → Forall plain_seg segs →
  ensureInside root (path_Join [root; strings_Join segs "/"]) = Ok tt.
Proof.
  intros Hr Hn Hp. unfold ensureInside.
  rewrite (path_Join_root root rsegs) by done. rewrite (Rel_below root rsegs) by done.
  cbn. rewrite decide_False; [done|]. by apply plain_not_dotdot_prefix.
Qed.

(** ** Run ids *)

(** An accepted run id is one plain segment without newline, carriage return or [=]. *)
Lemma validateRunID_Ok runID :
  validateRunID runID = Ok tt ↔
  plain_seg runID ∧ ContainsByte runID backslash = false ∧
  ContainsAny runID (bytes [13; 10; 61]%nat) = false.
Proof.
  unfold validateRunID. split.
  - case_decide as Hemp; [done|]. intros (r & Hn%map_err_Ok & Hd)%bind_Ok.
    case_decide as Hc; [done|].
    assert (r = runID ∧ ContainsByte runID slash = false
      ∧ ContainsAny runID (bytes [13; 10; 61]%nat) = false) as (-> & Hs & Ha).
    { destruct (decide (r = runID)), (ContainsByte runID slash), (ContainsAny _ _); naive_solver. }
    pose proof (NormalizeRelativePath_normalized _ _ Hn) as (Hne & Hp & Hj).
    apply NormalizeRelativePath_Ok in Hn as [(_ & Hb & _ & _) _].
    unfold kept_segs in Hne, Hp. rewrite Split_none in Hne, Hp by done.
    rewrite filter_cons, filter_nil in Hne, Hp. case_decide; [|done].
    apply Forall_cons in Hp as [Hp _]. done.
  - intros (Hp & Hb & Ha). pose proof Hp as (Hne & _ & _ & Hs). rewrite decide_False by done.
    pose proof (NormalizeRelativePath_normal [runID]) as HN. cbn [strings_Join] in HN.
    rewrite HN by (try done; by apply Forall_singleton). cbn [mbind result_bind map_err].
    rewrite decide_False; [done|]. rewrite Hs, Ha. naive_solver.
Qed.

#[export] Hint Resolve NormalizeRelativePath_normalized kept_segs_plain : krm.
