(* ===== verification/ApiTypes.v ===== *)
(** * The API types (api/v1alpha1/types.go)

    The custom resources, with the fields and the defaulting methods of the
    source.  Go's string types with named constants stay strings, because the
    code receives any string; the constants are definitions.  A field of a
    core/v1 type that the code only copies is carried as its serialised form
    ([Opaque], the empty string for a nil pointer); [float64] is a [spec_float]; a time is a number of nanoseconds
    since the Unix epoch. *)
From S2P Require Export Prelude.
From Stdlib Require Export SpecFloat.
From stdpp Require Import options.

(** ** Times *)

(** A [time.Time] or [metav1.Time]: nanoseconds since 1970-01-01T00:00:00Z. *)
Definition Time := Z.

(** [time.Time{}], midnight of January 1st of year 1. *)
Definition zero_time : Time := - 62135596800 * 10 ^ 9.

Definition Opaque := string.

#[export] Instance spec_float_eq_dec : EqDecision spec_float.
Proof. solve_decision. Defined.

(** ** Constants *)

Definition DefaultRsyncMachineMountPath : string := "/backup".
Definition DefaultSourcePath : string := "/".
Definition DefaultSnapshot : string := "latest".
Definition DefaultMirrorSnapshot : string := "current".
Definition DefaultSuccessfulRunHistory : Z := 5.
Definition DefaultFailedRunHistory : Z := 5.

Definition ConcurrencyPolicyForbid : string := "Forbid".
Definition ConcurrencyPolicyReplace : string := "Replace".

Definition CaptureModeDirect : string := "Direct".
Definition CaptureModeVolumeSnapshot : string := "VolumeSnapshot".
Definition CaptureModeAuto : string := "Auto".

Definition CleanupPolicyDelete : string := "Delete".
Definition CleanupPolicyRetainOnFailure : string := "RetainOnFailure".

Definition BackupStrategySnapshot : string := "Snapshot".
Definition BackupStrategyMirror : string := "Mirror".

Definition BackupJobTriggerManual : string := "Manual".
Definition BackupJobTriggerScheduled : string := "Scheduled".

Definition RunPhasePending : string := "Pending".
Definition RunPhasePreparing : string := "Preparing".
Definition RunPhaseRunning : string := "Running".
Definition RunPhaseFinalizing : string := "Finalizing".
Definition RunPhaseSucceeded : string := "Succeeded".
Definition RunPhaseFailed : string := "Failed".
Definition RunPhaseCanceled : string := "Canceled".

Definition TransferPhasePending : string := "Pending".
Definition TransferPhasePreparing : string := "Preparing".
Definition TransferPhaseRunning : string := "Running".
Definition TransferPhaseSucceeded : string := "Succeeded".
Definition TransferPhaseFailed : string := "Failed".
Definition TransferPhaseSkipped : string := "Skipped".

(** ** Metadata *)

(** [types.NamespacedName] *)
Record NamespacedName := MkNamespacedName {
  nn_Namespace : string;
  nn_Name : string
}.

#[export] Instance NamespacedName_eta : Eta NamespacedName := λ r,
  {| nn_Namespace := nn_Namespace r; nn_Name := nn_Name r |}.

#[export] Instance NamespacedName_eq_dec : EqDecision NamespacedName.
Proof. solve_decision. Defined.

#[export] Instance NamespacedName_inhabited : Inhabited NamespacedName := populate
  (MkNamespacedName "" "").

#[export] Instance NamespacedName_countable : Countable NamespacedName.
Proof.
  refine (inj_countable' (λ n, (nn_Namespace n, nn_Name n)) (λ p, MkNamespacedName p.1 p.2) _).
  by intros [].
Defined.

Record ObjectReference := MkObjectReference {
  or_Namespace : string;
  or_Name : string
}.

#[export] Instance ObjectReference_eta : Eta ObjectReference := λ r,
  {| or_Namespace := or_Namespace r; or_Name := or_Name r |}.

#[export] Instance ObjectReference_eq_dec : EqDecision ObjectReference.
Proof. solve_decision. Defined.

#[export] Instance ObjectReference_inhabited : Inhabited ObjectReference := populate
  (MkObjectReference "" "").

(** [metav1.OwnerReference] *)
Record OwnerReference := MkOwnerReference {
  ow_APIVersion : string;
  ow_Kind : string;
  ow_Name : string;
  ow_UID : string;
  ow_Controller : option bool;
  ow_BlockOwnerDeletion : option bool
}.

#[export] Instance OwnerReference_eta : Eta OwnerReference := λ r,
  {| ow_APIVersion := ow_APIVersion r; ow_Kind := ow_Kind r; ow_Name := ow_Name r; ow_UID :=
     ow_UID r; ow_Controller := ow_Controller r; ow_BlockOwnerDeletion :=
     ow_BlockOwnerDeletion r |}.

#[export] Instance OwnerReference_eq_dec : EqDecision OwnerReference.
Proof. solve_decision. Defined.

#[export] Instance OwnerReference_inhabited : Inhabited OwnerReference := populate
  (MkOwnerReference "" "" "" "" None None).

(** The part of [metav1.ObjectMeta] the code reads and writes. *)
Record ObjectMeta := MkObjectMeta {
  om_Namespace : string;
  om_Name : string;
  om_UID : string;
  om_ResourceVersion : string;
  om_Generation : Z;
  om_Labels : gmap string string;
  om_Annotations : gmap string string;
  om_OwnerReferences : list OwnerReference;
  om_Finalizers : list string;
  om_CreationTimestamp : Time;
  om_DeletionTimestamp : option Time
}.

#[export] Instance ObjectMeta_eta : Eta ObjectMeta := λ r,
  {| om_Namespace := om_Namespace r; om_Name := om_Name r; om_UID := om_UID r;
     om_ResourceVersion := om_ResourceVersion r; om_Generation := om_Generation r; om_Labels
     := om_Labels r; om_Annotations := om_Annotations r; om_OwnerReferences :=
     om_OwnerReferences r; om_Finalizers := om_Finalizers r; om_CreationTimestamp :=
     om_CreationTimestamp r; om_DeletionTimestamp := om_DeletionTimestamp r |}.

#[export] Instance ObjectMeta_eq_dec : EqDecision ObjectMeta.
Proof. solve_decision. Defined.

#[export] Instance ObjectMeta_inhabited : Inhabited ObjectMeta := populate
  (MkObjectMeta "" "" "" "" 0 ∅ ∅ [] [] zero_time None).

(** [metav1.Condition] *)
Record Condition := MkCondition {
  cond_Type : string;
  cond_Status : string;
  cond_ObservedGeneration : Z;
  cond_LastTransitionTime : Time;
  cond_Reason : string;
  cond_Message : string
}.

#[export] Instance Condition_eta : Eta Condition := λ r,
  {| cond_Type := cond_Type r; cond_Status := cond_Status r; cond_ObservedGeneration :=
     cond_ObservedGeneration r; cond_LastTransitionTime := cond_LastTransitionTime r;
     cond_Reason := cond_Reason r; cond_Message := cond_Message r |}.

#[export] Instance Condition_eq_dec : EqDecision Condition.
Proof. solve_decision. Defined.

#[export] Instance Condition_inhabited : Inhabited Condition := populate
  (MkCondition "" "" 0 zero_time "" "").

(** ** Machines *)

Record RetentionPolicy := MkRetentionPolicy {
  rp_Hourly : Z;
  rp_Daily : Z;
  rp_Weekly : Z;
  rp_Monthly : Z
}.

#[export] Instance RetentionPolicy_eta : Eta RetentionPolicy := λ r,
  {| rp_Hourly := rp_Hourly r; rp_Daily := rp_Daily r; rp_Weekly := rp_Weekly r; rp_Monthly
     := rp_Monthly r |}.

#[export] Instance RetentionPolicy_eq_dec : EqDecision RetentionPolicy.
Proof. solve_decision. Defined.

#[export] Instance RetentionPolicy_inhabited : Inhabited RetentionPolicy := populate
  (MkRetentionPolicy 0 0 0 0).

Record BackupStrategy := MkBackupStrategy {
  bst_Type : string
}.

#[export] Instance BackupStrategy_eta : Eta BackupStrategy := λ r,
  {| bst_Type := bst_Type r |}.

#[export] Instance BackupStrategy_eq_dec : EqDecision BackupStrategy.
Proof. solve_decision. Defined.

#[export] Instance BackupStrategy_inhabited : Inhabited BackupStrategy := populate
  (MkBackupStrategy "").

Record RsyncOptions := MkRsyncOptions {
  ro_Delete : option bool;
  ro_OneFileSystem : option bool
}.

#[export] Instance RsyncOptions_eta : Eta RsyncOptions := λ r,
  {| ro_Delete := ro_Delete r; ro_OneFileSystem := ro_OneFileSystem r |}.

#[export] Instance RsyncOptions_eq_dec : EqDecision RsyncOptions.
Proof. solve_decision. Defined.

#[export] Instance RsyncOptions_inhabited : Inhabited RsyncOptions := populate
  (MkRsyncOptions None None).

Record RunHistory := MkRunHistory {
  rh_Count : Z;
  rh_Successful : Z;
  rh_Failed : Z
}.

#[export] Instance RunHistory_eta : Eta RunHistory := λ r,
  {| rh_Count := rh_Count r; rh_Successful := rh_Successful r; rh_Failed := rh_Failed r |}.

#[export] Instance RunHistory_eq_dec : EqDecision RunHistory.
Proof. solve_decision. Defined.

#[export] Instance RunHistory_inhabited : Inhabited RunHistory := populate
  (MkRunHistory 0 0 0).

Record RsyncMachineSpec := MkRsyncMachineSpec {
  ms_PVCName : string;
  ms_Image : string;
  ms_Strategy : BackupStrategy;
  ms_AllowedSourceNamespaces : list string;
  ms_AllowedRestoreNamespaces : list string;
  ms_Schedule : string;
  ms_ConcurrencyPolicy : string;
  ms_Retention : RetentionPolicy;
  ms_RunHistory : RunHistory;
  ms_NodeSelector : gmap string string;
  ms_Affinity : Opaque;
  ms_Tolerations : Opaque;
  ms_TopologySpreadConstraints : Opaque;
  ms_SchedulerName : string;
  ms_PriorityClassName : string;
  ms_RuntimeClassName : option string;
  ms_ImagePullSecrets : list string;
  ms_SecurityContext : Opaque;
  ms_Resources : Opaque
}.

#[export] Instance RsyncMachineSpec_eta : Eta RsyncMachineSpec := λ r,
  {| ms_PVCName := ms_PVCName r; ms_Image := ms_Image r; ms_Strategy := ms_Strategy r;
     ms_AllowedSourceNamespaces := ms_AllowedSourceNamespaces r; ms_AllowedRestoreNamespaces
     := ms_AllowedRestoreNamespaces r; ms_Schedule := ms_Schedule r; ms_ConcurrencyPolicy :=
     ms_ConcurrencyPolicy r; ms_Retention := ms_Retention r; ms_RunHistory := ms_RunHistory
     r; ms_NodeSelector := ms_NodeSelector r; ms_Affinity := ms_Affinity r; ms_Tolerations
     := ms_Tolerations r; ms_TopologySpreadConstraints := ms_TopologySpreadConstraints r;
     ms_SchedulerName := ms_SchedulerName r; ms_PriorityClassName := ms_PriorityClassName r;
     ms_RuntimeClassName := ms_RuntimeClassName r; ms_ImagePullSecrets :=
     ms_ImagePullSecrets r; ms_SecurityContext := ms_SecurityContext r; ms_Resources :=
     ms_Resources r |}.

#[export] Instance RsyncMachineSpec_eq_dec : EqDecision RsyncMachineSpec.
Proof. solve_decision. Defined.

#[export] Instance RsyncMachineSpec_inhabited : Inhabited RsyncMachineSpec := populate
  (MkRsyncMachineSpec "" "" inhabitant [] [] "" "" inhabitant inhabitant ∅ "" "" "" "" ""
     None [] "" "").

Record RestorePoint := MkRestorePoint {
  rpt_Snapshot : string;
  rpt_ResolvesTo : string;
  rpt_Tier : string;
  rpt_CreatedAt : option Time;
  rpt_BytesTransferred : Z
}.

#[export] Instance RestorePoint_eta : Eta RestorePoint := λ r,
  {| rpt_Snapshot := rpt_Snapshot r; rpt_ResolvesTo := rpt_ResolvesTo r; rpt_Tier :=
     rpt_Tier r; rpt_CreatedAt := rpt_CreatedAt r; rpt_BytesTransferred :=
     rpt_BytesTransferred r |}.

#[export] Instance RestorePoint_eq_dec : EqDecision RestorePoint.
Proof. solve_decision. Defined.

#[export] Instance RestorePoint_inhabited : Inhabited RestorePoint := populate
  (MkRestorePoint "" "" "" None 0).

Record RsyncMachineStatus := MkRsyncMachineStatus {
  mst_RestorePointsUpdatedAt : option Time;
  mst_RestorePointCount : Z;
  mst_RestorePoints : list RestorePoint;
  mst_LastScheduledAt : option Time;
  mst_Conditions : list Condition
}.

#[export] Instance RsyncMachineStatus_eta : Eta RsyncMachineStatus := λ r,
  {| mst_RestorePointsUpdatedAt := mst_RestorePointsUpdatedAt r; mst_RestorePointCount :=
     mst_RestorePointCount r; mst_RestorePoints := mst_RestorePoints r; mst_LastScheduledAt
     := mst_LastScheduledAt r; mst_Conditions := mst_Conditions r |}.

#[export] Instance RsyncMachineStatus_eq_dec : EqDecision RsyncMachineStatus.
Proof. solve_decision. Defined.

#[export] Instance RsyncMachineStatus_inhabited : Inhabited RsyncMachineStatus := populate
  (MkRsyncMachineStatus None 0 [] None []).

Record RsyncMachine := MkRsyncMachine {
  m_Meta : ObjectMeta;
  m_Spec : RsyncMachineSpec;
  m_Status : RsyncMachineStatus
}.

#[export] Instance RsyncMachine_eta : Eta RsyncMachine := λ r,
  {| m_Meta := m_Meta r; m_Spec := m_Spec r; m_Status := m_Status r |}.

#[export] Instance RsyncMachine_eq_dec : EqDecision RsyncMachine.
Proof. solve_decision. Defined.

#[export] Instance RsyncMachine_inhabited : Inhabited RsyncMachine := populate
  (MkRsyncMachine inhabitant inhabitant inhabitant).

(** ** Sources *)

Record ConsistencyOptions := MkConsistencyOptions {
  co_Capture : string;
  co_VolumeSnapshotClassName : string;
  co_CleanupPolicy : string
}.

#[export] Instance ConsistencyOptions_eta : Eta ConsistencyOptions := λ r,
  {| co_Capture := co_Capture r; co_VolumeSnapshotClassName := co_VolumeSnapshotClassName r;
     co_CleanupPolicy := co_CleanupPolicy r |}.

#[export] Instance ConsistencyOptions_eq_dec : EqDecision ConsistencyOptions.
Proof. solve_decision. Defined.

#[export] Instance ConsistencyOptions_inhabited : Inhabited ConsistencyOptions := populate
  (MkConsistencyOptions "" "" "").

Record BackupSourceSpec := MkBackupSourceSpec {
  ss_MachineRef : ObjectReference;
  ss_PVC : string;
  ss_SourcePath : string;
  ss_DestinationPath : string;
  ss_Consistency : ConsistencyOptions;
  ss_Rsync : RsyncOptions;
  ss_NodeSelector : gmap string string;
  ss_Affinity : Opaque;
  ss_Tolerations : Opaque;
  ss_TopologySpreadConstraints : Opaque;
  ss_SchedulerName : string;
  ss_PriorityClassName : string;
  ss_RuntimeClassName : option string;
  ss_ImagePullSecrets : list string;
  ss_SecurityContext : Opaque;
  ss_Resources : Opaque
}.

#[export] Instance BackupSourceSpec_eta : Eta BackupSourceSpec := λ r,
  {| ss_MachineRef := ss_MachineRef r; ss_PVC := ss_PVC r; ss_SourcePath := ss_SourcePath r;
     ss_DestinationPath := ss_DestinationPath r; ss_Consistency := ss_Consistency r;
     ss_Rsync := ss_Rsync r; ss_NodeSelector := ss_NodeSelector r; ss_Affinity :=
     ss_Affinity r; ss_Tolerations := ss_Tolerations r; ss_TopologySpreadConstraints :=
     ss_TopologySpreadConstraints r; ss_SchedulerName := ss_SchedulerName r;
     ss_PriorityClassName := ss_PriorityClassName r; ss_RuntimeClassName :=
     ss_RuntimeClassName r; ss_ImagePullSecrets := ss_ImagePullSecrets r; ss_SecurityContext
     := ss_SecurityContext r; ss_Resources := ss_Resources r |}.

#[export] Instance BackupSourceSpec_eq_dec : EqDecision BackupSourceSpec.
Proof. solve_decision. Defined.

#[export] Instance BackupSourceSpec_inhabited : Inhabited BackupSourceSpec := populate
  (MkBackupSourceSpec inhabitant "" "" "" inhabitant inhabitant ∅ "" "" "" "" "" None [] ""
     "").

Record BackupSourceStatus := MkBackupSourceStatus {
  sst_Conditions : list Condition
}.

#[export] Instance BackupSourceStatus_eta : Eta BackupSourceStatus := λ r,
  {| sst_Conditions := sst_Conditions r |}.

#[export] Instance BackupSourceStatus_eq_dec : EqDecision BackupSourceStatus.
Proof. solve_decision. Defined.

#[export] Instance BackupSourceStatus_inhabited : Inhabited BackupSourceStatus := populate
  (MkBackupSourceStatus []).

Record BackupSource := MkBackupSource {
  s_Meta : ObjectMeta;
  s_Spec : BackupSourceSpec;
  s_Status : BackupSourceStatus
}.

#[export] Instance BackupSource_eta : Eta BackupSource := λ r,
  {| s_Meta := s_Meta r; s_Spec := s_Spec r; s_Status := s_Status r |}.

#[export] Instance BackupSource_eq_dec : EqDecision BackupSource.
Proof. solve_decision. Defined.

#[export] Instance BackupSource_inhabited : Inhabited BackupSource := populate
  (MkBackupSource inhabitant inhabitant inhabitant).

(** ** Backup jobs *)

Record CommandStatus := MkCommandStatus {
  cs_ID : string;
  cs_Type : string;
  cs_SentAt : option Time;
  cs_AcknowledgedAt : option Time
}.

#[export] Instance CommandStatus_eta : Eta CommandStatus := λ r,
  {| cs_ID := cs_ID r; cs_Type := cs_Type r; cs_SentAt := cs_SentAt r; cs_AcknowledgedAt :=
     cs_AcknowledgedAt r |}.

#[export] Instance CommandStatus_eq_dec : EqDecision CommandStatus.
Proof. solve_decision. Defined.

#[export] Instance CommandStatus_inhabited : Inhabited CommandStatus := populate
  (MkCommandStatus "" "" None None).

Record TransferStatus := MkTransferStatus {
  ts_Source : string;
  ts_Phase : string;
  ts_Percent : Z;
  ts_BytesTransferred : Z;
  ts_RateBytesPerSecond : Z;
  ts_FilesTransferred : Z;
  ts_TotalFiles : Z;
  ts_TotalFileSize : Z;
  ts_BytesSent : Z;
  ts_BytesReceived : Z;
  ts_Speedup : spec_float;
  ts_Message : string;
  ts_ExitCode : Z;
  ts_StartedAt : option Time;
  ts_CompletedAt : option Time;
  ts_CaptureMethod : string;
  ts_VolumeSnapshotName : string;
  ts_CaptureTime : option Time
}.

#[export] Instance TransferStatus_eta : Eta TransferStatus := λ r,
  {| ts_Source := ts_Source r; ts_Phase := ts_Phase r; ts_Percent := ts_Percent r;
     ts_BytesTransferred := ts_BytesTransferred r; ts_RateBytesPerSecond :=
     ts_RateBytesPerSecond r; ts_FilesTransferred := ts_FilesTransferred r; ts_TotalFiles :=
     ts_TotalFiles r; ts_TotalFileSize := ts_TotalFileSize r; ts_BytesSent := ts_BytesSent
     r; ts_BytesReceived := ts_BytesReceived r; ts_Speedup := ts_Speedup r; ts_Message :=
     ts_Message r; ts_ExitCode := ts_ExitCode r; ts_StartedAt := ts_StartedAt r;
     ts_CompletedAt := ts_CompletedAt r; ts_CaptureMethod := ts_CaptureMethod r;
     ts_VolumeSnapshotName := ts_VolumeSnapshotName r; ts_CaptureTime := ts_CaptureTime r
     |}.

#[export] Instance TransferStatus_eq_dec : EqDecision TransferStatus.
Proof. solve_decision. Defined.

#[export] Instance TransferStatus_inhabited : Inhabited TransferStatus := populate
  (MkTransferStatus "" "" 0 0 0 0 0 0 0 0 (S754_zero false) "" 0 None None "" "" None).

Record BackupJobSpec := MkBackupJobSpec {
  bs_MachineRef : ObjectReference;
  bs_Trigger : string
}.

#[export] Instance BackupJobSpec_eta : Eta BackupJobSpec := λ r,
  {| bs_MachineRef := bs_MachineRef r; bs_Trigger := bs_Trigger r |}.

#[export] Instance BackupJobSpec_eq_dec : EqDecision BackupJobSpec.
Proof. solve_decision. Defined.

#[export] Instance BackupJobSpec_inhabited : Inhabited BackupJobSpec := populate
  (MkBackupJobSpec inhabitant "").

Record BackupJobStatus := MkBackupJobStatus {
  bjs_Phase : string;
  bjs_StartedAt : option Time;
  bjs_CompletedAt : option Time;
  bjs_SnapshotPath : string;
  bjs_TargetPhase : string;
  bjs_LastCommand : option CommandStatus;
  bjs_IncludedMachines : list ObjectReference;
  bjs_MergedInto : option ObjectReference;
  bjs_Transfers : list TransferStatus;
  bjs_Conditions : list Condition
}.

#[export] Instance BackupJobStatus_eta : Eta BackupJobStatus := λ r,
  {| bjs_Phase := bjs_Phase r; bjs_StartedAt := bjs_StartedAt r; bjs_CompletedAt :=
     bjs_CompletedAt r; bjs_SnapshotPath := bjs_SnapshotPath r; bjs_TargetPhase :=
     bjs_TargetPhase r; bjs_LastCommand := bjs_LastCommand r; bjs_IncludedMachines :=
     bjs_IncludedMachines r; bjs_MergedInto := bjs_MergedInto r; bjs_Transfers :=
     bjs_Transfers r; bjs_Conditions := bjs_Conditions r |}.

#[export] Instance BackupJobStatus_eq_dec : EqDecision BackupJobStatus.
Proof. solve_decision. Defined.

#[export] Instance BackupJobStatus_inhabited : Inhabited BackupJobStatus := populate
  (MkBackupJobStatus "" None None "" "" None [] None [] []).

Record BackupJob := MkBackupJob {
  bj_Meta : ObjectMeta;
  bj_Spec : BackupJobSpec;
  bj_Status : BackupJobStatus
}.

#[export] Instance BackupJob_eta : Eta BackupJob := λ r,
  {| bj_Meta := bj_Meta r; bj_Spec := bj_Spec r; bj_Status := bj_Status r |}.

#[export] Instance BackupJob_eq_dec : EqDecision BackupJob.
Proof. solve_decision. Defined.

#[export] Instance BackupJob_inhabited : Inhabited BackupJob := populate
  (MkBackupJob inhabitant inhabitant inhabitant).

(** ** Restore jobs *)

Record RestoreDestination := MkRestoreDestination {
  rd_Namespace : string;
  rd_PVCName : string;
  rd_Path : string
}.

#[export] Instance RestoreDestination_eta : Eta RestoreDestination := λ r,
  {| rd_Namespace := rd_Namespace r; rd_PVCName := rd_PVCName r; rd_Path := rd_Path r |}.

#[export] Instance RestoreDestination_eq_dec : EqDecision RestoreDestination.
Proof. solve_decision. Defined.

#[export] Instance RestoreDestination_inhabited : Inhabited RestoreDestination := populate
  (MkRestoreDestination "" "" "").

Record RestoreOverrides := MkRestoreOverrides {
  rov_Destination : RestoreDestination;
  rov_Rsync : RsyncOptions
}.

#[export] Instance RestoreOverrides_eta : Eta RestoreOverrides := λ r,
  {| rov_Destination := rov_Destination r; rov_Rsync := rov_Rsync r |}.

#[export] Instance RestoreOverrides_eq_dec : EqDecision RestoreOverrides.
Proof. solve_decision. Defined.

#[export] Instance RestoreOverrides_inhabited : Inhabited RestoreOverrides := populate
  (MkRestoreOverrides inhabitant inhabitant).

Record RestoreJobSpec := MkRestoreJobSpec {
  rs_SourceRef : ObjectReference;
  rs_Snapshot : string;
  rs_Overrides : RestoreOverrides;
  rs_NodeSelector : gmap string string;
  rs_Affinity : Opaque;
  rs_Tolerations : Opaque;
  rs_TopologySpreadConstraints : Opaque;
  rs_SchedulerName : string;
  rs_PriorityClassName : string;
  rs_RuntimeClassName : option string;
  rs_ImagePullSecrets : list string;
  rs_SecurityContext : Opaque;
  rs_Resources : Opaque
}.

#[export] Instance RestoreJobSpec_eta : Eta RestoreJobSpec := λ r,
  {| rs_SourceRef := rs_SourceRef r; rs_Snapshot := rs_Snapshot r; rs_Overrides :=
     rs_Overrides r; rs_NodeSelector := rs_NodeSelector r; rs_Affinity := rs_Affinity r;
     rs_Tolerations := rs_Tolerations r; rs_TopologySpreadConstraints :=
     rs_TopologySpreadConstraints r; rs_SchedulerName := rs_SchedulerName r;
     rs_PriorityClassName := rs_PriorityClassName r; rs_RuntimeClassName :=
     rs_RuntimeClassName r; rs_ImagePullSecrets := rs_ImagePullSecrets r; rs_SecurityContext
     := rs_SecurityContext r; rs_Resources := rs_Resources r |}.

#[export] Instance RestoreJobSpec_eq_dec : EqDecision RestoreJobSpec.
Proof. solve_decision. Defined.

#[export] Instance RestoreJobSpec_inhabited : Inhabited RestoreJobSpec := populate
  (MkRestoreJobSpec inhabitant "" inhabitant ∅ "" "" "" "" "" None [] "" "").

Record RestoreJobStatus := MkRestoreJobStatus {
  rjs_Phase : string;
  rjs_StartedAt : option Time;
  rjs_CompletedAt : option Time;
  rjs_RestoredSnapshot : string;
  rjs_ExitCode : Z;
  rjs_Message : string;
  rjs_Transfers : list TransferStatus;
  rjs_Conditions : list Condition
}.

#[export] Instance RestoreJobStatus_eta : Eta RestoreJobStatus := λ r,
  {| rjs_Phase := rjs_Phase r; rjs_StartedAt := rjs_StartedAt r; rjs_CompletedAt :=
     rjs_CompletedAt r; rjs_RestoredSnapshot := rjs_RestoredSnapshot r; rjs_ExitCode :=
     rjs_ExitCode r; rjs_Message := rjs_Message r; rjs_Transfers := rjs_Transfers r;
     rjs_Conditions := rjs_Conditions r |}.

#[export] Instance RestoreJobStatus_eq_dec : EqDecision RestoreJobStatus.
Proof. solve_decision. Defined.

#[export] Instance RestoreJobStatus_inhabited : Inhabited RestoreJobStatus := populate
  (MkRestoreJobStatus "" None None "" 0 "" [] []).

Record RestoreJob := MkRestoreJob {
  rj_Meta : ObjectMeta;
  rj_Spec : RestoreJobSpec;
  rj_Status : RestoreJobStatus
}.

#[export] Instance RestoreJob_eta : Eta RestoreJob := λ r,
  {| rj_Meta := rj_Meta r; rj_Spec := rj_Spec r; rj_Status := rj_Status r |}.

#[export] Instance RestoreJob_eq_dec : EqDecision RestoreJob.
Proof. solve_decision. Defined.

#[export] Instance RestoreJob_inhabited : Inhabited RestoreJob := populate
  (MkRestoreJob inhabitant inhabitant inhabitant).

(** ** Defaulting methods *)

Definition NamespaceOr (r : ObjectReference) (defaultNamespace : string) : string :=
  if decide (or_Namespace r ≠ "") then or_Namespace r else defaultNamespace.

Definition RetentionPolicy_Empty (p : RetentionPolicy) : bool :=
  bool_decide (rp_Hourly p = 0 ∧ rp_Daily p = 0 ∧ rp_Weekly p = 0 ∧ rp_Monthly p = 0).

Definition TypeOrDefault (s : BackupStrategy) : string :=
  if decide (bst_Type s ≠ "") then bst_Type s else BackupStrategySnapshot.

Definition DeleteOrDefault (o : RsyncOptions) : bool := default true (ro_Delete o).
Definition OneFileSystemOrDefault (o : RsyncOptions) : bool := default true (ro_OneFileSystem o).
Definition HasOverrides (o : RsyncOptions) : bool :=
  bool_decide (ro_Delete o ≠ None ∨ ro_OneFileSystem o ≠ None).

Definition ConcurrencyPolicyOrDefault (s : RsyncMachineSpec) : string :=
  if decide (ms_ConcurrencyPolicy s ≠ "") then ms_ConcurrencyPolicy s else ConcurrencyPolicyForbid.

Definition SourcePathOrDefault (s : BackupSourceSpec) : string :=
  if decide (ss_SourcePath s ≠ "") then ss_SourcePath s else DefaultSourcePath.

Definition CaptureOrDefault (o : ConsistencyOptions) : string :=
  if decide (co_Capture o ≠ "") then co_Capture o else CaptureModeAuto.

Definition CleanupPolicyOrDefault (o : ConsistencyOptions) : string :=
  if decide (co_CleanupPolicy o ≠ "") then co_CleanupPolicy o else CleanupPolicyDelete.

Definition HasCountLimit (h : RunHistory) : bool := bool_decide (rh_Count h > 0).

Definition SuccessfulOrDefault (h : RunHistory) : Z :=
  if decide (rh_Successful h > 0) then rh_Successful h else DefaultSuccessfulRunHistory.

Definition FailedOrDefault (h : RunHistory) : Z :=
  if decide (rh_Failed h > 0) then rh_Failed h else DefaultFailedRunHistory.

Definition TriggerOrDefault (s : BackupJobSpec) : string :=
  if decide (bs_Trigger s ≠ "") then bs_Trigger s else BackupJobTriggerManual.

Definition SnapshotOrDefault (s : RestoreJobSpec) : string :=
  if decide (rs_Snapshot s ≠ "") then rs_Snapshot s else DefaultSnapshot.

(** [types.NamespacedName.String] *)
Definition nn_String (n : NamespacedName) : string := nn_Namespace n +:+ "/" +:+ nn_Name n.

Definition machine_ref (m : RsyncMachine) : NamespacedName :=
  MkNamespacedName (om_Namespace (m_Meta m)) (om_Name (m_Meta m)).
Definition source_ref (s : BackupSource) : NamespacedName :=
  MkNamespacedName (om_Namespace (s_Meta s)) (om_Name (s_Meta s)).

#[export] Hint Unfold NamespaceOr TypeOrDefault DeleteOrDefault : krm.
