(* ===== verification/RunSet.v ===== *)
(** * The run set of a target (internal/controller/helpers.go)

    Which sources a backup run of a machine includes and where each one is
    written: reference resolution, namespace admission, the effective
    destination paths, the conflict and overlap checks, and
    [CalculateTargetRunSet].  A Go map that is iterated is a list in iteration
    order; the theorems at the end say when the order cannot be observed. *)
From S2P Require Export Paths ApiTypes.
From stdpp Require Import options.
From Stdlib Require Import Ascii.

Record ResolvedSource := MkResolvedSource {
  rsrc_Ref : NamespacedName;
  rsrc_Source : BackupSource;
  rsrc_EffectiveDestinationPath : string
}.

Record TargetRunSet := MkTargetRunSet {
  trs_MachineRef : NamespacedName;
  trs_Machines : list ObjectReference;
  trs_Sources : list ResolvedSource;
  trs_Retention : RetentionPolicy
}.

Record DestinationPathConflict := MkConflict {
  dc_MachineRef : NamespacedName;
  dc_SourceNamespace : string;
  dc_DestinationPath : string;
  dc_Sources : list NamespacedName;
  dc_Machines : list NamespacedName
}.

Record DestinationPathOverlap := MkOverlap {
  do_MachineRef : NamespacedName;
  do_Path : string;
  do_Sources : list NamespacedName
}.

(** ** References and admission *)

Definition ResolveObjectReference (ref : ObjectReference) (defaultNamespace : string)
    : result NamespacedName :=
  if decide (or_Name ref = "") then Err (ErrNew "reference name is required")
  else
    let namespace := NamespaceOr ref defaultNamespace in
    if decide (namespace = "")
    then Err (ErrNew ("namespace is required for reference " +:+ Quote (or_Name ref)))
    else Ok (MkNamespacedName namespace (or_Name ref)).

Fixpoint namespace_in (machineNamespace : string) (allowed : list string)
    (namespace : string) : bool :=
  match allowed with
  | [] => false
  | item :: allowed =>
      if decide (item = "*") then true
      else if decide (item = ".")
      then bool_decide (namespace = machineNamespace)
           || namespace_in machineNamespace allowed namespace
      else bool_decide (namespace = item) || namespace_in machineNamespace allowed namespace
  end.

Definition namespaceAllowed (machineNamespace : string) (allowed : list string)
    (namespace : string) : bool :=
  if decide (namespace = "") then false
  else namespace_in machineNamespace
         (if decide (allowed = []) then ["."] else allowed) namespace.

Definition SourceNamespaceAllowed (machine : RsyncMachine) (namespace : string) : bool :=
  namespaceAllowed (om_Namespace (m_Meta machine))
    (ms_AllowedSourceNamespaces (m_Spec machine)) namespace.

Definition RestoreNamespaceAllowed (machine : RsyncMachine) (namespace : string) : bool :=
  namespaceAllowed (om_Namespace (m_Meta machine))
    (ms_AllowedRestoreNamespaces (m_Spec machine)) namespace.

(** ** Destination paths *)

Definition cleanRelativePath (value : string) : result string :=
  if decide (value = "" ∨ value = "/") then Ok ""
  else if IsAbs value
  then Err (ErrNew ("destination path " +:+ Quote value +:+ " must be relative"))
  else if ContainsByte value backslash
  then Err (ErrNew ("destination path " +:+ Quote value +:+ " must use '/' separators"))
  else if decide (".." ∈ Split value slash)
  then Err (ErrNew ("destination path " +:+ Quote value +:+ " must not contain '..'"))
  else
    let cleaned := Clean value in
    if decide (cleaned = ".") then Ok "" else Ok cleaned.

Definition effectiveDestinationPath (sourceNamespace destinationPath : string) : result string :=
  if decide (sourceNamespace = "") then Err (ErrNew "source namespace is required")
  else if decide (destinationPath = "" ∨ destinationPath = "/") then Ok sourceNamespace
  else cleaned ← cleanRelativePath destinationPath; Ok (path_Join [sourceNamespace; cleaned]).

Definition effectiveMirrorDestinationPath (destinationPath : string) : result string :=
  if decide (destinationPath = "" ∨ destinationPath = "/") then Ok ""
  else cleanRelativePath destinationPath.

Definition EffectiveDestinationPath (source : BackupSource) : result string :=
  effectiveDestinationPath (om_Namespace (s_Meta source)) (ss_DestinationPath (s_Spec source)).

Definition is_mirror (machine : RsyncMachine) : bool :=
  bool_decide (TypeOrDefault (ms_Strategy (m_Spec machine)) = BackupStrategyMirror).

Definition EffectiveDestinationPathForStrategy (machine : RsyncMachine)
    (source : BackupSource) : result string :=
  if is_mirror machine then effectiveMirrorDestinationPath (ss_DestinationPath (s_Spec source))
  else EffectiveDestinationPath source.

Definition PartialDestinationPath (runID : string) (source : BackupSource) : result string :=
  if decide (runID = "") then Err (ErrNew "run ID is required")
  else effective ← EffectiveDestinationPath source; Ok (path_Join [".partial"; runID; effective]).

Definition TransferDestinationPath (machine : RsyncMachine) (runID : string)
    (source : BackupSource) : result string :=
  if is_mirror machine then
    effective ← EffectiveDestinationPathForStrategy machine source;
    if decide (effective = "") then Ok "." else Ok effective
  else PartialDestinationPath runID source.

Definition TargetReady (target : RsyncMachine) : bool :=
  match list_find (λ c, cond_Type c = "Ready") (mst_Conditions (m_Status target)) with
  | Some (_, c) => bool_decide (cond_Status c ≠ "False")
  | None => true
  end.

Definition ActiveRunBlocksTargetMutation (phase : string) : bool :=
  bool_decide (phase ∈ [RunPhasePreparing; RunPhaseRunning; RunPhaseFinalizing]).

(** ** Conflicts between snapshot destinations *)

Definition sortedNamespacedNames (values : gset NamespacedName) : list NamespacedName :=
  sort_by_key nn_String (elements values).

(** The three [continue]s that open the loops over the sources. *)
Definition refers_to (machine : RsyncMachine) (source : BackupSource) : bool :=
  let ns := om_Namespace (s_Meta source) in
  match ResolveObjectReference (ss_MachineRef (s_Spec source)) ns with
  | Err _ => false
  | Ok ref => bool_decide (ref = machine_ref machine) && SourceNamespaceAllowed machine ns
  end.

Record claim := MkClaim {
  cl_machine : NamespacedName;
  cl_path : string;
  cl_source : NamespacedName
}.

Definition claim_key (machineRef : NamespacedName) (namespace path : string) : string :=
  strings_Join [nn_String machineRef; namespace; path] nul.

Definition source_path_error (source : BackupSource) (e : goerr) : goerr :=
  wrap ("source " +:+ nn_String (source_ref source) +:+ " destination path: ") e.

Definition add_claim (machine : RsyncMachine) (claimsByKey : gmap string (list claim))
    (source : BackupSource) : result (gmap string (list claim)) :=
  if negb (refers_to machine source) then Ok claimsByKey
  else if is_mirror machine then Ok claimsByKey
  else
    cleanedPath ← map_err (source_path_error source)
                    (cleanRelativePath (ss_DestinationPath (s_Spec source)));
    let key := claim_key (machine_ref machine) (om_Namespace (s_Meta source)) cleanedPath in
    let c := MkClaim (machine_ref machine) cleanedPath (source_ref source) in
    Ok (<[key := default [] (claimsByKey !! key) ++ [c]]> claimsByKey).

Definition conflict_of (claims : list claim) : option DestinationPathConflict :=
  let sourcesByRef : gset NamespacedName := list_to_set (cl_source <$> claims) in
  let machinesByRef : gset NamespacedName := list_to_set (cl_machine <$> claims) in
  if decide (size sourcesByRef ≤ 1)%nat then None
  else
    c ← head claims;
    Some (MkConflict (cl_machine c) (nn_Namespace (cl_source c)) (cl_path c)
            (sortedNamespacedNames sourcesByRef) (sortedNamespacedNames machinesByRef)).

Definition conflictKey (c : DestinationPathConflict) : string :=
  strings_Join [nn_String (dc_MachineRef c); dc_SourceNamespace c; dc_DestinationPath c] nul.

Definition DetectDestinationPathConflicts (machines : list RsyncMachine)
    (sources : list BackupSource) : result (list DestinationPathConflict) :=
  claimsByKey ← fold_result (λ acc machine, fold_result (add_claim machine) acc sources) ∅ machines;
  Ok (sort_by_key conflictKey (omap (λ kc, conflict_of kc.2) (map_to_list claimsByKey))).

(** ** Overlaps between mirror destinations *)

Definition mirrorPathsOverlap (a b : string) : bool :=
  if decide (a = "" ∨ b = "") then true
  else bool_decide (a = b) || HasPrefix a (b +:+ "/") || HasPrefix b (a +:+ "/").

Definition mirrorOverlapPath (a b : string) : string :=
  if decide (a = "" ∨ b = "") then "/"
  else if decide ((String.length a ≤ String.length b)%nat ∧ (a = b ∨ HasPrefix b (a +:+ "/") = true))
  then a else b.

Record mirror_claim := MkMirrorClaim {
  mc_path : string;
  mc_source : NamespacedName;
  mc_delete : bool
}.

Definition add_mirror_claim (machine : RsyncMachine) (claims : list mirror_claim)
    (source : BackupSource) : result (list mirror_claim) :=
  if negb (refers_to machine source) then Ok claims
  else
    effective ← map_err (source_path_error source)
                  (effectiveMirrorDestinationPath (ss_DestinationPath (s_Spec source)));
    Ok (claims ++ [MkMirrorClaim effective (source_ref source)
                     (DeleteOrDefault (ss_Rsync (s_Spec source)))]).

(** The references of an overlap after adding one that may be there already. *)
Definition add_ref (refs : list NamespacedName) (ref : NamespacedName) : list NamespacedName :=
  if decide (ref ∈ refs) then refs else refs ++ [ref].

Definition claims_overlap (a b : mirror_claim) : bool :=
  mirrorPathsOverlap (mc_path a) (mc_path b) && (mc_delete a || mc_delete b).

Definition add_overlap (machineRef : NamespacedName)
    (overlapByKey : gmap string DestinationPathOverlap) (ab : mirror_claim * mirror_claim)
    : gmap string DestinationPathOverlap :=
  let '(a, b) := ab in
  if negb (claims_overlap a b) then overlapByKey
  else
    let pathKey := mirrorOverlapPath (mc_path a) (mc_path b) in
    let key := nn_String machineRef +:+ nul +:+ pathKey in
    let refs := match overlapByKey !! key with Some o => do_Sources o | None => [] end in
    let refs := sort_by_key nn_String (add_ref (add_ref refs (mc_source a)) (mc_source b)) in
    <[key := MkOverlap machineRef pathKey refs]> overlapByKey.

Definition overlap_le (a b : DestinationPathOverlap) : Prop :=
  if decide (do_Path a = do_Path b)
  then String.le (nn_String (do_MachineRef a)) (nn_String (do_MachineRef b))
  else String.le (do_Path a) (do_Path b).

#[export] Instance overlap_le_dec : RelDecision overlap_le.
Proof. intros a b. unfold overlap_le. destruct (decide (do_Path a = do_Path b)); apply _. Defined.

Definition DetectMirrorDestinationPathOverlaps (machine : RsyncMachine)
    (sources : list BackupSource) : result (list DestinationPathOverlap) :=
  if negb (is_mirror machine) then Ok []
  else
    claims ← fold_result (add_mirror_claim machine) [] sources;
    let overlapByKey := foldl (add_overlap (machine_ref machine)) ∅ (pairs claims) in
    Ok (sort_by overlap_le (snd <$> map_to_list overlapByKey)).

(** ** The run set *)

Definition namespacedNameList (values : list NamespacedName) : string :=
  strings_Join (nn_String <$> values) ",".

Definition add_resolved (machine : RsyncMachine)
    (sourcesByRef : gmap NamespacedName ResolvedSource) (source : BackupSource)
    : result (gmap NamespacedName ResolvedSource) :=
  if negb (refers_to machine source) then Ok sourcesByRef
  else if decide (is_Some (sourcesByRef !! source_ref source)) then Ok sourcesByRef
  else
    effectivePath ← map_err (source_path_error source)
                      (EffectiveDestinationPathForStrategy machine source);
    Ok (<[source_ref source :=
            MkResolvedSource (source_ref source) source effectivePath]> sourcesByRef).

(** Go iterates over the map of sources three times, in three orders. *)
Definition CalculateTargetRunSet (machine : RsyncMachine)
    (sources1 sources2 sources3 : list BackupSource) : result TargetRunSet :=
  let strategy := ms_Strategy (m_Spec machine) in
  let ref := nn_String (machine_ref machine) in
  if decide (TypeOrDefault strategy ∉ [BackupStrategySnapshot; BackupStrategyMirror])
  then Err (ErrNew ("spec.strategy.type " +:+ Quote (bst_Type strategy) +:+ " is not supported"))
  else if is_mirror machine && negb (RetentionPolicy_Empty (ms_Retention (m_Spec machine)))
  then Err (ErrNew "spec.retention must be empty when spec.strategy.type is Mirror")
  else
    conflicts ← DetectDestinationPathConflicts [machine] sources1;
    match conflicts with
    | c :: _ =>
        Err (ErrNew ("target path conflict for " +:+ dc_SourceNamespace c +:+ "/" +:+
          dc_DestinationPath c +:+ " on " +:+ nn_String (dc_MachineRef c)))
    | [] =>
        overlaps ← DetectMirrorDestinationPathOverlaps machine sources2;
        match overlaps with
        | o :: _ =>
            Err (ErrNew ("mirror target path overlap at " +:+ Quote (do_Path o) +:+ " on " +:+
              nn_String (do_MachineRef o) +:+ " with delete enabled for sources " +:+
              namespacedNameList (do_Sources o)))
        | [] =>
            sourcesByRef ← fold_result (add_resolved machine) ∅ sources3;
            let sourceRefs := sort_by_key nn_String (map_to_list sourcesByRef).*1 in
            let resolved := omap (λ r, sourcesByRef !! r) sourceRefs in
            if decide (resolved = [])
            then Err (ErrNew ("RsyncMachine " +:+ ref +:+ " has no referencing BackupSource objects"))
            else Ok (MkTargetRunSet (machine_ref machine)
                       [MkObjectReference (om_Namespace (m_Meta machine)) (om_Name (m_Meta machine))]
                       resolved (ms_Retention (m_Spec machine)))
        end
    end.

Definition maxInt (a b : Z) : Z := if decide (a > b) then a else b.

Definition maxRetention (a b : RetentionPolicy) : RetentionPolicy :=
  MkRetentionPolicy (maxInt (rp_Hourly a) (rp_Hourly b)) (maxInt (rp_Daily a) (rp_Daily b))
    (maxInt (rp_Weekly a) (rp_Weekly b)) (maxInt (rp_Monthly a) (rp_Monthly b)).

(** ** Lemmas on admission and paths *)

Lemma namespace_in_spec mns allowed ns :
  namespace_in mns allowed ns = true ↔
  "*" ∈ allowed ∨ ("." ∈ allowed ∧ ns = mns) ∨ (ns ∈ allowed ∧ ns ≠ ".").
Proof.
  induction allowed as [|item allowed IH]; cbn [namespace_in]; [set_solver|].
  repeat case_decide; rewrite ?orb_true_iff, ?bool_decide_eq_true, ?IH; set_solver.
Qed.

Lemma cleanRelativePath_Ok v c :
  cleanRelativePath v = Ok c ↔
  (v = "/" ∧ c = "") ∨
  (HasPrefix v "/" = false ∧ ContainsByte v backslash = false ∧
   ".." ∉ Split v slash ∧ c = strings_Join (kept_segs v) "/").
Proof.
  unfold cleanRelativePath. case_decide as Hv.
  { destruct Hv as [->| ->]; cbn; [|naive_solver].
    split; [intros [= <-]; right|naive_solver]. repeat split.
    by intros ?%list_elem_of_singleton. }
  unfold IsAbs. destruct (HasPrefix v "/") eqn:Ha; [naive_solver|].
  destruct (ContainsByte v backslash) eqn:Hb; [naive_solver|].
  case_decide as Hd; [naive_solver|].
  assert (Clean v = if decide (kept_segs v = []) then "." else strings_Join (kept_segs v) "/") as ->.
  { unfold Clean. rewrite decide_False by naive_solver. unfold IsAbs. rewrite Ha.
    rewrite clean_segs_filter, reverse_nil, (left_id_L [] (++)) by done. fold (kept_segs v).
    destruct (decide (kept_segs v = [])) as [->|Hn]; [done|].
    rewrite decide_False; [done|]. apply Join_plain_nonempty; [done|]. by apply kept_segs_plain. }
  cbn zeta. destruct (decide (kept_segs v = [])) as [Hk|Hk].
  { rewrite Hk. cbn. naive_solver. }
  rewrite decide_False; [naive_solver|]. intros Hdot.
  pose proof (kept_segs_plain v Hd) as Hp.
  pose proof (Split_Join_plain _ Hk Hp) as Hs. rewrite Hdot in Hs. cbn in Hs.
  rewrite <-Hs in Hp. apply Forall_cons in Hp as [(_ & ? & _) _]. done.
Qed.

(** The controller accepts what the data plane accepts, with the same result,
    and besides that only the spellings of the empty path. *)
Lemma cleanRelativePath_Normalize v c :
  cleanRelativePath v = Ok c ∧ c ≠ "" ↔ NormalizeRelativePath v = Ok c.
Proof.
  rewrite cleanRelativePath_Ok, NormalizeRelativePath_Ok. unfold acceptable. split.
  - intros [[[-> ->]|(?&?&?&->)] Hc]; [done|]. repeat split; auto.
    intros Hk. by rewrite Hk in Hc.
  - intros [(?&?&?&?) ->]. split; [naive_solver|].
    apply Join_plain_nonempty; [done|]. by apply kept_segs_plain.
Qed.

Lemma cleanRelativePath_shape v c :
  cleanRelativePath v = Ok c → ∃ segs, Forall plain_seg segs ∧ c = strings_Join segs "/".
Proof.
  intros [[_ ->]|(_&_&Hd&->)]%cleanRelativePath_Ok; [by exists []|].
  exists (kept_segs v). split; [by apply kept_segs_plain|done].
Qed.

Lemma path_Join_ns ns segs :
  plain_seg ns → Forall plain_seg segs →
  path_Join [ns; strings_Join segs "/"] = strings_Join (ns :: segs) "/".
Proof.
  intros Hns Hp. destruct (decide (segs = [])) as [->|Hn].
  - unfold path_Join. rewrite filter_cons_True by (by apply plain_seg_nil_app).
    rewrite filter_cons_False by (by intros []). rewrite filter_nil.
    rewrite decide_False by done. apply (Clean_plain [ns]); [done|]. by apply Forall_singleton.
  - rewrite path_Join_2 by first [by apply plain_seg_nil_app | by apply Join_plain_nonempty].
    rewrite Join_cons by done. rewrite <-(Join_cons ns segs "/") by done.
    apply Clean_plain; [done|]. by apply Forall_cons.
Qed.

Lemma effectiveDestinationPath_Ok ns d p :
  plain_seg ns →
  effectiveDestinationPath ns d = Ok p ↔
  ∃ segs, Forall plain_seg segs ∧ cleanRelativePath d = Ok (strings_Join segs "/") ∧
          p = strings_Join (ns :: segs) "/".
Proof.
  intros Hns. unfold effectiveDestinationPath.
  rewrite decide_False by (by apply plain_seg_nil_app). case_decide as Hd.
  - assert (cleanRelativePath d = Ok "") as ->.
    { unfold cleanRelativePath. by rewrite decide_True. }
    split.
    + intros [= <-]. by exists [].
    + intros (segs & Hp & Heq & ->). injection Heq as Heq.
      destruct (decide (segs = [])) as [->|Hn]; [done|]. by destruct (Join_plain_nonempty segs).
  - rewrite bind_Ok. split.
    + intros (c & Hc & [= <-]). destruct (cleanRelativePath_shape _ _ Hc) as (segs & Hp & ->).
      exists segs. rewrite path_Join_ns by done. done.
    + intros (segs & Hp & Hc & ->). eexists. split; [done|]. by rewrite path_Join_ns.
Qed.

(** ** Lemmas on the conflict check *)

Section conflicts.
Context (m : RsyncMachine).

Definition clean_dest (s : BackupSource) : result string :=
  cleanRelativePath (ss_DestinationPath (s_Spec s)).

Definition source_key (s : BackupSource) (p : string) : string :=
  claim_key (machine_ref m) (om_Namespace (s_Meta s)) p.

Definition is_claim_of (s : BackupSource) (key : string) (c : claim) : Prop :=
  refers_to m s = true ∧ is_mirror m = false ∧
  ∃ p, clean_dest s = Ok p ∧ key = source_key s p ∧
       c = MkClaim (machine_ref m) p (source_ref s).

Lemma claims_spec ss M :
  fold_result (add_claim m) ∅ ss = Ok M →
  ∀ key c, c ∈ default [] (M !! key) ↔ ∃ s, s ∈ ss ∧ is_claim_of s key c.
Proof.
  intros HM. eapply (fold_result_ind (add_claim m)
    (λ done M, ∀ key c, c ∈ default [] (M !! key) ↔ ∃ s, s ∈ done ∧ is_claim_of s key c));
    [| |exact HM].
  - intros key c. rewrite lookup_empty. cbn. set_solver.
  - clear. intros prev s M M' IH Hstep key c. unfold add_claim in Hstep.
    rewrite exists_snoc, <-IH. clear IH. unfold is_claim_of.
    destruct (refers_to m s) eqn:Hr; cbn [negb] in Hstep; [|injection Hstep as <-; intuition done].
    destruct (is_mirror m) eqn:Hm; [injection Hstep as <-; intuition done|].
    apply bind_Ok in Hstep as (p & Hp%map_err_Ok & [= <-]).
    fold (clean_dest s) in Hp. fold (source_key s p).
    destruct (decide (key = source_key s p)) as [->|Hne].
    + rewrite lookup_insert_eq. cbn. rewrite elem_of_app, list_elem_of_singleton.
      naive_solver.
    + rewrite lookup_insert_ne by done. split; [by left|].
      intros [?|(_ & _ & p0 & Hp0 & Hk & _)]; [done|congruence].
Qed.

(** What the absence of conflicts means, independently of any order. *)
Definition conflict_free (ss : list BackupSource) : Prop :=
  (∀ s, s ∈ ss → refers_to m s = true → ∃ p, clean_dest s = Ok p) ∧
  (∀ s1 s2 p1 p2, s1 ∈ ss → s2 ∈ ss → refers_to m s1 = true → refers_to m s2 = true →
     clean_dest s1 = Ok p1 → clean_dest s2 = Ok p2 → source_key s1 p1 = source_key s2 p2 →
     source_ref s1 = source_ref s2).

Lemma conflict_of_None claims :
  conflict_of claims = None ↔ ∀ c1 c2, c1 ∈ claims → c2 ∈ claims → cl_source c1 = cl_source c2.
Proof.
  unfold conflict_of. set (X := list_to_set (cl_source <$> claims) : gset _).
  assert ((size X ≤ 1)%nat ↔ ∀ c1 c2, c1 ∈ claims → c2 ∈ claims → cl_source c1 = cl_source c2)
    as Hsize.
  { transitivity (∀ x y, x ∈ X → y ∈ X → x = y).
    - split.
      + intros Hs x y Hx Hy. destruct (decide (size X = 0%nat)) as [H0|H0].
        * apply size_empty_inv in H0. set_solver.
        * apply (size_singleton_inv X); [lia|done|done].
      + intros H. destruct (set_choose_or_empty X) as [[x Hx]|He].
        * assert (X ⊆ {[x]}) as Hsub by set_solver.
          apply subseteq_size in Hsub. by rewrite size_singleton in Hsub.
        * rewrite He, size_empty. lia.
    - unfold X. setoid_rewrite elem_of_list_to_set. setoid_rewrite list_elem_of_fmap.
      naive_solver. }
  rewrite <-Hsize. case_decide; [done|]. split; [|done]. destruct claims as [|c cs]; [|done].
  intros _. unfold X. cbn. rewrite size_empty. lia.
Qed.
Lemma add_claim_total ss M :
  (is_mirror m = true ∨ ∀ s, s ∈ ss → refers_to m s = true → ∃ p, clean_dest s = Ok p) →
  ∃ M', fold_result (add_claim m) M ss = Ok M'.
Proof.
  intros H. apply fold_result_total. intros s Hs b. unfold add_claim.
  destruct (refers_to m s) eqn:Hr; cbn [negb]; [|eauto].
  destruct (is_mirror m) eqn:Hm; [eauto|]. destruct H as [|H]; [done|].
  destruct (H s Hs Hr) as [p Hp]. unfold clean_dest in Hp. rewrite Hp. cbn. eauto.
Qed.

Lemma add_claim_clean ss M M' :
  is_mirror m = false → fold_result (add_claim m) M ss = Ok M' →
  ∀ s, s ∈ ss → refers_to m s = true → ∃ p, clean_dest s = Ok p.
Proof.
  intros Hm HM s Hs Hr. destruct (fold_result_steps _ _ _ _ HM s Hs) as (b1 & b2 & Hstep).
  unfold add_claim in Hstep. rewrite Hr, Hm in Hstep. cbn [negb] in Hstep.
  apply bind_Ok in Hstep as (p & Hp%map_err_Ok & _). eauto.
Qed.

Lemma DetectDestinationPathConflicts_nil ss :
  DetectDestinationPathConflicts [m] ss = Ok [] ↔ is_mirror m = true ∨ conflict_free ss.
Proof.
  unfold DetectDestinationPathConflicts. rewrite bind_Ok. cbn [fold_result].
  setoid_rewrite bind_Ok.
  assert (∀ M, fold_result (add_claim m) ∅ ss = Ok M →
    (sort_by_key conflictKey (omap (λ kc, conflict_of kc.2) (map_to_list M)) = [] ↔
     ∀ k c1 c2, c1 ∈ default [] (M !! k) → c2 ∈ default [] (M !! k) →
       cl_source c1 = cl_source c2)) as Hnil.
  { intros M _. transitivity (omap (λ kc, conflict_of kc.2) (map_to_list M) = []).
    - split; intros H.
      + apply Permutation_nil. rewrite <-H. apply sort_by_key_perm.
      + by rewrite H.
    - rewrite omap_nil. split.
      + intros H k c1 c2. destruct (M !! k) as [cs|] eqn:Hk; cbn; [|set_solver].
        apply conflict_of_None. apply (H (k, cs)). by apply elem_of_map_to_list.
      + intros H [k cs] Hk%elem_of_map_to_list. cbn. apply conflict_of_None.
        specialize (H k). by rewrite Hk in H. }
  split.
  - intros (M & (M0 & HM & [= ->]) & [= Hs]). destruct (is_mirror m) eqn:Hm; [by left|right].
    rewrite Hnil in Hs by done. split; [eauto using add_claim_clean|].
    intros s1 s2 p1 p2 H1 H2 Hr1 Hr2 Hp1 Hp2 Hk. pose proof (claims_spec ss M HM) as Hc.
    apply (Hs (source_key s1 p1) (MkClaim (machine_ref m) p1 (source_ref s1))
             (MkClaim (machine_ref m) p2 (source_ref s2)));
      apply Hc; [exists s1|exists s2]; unfold is_claim_of; naive_solver.
  - intros Hcf. destruct (add_claim_total ss ∅) as [M HM].
    { destruct Hcf as [|[? _]]; eauto. }
    exists M. split; [eauto|]. f_equal. apply Hnil; [done|]. intros k c1 c2.
    rewrite !(claims_spec ss M HM).
    intros (s1 & H1 & Hr1 & Hm & p1 & Hp1 & -> & ->) (s2 & H2 & Hr2 & _ & p2 & Hp2 & Hk & ->).
    destruct Hcf as [|[_ Hcf]]; [congruence|]. cbn. eauto.
Qed.
End conflicts.

#[export] Instance conflict_free_proper m : Proper ((≡ₚ) ==> iff) (conflict_free m).
Proof. intros l l' Hp. unfold conflict_free. by setoid_rewrite Hp. Qed.

(** ** Lemmas on the overlap check *)

Lemma HasPrefix_Join sa sb :
  sa ≠ [] → sb ≠ [] → Forall plain_seg sa → Forall plain_seg sb →
  HasPrefix (strings_Join sa "/") (strings_Join sb "/" +:+ "/") = true ↔
  sb `prefix_of` sa ∧ sa ≠ sb.
Proof.
  intros Ha Hb Hpa Hpb. rewrite HasPrefix_spec. split.
  - intros [t Ht]. rewrite str_app_assoc in Ht.
    apply (f_equal (λ s, Split s slash)) in Ht.
    rewrite Split_app_slash, !Split_Join_plain in Ht by done. subst. split; [by eexists|].
    intros Heq. apply (f_equal length) in Heq. rewrite length_app in Heq.
    pose proof (Split_nonempty t slash). destruct (Split t slash); [done|]. cbn in Heq. lia.
  - intros [[rest ->] Hne]. exists (strings_Join rest "/"). rewrite str_app_assoc.
    apply Join_app; [done|]. intros ->. by rewrite (right_id_L [] (++)) in Hne.
Qed.

Lemma Join_plain_empty segs : Forall plain_seg segs → strings_Join segs "/" = "" ↔ segs = [].
Proof.
  intros Hp. split; [|by intros ->]. intros H. destruct (decide (segs = [])) as [|Hn]; [done|].
  by destruct (Join_plain_nonempty segs Hn Hp).
Qed.

Lemma Join_plain_inj sa sb :
  Forall plain_seg sa → Forall plain_seg sb →
  strings_Join sa "/" = strings_Join sb "/" ↔ sa = sb.
Proof.
  intros Ha Hb. split; [|by intros ->]. intros H.
  destruct (decide (sa = [])) as [->|Hna].
  { symmetry in H. by apply Join_plain_empty in H. }
  destruct (decide (sb = [])) as [->|Hnb]; [by apply Join_plain_empty in H|].
  rewrite <-(Split_Join_plain sa), <-(Split_Join_plain sb) by done. by rewrite H.
Qed.

(** The overlap test on strings is the prefix order on segment lists. *)
Lemma mirrorPathsOverlap_segs sa sb :
  Forall plain_seg sa → Forall plain_seg sb →
  mirrorPathsOverlap (strings_Join sa "/") (strings_Join sb "/") = true ↔
  sa `prefix_of` sb ∨ sb `prefix_of` sa.
Proof.
  intros Ha Hb. unfold mirrorPathsOverlap.
  case_decide as Hn; rewrite !Join_plain_empty in Hn by done.
  { split; [|done]. intros _. destruct Hn as [->| ->]; [left|right]; apply prefix_nil. }
  rewrite !orb_true_iff, bool_decide_eq_true, !HasPrefix_Join, Join_plain_inj by naive_solver.
  destruct (decide (sa = sb)) as [->|Hne]; [|naive_solver].
  split; [by left|by left; left].
Qed.

Lemma mirrorPathsOverlap_sym a b : mirrorPathsOverlap a b = mirrorPathsOverlap b a.
Proof.
  unfold mirrorPathsOverlap. repeat case_decide; try naive_solver.
  apply eq_true_iff_eq. rewrite !orb_true_iff, !bool_decide_eq_true. naive_solver.
Qed.

Lemma claims_overlap_sym a b : claims_overlap a b = claims_overlap b a.
Proof. unfold claims_overlap. by rewrite mirrorPathsOverlap_sym, orb_comm. Qed.

Lemma effectiveMirrorDestinationPath_clean d :
  effectiveMirrorDestinationPath d = cleanRelativePath d.
Proof. unfold effectiveMirrorDestinationPath, cleanRelativePath. by case_decide. Qed.

Lemma add_overlap_nonempty ref M ab : M ≠ ∅ → add_overlap ref M ab ≠ ∅.
Proof.
  intros HM. destruct ab as [a b]. unfold add_overlap.
  destruct (claims_overlap a b); [apply insert_non_empty|done].
Qed.

Lemma foldl_add_overlap_empty ref ps M :
  foldl (add_overlap ref) M ps = ∅ ↔ M = ∅ ∧ ∀ ab, ab ∈ ps → claims_overlap ab.1 ab.2 = false.
Proof.
  revert M. induction ps as [|[a b] ps IH]; intros M; cbn [foldl]; [set_solver|].
  rewrite IH. unfold add_overlap. destruct (claims_overlap a b) eqn:Ho; cbn [negb].
  - split; [by intros [?%insert_non_empty _]|]. intros [_ H].
    specialize (H (a, b) ltac:(set_solver)). cbn in H. congruence.
  - set_solver.
Qed.

Section overlaps.
Context (m : RsyncMachine).

Definition is_mirror_claim_of (s : BackupSource) (c : mirror_claim) : Prop :=
  clean_dest s = Ok (mc_path c) ∧ mc_source c = source_ref s ∧
  mc_delete c = DeleteOrDefault (ss_Rsync (s_Spec s)).

Lemma mirror_claims_spec ss cs :
  fold_result (add_mirror_claim m) [] ss = Ok cs →
  Forall2 is_mirror_claim_of (filter (λ s, refers_to m s = true) ss) cs.
Proof.
  intros H. eapply (fold_result_ind (add_mirror_claim m)
    (λ prev cs, Forall2 is_mirror_claim_of (filter (λ s, refers_to m s = true) prev) cs));
    [constructor| |exact H].
  clear. intros prev s cs cs' IH Hstep. rewrite filter_app, filter_cons, filter_nil.
  unfold add_mirror_claim in Hstep. destruct (refers_to m s) eqn:Hr; cbn [negb] in Hstep.
  - rewrite decide_True by done. apply bind_Ok in Hstep as (p & Hp%map_err_Ok & [= <-]).
    apply Forall2_app; [done|]. repeat constructor.
    rewrite effectiveMirrorDestinationPath_clean in Hp. done.
  - rewrite decide_False by done. injection Hstep as <-. by rewrite (right_id_L [] (++)).
Qed.

Definition mirror_free (ss : list BackupSource) : Prop :=
  (∀ s, s ∈ ss → refers_to m s = true → ∃ p, clean_dest s = Ok p) ∧
  (∀ s1 s2 p1 p2, s1 ∈ ss → s2 ∈ ss → refers_to m s1 = true → refers_to m s2 = true →
     source_ref s1 ≠ source_ref s2 → clean_dest s1 = Ok p1 → clean_dest s2 = Ok p2 →
     mirrorPathsOverlap p1 p2 &&
     (DeleteOrDefault (ss_Rsync (s_Spec s1)) || DeleteOrDefault (ss_Rsync (s_Spec s2))) = false).

Lemma mirror_claims_total ss cs :
  (∀ s, s ∈ ss → refers_to m s = true → ∃ p, clean_dest s = Ok p) →
  ∃ cs', fold_result (add_mirror_claim m) cs ss = Ok cs'.
Proof.
  intros H. apply fold_result_total. intros s Hs b. unfold add_mirror_claim.
  destruct (refers_to m s) eqn:Hr; cbn [negb]; [|eauto].
  rewrite effectiveMirrorDestinationPath_clean. destruct (H s Hs Hr) as [p Hp].
  unfold clean_dest in Hp. rewrite Hp. cbn. eauto.
Qed.

Lemma mirror_claims_clean ss cs cs' :
  fold_result (add_mirror_claim m) cs ss = Ok cs' →
  ∀ s, s ∈ ss → refers_to m s = true → ∃ p, clean_dest s = Ok p.
Proof.
  intros HM s Hs Hr. destruct (fold_result_steps _ _ _ _ HM s Hs) as (b1 & b2 & Hstep).
  unfold add_mirror_claim in Hstep. rewrite Hr in Hstep. cbn [negb] in Hstep.
  apply bind_Ok in Hstep as (p & Hp%map_err_Ok & _).
  rewrite effectiveMirrorDestinationPath_clean in Hp. eauto.
Qed.

Lemma DetectMirror_Ok_nil ss cs :
  is_mirror m = true → fold_result (add_mirror_claim m) [] ss = Ok cs →
  DetectMirrorDestinationPathOverlaps m ss = Ok [] ↔
  ∀ a b, (a, b) ∈ pairs cs → claims_overlap a b = false.
Proof.
  intros Hm Hcs. unfold DetectMirrorDestinationPathOverlaps. rewrite Hm, Hcs. cbn [negb mbind result_bind].
  transitivity (foldl (add_overlap (machine_ref m)) ∅ (pairs cs) = ∅).
  - split; [|intros ->; by rewrite map_to_list_empty]. intros [= Hs].
    apply map_to_list_empty_iff. apply (fmap_nil_inv snd). apply Permutation_nil.
    rewrite <-Hs. apply merge_sort_Permutation.
  - rewrite foldl_add_overlap_empty. split; [|by intros H; split; [done|intros []; apply H]].
    intros [_ H] a b Hab. by apply (H (a, b)).
Qed.

Lemma DetectMirror_nil ss :
  NoDup (source_ref <$> ss) →
  DetectMirrorDestinationPathOverlaps m ss = Ok [] ↔ is_mirror m = false ∨ mirror_free ss.
Proof.
  intros Hnd. destruct (is_mirror m) eqn:Hm.
  2:{ unfold DetectMirrorDestinationPathOverlaps. rewrite Hm. cbn. naive_solver. }
  set (fl := filter (λ s, refers_to m s = true) ss).
  assert (NoDup (source_ref <$> fl)) as Hndf.
  { eapply sublist_NoDup; [exact Hnd|]. apply fmap_sublist, sublist_filter. }
  split.
  - intros H. right. pose proof H as H'.
    unfold DetectMirrorDestinationPathOverlaps in H'. rewrite Hm in H'. cbn [negb] in H'.
    apply bind_Ok in H' as (cs & Hcs & _). pose proof (mirror_claims_spec _ _ Hcs) as Hf.
    fold fl in Hf.
    rewrite (DetectMirror_Ok_nil ss cs) in H by done.
    split; [by eapply mirror_claims_clean|].
    intros s1 s2 p1 p2 H1 H2 Hr1 Hr2 Hne Hp1 Hp2.
    assert (s1 ∈ fl ∧ s2 ∈ fl) as [[i Hi]%list_elem_of_lookup [j Hj]%list_elem_of_lookup]
      by (split; apply list_elem_of_filter; done).
    destruct (Forall2_lookup_l _ _ _ i s1 Hf Hi) as (c1 & Hc1 & Hpc1 & _ & Hd1).
    destruct (Forall2_lookup_l _ _ _ j s2 Hf Hj) as (c2 & Hc2 & Hpc2 & _ & Hd2).
    rewrite Hp1 in Hpc1. rewrite Hp2 in Hpc2. injection Hpc1 as ->. injection Hpc2 as ->.
    rewrite <-Hd1, <-Hd2. fold (claims_overlap c1 c2).
    destruct (lt_eq_lt_dec i j) as [[Hij|<-]|Hij].
    + apply H, elem_of_pairs. eauto.
    + congruence.
    + rewrite claims_overlap_sym. apply H, elem_of_pairs. eauto.
  - intros [?|[Hcl Hov]]; [done|]. destruct (mirror_claims_total ss []) as [cs Hcs]; [done|].
    rewrite (DetectMirror_Ok_nil ss cs) by done. intros a b Hab.
    apply elem_of_pairs in Hab as (i & j & Hij & Ha & Hb).
    pose proof (mirror_claims_spec _ _ Hcs) as Hf. fold fl in Hf.
    destruct (Forall2_lookup_r _ _ _ i a Hf Ha) as (s1 & Hs1 & Hp1 & _ & Hd1).
    destruct (Forall2_lookup_r _ _ _ j b Hf Hb) as (s2 & Hs2 & Hp2 & _ & Hd2).
    unfold claims_overlap. rewrite Hd1, Hd2.
    pose proof (list_elem_of_lookup_2 _ _ _ Hs1) as [Hr1 Hin1]%list_elem_of_filter.
    pose proof (list_elem_of_lookup_2 _ _ _ Hs2) as [Hr2 Hin2]%list_elem_of_filter.
    apply (Hov s1 s2); try done. intros Heq.
    assert (i = j); [|lia]. eapply NoDup_lookup; [exact Hndf| |];
      rewrite list_lookup_fmap; [by rewrite Hs1|by rewrite Hs2, Heq].
Qed.
End overlaps.

#[export] Instance mirror_free_proper m : Proper ((≡ₚ) ==> iff) (mirror_free m).
Proof. intros l l' Hp. unfold mirror_free. by setoid_rewrite Hp. Qed.

(** ** Lemmas on the resolved sources *)

Section resolved.
Context (m : RsyncMachine).

Definition is_resolved (s : BackupSource) (r : ResolvedSource) : Prop :=
  refers_to m s = true ∧
  ∃ p, EffectiveDestinationPathForStrategy m s = Ok p ∧
       r = MkResolvedSource (source_ref s) s p.

Lemma resolved_spec ss M :
  NoDup (source_ref <$> ss) → fold_result (add_resolved m) ∅ ss = Ok M →
  ∀ ref r, M !! ref = Some r ↔ ∃ s, s ∈ ss ∧ ref = source_ref s ∧ is_resolved s r.
Proof.
  intros Hnd HM. revert Hnd. eapply (fold_result_ind (add_resolved m)
    (λ prev M, NoDup (source_ref <$> prev) → ∀ ref r, M !! ref = Some r ↔
       ∃ s, s ∈ prev ∧ ref = source_ref s ∧ is_resolved s r)); [| |exact HM].
  { intros _ ref r. rewrite lookup_empty. set_solver. }
  clear. intros prev s M M' IH Hstep Hnd ref r.
  rewrite fmap_app in Hnd. apply NoDup_app in Hnd as (Hnd & Hnew & _).
  specialize (IH Hnd). rewrite exists_snoc, <-IH. unfold add_resolved in Hstep.
  unfold is_resolved. destruct (refers_to m s) eqn:Hr; cbn [negb] in Hstep.
  2:{ injection Hstep as <-. intuition done. }
  case_decide as Hs.
  { exfalso. destruct Hs as [r' Hr']. apply IH in Hr' as (s' & Hin & Heq & _).
    apply (Hnew (source_ref s)); [|set_solver]. rewrite Heq. by apply list_elem_of_fmap_2. }
  apply bind_Ok in Hstep as (p & Hp%map_err_Ok & [= <-]).
  apply eq_None_not_Some in Hs. destruct (decide (ref = source_ref s)) as [->|Hne].
  - rewrite lookup_insert_eq, Hs. split.
    + intros [= <-]. right. eauto.
    + intros [?|(_ & _ & p' & Hp' & ->)]; [done|]. congruence.
  - rewrite lookup_insert_ne by done. split; [by left|]. intros [?|(? & _)]; done.
Qed.

Lemma resolved_steps ss M M' :
  NoDup (source_ref <$> ss) → fold_result (add_resolved m) M ss = Ok M' →
  (∀ s, s ∈ ss → M !! source_ref s = None) →
  ∀ s, s ∈ ss → refers_to m s = true →
  ∃ p, EffectiveDestinationPathForStrategy m s = Ok p.
Proof.
  revert M. induction ss as [|x ss IH]; intros M Hnd; cbn [fold_result]; [set_solver|].
  apply NoDup_cons in Hnd as [Hx Hnd]. rewrite bind_Ok. intros (M1 & Hstep & HM) Hnone s Hs Hr.
  unfold add_resolved in Hstep.
  assert (∀ y, y ∈ ss → source_ref y ≠ source_ref x) as Hne.
  { intros y Hy Heq. apply Hx. rewrite <-Heq. by apply list_elem_of_fmap_2. }
  destruct (refers_to m x) eqn:Hrx; cbn [negb] in Hstep.
  2:{ injection Hstep as <-. apply elem_of_cons in Hs as [->|Hs]; [congruence|].
      apply (IH M); auto. set_solver. }
  rewrite decide_False in Hstep by (rewrite Hnone by set_solver; by intros []).
  apply bind_Ok in Hstep as (p & Hp%map_err_Ok & [= <-]).
  apply elem_of_cons in Hs as [->|Hs]; [eauto|].
  eapply IH; [done|exact HM| |done|done]. intros y Hy.
  rewrite lookup_insert_ne by (symmetry; auto). set_solver.
Qed.

Lemma resolved_total ss M :
  (∀ s, s ∈ ss → refers_to m s = true → ∃ p, EffectiveDestinationPathForStrategy m s = Ok p) →
  ∃ M', fold_result (add_resolved m) M ss = Ok M'.
Proof.
  intros H. apply fold_result_total. intros s Hs b. unfold add_resolved.
  destruct (refers_to m s) eqn:Hr; cbn [negb]; [|eauto]. case_decide; [eauto|].
  destruct (H s Hs Hr) as [p ->]. cbn. eauto.
Qed.

(** The map of resolved sources does not depend on the iteration order. *)
Lemma resolved_perm ss ss' M :
  NoDup (source_ref <$> ss) → ss ≡ₚ ss' →
  fold_result (add_resolved m) ∅ ss = Ok M → fold_result (add_resolved m) ∅ ss' = Ok M.
Proof.
  intros Hnd Hp HM. assert (NoDup (source_ref <$> ss')) as Hnd' by by rewrite <-Hp.
  destruct (resolved_total ss' ∅) as [M' HM'].
  { intros s. rewrite <-Hp. intros Hs Hr.
    apply (resolved_steps ss ∅ M Hnd HM); [|done|done]. intros. apply lookup_empty. }
  rewrite HM'. f_equal. apply map_eq. intros ref. apply option_eq. intros r.
  rewrite (resolved_spec ss' M'), (resolved_spec ss M) by done. by setoid_rewrite Hp.
Qed.
End resolved.

(** Inversion of a successful [CalculateTargetRunSet]. *)
Lemma CalculateTargetRunSet_inv m ss1 ss2 ss3 rs :
  CalculateTargetRunSet m ss1 ss2 ss3 = Ok rs ↔
  TypeOrDefault (ms_Strategy (m_Spec m)) ∈ [BackupStrategySnapshot; BackupStrategyMirror] ∧
  (is_mirror m = true → RetentionPolicy_Empty (ms_Retention (m_Spec m)) = true) ∧
  DetectDestinationPathConflicts [m] ss1 = Ok [] ∧
  DetectMirrorDestinationPathOverlaps m ss2 = Ok [] ∧
  ∃ M, fold_result (add_resolved m) ∅ ss3 = Ok M ∧
    let resolved := omap (λ r, M !! r) (sort_by_key nn_String (map_to_list M).*1) in
    resolved ≠ [] ∧
    rs = MkTargetRunSet (machine_ref m)
           [MkObjectReference (om_Namespace (m_Meta m)) (om_Name (m_Meta m))]
           resolved (ms_Retention (m_Spec m)).
Proof.
  unfold CalculateTargetRunSet. case_decide as Ht; [naive_solver|].
  cbn zeta.
  destruct (is_mirror m && negb (RetentionPolicy_Empty _)) eqn:Hmr.
  { apply andb_true_iff in Hmr as [Hm He%negb_true_iff]. split; [done|].
    intros (_ & Hr & _). specialize (Hr Hm). congruence. }
  apply andb_false_iff in Hmr. rewrite bind_Ok. split.
  - intros ([|c cs] & Hc & H); [|done]. apply bind_Ok in H as ([|o os] & Ho & H); [|done].
    apply bind_Ok in H as (M & HM & H). case_decide as Hn; [done|]. injection H as <-.
    split; [done|]. split; [destruct Hmr as [|?%negb_false_iff]; congruence|]. eauto 10.
  - intros (_ & _ & Hc & Ho & M & HM & Hn & ->). exists []. split; [done|].
    rewrite Ho, HM. cbn [mbind result_bind]. by rewrite decide_False.
Qed.

Lemma resolved_refs (M : gmap NamespacedName ResolvedSource) (refs : list NamespacedName) :
  (∀ ref r, M !! ref = Some r → rsrc_Ref r = ref) →
  (∀ ref, ref ∈ refs → is_Some (M !! ref)) →
  rsrc_Ref <$> omap (λ r, M !! r) refs = refs.
Proof.
  intros Href. induction refs as [|ref refs IH]; intros Hin; [done|]. cbn.
  destruct (Hin ref ltac:(set_solver)) as [r Hr]. rewrite Hr. cbn.
  rewrite (Href _ _ Hr), IH; [done|]. set_solver.
Qed.

Section accepted.
Context (m : RsyncMachine) (ss1 ss2 ss3 : list BackupSource) (rs : TargetRunSet).
Context (Hnd : NoDup (source_ref <$> ss3)) (Hok : CalculateTargetRunSet m ss1 ss2 ss3 = Ok rs).

Lemma run_set_sources :
  ∃ M, fold_result (add_resolved m) ∅ ss3 = Ok M ∧
    trs_Sources rs = omap (λ r, M !! r) (sort_by_key nn_String (map_to_list M).*1) ∧
    rsrc_Ref <$> trs_Sources rs = sort_by_key nn_String (map_to_list M).*1.
Proof using Type*.
  apply CalculateTargetRunSet_inv in Hok as (_ & _ & _ & _ & M & HM & _ & ->).
  exists M. split; [done|]. split; [done|]. cbn [trs_Sources]. apply resolved_refs.
  - intros ref r. rewrite (resolved_spec m ss3 M Hnd HM).
    by intros (s & _ & -> & _ & p & _ & ->).
  - intros ref. rewrite sort_by_key_perm, list_elem_of_fmap.
    intros ([ref' r] & -> & Hin%elem_of_map_to_list). eauto.
Qed.

Lemma elem_of_run_set r :
  r ∈ trs_Sources rs ↔ ∃ s, s ∈ ss3 ∧ is_resolved m s r.
Proof using Type*.
  destruct run_set_sources as (M & HM & -> & _). rewrite list_elem_of_omap.
  setoid_rewrite (resolved_spec m ss3 M Hnd HM). setoid_rewrite sort_by_key_perm. split.
  - intros (ref & _ & s & Hs & -> & Hr). eauto.
  - intros (s & Hs & Hr). exists (source_ref s). split; [|eauto].
    apply list_elem_of_fmap. exists (source_ref s, r). split; [done|].
    apply elem_of_map_to_list, (resolved_spec m ss3 M Hnd HM). eauto.
Qed.
End accepted.

Lemma effective_for_strategy_clean m s p :
  plain_seg (om_Namespace (s_Meta s)) →
  EffectiveDestinationPathForStrategy m s = Ok p ↔
  ∃ segs, Forall plain_seg segs ∧ clean_dest s = Ok (strings_Join segs "/") ∧
    p = strings_Join (if is_mirror m then segs else om_Namespace (s_Meta s) :: segs) "/".
Proof.
  intros Hns. unfold EffectiveDestinationPathForStrategy. destruct (is_mirror m).
  - rewrite effectiveMirrorDestinationPath_clean. fold (clean_dest s). split.
    + intros Hc. destruct (cleanRelativePath_shape _ _ Hc) as (segs & Hp & ->). eauto.
    + by intros (segs & _ & Hc & ->).
  - by apply effectiveDestinationPath_Ok.
Qed.

(** ** Properties *)

(** Namespace admission.  A namespace is admitted exactly when it is not
    empty and the list (the machine's own namespace when the list is empty)
    holds the wildcard, the dot for the machine's own namespace, or its name. *)
Theorem namespaceAllowed_iff mns allowed ns :
  namespaceAllowed mns allowed ns = true ↔
  ns ≠ "" ∧
  (allowed = [] ∧ ns = mns ∨ "*" ∈ allowed ∨ "." ∈ allowed ∧ ns = mns ∨ ns ∈ allowed ∧ ns ≠ ".").
Proof.
  unfold namespaceAllowed. case_decide as He; [naive_solver|].
  rewrite namespace_in_spec. case_decide as Ha; [|set_solver].
  subst allowed. set_solver.
Qed.

(** the controller and the data plane normalise destination paths alike.
    The path the controller computes for a source in snapshot mode is the one
    the data plane's [NormalizeDestinationPath] computes from the same
    namespace and path, except that the controller also accepts the spellings
    of the empty path (such as a single dot), which it maps to the namespace. *)
Theorem effective_agrees_with_dataplane ns d p :
  plain_seg ns → ContainsByte ns backslash = false →
  effectiveDestinationPath ns d = Ok p ↔
  NormalizeDestinationPath ns d = Ok p ∨ cleanRelativePath d = Ok "" ∧ p = ns.
Proof.
  intros Hns Hb. rewrite effectiveDestinationPath_Ok by done.
  assert (NormalizeRelativePath ns = Ok ns) as HN.
  { apply (NormalizeRelativePath_normal [ns]); [done| |done]. by apply Forall_singleton. }
  unfold NormalizeDestinationPath. rewrite HN. cbn [map_err mbind result_bind].
  pose proof Hns as (_ & _ & _ & ->). case_decide as Hd.
  { assert (cleanRelativePath d = Ok "") as ->.
    { unfold cleanRelativePath. by rewrite decide_True. }
    split.
    - intros (segs & Hp & [= Hj] & ->). left. symmetry in Hj.
      apply Join_plain_empty in Hj as ->; done.
    - intros Hor. exists []. split; [done|]. split; [done|]. naive_solver. }
  rewrite bind_Ok. setoid_rewrite map_err_Ok. setoid_rewrite <-cleanRelativePath_Normalize.
  split.
  - intros (segs & Hp & Hc & ->). destruct (decide (segs = [])) as [->|Hn]; [by right|left].
    eexists. split; [split; [exact Hc|by apply Join_plain_nonempty]|]. by rewrite Join_cons.
  - intros [(c & [Hc Hne] & [= <-])|[Hc ->]]; [|by exists []].
    destruct (cleanRelativePath_shape _ _ Hc) as (segs & Hp & ->).
    exists segs. split; [done|]. split; [done|]. rewrite Join_cons; [done|].
    by intros ->.
Qed.

(** C22: exactly which sources a run includes.  When a run set is accepted it
    contains every source that names the machine from an admitted namespace,
    and no other, each once, in increasing order of the source's name. *)
Theorem run_set_complete m ss1 ss2 ss3 rs :
  NoDup (source_ref <$> ss3) → CalculateTargetRunSet m ss1 ss2 ss3 = Ok rs →
  (∀ s, s ∈ ss3 ∧ refers_to m s = true ↔ s ∈ rsrc_Source <$> trs_Sources rs) ∧
  NoDup (rsrc_Ref <$> trs_Sources rs) ∧
  StronglySorted (key_le nn_String) (rsrc_Ref <$> trs_Sources rs).
Proof.
  intros Hnd Hok. destruct (run_set_sources m ss1 ss2 ss3 rs Hnd Hok) as (M & HM & _ & Hrefs).
  split; [|rewrite Hrefs; split; [|apply sort_by_key_sorted]].
  - intros s. rewrite list_elem_of_fmap. setoid_rewrite (elem_of_run_set m ss1 ss2 ss3 rs Hnd Hok).
    split.
    + intros [Hs Hr]. destruct (resolved_steps m ss3 ∅ M Hnd HM ltac:(intros; apply lookup_empty)
        s Hs Hr) as [p Hp].
      exists (MkResolvedSource (source_ref s) s p). split; [done|]. exists s. unfold is_resolved. eauto.
    + intros (r & -> & s' & Hs' & Hr & p & _ & ->). done.
  - rewrite sort_by_key_perm. apply NoDup_fst_map_to_list.
Qed.

(** C20: the destinations of a snapshot run.  Two sources of an accepted
    snapshot run set are written to different paths, each path lies below the
    directory of the source's own namespace, and the paths of sources of two
    namespaces are disjoint: neither is inside the other.  (Within one
    namespace one may be inside another.) *)
Theorem run_set_snapshot_destinations m ss rs :
  NoDup (source_ref <$> ss) → (∀ s, s ∈ ss → plain_seg (om_Namespace (s_Meta s))) →
  is_mirror m = false → CalculateTargetRunSet m ss ss ss = Ok rs →
  (∀ r, r ∈ trs_Sources rs → ∃ segs, Forall plain_seg segs ∧
     rsrc_EffectiveDestinationPath r =
       strings_Join (nn_Namespace (rsrc_Ref r) :: segs) "/") ∧
  (∀ r1 r2, r1 ∈ trs_Sources rs → r2 ∈ trs_Sources rs → rsrc_Ref r1 ≠ rsrc_Ref r2 →
     rsrc_EffectiveDestinationPath r1 ≠ rsrc_EffectiveDestinationPath r2) ∧
  (∀ r1 r2, r1 ∈ trs_Sources rs → r2 ∈ trs_Sources rs →
     nn_Namespace (rsrc_Ref r1) ≠ nn_Namespace (rsrc_Ref r2) →
     ∃ segs1 segs2, Forall plain_seg segs1 ∧ Forall plain_seg segs2 ∧
       rsrc_EffectiveDestinationPath r1 = strings_Join segs1 "/" ∧
       rsrc_EffectiveDestinationPath r2 = strings_Join segs2 "/" ∧
       ¬ segs1 `prefix_of` segs2 ∧ ¬ segs2 `prefix_of` segs1).
Proof.
  intros Hnd Hns Hm Hok.
  assert (∀ r, r ∈ trs_Sources rs → ∃ s segs, s ∈ ss ∧ refers_to m s = true ∧
    rsrc_Ref r = source_ref s ∧ Forall plain_seg segs ∧ clean_dest s = Ok (strings_Join segs "/") ∧
    rsrc_EffectiveDestinationPath r = strings_Join (om_Namespace (s_Meta s) :: segs) "/") as Hshape.
  { intros r. rewrite (elem_of_run_set m ss ss ss rs Hnd Hok).
    intros (s & Hs & Hr & p & Hp & ->). apply effective_for_strategy_clean in Hp; [|auto].
    rewrite Hm in Hp. destruct Hp as (segs & ? & ? & ->). eauto 10. }
  split_and!.
  - intros r Hr. destruct (Hshape r Hr) as (s & segs & _ & _ & -> & ? & _ & ->). eauto.
  - intros r1 r2 H1 H2 Hne Heq.
    destruct (Hshape r1 H1) as (s1 & g1 & Hs1 & Hr1 & Href1 & Hp1 & Hc1 & He1).
    destruct (Hshape r2 H2) as (s2 & g2 & Hs2 & Hr2 & Href2 & Hp2 & Hc2 & He2).
    rewrite He1, He2, Join_plain_inj in Heq by (apply Forall_cons; auto).
    injection Heq as Hnseq ->. apply CalculateTargetRunSet_inv in Hok as (_ & _ & Hc & _).
    apply DetectDestinationPathConflicts_nil in Hc as [|[_ Hcf]]; [congruence|].
    apply Hne. rewrite Href1, Href2. eapply Hcf; try done.
    unfold source_key. by rewrite Hnseq.
  - intros r1 r2 H1 H2 Hne.
    destruct (Hshape r1 H1) as (s1 & g1 & Hs1 & _ & Href1 & Hp1 & _ & He1).
    destruct (Hshape r2 H2) as (s2 & g2 & Hs2 & _ & Href2 & Hp2 & _ & He2).
    rewrite Href1, Href2 in Hne. cbn in Hne.
    exists (om_Namespace (s_Meta s1) :: g1), (om_Namespace (s_Meta s2) :: g2).
    split_and!; [by constructor; auto|by constructor; auto|done|done|..]; intros [k Hk]; by injection Hk.
Qed.

(** C21: in an accepted mirror run set no source that may delete files shares a
    tree with another one.  If either of two sources deletes extraneous files,
    neither destination is an ancestor of the other, so the segment lists are
    not in the prefix order. *)
Theorem run_set_mirror_destinations m ss rs :
  NoDup (source_ref <$> ss) → (∀ s, s ∈ ss → plain_seg (om_Namespace (s_Meta s))) →
  is_mirror m = true → CalculateTargetRunSet m ss ss ss = Ok rs →
  ∀ r1 r2, r1 ∈ trs_Sources rs → r2 ∈ trs_Sources rs → rsrc_Ref r1 ≠ rsrc_Ref r2 →
    DeleteOrDefault (ss_Rsync (s_Spec (rsrc_Source r1))) = true →
    ∃ segs1 segs2, Forall plain_seg segs1 ∧ Forall plain_seg segs2 ∧
      rsrc_EffectiveDestinationPath r1 = strings_Join segs1 "/" ∧
      rsrc_EffectiveDestinationPath r2 = strings_Join segs2 "/" ∧
      ¬ segs1 `prefix_of` segs2 ∧ ¬ segs2 `prefix_of` segs1.
Proof.
  intros Hnd Hns Hm Hok r1 r2. rewrite !(elem_of_run_set m ss ss ss rs Hnd Hok).
  intros (s1 & Hs1 & Hr1 & p1 & Hp1 & ->) (s2 & Hs2 & Hr2 & p2 & Hp2 & ->) Hne Hd.
  apply effective_for_strategy_clean in Hp1 as (g1 & Hg1 & Hc1 & ->); [|auto].
  apply effective_for_strategy_clean in Hp2 as (g2 & Hg2 & Hc2 & ->); [|auto].
  rewrite Hm. exists g1, g2. do 4 (split; [done|]). cbn in Hne, Hd.
  apply CalculateTargetRunSet_inv in Hok as (_ & _ & _ & Ho & _).
  apply DetectMirror_nil in Ho as [|[_ Hov]]; [congruence| |done].
  specialize (Hov s1 s2 _ _ Hs1 Hs2 Hr1 Hr2 Hne Hc1 Hc2).
  rewrite Hd, andb_true_r in Hov. apply not_true_iff_false in Hov.
  rewrite mirrorPathsOverlap_segs in Hov by done. tauto.
Qed.

(** the run set does not depend on the order in which Go iterates the
    map of sources, in any of the three loops. *)
Theorem run_set_order_independent m ss ss1 ss2 ss3 rs :
  NoDup (source_ref <$> ss) → ss1 ≡ₚ ss → ss2 ≡ₚ ss → ss3 ≡ₚ ss →
  CalculateTargetRunSet m ss1 ss2 ss3 = Ok rs ↔ CalculateTargetRunSet m ss ss ss = Ok rs.
Proof.
  intros Hnd H1 H2 H3. rewrite !CalculateTargetRunSet_inv.
  rewrite !DetectDestinationPathConflicts_nil, (conflict_free_proper m _ _ H1).
  rewrite !DetectMirror_nil, (mirror_free_proper m _ _ H2) by (by rewrite ?H2).
  assert (∀ M, fold_result (add_resolved m) ∅ ss3 = Ok M ↔
               fold_result (add_resolved m) ∅ ss = Ok M) as Hfold.
  { intros M. split; apply resolved_perm; by rewrite ?H3. }
  by setoid_rewrite Hfold.
Qed.

(** ** Witnesses *)

Definition sample_machine (strategy : string) : RsyncMachine :=
  let meta := (inhabitant : ObjectMeta) <| om_Namespace := "backup" |> <| om_Name := "nas" |> in
  let spec := (inhabitant : RsyncMachineSpec)
                <| ms_AllowedSourceNamespaces := ["*"] |>
                <| ms_Strategy := MkBackupStrategy strategy |> in
  MkRsyncMachine meta spec inhabitant.

Definition sample_source (ns name dest : string) : BackupSource :=
  let meta := (inhabitant : ObjectMeta) <| om_Namespace := ns |> <| om_Name := name |> in
  let spec := (inhabitant : BackupSourceSpec)
                <| ss_MachineRef := MkObjectReference "backup" "nas" |>
                <| ss_DestinationPath := dest |> in
  MkBackupSource meta spec inhabitant.

Definition sample_sources : list BackupSource :=
  [sample_source "media" "photos" "./photos/"; sample_source "apps" "db" "pg//data";
   sample_source "apps" "web" "/"].

Definition sample_run_set (strategy : string) : TargetRunSet :=
  match CalculateTargetRunSet (sample_machine strategy)
          sample_sources sample_sources sample_sources with
  | Ok rs => rs
  | Err _ => MkTargetRunSet inhabitant [] [] inhabitant
  end.

Definition mirror_sources : list BackupSource :=
  [sample_source "media" "photos" "photos"; sample_source "apps" "db" "pg/data"].

Definition mirror_run_set : TargetRunSet :=
  match CalculateTargetRunSet (sample_machine "Mirror")
          mirror_sources mirror_sources mirror_sources with
  | Ok rs => rs
  | Err _ => MkTargetRunSet inhabitant [] [] inhabitant
  end.

Lemma effective_agrees_with_dataplane_witness :
  effectiveDestinationPath "media" "a//b/." = Ok "media/a/b" ∧
  (effectiveDestinationPath "media" "a//b/." = Ok "media/a/b" ↔
   NormalizeDestinationPath "media" "a//b/." = Ok "media/a/b" ∨
   cleanRelativePath "a//b/." = Ok "" ∧ "media/a/b" = "media").
Proof.
  split; [vm_compute; reflexivity|]. apply effective_agrees_with_dataplane.
  - by vm_compute.
  - reflexivity.
Defined.

Lemma run_set_complete_witness :
  rsrc_EffectiveDestinationPath <$> trs_Sources (sample_run_set "") =
    ["apps/pg/data"; "apps"; "media/photos"] ∧
  NoDup (rsrc_Ref <$> trs_Sources (sample_run_set "")).
Proof.
  split; [vm_compute; reflexivity|].
  refine (proj1 (proj2 (run_set_complete (sample_machine "") sample_sources sample_sources
    sample_sources (sample_run_set "") _ _))).
  - apply (bool_decide_unpack _). by vm_compute.
  - by vm_compute.
Defined.

Lemma run_set_snapshot_destinations_witness :
  ∃ r1 r2 r3, trs_Sources (sample_run_set "") = [r1; r2; r3] ∧
    rsrc_EffectiveDestinationPath r1 ≠ rsrc_EffectiveDestinationPath r3.
Proof.
  eexists _, _, _. split; [vm_compute; reflexivity|].
  apply (proj1 (proj2 (run_set_snapshot_destinations (sample_machine "") sample_sources
    (sample_run_set "") ltac:(apply (bool_decide_unpack _); by vm_compute)
    ltac:(apply Forall_forall; apply (bool_decide_unpack _); by vm_compute)
    ltac:(reflexivity) ltac:(by vm_compute)))).
  - vm_compute. left.
  - vm_compute. do 2 right. left.
  - vm_compute. discriminate.
Defined.

Lemma run_set_mirror_destinations_witness :
  ∃ r1 r2, trs_Sources mirror_run_set = [r1; r2] ∧
  ∃ segs1 segs2, Forall plain_seg segs1 ∧ Forall plain_seg segs2 ∧
      rsrc_EffectiveDestinationPath r1 = strings_Join segs1 "/" ∧
      rsrc_EffectiveDestinationPath r2 = strings_Join segs2 "/" ∧
      ¬ segs1 `prefix_of` segs2 ∧ ¬ segs2 `prefix_of` segs1.
Proof.
  eexists _, _. split; [vm_compute; reflexivity|].
  apply (run_set_mirror_destinations (sample_machine "Mirror") mirror_sources mirror_run_set).
  - apply (bool_decide_unpack _). by vm_compute.
  - apply Forall_forall. apply (bool_decide_unpack _). by vm_compute.
  - reflexivity.
  - by vm_compute.
  - vm_compute. left.
  - vm_compute. right. left.
  - vm_compute. discriminate.
  - reflexivity.
Defined.

Lemma run_set_order_independent_witness :
  CalculateTargetRunSet (sample_machine "") (reverse sample_sources) sample_sources
    (reverse sample_sources) = Ok (sample_run_set "").
Proof.
  apply (run_set_order_independent (sample_machine "") sample_sources).
  - apply (bool_decide_unpack _). by vm_compute.
  - apply reverse_Permutation.
  - reflexivity.
  - apply reverse_Permutation.
  - by vm_compute.
Defined.
