(* ===== verification/GoTime.v ===== *)
(** * Package [time]: civil dates, formatting and parsing

    A time is a number of nanoseconds since the Unix epoch, in UTC.  The file
    has the proleptic Gregorian calendar, [Time.Date], [Time.Weekday],
    [Time.AddDate] for days, [Time.Format] and [time.Parse] for the layouts of
    the source.  The parser follows Go's: the hour verb accepts one digit, and
    a fraction after the seconds is accepted although the layout has none.
    The lemmas show the calendar conversions inverse to each other and
    monotone, and formatting monotone for the string order. *)
From S2P Require Export GoStrings ApiTypes.
From stdpp Require Import options.
From Stdlib Require Import Ascii.

(** ** The calendar *)

Definition day_ns : Z := 86400 * 10 ^ 9.

(** Days since the epoch of year [y], month [m], day [d]. *)
Definition days_from_civil (y m d : Z) : Z :=
  let y' := if decide (m ≤ 2) then y - 1 else y in
  let era := y' `div` 400 in
  let yoe := y' `mod` 400 in
  let mp := if decide (m > 2) then m - 3 else m + 9 in
  let doy := (153 * mp + 2) `div` 5 + d - 1 in
  let doe := yoe * 365 + yoe `div` 4 - yoe `div` 100 + doy in
  era * 146097 + doe - 719468.

(** Year of the era, month and day of day [doe] of an era of 400 years. *)
Definition civil_of_doe (doe : Z) : Z * Z * Z :=
  let yoe := (doe - doe `div` 1460 + doe `div` 36524 - doe `div` 146096) `div` 365 in
  let doy := doe - (365 * yoe + yoe `div` 4 - yoe `div` 100) in
  let mp := (5 * doy + 2) `div` 153 in
  let d := doy - (153 * mp + 2) `div` 5 + 1 in
  let m := if decide (mp < 10) then mp + 3 else mp - 9 in
  (if decide (m ≤ 2) then yoe + 1 else yoe, m, d).

Definition civil_from_days (days : Z) : Z * Z * Z :=
  let z := days + 719468 in
  let '(y, m, d) := civil_of_doe (z `mod` 146097) in
  (y + (z `div` 146097) * 400, m, d).

Definition is_leap (y : Z) : bool :=
  bool_decide (y `mod` 4 = 0 ∧ (y `mod` 100 ≠ 0 ∨ y `mod` 400 = 0)).

Definition daysIn (m y : Z) : Z :=
  if decide (m = 2) then if is_leap y then 29 else 28
  else if decide (m = 4 ∨ m = 6 ∨ m = 9 ∨ m = 11) then 30 else 31.

(** [t.Date()] *)
Definition Time_Date (t : Time) : Z * Z * Z := civil_from_days (t `div` day_ns).

(** [time.Date(y, m, d, 0, 0, 0, 0, time.UTC)]; the day may be out of range. *)
Definition time_Date (y m d : Z) : Time := days_from_civil y m d * day_ns.

(** [t.Weekday()], Sunday is 0. *)
Definition Weekday (t : Time) : Z := (t `div` day_ns + 4) `mod` 7.

(** [t.AddDate(0, 0, n)] *)
Definition AddDays (t : Time) (n : Z) : Time :=
  let '(y, m, d) := Time_Date t in time_Date y m (d + n) + t `mod` day_ns.

Definition IsZero (t : Time) : bool := bool_decide (t = zero_time).

(** ** Formatting *)

Definition digit (n : Z) : ascii := ascii_of_nat (48 + Z.to_nat (n `mod` 10)).

(** The last [w] decimal digits of [n]. *)
Fixpoint pad (w : nat) (n : Z) : string :=
  match w with
  | O => ""
  | S w => pad w (n `div` 10) +:+ String (digit n) ""
  end.

(** Zero-padded to four digits, more when the year needs them. *)
Definition format_year (y : Z) : string :=
  if decide (0 ≤ y < 10000) then pad 4 y
  else if decide (y < 0) then "-" +:+ (if decide (- y < 10000) then pad 4 (- y) else Itoa (- y))
  else Itoa y.

Definition format_month (t : Time) : string :=
  let '(y, m, _) := Time_Date t in format_year y +:+ "-" +:+ pad 2 m.

Definition format_date (t : Time) : string :=
  let '(y, m, d) := Time_Date t in format_year y +:+ "-" +:+ pad 2 m +:+ "-" +:+ pad 2 d.

Definition format_clock (t : Time) (sep : string) : string :=
  let s := (t `mod` day_ns) `div` 10 ^ 9 in
  pad 2 (s `div` 3600) +:+ sep +:+ pad 2 ((s `div` 60) `mod` 60) +:+ sep +:+ pad 2 (s `mod` 60).

(** [t.UTC().Format(time.RFC3339)] *)
Definition format_rfc3339 (t : Time) : string :=
  format_date t +:+ "T" +:+ format_clock t ":" +:+ "Z".

(** ** Parsing *)

Inductive layout_item :=
  | LYear | LMonth | LDay | LHour | LMinute | LSecond | LZone | LLit (s : string).

(** The layouts of the source, split into their verbs. *)
Definition layout_month : list layout_item := [LYear; LLit "-"; LMonth].
Definition layout_date : list layout_item := layout_month ++ [LLit "-"; LDay].
Definition layout_snapshot : list layout_item :=
  layout_date ++ [LLit "T"; LHour; LLit "-"; LMinute; LLit "-"; LSecond; LLit "Z"].
Definition layout_rfc3339 : list layout_item :=
  layout_date ++ [LLit "T"; LHour; LLit ":"; LMinute; LLit ":"; LSecond; LZone].

Record parsed := MkParsed {
  p_year : Z; p_month : Z; p_day : Z; p_hour : Z; p_min : Z; p_sec : Z; p_nsec : Z; p_zone : Z
}.
#[export] Instance parsed_eta : Eta parsed := λ r,
  MkParsed (p_year r) (p_month r) (p_day r) (p_hour r) (p_min r) (p_sec r) (p_nsec r) (p_zone r).

(** [getnum(s, fixed)] *)
Definition getnum (s : string) (fixed : bool) : option (Z * string) :=
  match s with
  | String a s =>
      x ← digit_val a;
      match s with
      | String b s' =>
          match digit_val b with
          | Some y => Some (10 * x + y, s')
          | None => if fixed then None else Some (x, s)
          end
      | EmptyString => if fixed then None else Some (x, s)
      end
  | EmptyString => None
  end.

Definition get_year (s : string) : option (Z * string) :=
  match s with
  | String a (String b (String c (String d s))) =>
      w ← digit_val a; x ← digit_val b; y ← digit_val c; z ← digit_val d;
      Some (1000 * w + 100 * x + 10 * y + z, s)
  | _ => None
  end.

(** The digits at the front of [s], and the rest. *)
Fixpoint span_digits (s : string) : list Z * string :=
  match s with
  | String a t =>
      match digit_val a with
      | Some d => let '(ds, r) := span_digits t in (d :: ds, r)
      | None => ([], s)
      end
  | EmptyString => ([], s)
  end.

(** Nanoseconds of the first nine digits of a fraction. *)
Fixpoint frac_ns (w : nat) (ds : list Z) : Z :=
  match w, ds with
  | O, _ | _, [] => 0
  | S w, d :: ds => d * 10 ^ Z.of_nat w + frac_ns w ds
  end.

Definition in_range (lo hi : Z) (x : Z * string) : option (Z * string) :=
  if decide (lo ≤ x.1 ≤ hi) then Some x else None.

(** Seconds, and the fraction Go accepts after them. *)
Definition get_second (s : string) : option (Z * Z * string) :=
  '(sec, s) ← getnum s true ≫= in_range 0 59;
  match s with
  | String a ((String _ _) as t) =>
      if decide (a = "."%char ∨ a = ","%char) then
        match span_digits t with
        | ([], _) => Some (sec, 0, s)
        | (ds, r) => Some (sec, frac_ns 9 ds, r)
        end
      else Some (sec, 0, s)
  | _ => Some (sec, 0, s)
  end.

(** [Z07:00]: the offset in seconds. *)
Definition get_zone (s : string) : option (Z * string) :=
  match s with
  | String "Z" s => Some (0, s)
  | String sg (String a (String b (String ":" (String c (String d s))))) =>
      '(h, _) ← getnum (String a (String b "")) true ≫= in_range 0 24;
      '(mm, _) ← getnum (String c (String d "")) true ≫= in_range 0 60;
      let off := (h * 60 + mm) * 60 in
      if decide (sg = "+"%char) then Some (off, s)
      else if decide (sg = "-"%char) then Some (- off, s) else None
  | _ => None
  end.

Definition parse_item (it : layout_item) (p : parsed) (s : string) : option (parsed * string) :=
  match it with
  | LYear => '(v, s) ← get_year s; Some (p <| p_year := v |>, s)
  | LMonth => '(v, s) ← getnum s true ≫= in_range 1 12; Some (p <| p_month := v |>, s)
  | LDay => '(v, s) ← getnum s true; Some (p <| p_day := v |>, s)
  | LHour => '(v, s) ← getnum s false ≫= in_range 0 23; Some (p <| p_hour := v |>, s)
  | LMinute => '(v, s) ← getnum s true ≫= in_range 0 59; Some (p <| p_min := v |>, s)
  | LSecond => '(v, ns, s) ← get_second s; Some (p <| p_sec := v |> <| p_nsec := ns |>, s)
  | LZone => '(v, s) ← get_zone s; Some (p <| p_zone := v |>, s)
  | LLit l => if HasPrefix s l then Some (p, drop_str (String.length l) s) else None
  end.

Fixpoint parse_items (items : list layout_item) (p : parsed) (s : string) : option parsed :=
  match items with
  | [] => if decide (s = "") then Some p else None
  | it :: items => '(p, s) ← parse_item it p s; parse_items items p s
  end.

(** [time.Parse]; [None] is an error. *)
Definition time_Parse (layout : list layout_item) (value : string) : option Time :=
  p ← parse_items layout (MkParsed 0 1 1 0 0 0 0 0) value;
  if decide (1 ≤ p_day p ≤ daysIn (p_month p) (p_year p))
  then Some (time_Date (p_year p) (p_month p) (p_day p)
             + (p_hour p * 3600 + p_min p * 60 + p_sec p - p_zone p) * 10 ^ 9 + p_nsec p)
  else None.

(** A metav1.Time written to the API and read back: whole seconds. *)
Definition truncate_second (t : Time) : Time := t - t `mod` 10 ^ 9.

(** ** Calendar lemmas *)

Section calendar.
Local Ltac Zify.zify_post_hook ::= Z.to_euclidean_division_equations.

(** Days before March of year [y'], counting years from March. *)
Definition year_start (y' : Z) : Z := 365 * y' + y' `div` 4 - y' `div` 100 + y' `div` 400.

(** First day of month [M], months counted from March of year 0. *)
Definition month_start (M : Z) : Z := year_start (M `div` 12) + (153 * (M `mod` 12) + 2) `div` 5.

Definition valid_date (y m d : Z) : Prop := 1 ≤ m ≤ 12 ∧ 1 ≤ d ≤ daysIn m y.

Lemma year_start_era y' :
  (y' `div` 400) * 146097 + (y' `mod` 400 * 365 + (y' `mod` 400) `div` 4 - (y' `mod` 400) `div` 100)
  = year_start y'.
Proof. unfold year_start. lia. Qed.

Lemma days_from_civil_month y m d :
  1 ≤ m ≤ 12 → days_from_civil y m d = month_start (12 * y + m - 3) + d - 1 - 719468.
Proof.
  intros Hm. unfold days_from_civil, month_start.
  assert ((12 * y + m - 3) `div` 12 = if decide (m ≤ 2) then y - 1 else y) as ->
    by (case_decide; lia).
  assert ((12 * y + m - 3) `mod` 12 = if decide (m > 2) then m - 3 else m + 9) as ->
    by (case_decide; lia).
  rewrite <-year_start_era. lia.
Qed.

Lemma is_leap_true y : is_leap y = true ↔ y `mod` 4 = 0 ∧ (y `mod` 100 ≠ 0 ∨ y `mod` 400 = 0).
Proof. unfold is_leap. by rewrite bool_decide_eq_true. Qed.

Lemma year_start_succ y' :
  year_start (y' + 1) = year_start y' + if is_leap (y' + 1) then 366 else 365.
Proof.
  unfold year_start. destruct (is_leap (y' + 1)) eqn:Hl.
  - apply is_leap_true in Hl. lia.
  - apply not_true_iff_false in Hl. rewrite is_leap_true in Hl. lia.
Qed.

Lemma month_start_succ y m :
  1 ≤ m ≤ 12 → month_start (12 * y + m - 3 + 1) = month_start (12 * y + m - 3) + daysIn m y.
Proof.
  intros Hm. unfold month_start, daysIn. case_decide as H2.
  - subst m. replace ((12 * y + 2 - 3 + 1) `div` 12) with ((y - 1) + 1) by lia.
    replace ((12 * y + 2 - 3) `div` 12) with (y - 1) by lia.
    rewrite year_start_succ. replace (y - 1 + 1) with y by lia. destruct (is_leap y); lia.
  - replace ((12 * y + m - 3 + 1) `div` 12) with ((12 * y + m - 3) `div` 12) by lia.
    assert (m = 1 ∨ m = 3 ∨ m = 4 ∨ m = 5 ∨ m = 6 ∨ m = 7 ∨ m = 8 ∨ m = 9 ∨ m = 10 ∨ m = 11 ∨ m = 12)
      as Hc by lia.
    case_decide; lia.
Qed.

Lemma daysIn_pos m y : 28 ≤ daysIn m y ≤ 31.
Proof. unfold daysIn. repeat case_decide; repeat case_match; lia. Qed.

Lemma month_start_mono M1 M2 : M1 ≤ M2 → month_start M1 ≤ month_start M2.
Proof.
  intros H. pattern M2. apply (Zlt_lower_bound_ind _ M1); [|done]. intros M IH HM.
  destruct (decide (M = M1)) as [->|Hne]; [done|].
  transitivity (month_start (M - 1)); [apply IH; lia|].
  pose proof (month_start_succ ((M - 1 + 3 - 1) `div` 12) ((M - 1 + 3 - 1) `mod` 12 + 1) ltac:(lia)) as Hs.
  pose proof (daysIn_pos ((M - 1 + 3 - 1) `mod` 12 + 1) ((M - 1 + 3 - 1) `div` 12)).
  replace (12 * ((M - 1 + 3 - 1) `div` 12) + ((M - 1 + 3 - 1) `mod` 12 + 1) - 3) with (M - 1) in Hs
    by lia.
  replace (M - 1 + 1) with M in Hs by lia. lia.
Qed.

(** Day numbers order valid dates lexicographically. *)
Lemma days_from_civil_lt y1 m1 d1 y2 m2 d2 :
  valid_date y1 m1 d1 → valid_date y2 m2 d2 →
  days_from_civil y1 m1 d1 < days_from_civil y2 m2 d2 ↔
  y1 < y2 ∨ y1 = y2 ∧ (m1 < m2 ∨ m1 = m2 ∧ d1 < d2).
Proof.
  assert (∀ y1 m1 d1 y2 m2 d2, valid_date y1 m1 d1 → valid_date y2 m2 d2 →
    12 * y1 + m1 < 12 * y2 + m2 → days_from_civil y1 m1 d1 < days_from_civil y2 m2 d2) as Hlt.
  { clear. intros y1 m1 d1 y2 m2 d2 [Hm1 Hd1] [Hm2 Hd2] H.
    rewrite !days_from_civil_month by done.
    pose proof (month_start_succ y1 m1 Hm1).
    pose proof (month_start_mono (12 * y1 + m1 - 3 + 1) (12 * y2 + m2 - 3)). lia. }
  intros H1 H2. pose proof H1 as [Hm1 _]. pose proof H2 as [Hm2 _].
  destruct (Z.lt_trichotomy (12 * y1 + m1) (12 * y2 + m2)) as [Hc|[Hc|Hc]].
  - specialize (Hlt _ _ _ _ _ _ H1 H2 Hc). lia.
  - rewrite !days_from_civil_month by done. rewrite Hc. lia.
  - specialize (Hlt _ _ _ _ _ _ H2 H1 Hc). lia.
Qed.

Lemma civil_of_doe_spec doe y m d :
  0 ≤ doe < 146097 → civil_of_doe doe = (y, m, d) →
  days_from_civil y m d = doe - 719468 ∧ valid_date y m d.
Proof.
  intros Hdoe Hc. unfold civil_of_doe in Hc.
  set (yoe := (doe - doe `div` 1460 + doe `div` 36524 - doe `div` 146096) `div` 365) in *.
  assert (0 ≤ yoe < 400) as Hyoe by (unfold yoe; lia).
  assert (0 ≤ doe - (365 * yoe + yoe `div` 4 - yoe `div` 100)) as Hlo by (unfold yoe; lia).
  assert (doe < year_start (yoe + 1)) as Hhi by (unfold yoe, year_start; lia).
  assert (year_start yoe = 365 * yoe + yoe `div` 4 - yoe `div` 100) as Hys
    by (unfold year_start; lia).
  rewrite <-Hys in Hc, Hlo. clearbody yoe. rewrite year_start_succ in Hhi.
  set (doy := doe - year_start yoe) in *.
  set (mp := (5 * doy + 2) `div` 153) in *.
  assert (0 ≤ doy ≤ 365) as Hdoy by (destruct (is_leap (yoe + 1)); lia).
  assert (0 ≤ mp ≤ 11) as Hmp by (unfold mp; lia).
  assert (1 ≤ m ≤ 12 ∧ mp = (if decide (m > 2) then m - 3 else m + 9) ∧
    d = doy - (153 * mp + 2) `div` 5 + 1 ∧ y = if decide (m ≤ 2) then yoe + 1 else yoe)
    as (Hm & Hmp' & Hd & Hy).
  { injection Hc as <- <- <-. repeat case_decide; lia. }
  assert ((12 * y + m - 3) `div` 12 = yoe) as Hdiv by (case_decide; case_decide; lia).
  assert ((12 * y + m - 3) `mod` 12 = mp) as Hmod by (case_decide; case_decide; lia).
  assert (month_start (12 * y + m - 3) = year_start yoe + (153 * mp + 2) `div` 5) as Hms
    by (unfold month_start; by rewrite Hdiv, Hmod).
  split; [rewrite days_from_civil_month by done; lia|]. split; [done|].
  assert (1 ≤ d) by (unfold mp in *; lia). split; [done|].
  assert (d ≤ 31 ∧ (mp = 1 ∨ mp = 3 ∨ mp = 6 ∨ mp = 8 → d ≤ 30)) as [? ?] by (unfold mp in *; lia).
  unfold daysIn. destruct (decide (m = 2)) as [H2|H2].
  - rewrite decide_False in Hmp' by lia. rewrite decide_True in Hy by lia.
    rewrite <-Hy in Hhi. destruct (is_leap y); lia.
  - repeat case_decide; lia.
Qed.

Lemma days_from_civil_shift y m d k :
  1 ≤ m ≤ 12 → days_from_civil (y + k * 400) m d = days_from_civil y m d + k * 146097.
Proof.
  intros Hm. rewrite !days_from_civil_month by done. unfold month_start, year_start.
  replace ((12 * (y + k * 400) + m - 3) `div` 12) with ((12 * y + m - 3) `div` 12 + k * 400) by lia.
  replace ((12 * (y + k * 400) + m - 3) `mod` 12) with ((12 * y + m - 3) `mod` 12) by lia.
  generalize ((12 * y + m - 3) `div` 12). intros. lia.
Qed.

Lemma daysIn_shift m y k : daysIn m (y + k * 400) = daysIn m y.
Proof.
  unfold daysIn, is_leap.
  rewrite (bool_decide_ext ((y + k * 400) `mod` 4 = 0 ∧
    ((y + k * 400) `mod` 100 ≠ 0 ∨ (y + k * 400) `mod` 400 = 0))
    (y `mod` 4 = 0 ∧ (y `mod` 100 ≠ 0 ∨ y `mod` 400 = 0))) by lia.
  done.
Qed.

(** Every day has a valid civil date that maps back to it. *)
Lemma civil_from_days_spec z y m d :
  civil_from_days z = (y, m, d) → days_from_civil y m d = z ∧ valid_date y m d.
Proof.
  unfold civil_from_days. destruct (civil_of_doe _) as [[y0 m0] d0] eqn:Hc.
  apply civil_of_doe_spec in Hc as [Hd [Hm Hv]]; [|lia]. intros [= <- <- <-].
  split; [rewrite days_from_civil_shift by done; lia|].
  split; [done|]. by rewrite daysIn_shift.
Qed.

Lemma civil_from_days_from_civil y m d :
  valid_date y m d → civil_from_days (days_from_civil y m d) = (y, m, d).
Proof.
  intros Hv. destruct (civil_from_days (days_from_civil y m d)) as [[y' m'] d'] eqn:Hc.
  apply civil_from_days_spec in Hc as [Heq Hv'].
  pose proof (days_from_civil_lt y m d y' m' d' Hv Hv').
  pose proof (days_from_civil_lt y' m' d' y m d Hv' Hv).
  assert (y = y' ∧ m = m' ∧ d = d') as (-> & -> & ->) by lia. done.
Qed.

Lemma days_from_civil_day y m d n : days_from_civil y m (d + n) = days_from_civil y m d + n.
Proof. unfold days_from_civil. lia. Qed.

Lemma AddDays_spec t n : AddDays t n = t + n * day_ns.
Proof.
  unfold AddDays, Time_Date, time_Date.
  destruct (civil_from_days (t `div` day_ns)) as [[y m] d] eqn:Hc.
  apply civil_from_days_spec in Hc as [Hd _]. rewrite days_from_civil_day, Hd.
  unfold day_ns. lia.
Qed.
End calendar.

(** ** Decimal fields *)

Section decimals.
Local Ltac Zify.zify_post_hook ::= Z.to_euclidean_division_equations.

Lemma str_compare_app a b c d :
  String.length a = String.length c →
  String.compare (a +:+ b) (c +:+ d) =
  match String.compare a c with Eq => String.compare b d | r => r end.
Proof.
  revert c. induction a as [|x a IH]; intros [|y c] Hl; try done.
  rewrite !str_app_cons. cbn. destruct (Ascii.compare x y); [|done|done].
  apply IH. by injection Hl.
Qed.

Lemma str_compare_refl s : String.compare s s = Eq.
Proof. induction s; cbn; [done|]. unfold Ascii.compare. by rewrite N.compare_refl. Qed.

Lemma str_compare_prefix p a b : String.compare (p +:+ a) (p +:+ b) = String.compare a b.
Proof. rewrite str_compare_app by done. by rewrite str_compare_refl. Qed.

Lemma le_compare a b : String.le a b ↔ String.compare a b ≠ Gt.
Proof. unfold String.le, String.leb. destruct (String.compare a b); naive_solver. Qed.

Lemma length_pad w n : String.length (pad w n) = w.
Proof. revert n. induction w; intros n; cbn; [done|]. rewrite length_app_str, IHw. cbn. lia. Qed.

Lemma nat_of_digit n : nat_of_ascii (digit n) = (48 + Z.to_nat (n `mod` 10))%nat.
Proof.
  unfold digit. apply nat_ascii_embedding. pose proof (Z.mod_pos_bound n 10 ltac:(lia)). lia.
Qed.

Lemma digit_compare x y : Ascii.compare (digit x) (digit y) = Z.compare (x `mod` 10) (y `mod` 10).
Proof.
  unfold Ascii.compare.
  assert (∀ z, N_of_ascii (digit z) = (48 + Z.to_N (z `mod` 10))%N) as HN.
  { intros z. rewrite <-(N2Nat.id (N_of_ascii (digit z))).
    change (N.to_nat (N_of_ascii (digit z))) with (nat_of_ascii (digit z)).
    rewrite nat_of_digit. pose proof (Z.mod_pos_bound z 10 ltac:(lia)). lia. }
  rewrite !HN.
  pose proof (Z.mod_pos_bound x 10 ltac:(lia)). pose proof (Z.mod_pos_bound y 10 ltac:(lia)).
  destruct (Z.compare_spec (x `mod` 10) (y `mod` 10)).
  - apply N.compare_eq_iff. lia.
  - apply N.compare_lt_iff. lia.
  - apply N.compare_gt_iff. lia.
Qed.

(** Fixed-width decimals are ordered like the numbers. *)
Lemma pad_compare w x y :
  0 ≤ x < 10 ^ Z.of_nat w → 0 ≤ y < 10 ^ Z.of_nat w →
  String.compare (pad w x) (pad w y) = Z.compare x y.
Proof.
  revert x y. induction w as [|w IH]; intros x y Hx Hy.
  { cbn in *. assert (x = 0 ∧ y = 0) as [-> ->] by lia. done. }
  cbn [pad]. rewrite str_compare_app by (by rewrite !length_pad).
  rewrite Nat2Z.inj_succ, Z.pow_succ_r in Hx, Hy by lia.
  rewrite IH by lia. cbn. rewrite digit_compare.
  destruct (Z.compare_spec (x `div` 10) (y `div` 10)) as [He|Hl|Hl]; symmetry.
  - destruct (Z.compare_spec (x `mod` 10) (y `mod` 10));
      [apply Z.compare_eq_iff|apply Z.compare_lt_iff|apply Z.compare_gt_iff]; lia.
  - apply Z.compare_lt_iff. lia.
  - apply Z.compare_gt_iff. lia.
Qed.

Lemma digit_val_digit n : 0 ≤ n < 10 → digit_val (digit n) = Some n.
Proof.
  intros Hn. unfold digit_val. rewrite nat_of_digit, Z.mod_small by done.
  rewrite decide_True by lia. f_equal. lia.
Qed.

Lemma digit_mod n : digit (n `mod` 10) = digit n.
Proof. unfold digit. by rewrite Z.mod_mod. Qed.

Lemma digit_val_digit_mod n : digit_val (digit n) = Some (n `mod` 10).
Proof. rewrite <-digit_mod. apply digit_val_digit. lia. Qed.

Lemma getnum_pad n s b : 0 ≤ n < 100 → getnum (pad 2 n +:+ s) b = Some (n, s).
Proof.
  intros Hn. cbn [pad]. autorewrite with str. cbn [getnum].
  rewrite !digit_val_digit_mod. cbn [mbind option_bind]. repeat f_equal. lia.
Qed.

Lemma get_year_pad n s : 0 ≤ n < 10000 → get_year (pad 4 n +:+ s) = Some (n, s).
Proof.
  intros Hn. cbn [pad]. autorewrite with str. cbn [get_year].
  rewrite !digit_val_digit_mod. cbn [mbind option_bind]. repeat f_equal. lia.
Qed.
End decimals.

(** ** Formatted times *)

(** [t.UTC().Format("2006-01-02T15-04-05Z")] *)
Definition format_snapshot (t : Time) : string :=
  format_date t +:+ "T" +:+ format_clock t "-" +:+ "Z".

(** The years that format as four digits. *)
Definition four_digit_year (t : Time) : Prop := 0 ≤ (Time_Date t).1.1 < 10000.

#[export] Instance four_digit_year_dec t : Decision (four_digit_year t).
Proof. unfold four_digit_year. apply _. Defined.

Section formatted.
Local Ltac Zify.zify_post_hook ::= Z.to_euclidean_division_equations.

Lemma Time_Date_spec t y m d :
  Time_Date t = (y, m, d) → days_from_civil y m d = t `div` day_ns ∧ valid_date y m d.
Proof. apply civil_from_days_spec. Qed.

Lemma valid_date_bounds y m d : valid_date y m d → 1 ≤ m ≤ 12 ∧ 1 ≤ d ≤ 31.
Proof. intros [Hm Hd]. pose proof (daysIn_pos m y). lia. Qed.

Definition lex (a b : comparison) : comparison := match a with Eq => b | r => r end.

Lemma date_string_compare y1 m1 d1 y2 m2 d2 r1 r2 :
  valid_date y1 m1 d1 → valid_date y2 m2 d2 → 0 ≤ y1 < 10000 → 0 ≤ y2 < 10000 →
  String.compare
    ((format_year y1 +:+ "-" +:+ pad 2 m1 +:+ "-" +:+ pad 2 d1) +:+ r1)
    ((format_year y2 +:+ "-" +:+ pad 2 m2 +:+ "-" +:+ pad 2 d2) +:+ r2)
  = lex (Z.compare (days_from_civil y1 m1 d1) (days_from_civil y2 m2 d2)) (String.compare r1 r2).
Proof.
  intros Hv1 Hv2 Hy1 Hy2. pose proof (valid_date_bounds _ _ _ Hv1) as [Hm1 Hd1].
  pose proof (valid_date_bounds _ _ _ Hv2) as [Hm2 Hd2].
  unfold format_year. rewrite !decide_True by done. rewrite !str_app_assoc.
  rewrite str_compare_app by (by rewrite !length_pad). rewrite pad_compare by (cbn; lia).
  rewrite str_compare_prefix, str_compare_app by (by rewrite !length_pad).
  rewrite pad_compare by (cbn; lia).
  rewrite str_compare_prefix, str_compare_app by (by rewrite !length_pad).
  rewrite pad_compare by (cbn; lia).
  pose proof (days_from_civil_lt _ _ _ _ _ _ Hv1 Hv2) as H12.
  pose proof (days_from_civil_lt _ _ _ _ _ _ Hv2 Hv1) as H21.
  destruct (Z.compare_spec y1 y2), (Z.compare_spec m1 m2), (Z.compare_spec d1 d2),
    (Z.compare_spec (days_from_civil y1 m1 d1) (days_from_civil y2 m2 d2));
    cbn; try done; exfalso; clear Hv1 Hv2; subst; lia.
Qed.

Lemma format_date_compare t1 t2 r1 r2 :
  four_digit_year t1 → four_digit_year t2 →
  String.compare (format_date t1 +:+ r1) (format_date t2 +:+ r2)
  = lex (Z.compare (t1 `div` day_ns) (t2 `div` day_ns)) (String.compare r1 r2).
Proof.
  unfold four_digit_year, format_date. intros H1 H2.
  destruct (Time_Date t1) as [[y1 m1] d1] eqn:E1. destruct (Time_Date t2) as [[y2 m2] d2] eqn:E2.
  apply Time_Date_spec in E1 as [<- Hv1]. apply Time_Date_spec in E2 as [<- Hv2].
  by apply date_string_compare.
Qed.

Lemma lex_Z a b c d k :
  0 ≤ b < k → 0 ≤ d < k → lex (Z.compare a c) (Z.compare b d) = Z.compare (a * k + b) (c * k + d).
Proof.
  intros. symmetry. destruct (Z.compare_spec a c), (Z.compare_spec b d); cbn;
    first [apply Z.compare_eq_iff; nia|apply Z.compare_lt_iff; nia|apply Z.compare_gt_iff; nia].
Qed.

Lemma format_clock_compare t1 t2 sep r1 r2 :
  String.compare (format_clock t1 sep +:+ r1) (format_clock t2 sep +:+ r2)
  = lex (Z.compare ((t1 `mod` day_ns) `div` 10 ^ 9) ((t2 `mod` day_ns) `div` 10 ^ 9))
        (String.compare r1 r2).
Proof.
  unfold format_clock.
  assert (0 ≤ (t1 `mod` day_ns) `div` 10 ^ 9 < 86400) as H1 by (unfold day_ns; lia).
  assert (0 ≤ (t2 `mod` day_ns) `div` 10 ^ 9 < 86400) as H2 by (unfold day_ns; lia).
  revert H1 H2. generalize ((t1 `mod` day_ns) `div` 10 ^ 9), ((t2 `mod` day_ns) `div` 10 ^ 9).
  clear t1 t2. intros s1 s2 H1 H2. rewrite !str_app_assoc.
  rewrite str_compare_app by (by rewrite !length_pad). rewrite pad_compare by (cbn; lia).
  rewrite str_compare_prefix, str_compare_app by (by rewrite !length_pad).
  rewrite pad_compare by (cbn; lia).
  rewrite str_compare_prefix, str_compare_app by (by rewrite !length_pad).
  rewrite pad_compare by (cbn; lia).
  destruct (Z.compare_spec (s1 `div` 3600) (s2 `div` 3600)),
    (Z.compare_spec ((s1 `div` 60) `mod` 60) ((s2 `div` 60) `mod` 60)),
    (Z.compare_spec (s1 `mod` 60) (s2 `mod` 60)), (Z.compare_spec s1 s2);
    cbn; try done; exfalso; lia.
Qed.

(** Snapshot names sort like their times, to the second. *)
Lemma format_snapshot_compare t1 t2 :
  four_digit_year t1 → four_digit_year t2 →
  String.compare (format_snapshot t1) (format_snapshot t2)
  = Z.compare (t1 `div` 10 ^ 9) (t2 `div` 10 ^ 9).
Proof.
  intros H1 H2. unfold format_snapshot. rewrite format_date_compare by done.
  rewrite str_compare_prefix, format_clock_compare, str_compare_refl.
  assert (∀ c, lex c Eq = c) as -> by by intros [].
  rewrite (lex_Z _ _ _ _ 86400) by (unfold day_ns; lia).
  f_equal; unfold day_ns; lia.
Qed.

(** The parser inverts the formatter. *)
Lemma drop_str_app a b : drop_str (String.length a) (a +:+ b) = b.
Proof. induction a; [done|]. rewrite str_app_cons. done. Qed.

Lemma parse_item_lit l p s : parse_item (LLit l) p (l +:+ s) = Some (p, s).
Proof. unfold parse_item. by rewrite HasPrefix_app, drop_str_app. Qed.

Lemma parse_items_step it items p s p' s' :
  parse_item it p s = Some (p', s') → parse_items (it :: items) p s = parse_items items p' s'.
Proof. intros H. cbn [parse_items]. by rewrite H. Qed.

Lemma in_range_Some lo hi v (s : string) : lo ≤ v ≤ hi → in_range lo hi (v, s) = Some (v, s).
Proof. intros. unfold in_range. by rewrite decide_True. Qed.

(** A verb with a two-digit field in range consumes the padded field. *)
Lemma parse_item_pad it p n s p' :
  match it with
  | LMonth => 1 ≤ n ≤ 12 ∧ p' = p <| p_month := n |>
  | LDay => 1 ≤ n ≤ 31 ∧ p' = p <| p_day := n |>
  | LHour => 0 ≤ n ≤ 23 ∧ p' = p <| p_hour := n |>
  | LMinute => 0 ≤ n ≤ 59 ∧ p' = p <| p_min := n |>
  | _ => False
  end → parse_item it p (pad 2 n +:+ s) = Some (p', s).
Proof.
  destruct it; try done; intros [Hn ->]; unfold parse_item; rewrite getnum_pad by lia;
    cbn [mbind option_bind]; rewrite ?in_range_Some by done; done.
Qed.

Lemma parse_items_date y m d rest items :
  0 ≤ y < 10000 → 1 ≤ m ≤ 12 → 1 ≤ d ≤ 31 →
  parse_items (layout_date ++ items) (MkParsed 0 1 1 0 0 0 0 0)
    ((pad 4 y +:+ "-" +:+ pad 2 m +:+ "-" +:+ pad 2 d) +:+ rest)
  = parse_items items (MkParsed y m d 0 0 0 0 0) rest.
Proof.
  intros Hy Hm Hd. rewrite !str_app_assoc. unfold layout_date, layout_month. cbn [app].
  erewrite parse_items_step by (cbn [parse_item]; by rewrite get_year_pad by done).
  erewrite parse_items_step by apply parse_item_lit.
  erewrite parse_items_step by (by apply parse_item_pad).
  erewrite parse_items_step by apply parse_item_lit.
  by erewrite parse_items_step by (by apply parse_item_pad).
Qed.

Lemma parse_item_second n p s :
  0 ≤ n ≤ 59 → parse_item LSecond p (pad 2 n +:+ "Z" +:+ s)
             = Some (p <| p_sec := n |> <| p_nsec := 0 |>, "Z" +:+ s).
Proof.
  intros Hn. unfold parse_item, get_second. rewrite getnum_pad by lia. cbn [mbind option_bind].
  rewrite in_range_Some by done. cbn [mbind option_bind].
  rewrite str_app_cons, str_app_nil_l. by destruct s.
Qed.

Lemma parse_items_clock t p rest :
  parse_items [LHour; LLit "-"; LMinute; LLit "-"; LSecond; LLit "Z"] p
    (format_clock t "-" +:+ "Z" +:+ rest) =
  let s := (t `mod` day_ns) `div` 10 ^ 9 in
  parse_items [] (p <| p_hour := s `div` 3600 |> <| p_min := (s `div` 60) `mod` 60 |>
                    <| p_sec := s `mod` 60 |> <| p_nsec := 0 |>) rest.
Proof.
  assert (0 ≤ (t `mod` day_ns) `div` 10 ^ 9 < 86400) as H by (unfold day_ns; lia).
  unfold format_clock. revert H. generalize ((t `mod` day_ns) `div` 10 ^ 9). clear t.
  intros s Hs. cbn zeta. rewrite !str_app_assoc.
  erewrite parse_items_step by (apply parse_item_pad; split; [lia|done]).
  erewrite parse_items_step by apply parse_item_lit.
  erewrite parse_items_step by (apply parse_item_pad; split; [lia|done]).
  erewrite parse_items_step by apply parse_item_lit.
  erewrite parse_items_step by (apply parse_item_second; lia).
  by erewrite parse_items_step by apply parse_item_lit.
Qed.

Lemma time_Parse_format_snapshot t :
  four_digit_year t → time_Parse layout_snapshot (format_snapshot t) = Some (truncate_second t).
Proof.
  unfold four_digit_year, time_Parse, format_snapshot, format_date. intros Hy.
  destruct (Time_Date t) as [[y m] d] eqn:E. apply Time_Date_spec in E as [Hdays Hv].
  pose proof (valid_date_bounds _ _ _ Hv) as [Hm Hd]. cbn in Hy.
  unfold format_year. rewrite decide_True by done. unfold layout_snapshot.
  rewrite parse_items_date by done. erewrite parse_items_step by apply parse_item_lit.
  rewrite <-(str_app_nil_r (format_clock t "-" +:+ "Z")), str_app_assoc.
  rewrite parse_items_clock. cbn [parse_items]. rewrite (decide_True (P := "" = "")) by done.
  unfold update_field.
  cbn [mbind option_bind p_year p_month p_day p_hour p_min p_sec p_nsec p_zone].
  destruct Hv as [_ Hv]. rewrite decide_True by done. f_equal. unfold time_Date. rewrite Hdays. unfold truncate_second, day_ns. lia.
Qed.
End formatted.
