(* ===== verification/Sha256.v ===== *)
(** * SHA-256 (crypto/sha256)

    The hash the generated names use to shorten a long name, as FIPS 180-4
    defines it: 32-bit words are numbers below 2{^32}. *)
From S2P Require Export GoStrings.
From stdpp Require Import options.
From Stdlib Require Import Ascii.

Definition w32 (x : Z) : Z := Z.land x 0xffffffff.
Definition rotr (x n : Z) : Z := Z.lor (Z.shiftr x n) (w32 (Z.shiftl x (32 - n))).
Definition not32 (x : Z) : Z := Z.lxor x 0xffffffff.

(** The constants of the algorithm are the first thirty-two bits of the fractional parts of roots of
    the first primes: cube roots for the rounds, square roots for the initial state. *)
Definition is_prime (n : nat) : bool :=
  forallb (λ d, negb (n `mod` d =? 0)%nat) (seq 2 (n - 2)).

Definition primes_below (n : nat) : list Z :=
  Z.of_nat <$> List.filter is_prime (seq 2 (n - 2)).

(** The greatest number of at most [bits] bits whose cube is at most [n]. *)
Definition cube_root (bits : nat) (n : Z) : Z :=
  fold_right (λ bit root, let next := root + 2 ^ Z.of_nat bit in
    if next ^ 3 <=? n then next else root) 0 (seq 0 bits).

Definition fraction32 (x : Z) : Z := x `mod` 2 ^ 32.

Definition sha_k : list Z :=
  Eval vm_compute in (λ p, fraction32 (cube_root 40 (p * 2 ^ 96))) <$> primes_below 312.

Definition sha_init : list Z :=
  Eval vm_compute in (λ p, fraction32 (Z.sqrt (p * 2 ^ 64))) <$> primes_below 20.

(** Big-endian words and bytes. *)
Definition be_bytes (n : nat) (x : Z) : list Z :=
  (λ i, Z.land (Z.shiftr x (8 * Z.of_nat (n - 1 - i))) 255) <$> seq 0 n.

Fixpoint words (l : list Z) : list Z :=
  match l with
  | a :: b :: c :: d :: l =>
      Z.lor (Z.lor (Z.shiftl a 24) (Z.shiftl b 16)) (Z.lor (Z.shiftl c 8) d) :: words l
  | _ => []
  end.

(** The message with its padding: a bit, zeros, and the length in bits. *)
Definition sha_pad (l : list Z) : list Z :=
  let n := length l in
  let zeros := ((119 - n `mod` 64) `mod` 64)%nat in
  l ++ [128] ++ replicate zeros 0 ++ be_bytes 8 (8 * Z.of_nat n).

Definition sigma0 (x : Z) : Z := Z.lxor (Z.lxor (rotr x 7) (rotr x 18)) (Z.shiftr x 3).
Definition sigma1 (x : Z) : Z := Z.lxor (Z.lxor (rotr x 17) (rotr x 19)) (Z.shiftr x 10).
Definition Sigma0 (x : Z) : Z := Z.lxor (Z.lxor (rotr x 2) (rotr x 13)) (rotr x 22).
Definition Sigma1 (x : Z) : Z := Z.lxor (Z.lxor (rotr x 6) (rotr x 11)) (rotr x 25).

(** The message schedule, latest word first. *)
Fixpoint schedule (n : nat) (w : list Z) : list Z :=
  match n with
  | O => w
  | S n =>
      let at_ i := nth i w 0 in
      schedule n (w32 (sigma1 (at_ 1%nat) + at_ 6%nat + sigma0 (at_ 14%nat) + at_ 15%nat) :: w)
  end.

Definition sha_round (s : list Z) (kw : Z * Z) : list Z :=
  match s with
  | [a; b; c; d; e; f; g; h] =>
      let ch := Z.lxor (Z.land e f) (Z.land (not32 e) g) in
      let maj := Z.lxor (Z.lxor (Z.land a b) (Z.land a c)) (Z.land b c) in
      let t1 := w32 (h + Sigma1 e + ch + kw.1 + kw.2) in
      let t2 := w32 (Sigma0 a + maj) in
      [w32 (t1 + t2); a; b; c; w32 (d + t1); e; f; g]
  | _ => s
  end.

Definition sha_block (s : list Z) (block : list Z) : list Z :=
  let w := reverse (schedule 48 (reverse (words block))) in
  zip_with (λ x y, w32 (x + y)) s (fold_left sha_round (zip sha_k w) s).

Fixpoint sha_blocks (n : nat) (s l : list Z) : list Z :=
  match n with
  | O => s
  | S n => sha_blocks n (sha_block s (take 64 l)) (drop 64 l)
  end.

Definition string_bytes (s : string) : list Z :=
  (λ c, Z.of_nat (nat_of_ascii c)) <$> String.list_ascii_of_string s.

(** [sha256.Sum256] *)
Definition Sum256 (l : list Z) : list Z :=
  let m := sha_pad l in
  sha_blocks (length m / 64) sha_init m ≫= be_bytes 4.

(** [hex.EncodeToString] *)
Definition hex_char (n : Z) : ascii := hex_digit (Z.to_nat n).

Definition EncodeToString (l : list Z) : string :=
  String.string_of_list_ascii (l ≫= λ b, [hex_char (b `div` 16); hex_char (b `mod` 16)]).

Lemma sha256_abc :
  EncodeToString (Sum256 (string_bytes "abc"))
  = "ba7816bf8f01cfea414140de5dae2223b00361a396177a9cb410ff61f20015ad".
Proof. vm_compute. reflexivity. Qed.

Lemma sha256_two_blocks :
  EncodeToString (Sum256 (string_bytes "abcdbcdecdefdefgefghfghighijhijkijkljklmklmnlmnomnopnopq"))
  = "248d6a61d20638b8e5c026930c3e6039a33ce45964ff2167f6ecedd419db06c1".
Proof. vm_compute. reflexivity. Qed.

Lemma length_be_bytes n x : length (be_bytes n x) = n.
Proof. unfold be_bytes. by rewrite length_fmap, length_seq. Qed.

Lemma length_sha_round s kw : length s = 8%nat → length (sha_round s kw) = 8%nat.
Proof. intros H. do 9 (destruct s as [|? s]; try discriminate H). done. Qed.

Lemma length_sha_rounds l s : length s = 8%nat → length (fold_left sha_round l s) = 8%nat.
Proof.
  revert s. induction l as [|kw l IH]; intros s Hs; [done|]. apply IH. by apply length_sha_round.
Qed.

Lemma length_sha_block s b : length s = 8%nat → length (sha_block s b) = 8%nat.
Proof.
  intros H. unfold sha_block. rewrite length_zip_with, length_sha_rounds by done.
  rewrite H. reflexivity.
Qed.

Lemma length_sha_blocks n s l : length s = 8%nat → length (sha_blocks n s l) = 8%nat.
Proof.
  revert s l. induction n as [|n IH]; intros s l Hs; [done|]. apply IH. by apply length_sha_block.
Qed.

(** A digest has 32 bytes, so 64 hexadecimal digits. *)
Lemma length_Sum256 l : length (Sum256 l) = 32%nat.
Proof.
  unfold Sum256. cbn zeta. set (m := sha_pad l).
  pose proof (length_sha_blocks (length m / 64) sha_init m eq_refl) as H.
  destruct (sha_blocks _ _ _) as [|x0 [|x1 [|x2 [|x3 [|x4 [|x5 [|x6 [|x7 [|x8 r]]]]]]]]];
    try discriminate H.
  reflexivity.
Qed.

Lemma Sum256_bytes l : Forall (λ b, 0 ≤ b < 256) (Sum256 l).
Proof.
  unfold Sum256. cbn zeta. apply Forall_bind, Forall_true. intros x.
  unfold be_bytes. apply Forall_fmap, Forall_true. intros i. cbn.
  change 255 with (Z.ones 8). rewrite Z.land_ones by lia. apply Z.mod_pos_bound. lia.
Qed.

(** Every digit of an encoding is one of the sixteen. *)
Lemma EncodeToString_digits (P : ascii → Prop) l :
  (∀ n, (n < 16)%nat → P (hex_digit n)) → Forall (λ b, 0 ≤ b < 256) l →
  Forall P (String.list_ascii_of_string (EncodeToString l)).
Proof.
  intros HP Hl. unfold EncodeToString. rewrite String.list_ascii_of_string_of_list_ascii.
  apply Forall_bind. eapply Forall_impl; [exact Hl|]. intros b Hb. unfold hex_char.
  repeat constructor; apply HP.
  - pose proof (Z.div_lt_upper_bound b 16 16). pose proof (Z.div_pos b 16). cbn beta in Hb. lia.
  - pose proof (Z.mod_pos_bound b 16 ltac:(done)). lia.
Qed.

Lemma length_EncodeToString l : String.length (EncodeToString l) = (2 * length l)%nat.
Proof.
  unfold EncodeToString. induction l as [|b l IH]; [done|]. cbn [mbind list_bind app String.string_of_list_ascii String.length].
  cbn in IH |- *. rewrite IH. lia.
Qed.
