(* ===== verification/Naming.v ===== *)
(** * Generated names and labels (internal/controller/builders.go, helpers.go,
    internal/snapshot/helpers.go)

    How the names of Jobs, Services, Secrets, Leases and snapshots are made from
    the names of runs, machines and sources, the labels that tie a generated
    object to its run, and what every generated name looks like. *)
From S2P Require Export Sha256 GoTime.
From stdpp Require Import options.
From Stdlib Require Import Ascii.

(** ** Constants *)

Definition AppName : string := "kube-rsync-machine".

Definition LabelName : string := "app.kubernetes.io/name".
Definition LabelMachine : string := "krm.chirino.github.io/machine".
Definition LabelRunNamespace : string := "krm.chirino.github.io/run-namespace".
Definition LabelRunKind : string := "krm.chirino.github.io/run-kind".
Definition LabelRun : string := "krm.chirino.github.io/run".
Definition LabelSource : string := "krm.chirino.github.io/source".
Definition LabelRole : string := "krm.chirino.github.io/resource-role".

Definition RoleMachineTrigger : string := "machine-trigger".
Definition RoleTargetServer : string := "target-server".
Definition RoleSourceSender : string := "source-sender".
Definition RoleRestoreWriter : string := "restore-writer".
Definition RoleTLSSecret : string := "tls-secret".

Definition RoleSourceVolumeSnapshot : string := "source-volume-snapshot".
Definition RoleSourceSnapshotPVC : string := "source-snapshot-pvc".

Definition runKindBackup : string := "backup".
Definition runKindRestore : string := "restore".

Definition targetGuardRole : string := "target-guard".
Definition labelTargetNamespace : string := "krm.chirino.github.io/target-namespace".
Definition labelTargetName : string := "krm.chirino.github.io/target-name".

(** ** DNS labels *)

Definition dash : ascii := "-"%char.

(** [strings.ToLower], as far as ASCII goes: besides the capital letters, the
    only characters with an ASCII lower case are U+0130 and U+212A; every other
    character keeps a non-ASCII image and is left as it is. *)
Definition lower_char (c : ascii) : ascii :=
  let n := nat_of_ascii c in
  if decide (65 ≤ n ≤ 90)%nat then ascii_of_nat (n + 32) else c.

Fixpoint ToLower (s : string) : string :=
  match s with
  | String "196" (String "176" s) => String "i" (ToLower s)
  | String "226" (String "132" (String "170" s)) => String "k" (ToLower s)
  | String c s => String (lower_char c) (ToLower s)
  | "" => ""
  end.

Definition label_char (c : ascii) : bool :=
  let n := nat_of_ascii c in
  ((97 <=? n)%nat && (n <=? 122)%nat) || ((48 <=? n)%nat && (n <=? 57)%nat).

(** The loop that keeps letters and digits and puts one dash for a run of other
    characters; the bytes of one character are such a run too. *)
Fixpoint label_chars (lastDash : bool) (s : string) : string :=
  match s with
  | "" => ""
  | String c s =>
      if label_char c then String c (label_chars false s)
      else if lastDash then label_chars true s
      else String dash (label_chars true s)
  end.

(** What a label is made of before it is shortened. *)
Definition label_base (value : string) : string :=
  let out := Trim (label_chars false (ToLower value)) "-" in
  if decide (out = "") then "krm" else out.

Definition hash_suffix (out : string) : string :=
  take_str 10 (EncodeToString (Sum256 (string_bytes out))).

Definition dnsLabelMax (value : string) (maxLength : nat) : string :=
  let out := label_base value in
  if decide (String.length out ≤ maxLength)%nat then out
  else
    let suffix := hash_suffix out in
    if decide (maxLength ≤ String.length suffix)%nat then take_str maxLength suffix
    else
      let prefix := TrimRight (take_str (maxLength - String.length suffix - 1) out) "-" in
      if decide (prefix = "") then suffix else prefix +:+ "-" +:+ suffix.

Definition dnsLabel (value : string) : string := dnsLabelMax value 63.

(** The copy of [dnsLabel] in package snapshot. *)
Definition snapshot_dnsLabel (value : string) : string :=
  let out := label_base value in
  if decide (String.length out ≤ 63)%nat then out
  else
    let suffix := hash_suffix out in
    let prefix := TrimRight (take_str (63 - String.length suffix - 1) out) "-" in
    if decide (prefix = "") then suffix else prefix +:+ "-" +:+ suffix.

Definition labelValue (parts : list string) : string := dnsLabel (strings_Join parts "-").

(** ** Names *)

Definition GeneratedCronJobName (planName : string) : string := dnsLabel ("krm-" +:+ planName).

(** [scheduledAt.UTC().Format("20060102-1504")] *)
Definition format_minute (t : Time) : string :=
  let '(y, m, d) := Time_Date t in
  let sod := t `mod` day_ns `div` 10 ^ 9 in
  format_year y +:+ pad 2 m +:+ pad 2 d +:+ "-" +:+ pad 2 (sod `div` 3600) +:+
  pad 2 (sod `div` 60 `mod` 60).

Definition GeneratedScheduledBackupJobName (machineName : string) (scheduledAt : Time) : string :=
  let timestamp := format_minute scheduledAt in
  let prefix := dnsLabelMax machineName (63 - String.length "krm--" - String.length timestamp) in
  "krm-" +:+ prefix +:+ "-" +:+ timestamp.

Definition GeneratedJobName (prefix runName : string) : string :=
  dnsLabel ("krm-" +:+ prefix +:+ "-" +:+ runName).

Definition GeneratedServiceName (prefix runName : string) : string :=
  dnsLabel ("krm-" +:+ prefix +:+ "-" +:+ runName).

Definition RunIDForRef (ref : NamespacedName) : string :=
  if decide (nn_Namespace ref = "") then nn_Name ref
  else nn_Namespace ref +:+ "-" +:+ nn_Name ref.

Definition run_ref (run : BackupJob) : NamespacedName :=
  MkNamespacedName (om_Namespace (bj_Meta run)) (om_Name (bj_Meta run)).
Definition restore_ref (run : RestoreJob) : NamespacedName :=
  MkNamespacedName (om_Namespace (rj_Meta run)) (om_Name (rj_Meta run)).

Definition RunID (run : BackupJob) : string := RunIDForRef (run_ref run).

Definition GeneratedTLSSecretName (runID role namespace name : string) : string :=
  dnsLabel ("krm-tls-" +:+ runID +:+ "-" +:+ role +:+ "-" +:+ namespace +:+ "-" +:+ name).

Definition GeneratedVolumeSnapshotName (run source : NamespacedName) : string :=
  snapshot_dnsLabel ("krm-vs-" +:+ RunIDForRef run +:+ "-" +:+ nn_Namespace source +:+ "-" +:+
                     nn_Name source).

Definition GeneratedTemporaryPVCName (run source : NamespacedName) : string :=
  snapshot_dnsLabel ("krm-vspvc-" +:+ RunIDForRef run +:+ "-" +:+ nn_Namespace source +:+ "-" +:+
                     nn_Name source).

(** ** Labels *)

Definition runLabelsForRef (ref : NamespacedName) (runKind role : string) : gmap string string :=
  list_to_map [(LabelName, AppName); (LabelRunNamespace, nn_Namespace ref);
               (LabelRunKind, runKind); (LabelRun, nn_Name ref); (LabelRole, role)].

Definition runLabels (run : BackupJob) (runKind role : string) : gmap string string :=
  runLabelsForRef (run_ref run) runKind role.

(** [Labels] of package snapshot. *)
Definition snapshot_Labels (run source : NamespacedName) (role : string) : gmap string string :=
  list_to_map [(LabelName, AppName); (LabelRunNamespace, nn_Namespace run);
               (LabelRunKind, runKindBackup); (LabelRun, nn_Name run);
               (LabelSource, snapshot_dnsLabel (nn_Namespace source +:+ "-" +:+ nn_Name source));
               (LabelRole, role)].

(** ** The lease of a target *)

Definition targetGuardLeaseName (target : NamespacedName) : string :=
  let suffix := hash_suffix (nn_Namespace target +:+ "/" +:+ nn_Name target) in
  let stem := dnsLabel ("krm-target-guard-" +:+ nn_Name target) in
  let maxStem := (63 - String.length suffix - 1)%nat in
  let stem := if decide (maxStem < String.length stem)%nat
              then TrimRight (take_str maxStem stem) "-" else stem in
  let stem := if decide (stem = "") then "krm-target-guard" else stem in
  stem +:+ "-" +:+ suffix.

Definition TargetGuardLeaseRef (target : NamespacedName) : NamespacedName :=
  MkNamespacedName (nn_Namespace target) (targetGuardLeaseName target).

(** ** Lemmas on trimming dashes *)

Definition chars (s : string) : list ascii := String.list_ascii_of_string s.

Lemma chars_app s t : chars (s +:+ t) = chars s ++ chars t.
Proof. induction s as [|c s IH]; [done|]. exact (f_equal (cons c) IH). Qed.

Lemma length_chars s : length (chars s) = String.length s.
Proof. induction s as [|c s IH]; [done|]. exact (f_equal S IH). Qed.

Lemma chars_nil s : chars s = [] ↔ s = "".
Proof. by destruct s. Qed.

Lemma chars_rev s : chars (String.rev s) = reverse (chars s).
Proof.
  assert (∀ t, chars (String.rev_app s t) = reverse (chars s) ++ chars t) as H.
  { induction s as [|c s IH]; intros t; [done|]. change (chars (String.rev_app s (String c t))
      = reverse (c :: chars s) ++ chars t). by rewrite IH, reverse_cons, <-(assoc_L (++)). }
  unfold String.rev. rewrite H. apply app_nil_r.
Qed.

Lemma chars_take n s : chars (take_str n s) = take n (chars s).
Proof. revert n. induction s as [|c s IH]; intros [|n]; [done..|].
  exact (f_equal (cons c) (IH n)). Qed.

Fixpoint skip (c : ascii) (l : list ascii) : list ascii :=
  match l with
  | [] => []
  | a :: l' => if decide (a = c) then skip c l' else l
  end.

Lemma trim_front_skip fuel c s :
  (String.length s ≤ fuel)%nat →
  chars (trim_front fuel [String c ""] s) = skip c (chars s).
Proof.
  revert s. induction fuel as [|fuel IH]; intros s Hs.
  - destruct s; [done|]. cbn in Hs. lia.
  - cbn [trim_front list_find]. destruct s as [|a s].
    + destruct (decide _) as [H|]; [discriminate H|done].
    + cbn [chars String.list_ascii_of_string skip]. destruct (decide (a = c)) as [->|Hne].
      * rewrite decide_True.
        { cbn. apply IH. cbn in Hs. lia. }
        cbn [HasPrefix]. rewrite bool_decide_eq_true_2 by done. apply HasPrefix_nil.
      * rewrite decide_False; [done|]. cbn [HasPrefix].
        rewrite bool_decide_eq_false_2 by congruence. done.
Qed.

Lemma length_rev_str s : String.length (String.rev s) = String.length s.
Proof. by rewrite <-!length_chars, chars_rev, length_reverse. Qed.

Lemma chars_TrimRight s c : chars (TrimRight s (String c "")) = reverse (skip c (reverse (chars s))).
Proof.
  unfold TrimRight. rewrite chars_rev. unfold singletons. cbn [String.list_ascii_of_string fmap list_fmap].
  by rewrite trim_front_skip, chars_rev by (rewrite length_rev_str; lia).
Qed.

Lemma chars_Trim s c : chars (Trim s (String c "")) = reverse (skip c (reverse (skip c (chars s)))).
Proof.
  unfold Trim. rewrite chars_TrimRight. unfold TrimLeft, singletons.
  cbn [String.list_ascii_of_string fmap list_fmap]. by rewrite trim_front_skip.
Qed.

Lemma skip_suffix c l : ∃ k, l = k ++ skip c l.
Proof.
  induction l as [|a l [k IH]]; [by exists []|]. cbn. case_decide; [|by exists []].
  exists (a :: k). cbn. by f_equal.
Qed.

Lemma skip_head c l a l' : skip c l = a :: l' → a ≠ c.
Proof. induction l as [|b l IH]; cbn; [done|]. case_decide; [done|]. by intros [= <- _]. Qed.

(** ** Well-formed labels *)

Definition ends_ok (l : list ascii) : Prop :=
  (∀ a, head l = Some a → a ≠ dash) ∧ (∀ a, last l = Some a → a ≠ dash).

Definition in_label (c : ascii) : Prop := label_char c = true ∨ c = dash.

(** A DNS label as RFC 1123 defines it, of at most [n] characters. *)
Record dns_label (n : nat) (s : string) : Prop := {
  dl_length : (1 ≤ String.length s ≤ n)%nat;
  dl_chars : Forall in_label (chars s);
  dl_ends : ends_ok (chars s)
}.

Lemma label_char_not_dash c : label_char c = true → c ≠ dash.
Proof. intros H ->. discriminate H. Qed.

Lemma label_chars_ok b s : Forall in_label (chars (label_chars b s)).
Proof.
  revert b. induction s as [|c s IH]; intros b; cbn; [constructor|].
  destruct (label_char c) eqn:Hc; cbn; [constructor; [by left|auto]|].
  destruct b; cbn; [auto|]. constructor; [by right|auto].
Qed.

(** What is left after the dashes at the end are cut keeps its beginning. *)
Lemma trim_end_spec c l :
  let r := reverse (skip c (reverse l)) in
  r `prefix_of` l ∧ (∀ a, last r = Some a → a ≠ c).
Proof.
  cbn zeta. split.
  - destruct (skip_suffix c (reverse l)) as [k Hk]. exists (reverse k).
    rewrite <-reverse_app, <-Hk. by rewrite reverse_involutive.
  - intros a. rewrite last_reverse. destruct (skip c (reverse l)) as [|b l'] eqn:Hs; [done|].
    intros [= <-]. by eapply skip_head.
Qed.

Lemma Forall_prefix {A} (P : A → Prop) (l k : list A) : l `prefix_of` k → Forall P k → Forall P l.
Proof. intros [x ->]. by intros [? _]%Forall_app. Qed.

Lemma head_prefix {A} (l k : list A) a : l `prefix_of` k → head l = Some a → head k = Some a.
Proof. intros [x ->]. by destruct l. Qed.

Lemma ends_ok_trim l :
  ends_ok (reverse (skip dash (reverse (skip dash l)))).
Proof.
  destruct (trim_end_spec dash (skip dash l)) as [Hpre Hlast]. split; [|done].
  intros a Ha. eapply head_prefix in Ha; [|exact Hpre].
  destruct (skip dash l) as [|b k] eqn:Hs; [done|]. injection Ha as <-. by eapply skip_head.
Qed.

Lemma label_base_spec value :
  label_base value ≠ "" ∧ Forall in_label (chars (label_base value)) ∧ ends_ok (chars (label_base value)).
Proof.
  unfold label_base. set (x := label_chars false (ToLower value)). case_decide as Hx.
  - split; [done|]. split; [repeat constructor|]. split; intros a [= <-]; done.
  - split; [done|]. rewrite chars_Trim. split; [|apply ends_ok_trim].
    eapply Forall_prefix; [apply (trim_end_spec dash (skip dash (chars x)))|].
    assert (Forall in_label (chars x)) as Hall by apply label_chars_ok.
    destruct (skip_suffix dash (chars x)) as [k Hk]. rewrite Hk in Hall.
    by apply Forall_app in Hall as [_ ?].
Qed.

Lemma length_take_str n s : String.length (take_str n s) = Nat.min n (String.length s).
Proof. by rewrite <-!length_chars, chars_take, length_take. Qed.

Lemma label_not_dash_ends l : Forall (λ c, label_char c = true) l → ends_ok l.
Proof.
  rewrite Forall_forall. intros H.
  split; intros a Ha; apply label_char_not_dash, H; [by apply head_Some_elem_of|].
  apply last_Some in Ha as [k ->]. set_solver.
Qed.

Lemma length_hash_suffix out : String.length (hash_suffix out) = 10%nat.
Proof.
  unfold hash_suffix. by rewrite length_take_str, length_EncodeToString, length_Sum256.
Qed.

Lemma hash_suffix_chars out : Forall (λ c, label_char c = true) (chars (hash_suffix out)).
Proof.
  unfold hash_suffix. rewrite chars_take. apply Forall_take.
  apply EncodeToString_digits; [|apply Sum256_bytes].
  intros n Hn. do 16 (destruct n as [|n]; [done|]). lia.
Qed.

Lemma Forall_label_in l : Forall (λ c, label_char c = true) l → Forall in_label l.
Proof. intros H. eapply Forall_impl; [exact H|]. by left. Qed.

(** A stem with a dash and a hash behind it. *)
Lemma append_hash p n out :
  Forall in_label (chars p) → (1 ≤ String.length p ≤ n - 11)%nat →
  (∀ a, head (chars p) = Some a → a ≠ dash) →
  dns_label n (p +:+ "-" +:+ hash_suffix out).
Proof.
  intros Hp Hlp Hh.
  pose proof (length_hash_suffix out) as Hlen. pose proof (hash_suffix_chars out) as Hc.
  split; [rewrite !length_app_str; cbn [String.length]; lia| |]; rewrite !chars_app.
  - apply Forall_app. split; [done|].
    apply Forall_app. split; [by repeat constructor; right|by apply Forall_label_in].
  - split.
    + intros a. destruct (chars p) as [|b l] eqn:Hcp; [|by intros [= <-]; apply Hh].
      apply chars_nil in Hcp as ->. cbn in Hlp. lia.
    + intros a. rewrite !last_app. destruct (last (chars (hash_suffix out))) as [b|] eqn:Hb.
      * intros [= <-]. by apply (label_not_dash_ends _ Hc).
      * apply last_None, (f_equal length) in Hb. rewrite length_chars, Hlen in Hb. done.
Qed.

(** A label cut off at the end and joined to a hash. *)
Lemma joined_label s n out :
  Forall in_label (chars s) → ends_ok (chars s) → (10 < n)%nat →
  let p := TrimRight (take_str (n - 10 - 1) s) "-" in
  dns_label n (if decide (p = "") then hash_suffix out else p +:+ "-" +:+ hash_suffix out).
Proof.
  intros Hs Hends Hn p.
  assert (chars p `prefix_of` chars s) as Hp.
  { unfold p. rewrite chars_TrimRight, chars_take. etrans; [apply trim_end_spec|].
    exists (drop (n - 10 - 1) (chars s)). by rewrite take_drop. }
  assert (String.length p ≤ n - 11)%nat as Hlp.
  { unfold p. rewrite <-length_chars, chars_TrimRight, chars_take.
    etrans; [apply prefix_length, trim_end_spec|]. rewrite length_take. lia. }
  case_decide as He.
  - pose proof (length_hash_suffix out). pose proof (hash_suffix_chars out).
    split; [lia|by apply Forall_label_in|by apply label_not_dash_ends].
  - apply append_hash.
    + by eapply Forall_prefix.
    + split; [|done]. destruct p; [done|]. cbn [String.length]. lia.
    + intros a Ha. apply (proj1 Hends). by eapply head_prefix.
Qed.

Lemma dnsLabelMax_spec value n : (0 < n)%nat → dns_label n (dnsLabelMax value n).
Proof.
  intros Hn. destruct (label_base_spec value) as (Hne & Hchars & Hends).
  pose proof (length_hash_suffix (label_base value)) as Hlen.
  pose proof (hash_suffix_chars (label_base value)) as Hc.
  unfold dnsLabelMax. cbn zeta. rewrite Hlen. case_decide as Hle.
  - split; [|done..]. split; [|done]. clear -Hne. destruct (label_base value); [done|].
    cbn [String.length]. lia.
  - case_decide as Hs.
    + assert (Forall (λ c, label_char c = true) (chars (take_str n (hash_suffix (label_base value))))).
      { rewrite chars_take. by apply Forall_take. }
      split; [rewrite length_take_str; lia|by apply Forall_label_in|by apply label_not_dash_ends].
    + apply joined_label; [done..|lia].
Qed.

(** The two copies of [dnsLabel] agree. *)
Lemma snapshot_dnsLabel_eq value : snapshot_dnsLabel value = dnsLabel value.
Proof.
  unfold snapshot_dnsLabel, dnsLabel, dnsLabelMax. cbn zeta.
  rewrite length_hash_suffix. case_decide; [done|]. by rewrite (decide_False (P := 63 ≤ 10)%nat) by lia.
Qed.

(** A lease's stem is never empty: at least the fixed prefix of a lease is there. *)
Lemma targetGuardLeaseName_ok ref : dns_label 63 (targetGuardLeaseName ref).
Proof.
  unfold targetGuardLeaseName. cbn zeta.
  set (out := nn_Namespace ref +:+ "/" +:+ nn_Name ref). rewrite length_hash_suffix.
  pose proof (dnsLabelMax_spec ("krm-target-guard-" +:+ nn_Name ref) 63 ltac:(lia)) as [Hl Hc He].
  fold (dnsLabel ("krm-target-guard-" +:+ nn_Name ref)) in Hl, Hc, He.
  set (stem := dnsLabel _) in *. change (63 - 10 - 1)%nat with 52%nat.
  set (cut := if decide (52 < String.length stem)%nat then _ else _).
  assert (chars cut `prefix_of` chars stem ∧ (String.length cut ≤ 52)%nat) as [Hp Hcl].
  { unfold cut. case_decide; [|split; [done|lia]].
    rewrite <-length_chars, chars_TrimRight, chars_take.
    assert (∀ l, reverse (skip dash (reverse (take 52 l))) `prefix_of` l) as Hpre.
    { intros l. etrans; [apply trim_end_spec|]. exists (drop 52 l). by rewrite take_drop. }
    split; [apply Hpre|]. etrans; [apply prefix_length, trim_end_spec|]. rewrite length_take. lia. }
  apply append_hash.
  - case_decide; [|by eapply Forall_prefix]. by repeat (constructor; [by (left + right)|]).
  - case_decide as H; [vm_compute; lia|]. split; [|lia]. destruct cut; [done|]. cbn [String.length]. lia.
  - intros a. case_decide as H; [by intros [= <-]|]. intros Ha.
    apply (proj1 He). by eapply head_prefix.
Qed.

(** Every name generated for a Job, a Service, a Secret, a CronJob, a VolumeSnapshot, a
    temporary PVC or a target lease is a DNS label: between 1 and 63 characters, lower case
    letters, digits and dashes, with no dash at either end, whatever the names of the objects it
    is made of. *)
Theorem generated_names_valid p run runID role ns name ref source :
  Forall (dns_label 63)
    [GeneratedJobName p run; GeneratedServiceName p run; GeneratedTLSSecretName runID role ns name;
     GeneratedCronJobName name; GeneratedVolumeSnapshotName ref source;
     GeneratedTemporaryPVCName ref source; targetGuardLeaseName ref].
Proof.
  repeat first [apply Forall_nil_2 | apply Forall_cons_2];
    unfold GeneratedVolumeSnapshotName, GeneratedTemporaryPVCName; rewrite ?snapshot_dnsLabel_eq;
    try (apply dnsLabelMax_spec; lia).
  apply targetGuardLeaseName_ok.
Qed.
