(* ===== verification/Control.v ===== *)
(** * Control messages and their validation (internal/control/types.go, service.go)

    The messages the target, the sources and the controller exchange through
    the manager: the run key, the target commands, the target and source
    events, and the validation every message passes before it is published or
    enqueued.  The Kubernetes name checks are parameters. *)
From S2P Require Export GoTime.
From stdpp Require Import options.

(** ** Data *)

Definition RunKindBackup : string := "backup".
Definition RunKindRestore : string := "restore".
Definition TargetCommandFinalizeBackupJob : string := "finalize_backup_run".
Definition TargetCommandRecoverSpace : string := "recover_space".
Definition TargetCommandAbortRun : string := "abort_run".

Record RunKey := MkRunKey {
  rk_Namespace : string;
  rk_Name : string;
  rk_Kind : string
}.

#[export] Instance RunKey_eta : Eta RunKey := λ r,
  {| rk_Namespace := rk_Namespace r; rk_Name := rk_Name r; rk_Kind := rk_Kind r |}.

#[export] Instance RunKey_eq_dec : EqDecision RunKey.
Proof. solve_decision. Defined.

#[export] Instance RunKey_inhabited : Inhabited RunKey := populate
  (MkRunKey "" "" "").

#[export] Instance RunKey_countable : Countable RunKey.
Proof.
  refine (inj_countable' (λ k, (rk_Namespace k, rk_Name k, rk_Kind k))
            (λ p, MkRunKey p.1.1 p.1.2 p.2) _). by intros [].
Defined.

Record RegisterTargetRequest := MkRegisterTargetRequest {
  rtr_RunNamespace : string;
  rtr_RunName : string;
  rtr_RunKind : string;
  rtr_TargetNamespace : string;
  rtr_TargetName : string
}.

#[export] Instance RegisterTargetRequest_eta : Eta RegisterTargetRequest := λ r,
  {| rtr_RunNamespace := rtr_RunNamespace r; rtr_RunName := rtr_RunName r; rtr_RunKind :=
     rtr_RunKind r; rtr_TargetNamespace := rtr_TargetNamespace r; rtr_TargetName :=
     rtr_TargetName r |}.

#[export] Instance RegisterTargetRequest_eq_dec : EqDecision RegisterTargetRequest.
Proof. solve_decision. Defined.

#[export] Instance RegisterTargetRequest_inhabited : Inhabited RegisterTargetRequest := populate
  (MkRegisterTargetRequest "" "" "" "" "").

Record ExpectedSource := MkExpectedSource {
  es_Namespace : string;
  es_Name : string;
  es_DestinationPath : string
}.

#[export] Instance ExpectedSource_eta : Eta ExpectedSource := λ r,
  {| es_Namespace := es_Namespace r; es_Name := es_Name r; es_DestinationPath :=
     es_DestinationPath r |}.

#[export] Instance ExpectedSource_eq_dec : EqDecision ExpectedSource.
Proof. solve_decision. Defined.

#[export] Instance ExpectedSource_inhabited : Inhabited ExpectedSource := populate
  (MkExpectedSource "" "" "").

Record FinalizeBackupJob := MkFinalizeBackupJob {
  fb_Timestamp : string;
  fb_Sources : list ExpectedSource;
  fb_BytesTransferred : Z
}.

#[export] Instance FinalizeBackupJob_eta : Eta FinalizeBackupJob := λ r,
  {| fb_Timestamp := fb_Timestamp r; fb_Sources := fb_Sources r; fb_BytesTransferred :=
     fb_BytesTransferred r |}.

#[export] Instance FinalizeBackupJob_eq_dec : EqDecision FinalizeBackupJob.
Proof. solve_decision. Defined.

#[export] Instance FinalizeBackupJob_inhabited : Inhabited FinalizeBackupJob := populate
  (MkFinalizeBackupJob "" [] 0).

Record control_RecoverSpace := MkRecoverSpace {
  rsp_FailedSourceNamespace : string;
  rsp_FailedSourceName : string;
  rsp_Reason : string;
  rsp_MinAvailableBytes : Z;
  rsp_ProtectedSnapshots : list string
}.

#[export] Instance RecoverSpace_eta : Eta control_RecoverSpace := λ r,
  {| rsp_FailedSourceNamespace := rsp_FailedSourceNamespace r; rsp_FailedSourceName :=
     rsp_FailedSourceName r; rsp_Reason := rsp_Reason r; rsp_MinAvailableBytes :=
     rsp_MinAvailableBytes r; rsp_ProtectedSnapshots := rsp_ProtectedSnapshots r |}.

#[export] Instance RecoverSpace_eq_dec : EqDecision control_RecoverSpace.
Proof. solve_decision. Defined.

#[export] Instance RecoverSpace_inhabited : Inhabited control_RecoverSpace := populate
  (MkRecoverSpace "" "" "" 0 []).

Record AbortRun := MkAbortRun {
  ar_Reason : string
}.

#[export] Instance AbortRun_eta : Eta AbortRun := λ r,
  {| ar_Reason := ar_Reason r |}.

#[export] Instance AbortRun_eq_dec : EqDecision AbortRun.
Proof. solve_decision. Defined.

#[export] Instance AbortRun_inhabited : Inhabited AbortRun := populate
  (MkAbortRun "").

Record TargetCommand := MkTargetCommand {
  tc_CommandID : string;
  tc_Type : string;
  tc_Finalize : option FinalizeBackupJob;
  tc_RecoverSpace : option control_RecoverSpace;
  tc_Abort : option AbortRun
}.

#[export] Instance TargetCommand_eta : Eta TargetCommand := λ r,
  {| tc_CommandID := tc_CommandID r; tc_Type := tc_Type r; tc_Finalize := tc_Finalize r;
     tc_RecoverSpace := tc_RecoverSpace r; tc_Abort := tc_Abort r |}.

#[export] Instance TargetCommand_eq_dec : EqDecision TargetCommand.
Proof. solve_decision. Defined.

#[export] Instance TargetCommand_inhabited : Inhabited TargetCommand := populate
  (MkTargetCommand "" "" None None None).

Record TargetCommandAckEvent := MkTargetCommandAckEvent {
  ta_RunNamespace : string;
  ta_RunName : string;
  ta_RunKind : string;
  ta_TargetNamespace : string;
  ta_TargetName : string;
  ta_CommandID : string;
  ta_CommandType : string;
  ta_AcknowledgedAt : string;
  ta_Message : string
}.

#[export] Instance TargetCommandAckEvent_eta : Eta TargetCommandAckEvent := λ r,
  {| ta_RunNamespace := ta_RunNamespace r; ta_RunName := ta_RunName r; ta_RunKind :=
     ta_RunKind r; ta_TargetNamespace := ta_TargetNamespace r; ta_TargetName :=
     ta_TargetName r; ta_CommandID := ta_CommandID r; ta_CommandType := ta_CommandType r;
     ta_AcknowledgedAt := ta_AcknowledgedAt r; ta_Message := ta_Message r |}.

#[export] Instance TargetCommandAckEvent_eq_dec : EqDecision TargetCommandAckEvent.
Proof. solve_decision. Defined.

#[export] Instance TargetCommandAckEvent_inhabited : Inhabited TargetCommandAckEvent := populate
  (MkTargetCommandAckEvent "" "" "" "" "" "" "" "" "").

(** [control.RestorePoint] *)
Record control_RestorePoint := Mkcontrol_RestorePoint {
  crp_Snapshot : string;
  crp_ResolvesTo : string;
  crp_Tier : string;
  crp_CreatedAt : string;
  crp_BytesTransferred : Z
}.

#[export] Instance control_RestorePoint_eta : Eta control_RestorePoint := λ r,
  {| crp_Snapshot := crp_Snapshot r; crp_ResolvesTo := crp_ResolvesTo r; crp_Tier :=
     crp_Tier r; crp_CreatedAt := crp_CreatedAt r; crp_BytesTransferred :=
     crp_BytesTransferred r |}.

#[export] Instance control_RestorePoint_eq_dec : EqDecision control_RestorePoint.
Proof. solve_decision. Defined.

#[export] Instance control_RestorePoint_inhabited : Inhabited control_RestorePoint := populate
  (Mkcontrol_RestorePoint "" "" "" "" 0).

Record TargetCondition := MkTargetCondition {
  tcn_Type : string;
  tcn_Status : string;
  tcn_Reason : string;
  tcn_Message : string;
  tcn_LastTransitionTime : string;
  tcn_ObservedGeneration : Z
}.

#[export] Instance TargetCondition_eta : Eta TargetCondition := λ r,
  {| tcn_Type := tcn_Type r; tcn_Status := tcn_Status r; tcn_Reason := tcn_Reason r;
     tcn_Message := tcn_Message r; tcn_LastTransitionTime := tcn_LastTransitionTime r;
     tcn_ObservedGeneration := tcn_ObservedGeneration r |}.

#[export] Instance TargetCondition_eq_dec : EqDecision TargetCondition.
Proof. solve_decision. Defined.

#[export] Instance TargetCondition_inhabited : Inhabited TargetCondition := populate
  (MkTargetCondition "" "" "" "" "" 0).

Record TargetEvent := MkTargetEvent {
  te_RunNamespace : string;
  te_RunName : string;
  te_RunKind : string;
  te_TargetNamespace : string;
  te_TargetName : string;
  te_Phase : string;
  te_Message : string;
  te_Snapshot : string;
  te_BytesFreed : Z;
  te_Paths : list string;
  te_RestorePoints : list control_RestorePoint;
  te_RestoreScanned : bool;
  te_Conditions : list TargetCondition;
  te_AvailableBytes : Z;
  te_CapacityBytes : Z
}.

#[export] Instance TargetEvent_eta : Eta TargetEvent := λ r,
  {| te_RunNamespace := te_RunNamespace r; te_RunName := te_RunName r; te_RunKind :=
     te_RunKind r; te_TargetNamespace := te_TargetNamespace r; te_TargetName :=
     te_TargetName r; te_Phase := te_Phase r; te_Message := te_Message r; te_Snapshot :=
     te_Snapshot r; te_BytesFreed := te_BytesFreed r; te_Paths := te_Paths r;
     te_RestorePoints := te_RestorePoints r; te_RestoreScanned := te_RestoreScanned r;
     te_Conditions := te_Conditions r; te_AvailableBytes := te_AvailableBytes r;
     te_CapacityBytes := te_CapacityBytes r |}.

#[export] Instance TargetEvent_eq_dec : EqDecision TargetEvent.
Proof. solve_decision. Defined.

#[export] Instance TargetEvent_inhabited : Inhabited TargetEvent := populate
  (MkTargetEvent "" "" "" "" "" "" "" "" 0 [] [] false [] 0 0).

Record SourceEvent := MkSourceEvent {
  se_RunNamespace : string;
  se_RunName : string;
  se_RunKind : string;
  se_SourceNamespace : string;
  se_SourceName : string;
  se_Phase : string;
  se_Percent : Z;
  se_BytesTransferred : Z;
  se_RateBytesPerSecond : Z;
  se_FilesTransferred : Z;
  se_TotalFiles : Z;
  se_TotalFileSize : Z;
  se_BytesSent : Z;
  se_BytesReceived : Z;
  se_Speedup : spec_float;
  se_StatsComplete : bool;
  se_StartedAt : string;
  se_CompletedAt : string;
  se_RsyncExitCode : Z;
  se_Message : string;
  se_CaptureMethod : string;
  se_CaptureTime : string;
  se_VolumeSnapshotName : string
}.

#[export] Instance SourceEvent_eta : Eta SourceEvent := λ r,
  {| se_RunNamespace := se_RunNamespace r; se_RunName := se_RunName r; se_RunKind :=
     se_RunKind r; se_SourceNamespace := se_SourceNamespace r; se_SourceName :=
     se_SourceName r; se_Phase := se_Phase r; se_Percent := se_Percent r;
     se_BytesTransferred := se_BytesTransferred r; se_RateBytesPerSecond :=
     se_RateBytesPerSecond r; se_FilesTransferred := se_FilesTransferred r; se_TotalFiles :=
     se_TotalFiles r; se_TotalFileSize := se_TotalFileSize r; se_BytesSent := se_BytesSent
     r; se_BytesReceived := se_BytesReceived r; se_Speedup := se_Speedup r; se_StatsComplete
     := se_StatsComplete r; se_StartedAt := se_StartedAt r; se_CompletedAt := se_CompletedAt
     r; se_RsyncExitCode := se_RsyncExitCode r; se_Message := se_Message r; se_CaptureMethod
     := se_CaptureMethod r; se_CaptureTime := se_CaptureTime r; se_VolumeSnapshotName :=
     se_VolumeSnapshotName r |}.

#[export] Instance SourceEvent_eq_dec : EqDecision SourceEvent.
Proof. solve_decision. Defined.

#[export] Instance SourceEvent_inhabited : Inhabited SourceEvent := populate
  (MkSourceEvent "" "" "" "" "" "" 0 0 0 0 0 0 0 0 (S754_zero false) false "" "" 0 "" "" ""
     "").

Definition rtr_Key (r : RegisterTargetRequest) : RunKey :=
  MkRunKey (rtr_RunNamespace r) (rtr_RunName r) (rtr_RunKind r).
Definition ta_Key (e : TargetCommandAckEvent) : RunKey :=
  MkRunKey (ta_RunNamespace e) (ta_RunName e) (ta_RunKind e).
Definition te_Key (e : TargetEvent) : RunKey :=
  MkRunKey (te_RunNamespace e) (te_RunName e) (te_RunKind e).
Definition se_Key (e : SourceEvent) : RunKey :=
  MkRunKey (se_RunNamespace e) (se_RunName e) (se_RunKind e).

Definition NewFinalizeBackupJobCommand (commandID : string) (f : FinalizeBackupJob) :=
  MkTargetCommand commandID TargetCommandFinalizeBackupJob (Some f) None None.
Definition NewRecoverSpaceCommand (commandID : string) (r : control_RecoverSpace) :=
  MkTargetCommand commandID TargetCommandRecoverSpace None (Some r) None.
Definition NewAbortRunCommand (commandID : string) (a : AbortRun) :=
  MkTargetCommand commandID TargetCommandAbortRun None None (Some a).

(** ** Validation *)

(** The name checks of k8s.io/apimachinery/pkg/util/validation: the list of
    complaints about a name, empty when the name is valid. *)
Class NameChecks := {
  IsDNS1123Label : string → list string;
  IsDNS1123Subdomain : string → list string
}.

Section validation.
Context `{NameChecks}.

Definition validate_name (check : string → list string) (field value : string) : result unit :=
  if decide (value = "") then Err (ErrNew (field +:+ " is required"))
  else match check value with
       | err :: _ => Err (ErrNew (field +:+ " is invalid: " +:+ err))
       | [] => Ok tt
       end.

Definition validateNamespaceName : string → string → result unit := validate_name IsDNS1123Label.
Definition validateObjectName : string → string → result unit := validate_name IsDNS1123Subdomain.

Definition RunKey_Validate (k : RunKey) : result unit :=
  _ ← validateNamespaceName "run namespace" (rk_Namespace k);
  _ ← validateObjectName "run name" (rk_Name k);
  if decide (rk_Kind k ∈ [RunKindBackup; RunKindRestore]) then Ok tt
  else if decide (rk_Kind k = "") then Err (ErrNew "run kind is required")
  else Err (ErrNew ("unsupported run kind " +:+ Quote (rk_Kind k))).

Definition validateTargetEvent (event : TargetEvent) : result unit :=
  _ ← RunKey_Validate (te_Key event);
  _ ← validateNamespaceName "target namespace" (te_TargetNamespace event);
  _ ← validateObjectName "target name" (te_TargetName event);
  if decide (te_Phase event = "") then Err (ErrNew "target phase is required") else Ok tt.

(** The [switch] on a command type shared by two validators. *)
Definition unsupported_type (ty : string) : result unit :=
  if decide (ty = "") then Err (ErrNew "command type is required")
  else Err (ErrNew ("unsupported command type " +:+ Quote ty)).

Definition validate_command_id (id : string) : result unit :=
  if decide (id = "") then Err (ErrNew "command id is required")
  else match IsDNS1123Subdomain id with
       | err :: _ => Err (ErrNew ("command id is invalid: " +:+ err))
       | [] => Ok tt
       end.

Definition validateTargetCommandAckEvent (event : TargetCommandAckEvent) : result unit :=
  _ ← RunKey_Validate (ta_Key event);
  _ ← validateNamespaceName "target namespace" (ta_TargetNamespace event);
  _ ← validateObjectName "target name" (ta_TargetName event);
  _ ← validate_command_id (ta_CommandID event);
  _ ← (if decide (ta_CommandType event ∈
            [TargetCommandFinalizeBackupJob; TargetCommandRecoverSpace; TargetCommandAbortRun])
       then Ok tt else unsupported_type (ta_CommandType event));
  match time_Parse layout_rfc3339 (ta_AcknowledgedAt event) with
  | Some _ => Ok tt
  | None => Err (ErrNew "acknowledgedAt is invalid") (* followed by the parser's text *)
  end.

Definition validateSourceEvent (event : SourceEvent) : result unit :=
  _ ← RunKey_Validate (se_Key event);
  _ ← validateNamespaceName "source namespace" (se_SourceNamespace event);
  _ ← validateObjectName "source name" (se_SourceName event);
  if decide (se_Phase event = "") then Err (ErrNew "source phase is required") else Ok tt.

Fixpoint validate_sources (i : Z) (sources : list ExpectedSource) : result unit :=
  match sources with
  | [] => Ok tt
  | s :: sources =>
      let pre := "expected source " +:+ Itoa i +:+ ": " in
      _ ← map_err (wrap pre) (validateNamespaceName "expected source namespace" (es_Namespace s));
      _ ← map_err (wrap pre) (validateObjectName "expected source name" (es_Name s));
      if decide (es_DestinationPath s = "")
      then Err (ErrNew (pre +:+ "destination path is required"))
      else validate_sources (i + 1) sources
  end.

Definition validateFinalizeBackupJob (finalize : FinalizeBackupJob) : result unit :=
  if decide (fb_Timestamp finalize = "") then Err (ErrNew "finalize timestamp is required")
  else validate_sources 0 (fb_Sources finalize).

Fixpoint validate_protected (i : Z) (snapshots : list string) : result unit :=
  match snapshots with
  | [] => Ok tt
  | s :: snapshots =>
      if decide (s = "")
      then Err (ErrNew ("recover protected snapshot " +:+ Itoa i +:+ " is required"))
      else validate_protected (i + 1) snapshots
  end.

Definition validateRecoverSpace (r : control_RecoverSpace) : result unit :=
  _ ← validateNamespaceName "failed source namespace" (rsp_FailedSourceNamespace r);
  _ ← validateObjectName "failed source name" (rsp_FailedSourceName r);
  if decide (rsp_Reason r = "") then Err (ErrNew "recover reason is required")
  else if decide (rsp_MinAvailableBytes r = 0)
  then Err (ErrNew "recover min available bytes is required")
  else validate_protected 0 (rsp_ProtectedSnapshots r).

Definition validateTargetCommand (command : TargetCommand) : result unit :=
  _ ← validate_command_id (tc_CommandID command);
  let ty := tc_Type command in
  if decide (ty = TargetCommandFinalizeBackupJob) then
    match tc_Finalize command with
    | None => Err (ErrNew "finalize command payload is required")
    | Some f =>
        if decide (tc_RecoverSpace command ≠ None ∨ tc_Abort command ≠ None)
        then Err (ErrNew "finalize command must not include other payloads")
        else validateFinalizeBackupJob f
    end
  else if decide (ty = TargetCommandRecoverSpace) then
    match tc_RecoverSpace command with
    | None => Err (ErrNew "recover command payload is required")
    | Some r =>
        if decide (tc_Finalize command ≠ None ∨ tc_Abort command ≠ None)
        then Err (ErrNew "recover command must not include other payloads")
        else validateRecoverSpace r
    end
  else if decide (ty = TargetCommandAbortRun) then
    match tc_Abort command with
    | None => Err (ErrNew "abort command payload is required")
    | Some _ =>
        if decide (tc_Finalize command ≠ None ∨ tc_RecoverSpace command ≠ None)
        then Err (ErrNew "abort command must not include other payloads")
        else Ok tt
    end
  else unsupported_type ty.

(** ** What an accepted message looks like *)

Definition valid_label (s : string) : Prop := s ≠ "" ∧ IsDNS1123Label s = [].
Definition valid_subdomain (s : string) : Prop := s ≠ "" ∧ IsDNS1123Subdomain s = [].

Definition valid_run_key (k : RunKey) : Prop :=
  valid_label (rk_Namespace k) ∧ valid_subdomain (rk_Name k) ∧
  (rk_Kind k = RunKindBackup ∨ rk_Kind k = RunKindRestore).

(** The command a type announces, as a sum. *)
Inductive command_payload :=
  | PFinalize (f : FinalizeBackupJob)
  | PRecover (r : control_RecoverSpace)
  | PAbort (a : AbortRun).

Definition command_of (id : string) (p : command_payload) : TargetCommand :=
  match p with
  | PFinalize f => NewFinalizeBackupJobCommand id f
  | PRecover r => NewRecoverSpaceCommand id r
  | PAbort a => NewAbortRunCommand id a
  end.

Definition valid_payload (p : command_payload) : Prop :=
  match p with
  | PFinalize f =>
      fb_Timestamp f ≠ "" ∧
      ∀ s, s ∈ fb_Sources f → valid_label (es_Namespace s) ∧ valid_subdomain (es_Name s) ∧
                              es_DestinationPath s ≠ ""
  | PRecover r =>
      valid_label (rsp_FailedSourceNamespace r) ∧ valid_subdomain (rsp_FailedSourceName r) ∧
      rsp_Reason r ≠ "" ∧ rsp_MinAvailableBytes r ≠ 0 ∧ "" ∉ rsp_ProtectedSnapshots r
  | PAbort _ => True
  end.

(** ** Lemmas *)

Lemma validate_name_Ok check field value :
  validate_name check field value = Ok tt ↔ value ≠ "" ∧ check value = [].
Proof. unfold validate_name. case_decide; [naive_solver|]. destruct (check value); naive_solver. Qed.

Lemma validateNamespaceName_Ok field value :
  validateNamespaceName field value = Ok tt ↔ valid_label value.
Proof. apply validate_name_Ok. Qed.

Lemma validateObjectName_Ok field value :
  validateObjectName field value = Ok tt ↔ valid_subdomain value.
Proof. apply validate_name_Ok. Qed.

Lemma bind_tt_Ok {B} (m : result unit) (f : unit → result B) b :
  m ≫= f = Ok b ↔ m = Ok tt ∧ f tt = Ok b.
Proof. rewrite bind_Ok. split; [by intros ([] & ? & ?)|by eauto]. Qed.

Lemma RunKey_Validate_Ok k : RunKey_Validate k = Ok tt ↔ valid_run_key k.
Proof.
  unfold RunKey_Validate, valid_run_key.
  rewrite !bind_tt_Ok, validateNamespaceName_Ok, validateObjectName_Ok.
  case_decide as Hk; [|case_decide]; set_solver.
Qed.

Lemma validate_command_id_Ok id : validate_command_id id = Ok tt ↔ valid_subdomain id.
Proof.
  unfold validate_command_id, valid_subdomain. case_decide; [naive_solver|].
  destruct (IsDNS1123Subdomain id); naive_solver.
Qed.

Lemma validate_sources_Ok i sources :
  validate_sources i sources = Ok tt ↔
  ∀ s, s ∈ sources → valid_label (es_Namespace s) ∧ valid_subdomain (es_Name s) ∧
                     es_DestinationPath s ≠ "".
Proof.
  revert i. induction sources as [|s sources IH]; intros i; cbn [validate_sources]; [set_solver|].
  rewrite !bind_tt_Ok, !map_err_Ok, validateNamespaceName_Ok, validateObjectName_Ok.
  case_decide; [|rewrite IH]; set_solver.
Qed.

Lemma validate_protected_Ok i snapshots :
  validate_protected i snapshots = Ok tt ↔ "" ∉ snapshots.
Proof.
  revert i. induction snapshots as [|s l IH]; intros i; cbn [validate_protected]; [set_solver|].
  case_decide; [|rewrite IH]; set_solver.
Qed.

(** ** Properties *)

(** The command validator accepts exactly the well-formed commands: a
    valid identifier and one payload, the one the type announces, whose fields
    satisfy its own conditions.  So a reader of an accepted command may use
    the payload of its type without a nil check. *)
Theorem validateTargetCommand_iff c :
  validateTargetCommand c = Ok tt ↔
  ∃ p, c = command_of (tc_CommandID c) p ∧ valid_subdomain (tc_CommandID c) ∧ valid_payload p.
Proof.
  unfold validateTargetCommand. rewrite bind_tt_Ok, validate_command_id_Ok.
  destruct c as [id ty fin rec ab]. cbn [tc_CommandID tc_Type tc_Finalize tc_RecoverSpace tc_Abort].
  assert ((∃ p, MkTargetCommand id ty fin rec ab = command_of id p ∧ valid_subdomain id ∧
             valid_payload p) ↔ valid_subdomain id ∧
    (ty = TargetCommandFinalizeBackupJob ∧ rec = None ∧ ab = None ∧
       (∃ f, fin = Some f ∧ valid_payload (PFinalize f)) ∨
     ty = TargetCommandRecoverSpace ∧ fin = None ∧ ab = None ∧
       (∃ r, rec = Some r ∧ valid_payload (PRecover r)) ∨
     ty = TargetCommandAbortRun ∧ fin = None ∧ rec = None ∧ (∃ a, ab = Some a))) as ->.
  { split.
    - intros ([f|r|a] & [= -> -> -> ->] & ? & ?); naive_solver.
    - intros (? & [(->&->&->&f&->&?)|[(->&->&->&r&->&?)|(->&->&->&a&->)]]);
        [exists (PFinalize f)|exists (PRecover r)|exists (PAbort a)]; done. }
  apply and_iff_compat_l. unfold unsupported_type.
  case_decide as H1; [|case_decide as H2; [|case_decide as H3]].
  - destruct fin as [f|]; [|naive_solver]. case_decide as Ho; [naive_solver|].
    unfold validateFinalizeBackupJob. cbn [valid_payload]. subst ty.
    destruct rec, ab; try (exfalso; naive_solver).
    case_decide; rewrite ?validate_sources_Ok; naive_solver.
  - destruct rec as [r|]; [|naive_solver]. case_decide as Ho; [naive_solver|].
    unfold validateRecoverSpace. cbn [valid_payload]. subst ty.
    destruct fin, ab; try (exfalso; naive_solver).
    rewrite !bind_tt_Ok, validateNamespaceName_Ok, validateObjectName_Ok.
    case_decide; [|case_decide]; rewrite ?validate_protected_Ok; naive_solver.
  - destruct ab as [a|]; [|naive_solver]. case_decide; [naive_solver|].
    destruct fin, rec; naive_solver.
  - case_decide; naive_solver.
Qed.
End validation.

#[export] Hint Resolve validateNamespaceName_Ok validateObjectName_Ok RunKey_Validate_Ok : krm.
