(* ===== verification/Pump.v ===== *)
(** * Channels and the goroutines that pump them (internal/control)

    [RegisterTarget] (service.go), [SubscribeAfter] and [SubscribeAllAfter]
    (eventhub.go) start the same goroutine: it sends a replay to its consumer,
    then forwards a buffered channel, until its context is done.  Here is that
    goroutine, one channel operation at a time, the operations others perform on
    its channel, and the list of everything a consumer gets. *)
From S2P Require Export Control.
From stdpp Require Import options.
From Stdlib Require Import Ascii.

(** What is left of the replay, the element between the two channels, the
    buffer of the channel, what the consumer was sent, and whether the goroutine
    has returned. *)
Record pump (A : Type) := MkPump {
  pu_todo : list A;
  pu_hand : option A;
  pu_ch : list A;
  pu_out : list A;
  pu_stopped : bool
}.
Arguments MkPump {A} _ _ _ _ _.
Arguments pu_todo {A} _.
Arguments pu_hand {A} _.
Arguments pu_ch {A} _.
Arguments pu_out {A} _.
Arguments pu_stopped {A} _.

Definition new_pump {A} (replay : list A) : pump A := MkPump replay None [] [] false.

(** [PReplay] sends an element of the replay, [PTake] receives from the channel,
    [PEmit] sends what was received, [PStop] is the context's end, which every
    [select] of the goroutine accepts. *)
Inductive pump_action := PReplay | PTake | PEmit | PStop.

Definition pump_exec {A} (a : pump_action) (p : pump A) : option (pump A) :=
  if pu_stopped p then None else
  let '(MkPump todo hand ch out _) := p in
  match a, todo, hand, ch with
  | PReplay, x :: todo, None, _ => Some (MkPump todo None ch (out ++ [x]) false)
  | PTake, [], None, x :: ch => Some (MkPump [] (Some x) ch out false)
  | PEmit, _, Some x, _ => Some (MkPump todo None ch (out ++ [x]) false)
  | PStop, _, _, _ => Some (MkPump todo hand ch out true)
  | _, _, _, _ => None
  end.

(** A send by someone else, into free space, and a receive by someone else, which
    takes the oldest element and drops it. *)
Definition ch_send {A} (x : A) (p : pump A) : pump A :=
  MkPump (pu_todo p) (pu_hand p) (pu_ch p ++ [x]) (pu_out p) (pu_stopped p).

Definition ch_drop {A} (p : pump A) : pump A :=
  MkPump (pu_todo p) (pu_hand p) (tail (pu_ch p)) (pu_out p) (pu_stopped p).

(** What the consumer was sent and what the goroutine would still send, in order. *)
Definition contents {A} (p : pump A) : list A :=
  pu_out p ++ option_list (pu_hand p) ++ pu_todo p ++ pu_ch p.

(** The channel is read only when the replay is sent. *)
Definition pump_ok {A} (p : pump A) : Prop := pu_hand p = None ∨ pu_todo p = [].

Lemma new_pump_ok {A} (l : list A) : pump_ok (new_pump l).
Proof. by left. Qed.

Lemma contents_new {A} (l : list A) : contents (new_pump l) = l.
Proof. apply app_nil_r. Qed.

Lemma pump_exec_spec {A} a (p p' : pump A) :
  pump_ok p → pump_exec a p = Some p' →
  pump_ok p' ∧ contents p' = contents p ∧ pu_out p `prefix_of` pu_out p'.
Proof.
  destruct p as [todo hand ch out []], a; cbn; try done; unfold pump_ok, contents; cbn.
  - destruct todo, hand; intros Hok [= <-]; cbn.
    split; [by left|]. rewrite <-(assoc_L (++)). split; [done|by exists [a]].
  - destruct todo, hand, ch; intros Hok [= <-]; cbn.
    split; [by right|]. split; [done|]. reflexivity.
  - destruct hand as [x|]; [|by destruct todo, ch].
    intros [Hok|Hok] He; [done|]. assert (p' = MkPump todo None ch (out ++ [x]) false) as ->
      by (destruct todo, ch; by injection He as <-).
    cbn. split; [by left|]. rewrite <-(assoc_L (++)). split; [done|by exists [x]].
  - intros Hok He. assert (p' = MkPump todo hand ch out true) as ->
      by (destruct todo, hand, ch; by injection He as <-).
    cbn. split; [done|]. split; [done|reflexivity].
Qed.

Lemma contents_send {A} (x : A) p : contents (ch_send x p) = contents p ++ [x].
Proof. unfold contents. cbn. by rewrite !(assoc_L (++)). Qed.

Lemma contents_drop {A} (p : pump A) :
  contents (ch_drop p) ++ option_list (head (pu_ch p)) ≡ₚ contents p.
Proof.
  destruct p as [todo hand [|x ch] out st]; unfold contents; cbn; [by rewrite app_nil_r|].
  rewrite <-!(assoc_L (++)). solve_Permutation.
Qed.

Lemma out_contents {A} (p : pump A) : pu_out p `prefix_of` contents p.
Proof. eexists. done. Qed.

(** A stopped goroutine does nothing. *)
Lemma pump_exec_stopped {A} a (p : pump A) : pu_stopped p = true → pump_exec a p = None.
Proof. intros Hs. unfold pump_exec. by rewrite Hs. Qed.

(** A running goroutine that has something to send can send: some operation is
    possible unless everything is sent. *)
Lemma pump_exec_progress {A} (p : pump A) :
  pu_stopped p = false → (∀ a, a ≠ PStop → pump_exec a p = None) → pu_out p = contents p.
Proof.
  destruct p as [todo hand ch out st]; cbn; intros -> Hno. unfold contents; cbn.
  destruct hand as [x|].
  { specialize (Hno PEmit ltac:(done)). destruct todo; discriminate Hno. }
  destruct todo as [|x todo]; [|by specialize (Hno PReplay ltac:(done))].
  destruct ch as [|x ch]; [|by specialize (Hno PTake ltac:(done))]. by rewrite app_nil_r.
Qed.

(** ** Sends in flight

    A publisher or an enqueuer sends one value to the channels of several
    receivers, one after the other, after it has released the lock. *)
Record send (A : Type) := MkSend { sd_value : A; sd_to : list nat; sd_full : bool }.
Arguments MkSend {A} _ _ _.
Arguments sd_value {A} _.
Arguments sd_to {A} _.
Arguments sd_full {A} _.

(** The values still to be sent to a receiver. *)
Definition pending {A} (i : nat) (sends : list (send A)) : list A :=
  s ← sends; (λ _, sd_value s) <$> filter (λ j, j = i) (sd_to s).

Lemma pending_app {A} i (l1 l2 : list (send A)) : pending i (l1 ++ l2) = pending i l1 ++ pending i l2.
Proof. apply bind_app. Qed.

Lemma pending_cons {A} i (s : send A) l :
  pending i (s :: l) = ((λ _, sd_value s) <$> filter (λ j, j = i) (sd_to s)) ++ pending i l.
Proof. done. Qed.

(** The thread [n] has sent its value to its first receiver [j]. *)
Lemma pending_sent {A} n (sends : list (send A)) x j js f f' i :
  sends !! n = Some (MkSend x (j :: js) f) →
  pending i sends ≡ₚ (if decide (j = i) then [x] else []) ++
                     pending i (<[n := MkSend x js f']> sends).
Proof.
  intros Hn. pose proof (lookup_lt_Some _ _ _ Hn) as Hlt.
  rewrite insert_take_drop by done. rewrite <-(take_drop_middle _ _ _ Hn) at 1.
  rewrite !pending_app, !pending_cons. cbn [sd_value sd_to]. case_decide as Hd.
  - rewrite filter_cons_True by done. cbn [list_fmap fmap]. rewrite !(assoc_L (++)). f_equiv.
    cbn. by rewrite Permutation_middle.
  - by rewrite filter_cons_False.
Qed.

(** Changing the flag of a thread changes nothing that is to be sent. *)
Lemma pending_flag {A} n (sends : list (send A)) x js f f' i :
  sends !! n = Some (MkSend x js f) →
  pending i (<[n := MkSend x js f']> sends) = pending i sends.
Proof.
  intros Hn. pose proof (lookup_lt_Some _ _ _ Hn) as Hlt.
  rewrite insert_take_drop by done. rewrite <-(take_drop_middle _ _ _ Hn) at 3.
  by rewrite !pending_app, !pending_cons.
Qed.

Lemma pending_start {A} (sends : list (send A)) x js f i :
  NoDup js → pending i (sends ++ [MkSend x js f]) = pending i sends ++ if decide (i ∈ js) then [x] else [].
Proof.
  intros Hnd. rewrite pending_app. f_equal. cbn. rewrite app_nil_r.
  induction Hnd as [|j js Hj Hnd IH]; [done|]. destruct (decide (j = i)) as [->|Hd].
  - rewrite filter_cons_True by done. rewrite decide_True by (by left).
    rewrite decide_False in IH by done. cbn [fmap list_fmap]. by rewrite IH.
  - rewrite filter_cons_False by done. rewrite IH.
    destruct (decide (i ∈ js)); [rewrite decide_True by (by right)|rewrite decide_False]; set_solver.
Qed.

Lemma pending_none {A} (sends : list (send A)) i :
  (∀ s, s ∈ sends → i ∉ sd_to s) → pending i sends = [].
Proof.
  induction sends as [|s l IH]; intros H; [done|]. rewrite pending_cons, IH by set_solver.
  rewrite filter_none; [done|]. apply Forall_forall. intros j Hj ->. apply (H s); set_solver.
Qed.

Lemma insert_sends_to {A} (sends : list (send A)) n e j js f f' js' sd i :
  sends !! n = Some (MkSend e (j :: js) f) → (∀ x, x ∈ js' → x ∈ j :: js) →
  sd ∈ <[n := MkSend e js' f']> sends → i ∈ sd_to sd → ∃ sd', sd' ∈ sends ∧ i ∈ sd_to sd'.
Proof.
  intros Hn Hsub Hsd Hi. apply list_elem_of_lookup in Hsd as [m Hm].
  destruct (decide (m = n)) as [->|Hne].
  - rewrite list_lookup_insert_eq in Hm by (by eapply lookup_lt_Some).
    injection Hm as <-. exists (MkSend e (j :: js) f). split; [by eapply list_elem_of_lookup_2|].
    by apply Hsub.
  - rewrite list_lookup_insert_ne in Hm by done. exists sd.
    split; [by eapply list_elem_of_lookup_2|done].
Qed.

(** ** Samples *)

(** Name checks of the shape of the Kubernetes ones, for the sample runs. *)
Definition dns_char (c : ascii) : bool :=
  let n := nat_of_ascii c in
  ((97 <=? n)%nat && (n <=? 122)%nat) || ((48 <=? n)%nat && (n <=? 57)%nat) || (n =? 45)%nat.

Fixpoint dns_name (s : string) : bool :=
  match s with "" => true | String c s => dns_char c && dns_name s end.

Definition sample_checks : NameChecks :=
  let check s := if dns_name s then [] else ["must consist of lower case alphanumeric characters"] in
  {| IsDNS1123Label := check; IsDNS1123Subdomain := check |}.

Definition sample_key : RunKey := MkRunKey "backup" "nightly" RunKindBackup.
