(* ===== verification/EventHub.v ===== *)
(** * The event hub (internal/control/eventhub.go)

    The hub's state, its critical sections as functions, and the transition
    system in which publishers, deliveries, pumps, subscriptions and
    cancellations interleave, one lock region or channel operation at a time. *)
From S2P Require Export Pump.
From stdpp Require Import options.

(** ** Data *)

Definition EventKindTarget : string := "target".
Definition EventKindTargetCommandAck : string := "target_command_ack".
Definition EventKindSource : string := "source".

Record ControlEvent := MkControlEvent {
  ce_Sequence : Z;
  ce_PublishedAt : Time;
  ce_Kind : string;
  ce_Key : RunKey;
  ce_Target : option TargetEvent;
  ce_CommandAck : option TargetCommandAckEvent;
  ce_Source : option SourceEvent
}.
#[export] Instance ControlEvent_eta : Eta ControlEvent := λ r,
  MkControlEvent (ce_Sequence r) (ce_PublishedAt r) (ce_Kind r) (ce_Key r) (ce_Target r)
    (ce_CommandAck r) (ce_Source r).
#[export] Instance ControlEvent_eq_dec : EqDecision ControlEvent.
Proof. solve_decision. Defined.

(** Subscribers are pointers: numbers here. *)
Record runEvents := MkRunEvents {
  re_replay : list ControlEvent;
  re_subscribers : gset nat
}.
#[export] Instance runEvents_eta : Eta runEvents := λ r,
  MkRunEvents (re_replay r) (re_subscribers r).

Record EventHub := MkEventHub {
  eh_replayLimit : Z;
  eh_subscriberBuffer : Z;
  eh_nextSequence : Z;
  eh_runs : gmap RunKey runEvents;
  eh_allSubscribers : gset nat
}.
#[export] Instance EventHub_eta : Eta EventHub := λ r,
  MkEventHub (eh_replayLimit r) (eh_subscriberBuffer r) (eh_nextSequence r) (eh_runs r)
    (eh_allSubscribers r).

Definition NewEventHubWithBuffer (replayLimit subscriberBuffer : Z) : EventHub :=
  MkEventHub (if decide (replayLimit < 0) then 0 else replayLimit)
    (if decide (subscriberBuffer < 1) then 1 else subscriberBuffer) 0 ∅ ∅.

Definition NewEventHub (replayLimit : Z) : EventHub := NewEventHubWithBuffer replayLimit 64.

(** Events are values here, so the copies the source takes need no definition.
    A new event carries no sequence number and no publication time yet. *)
Definition target_event (e : TargetEvent) : ControlEvent :=
  MkControlEvent 0 zero_time EventKindTarget (te_Key e) (Some e) None None.
Definition command_ack_event (e : TargetCommandAckEvent) : ControlEvent :=
  MkControlEvent 0 zero_time EventKindTargetCommandAck (ta_Key e) None (Some e) None.
Definition source_event (e : SourceEvent) : ControlEvent :=
  MkControlEvent 0 zero_time EventKindSource (se_Key e) None None (Some e).

(** ** Critical sections *)

Definition run_of (h : EventHub) (key : RunKey) : runEvents :=
  default (MkRunEvents [] ∅) (eh_runs h !! key).

(** The run of a key, which is created when it is not there. *)
Definition runLocked (h : EventHub) (key : RunKey) : runEvents * EventHub :=
  let run := run_of h key in (run, h <| eh_runs ::= <[key := run]> |>).

Definition cloneEventsAfter (events : list ControlEvent) (afterSequence : Z) : list ControlEvent :=
  if decide (afterSequence = 0) then events
  else match list_find (λ e, afterSequence < ce_Sequence e) events with
       | Some (start, _) => drop start events
       | None => drop (length events) events
       end.

(** [run.replay] with a new event at its end and at most [replayLimit] events. *)
Definition push_replay (replayLimit : Z) (replay : list ControlEvent) (event : ControlEvent) :=
  if decide (0 < replayLimit) then
    let replay := replay ++ [event] in
    let overflow := Z.of_nat (length replay) - replayLimit in
    if decide (0 < overflow) then drop (Z.to_nat overflow) replay else replay
  else replay.

(** The sequence number, the replay and the receivers of a new event. *)
Definition publish_locked (now : Time) (event : ControlEvent) (h : EventHub)
    : ControlEvent * gset nat * gset nat * EventHub :=
  let h := h <| eh_nextSequence := wrap_u64 (eh_nextSequence h + 1) |> in
  let event := event <| ce_Sequence := eh_nextSequence h |> <| ce_PublishedAt := now |> in
  let '(run, h) := runLocked h (ce_Key event) in
  let run := run <| re_replay := push_replay (eh_replayLimit h) (re_replay run) event |> in
  let h := h <| eh_runs ::= <[ce_Key event := run]> |> in
  (event, re_subscribers run, eh_allSubscribers h, h).

Section hub.
Context `{NameChecks}.

Definition check_event (event : ControlEvent) : result unit :=
  if decide (ce_Kind event ≠ EventKindTarget ∧ ce_Kind event ≠ EventKindTargetCommandAck ∧
             ce_Kind event ≠ EventKindSource)
  then Err (ErrNew ("unsupported event kind " +:+ Quote (ce_Kind event)))
  else
    _ ← RunKey_Validate (ce_Key event);
    if decide (ce_Kind event = EventKindTarget ∧ ce_Target event = None)
    then Err (ErrNew "target event payload is required")
    else if decide (ce_Kind event = EventKindTargetCommandAck ∧ ce_CommandAck event = None)
    then Err (ErrNew "target command acknowledgement payload is required")
    else if decide (ce_Kind event = EventKindSource ∧ ce_Source event = None)
    then Err (ErrNew "source event payload is required")
    else Ok tt.

Definition SnapshotAfter (h : EventHub) (key : RunKey) (afterSequence : Z)
    : result (list ControlEvent) :=
  _ ← RunKey_Validate key;
  match eh_runs h !! key with
  | None => Ok []
  | Some run =>
      if decide (length (re_replay run) = 0)%nat then Ok []
      else Ok (cloneEventsAfter (re_replay run) afterSequence)
  end.

(** [ctx] tells whether a context is given; the replay goes to the new
    subscriber [sub]. *)
Definition SubscribeAfter (sub : nat) (ctx : bool) (key : RunKey) (afterSequence : Z) (h : EventHub)
    : result (list ControlEvent * EventHub) :=
  _ ← RunKey_Validate key;
  if negb ctx then Err (ErrNew "context is required")
  else
    let '(run, h) := runLocked h key in
    let replay := cloneEventsAfter (re_replay run) afterSequence in
    Ok (replay, h <| eh_runs ::= <[key := run <| re_subscribers ::= λ s, {[sub]} ∪ s |>]> |>).
End hub.

Definition sequence_le (a b : ControlEvent) : Prop := ce_Sequence a ≤ ce_Sequence b.
#[export] Instance sequence_le_dec : RelDecision sequence_le.
Proof. intros a b. unfold sequence_le. apply _. Defined.
#[export] Instance sequence_le_total : Total sequence_le.
Proof. intros a b. unfold sequence_le. lia. Qed.
#[export] Instance sequence_le_trans : Transitive sequence_le.
Proof. intros a b c. unfold sequence_le. lia. Qed.

Definition SubscribeAllAfter (sub : nat) (ctx : bool) (afterSequence : Z) (h : EventHub)
    : result (list ControlEvent * EventHub) :=
  if negb ctx then Err (ErrNew "context is required")
  else
    let replay := krun ← map_to_list (eh_runs h); cloneEventsAfter (re_replay krun.2) afterSequence in
    Ok (sort_by sequence_le replay, h <| eh_allSubscribers ::= λ s, {[sub]} ∪ s |>).

Definition unsubscribe (key : RunKey) (sub : nat) (h : EventHub) : EventHub :=
  match eh_runs h !! key with
  | None => h
  | Some run =>
      let run := run <| re_subscribers ::= λ s, s ∖ {[sub]} |> in
      if decide (re_subscribers run = ∅ ∧ re_replay run = [])
      then h <| eh_runs ::= delete key |>
      else h <| eh_runs ::= <[key := run]> |>
  end.

Definition unsubscribeAll (sub : nat) (h : EventHub) : EventHub :=
  h <| eh_allSubscribers ::= λ s, s ∖ {[sub]} |>.

(** ** Interleavings *)

(** A subscription: its key ([None] for all runs), its goroutine, whether it has
    left the hub, and, for the statements only, the replay it was given, the number
    of events published before it, and the events dropped from its channel. *)
Record subscription := MkSubscription {
  sb_key : option RunKey;
  sb_pump : pump ControlEvent;
  sb_gone : bool;
  sb_replay : list ControlEvent;
  sb_start : nat;
  sb_dropped : list ControlEvent
}.
#[export] Instance subscription_eta : Eta subscription := λ r,
  MkSubscription (sb_key r) (sb_pump r) (sb_gone r) (sb_replay r) (sb_start r) (sb_dropped r).

(** The hub, its subscriptions, the publications whose deliveries are under way
    and, for the statements only, every event published so far. *)
Record hub_system := MkHubSystem {
  hs_hub : EventHub;
  hs_subs : gmap nat subscription;
  hs_sends : list (send ControlEvent);
  hs_log : list ControlEvent
}.
#[export] Instance hub_system_eta : Eta hub_system := λ r,
  MkHubSystem (hs_hub r) (hs_subs r) (hs_sends r) (hs_log r).

(** [HPublish] is the locked region of [publish], which lists the subscribers of
    the run and those of all runs in the order the maps are iterated in; [HTry]
    and [HDrop] are the two operations of [deliverLatest]. *)
Inductive hub_action :=
  | HPublish (now : Time) (event : ControlEvent) (subscribers allSubscribers : list nat)
  | HTry (n : nat)
  | HDrop (n : nat)
  | HSubscribe (sub : nat) (key : RunKey) (afterSequence : Z)
  | HSubscribeAll (sub : nat) (afterSequence : Z)
  | HPump (sub : nat) (a : pump_action)
  | HUnsubscribe (sub : nat).

(** One round of [deliverLatest]: the send when there is room, else a receive,
    which may find that the subscriber has emptied the channel meanwhile. *)
Definition deliver_try (n : nat) (s : hub_system) : option hub_system :=
  match hs_sends s !! n with
  | Some (MkSend event (j :: js) false) =>
      sb ← hs_subs s !! j;
      if decide (Z.of_nat (length (pu_ch (sb_pump sb))) < eh_subscriberBuffer (hs_hub s))
      then Some (s <| hs_subs ::= <[j := sb <| sb_pump ::= ch_send event |>]> |>
                   <| hs_sends ::= <[n := MkSend event js false]> |>)
      else Some (s <| hs_sends ::= <[n := MkSend event (j :: js) true]> |>)
  | _ => None
  end.

Definition deliver_drop (n : nat) (s : hub_system) : option hub_system :=
  match hs_sends s !! n with
  | Some (MkSend event (j :: js) true) =>
      sb ← hs_subs s !! j;
      Some (s <| hs_subs ::= <[j := sb <| sb_dropped ::= λ l, l ++ option_list (head (pu_ch (sb_pump sb))) |>
                                       <| sb_pump ::= ch_drop |>]> |>
              <| hs_sends ::= <[n := MkSend event (j :: js) false]> |>)
  | _ => None
  end.

(** A new subscription with the replay it was given. *)
Definition start_subscription (sub : nat) (key : option RunKey)
    (r : result (list ControlEvent * EventHub)) (s : hub_system) : option hub_system :=
  match r, hs_subs s !! sub with
  | Ok (replay, h), None =>
      Some (s <| hs_hub := h |>
              <| hs_subs ::= <[sub := MkSubscription key (new_pump replay) false replay
                                        (length (hs_log s)) []]> |>)
  | _, _ => None
  end.

Definition hub_exec `{NameChecks} (a : hub_action) (s : hub_system) : option hub_system :=
  match a with
  | HPublish now event os oa =>
      match check_event event with
      | Err _ => None
      | Ok _ =>
          let '(event, subs, alls, h) := publish_locked now event (hs_hub s) in
          if decide (NoDup os ∧ NoDup oa ∧ list_to_set os = subs ∧ list_to_set oa = alls) then
            Some (s <| hs_hub := h |> <| hs_sends ::= λ l, l ++ [MkSend event (os ++ oa) false] |>
                    <| hs_log ::= λ l, l ++ [event] |>)
          else None
      end
  | HTry n => deliver_try n s
  | HDrop n => deliver_drop n s
  | HSubscribe sub key after =>
      start_subscription sub (Some key) (SubscribeAfter sub true key after (hs_hub s)) s
  | HSubscribeAll sub after =>
      start_subscription sub None (SubscribeAllAfter sub true after (hs_hub s)) s
  | HPump sub a =>
      sb ← hs_subs s !! sub;
      p ← pump_exec a (sb_pump sb);
      Some (s <| hs_subs ::= <[sub := sb <| sb_pump := p |>]> |>)
  | HUnsubscribe sub =>
      sb ← hs_subs s !! sub;
      if decide (pu_stopped (sb_pump sb) = true ∧ sb_gone sb = false) then
        let h := match sb_key sb with
                 | Some key => unsubscribe key sub (hs_hub s)
                 | None => unsubscribeAll sub (hs_hub s)
                 end in
        Some (s <| hs_hub := h |> <| hs_subs ::= <[sub := sb <| sb_gone := true |>]> |>)
      else None
  end.

(** A sequence of actions. *)
Fixpoint hub_run `{NameChecks} (l : list hub_action) (s : hub_system) : option hub_system :=
  match l with
  | [] => Some s
  | a :: l => s ← hub_exec a s; hub_run l s
  end.

Definition hub_start (replayLimit subscriberBuffer : Z) : hub_system :=
  MkHubSystem (NewEventHubWithBuffer replayLimit subscriberBuffer) ∅ [] [].

(** ** The invariant *)

Definition matches (key : option RunKey) (e : ControlEvent) : Prop :=
  match key with Some k => ce_Key e = k | None => True end.
#[export] Instance matches_dec key e : Decision (matches key e).
Proof. unfold matches. destruct key; apply _. Defined.

Definition registered (h : EventHub) (key : option RunKey) (i : nat) : Prop :=
  match key with
  | Some k => i ∈ re_subscribers (run_of h k)
  | None => i ∈ eh_allSubscribers h
  end.

Definition lastn {A} (n : nat) (l : list A) : list A := drop (length l - n) l.

(** Every event a subscription is entitled to. *)
Definition expected (log : list ControlEvent) (sb : subscription) : list ControlEvent :=
  sb_replay sb ++ filter (matches (sb_key sb)) (drop (sb_start sb) log).

(** Everything the subscription got, will get, or lost. *)
Definition accounted (sends : list (send ControlEvent)) (i : nat) (sb : subscription) :=
  contents (sb_pump sb) ++ sb_dropped sb ++ pending i sends.

Record sub_inv (h : EventHub) (sends : list (send ControlEvent)) (log : list ControlEvent)
    (i : nat) (sb : subscription) : Prop := {
  si_ok : pump_ok (sb_pump sb);
  si_replay : sb_replay sb ⊆+ filter (matches (sb_key sb)) (take (sb_start sb) log);
  si_start : (sb_start sb ≤ length log)%nat;
  si_content : ∃ missed, accounted sends i sb ++ missed ≡ₚ expected log sb ∧
                 (sb_gone sb = false → missed = []);
  si_reg : sb_gone sb = false → registered h (sb_key sb) i
}.

Record hub_inv (s : hub_system) : Prop := {
  hi_limit : 0 ≤ eh_replayLimit (hs_hub s);
  hi_buffer : 1 ≤ eh_subscriberBuffer (hs_hub s);
  hi_next : eh_nextSequence (hs_hub s) = wrap_u64 (Z.of_nat (length (hs_log s)));
  hi_seq : ∀ i e, hs_log s !! i = Some e → ce_Sequence e = wrap_u64 (Z.of_nat i + 1);
  hi_replay : ∀ k, re_replay (run_of (hs_hub s) k) =
    lastn (Z.to_nat (eh_replayLimit (hs_hub s))) (filter (matches (Some k)) (hs_log s));
  hi_known : ∀ key i, registered (hs_hub s) key i →
    ∃ sb, hs_subs s !! i = Some sb ∧ sb_key sb = key ∧ sb_gone sb = false;
  hi_sends : ∀ sd i, sd ∈ hs_sends s → i ∈ sd_to sd → is_Some (hs_subs s !! i);
  hi_subs : ∀ i sb, hs_subs s !! i = Some sb → sub_inv (hs_hub s) (hs_sends s) (hs_log s) i sb
}.

(** ** Lemmas *)

Lemma drop_submseteq {A} n (l : list A) : drop n l ⊆+ l.
Proof. rewrite <-(take_drop n l) at 2. by apply submseteq_inserts_l. Qed.

Lemma bind_submseteq_pointwise {A B} (f g : A → list B) l :
  (∀ x, x ∈ l → f x ⊆+ g x) → l ≫= f ⊆+ l ≫= g.
Proof.
  induction l as [|x l IH]; intros H; cbn; [done|].
  apply submseteq_app; [apply H; by left|apply IH; intros; apply H; by right].
Qed.

Lemma lastn_snoc {A} n (l : list A) x :
  (0 < n)%nat → lastn n (lastn n l ++ [x]) = lastn n (l ++ [x]).
Proof.
  intros Hn. unfold lastn. rewrite !length_app, length_drop. cbn [length].
  rewrite drop_app_le by (rewrite length_drop; lia). rewrite (drop_app_le l) by lia.
  rewrite drop_drop. do 2 f_equal. lia.
Qed.

Lemma lastn_0 {A} (l : list A) : lastn 0 l = [].
Proof. unfold lastn. rewrite Nat.sub_0_r. apply drop_all. Qed.

Lemma push_replay_lastn limit (l : list ControlEvent) e :
  0 ≤ limit →
  push_replay limit (lastn (Z.to_nat limit) l) e = lastn (Z.to_nat limit) (l ++ [e]).
Proof.
  intros Hl. unfold push_replay. case_decide as Hp.
  - rewrite <-lastn_snoc by lia. set (r := lastn (Z.to_nat limit) l ++ [e]). unfold lastn.
    case_decide; [f_equal; lia|]. by replace (length r - Z.to_nat limit)%nat with 0%nat by lia.
  - assert (limit = 0) as -> by lia. by rewrite !lastn_0.
Qed.

Lemma cloneEventsAfter_drop l after : ∃ n, cloneEventsAfter l after = drop n l.
Proof.
  unfold cloneEventsAfter. case_decide; [by exists 0%nat|].
  destruct (list_find _ l) as [[n ?]|]; eauto.
Qed.

Lemma cloneEventsAfter_submseteq l after : cloneEventsAfter l after ⊆+ l.
Proof.
  destruct (cloneEventsAfter_drop l after) as [n ->]. apply drop_submseteq.
Qed.

Lemma run_of_insert h k r k' :
  run_of (h <| eh_runs ::= <[k := r]> |>) k' = if decide (k = k') then r else run_of h k'.
Proof. unfold run_of. cbn. case_decide; simplify_map_eq; done. Qed.

(** The events of different keys are different events. *)
Lemma bind_keys_submseteq (ks : list RunKey) (log : list ControlEvent) :
  NoDup ks →
  (k ← ks; filter (matches (Some k)) log) ⊆+ filter (λ e, ce_Key e ∈ ks) log.
Proof.
  induction 1 as [|k ks Hk Hnd IH]; cbn [mbind list_bind]; [apply submseteq_nil_l|].
  etrans; [apply submseteq_app; [reflexivity|exact IH]|].
  clear IH. induction log as [|e log IH]; [done|].
  rewrite !filter_cons. cbn [matches]. destruct (decide (ce_Key e = k)) as [Hek|Hek].
  - rewrite (decide_False (P := ce_Key e ∈ ks)) by congruence.
    rewrite (decide_True (P := ce_Key e ∈ k :: ks)) by (rewrite Hek; by left).
    cbn. by apply submseteq_skip.
  - destruct (decide (ce_Key e ∈ ks)).
    + rewrite (decide_True (P := ce_Key e ∈ k :: ks)) by (by right).
      rewrite <-Permutation_middle. by apply submseteq_skip.
    + by rewrite (decide_False (P := ce_Key e ∈ k :: ks)) by (by rewrite not_elem_of_cons).
Qed.

Lemma filter_take_drop {A} (P : A → Prop) `{∀ x, Decision (P x)} n (l : list A) :
  filter P l = filter P (take n l) ++ filter P (drop n l).
Proof. by rewrite <-filter_app, take_drop. Qed.

Lemma expected_snoc log e sb :
  (sb_start sb ≤ length log)%nat →
  expected (log ++ [e]) sb = expected log sb ++ if decide (matches (sb_key sb) e) then [e] else [].
Proof.
  intros Hl. unfold expected. rewrite drop_app_le by done. rewrite filter_app, <-(assoc_L (++)).
  rewrite filter_cons. by case_decide.
Qed.

(** A step that moves events of a subscription between its goroutine, its channel
    and the sends under way keeps its part of the invariant. *)
Lemma sub_inv_moves h sends sends' log i sb sb' :
  sub_inv h sends log i sb →
  sb_key sb' = sb_key sb → sb_gone sb' = sb_gone sb → sb_replay sb' = sb_replay sb →
  sb_start sb' = sb_start sb → pump_ok (sb_pump sb') →
  accounted sends' i sb' ≡ₚ accounted sends i sb →
  sub_inv h sends' log i sb'.
Proof.
  intros [? Hr Hs (missed & Hm & Hg) Hreg] Hk Hgone Hrep Hst Hok Hacc.
  split; unfold expected; rewrite ?Hk, ?Hgone, ?Hrep, ?Hst; try done.
  exists missed. split; [|done]. by rewrite Hacc.
Qed.

(** Such a step of the subscription [j] keeps the invariant, when for the others
    nothing changes. *)
Lemma hub_inv_moves s j sb sb' sends' :
  hub_inv s → hs_subs s !! j = Some sb →
  sb_key sb' = sb_key sb → sb_gone sb' = sb_gone sb → sb_replay sb' = sb_replay sb →
  sb_start sb' = sb_start sb → pump_ok (sb_pump sb') →
  accounted sends' j sb' ≡ₚ accounted (hs_sends s) j sb →
  (∀ i, i ≠ j → pending i sends' ≡ₚ pending i (hs_sends s)) →
  (∀ sd i, sd ∈ sends' → i ∈ sd_to sd → ∃ sd', sd' ∈ hs_sends s ∧ i ∈ sd_to sd') →
  hub_inv (s <| hs_subs ::= <[j := sb']> |> <| hs_sends := sends' |>).
Proof.
  intros [? ? ? ? ? Hknown Hsends Hsubs] Hj Hk Hg Hr Hst Hok Hacc Hpend Hto.
  assert (∀ i, is_Some (hs_subs s !! i) → is_Some (<[j := sb']> (hs_subs s) !! i)) as Hdom.
  { intros i Hi. destruct (decide (i = j)) as [->|]; by simplify_map_eq. }
  split; cbn; try done.
  - intros key i (sbi & Hi & Hki & Hgi)%Hknown. destruct (decide (i = j)) as [->|].
    + simplify_map_eq. eauto with congruence.
    + exists sbi. by simplify_map_eq.
  - intros sd i Hsd Hi. destruct (Hto sd i Hsd Hi) as (sd' & ? & ?). eauto.
  - intros i sbi Hi. destruct (decide (i = j)) as [->|Hne].
    + rewrite lookup_insert_eq in Hi. injection Hi as <-. by apply (sub_inv_moves _ (hs_sends s) _ _ _ sb); auto.
    + rewrite lookup_insert_ne in Hi by done.
      apply (sub_inv_moves _ (hs_sends s) _ _ _ sbi); [by apply Hsubs|done..|by eapply si_ok, Hsubs|].
      unfold accounted. by rewrite Hpend.
Qed.

(** A system is its own value when nothing is updated. *)
Lemma set_sends_id s : s <| hs_sends := hs_sends s |> = s.
Proof. by destruct s. Qed.

Lemma set_sub_id s j sb sends :
  hs_subs s !! j = Some sb →
  s <| hs_subs ::= <[j := sb]> |> <| hs_sends := sends |> = s <| hs_sends := sends |>.
Proof.
  intros Hj. destruct s as [h subs sds log]. cbn in *.
  change (MkHubSystem h (<[j := sb]> subs) sends log = MkHubSystem h subs sends log).
  by rewrite insert_id.
Qed.

Lemma accounted_pump sends i sb f :
  accounted sends i (sb <| sb_pump ::= f |>)
  = contents (f (sb_pump sb)) ++ sb_dropped sb ++ pending i sends.
Proof. done. Qed.

Lemma accounted_dropped sends i sb f g :
  accounted sends i (sb <| sb_dropped ::= g |> <| sb_pump ::= f |>)
  = contents (f (sb_pump sb)) ++ g (sb_dropped sb) ++ pending i sends.
Proof. done. Qed.

Lemma deliver_try_inv n s s' : hub_inv s → deliver_try n s = Some s' → hub_inv s'.
Proof.
  intros Hinv. unfold deliver_try. destruct (hs_sends s !! n) as [[e [|j js] []]|] eqn:Hn; try done.
  destruct (hs_subs s !! j) as [sb|] eqn:Hj; [|done]. cbn [mbind option_bind].
  pose proof (si_ok _ _ _ _ _ (hi_subs _ Hinv _ _ Hj)) as Hok.
  case_decide as Hroom; intros [= <-].
  - apply (hub_inv_moves s j sb); try done.
    + rewrite accounted_pump, contents_send. unfold accounted.
      rewrite (pending_sent n (hs_sends s) e j js false false j Hn), decide_True by done.
      solve_Permutation.
    + intros i Hi. rewrite (pending_sent n (hs_sends s) e j js false false i Hn).
      by rewrite decide_False by done.
    + intros sd i. apply (insert_sends_to _ n e j js false _ js sd i Hn). by right.
  - change (hub_inv (s <| hs_sends := <[n := MkSend e (j :: js) true]> (hs_sends s) |>)).
    rewrite <-(set_sub_id s j sb) by done. apply (hub_inv_moves s j sb sb); try done.
    + unfold accounted. by rewrite (pending_flag n (hs_sends s) e _ false).
    + intros i Hi. by rewrite (pending_flag n (hs_sends s) e _ false).
    + intros sd i. apply (insert_sends_to _ n e j js false _ (j :: js) sd i Hn). done.
Qed.

Lemma deliver_drop_inv n s s' : hub_inv s → deliver_drop n s = Some s' → hub_inv s'.
Proof.
  intros Hinv. unfold deliver_drop. destruct (hs_sends s !! n) as [[e [|j js] []]|] eqn:Hn; try done.
  destruct (hs_subs s !! j) as [sb|] eqn:Hj; [|done]. cbn [mbind option_bind]. intros [= <-].
  pose proof (si_ok _ _ _ _ _ (hi_subs _ Hinv _ _ Hj)) as Hok.
  apply (hub_inv_moves s j sb); try done.
  - rewrite accounted_dropped. unfold accounted.
    rewrite (pending_flag n (hs_sends s) e _ true) by done.
    rewrite <-(contents_drop (sb_pump sb)). solve_Permutation.
  - intros i Hi. by rewrite (pending_flag n (hs_sends s) e _ true).
  - intros sd i. apply (insert_sends_to _ n e j js true _ (j :: js) sd i Hn). done.
Qed.

Lemma pump_inv sub a sb p s :
  hub_inv s → hs_subs s !! sub = Some sb → pump_exec a (sb_pump sb) = Some p →
  hub_inv (s <| hs_subs ::= <[sub := sb <| sb_pump := p |>]> |>).
Proof.
  intros Hinv Hj Hp. pose proof (si_ok _ _ _ _ _ (hi_subs _ Hinv _ _ Hj)) as Hok.
  destruct (pump_exec_spec _ _ _ Hok Hp) as (Hok' & Hc & _).
  rewrite <-(set_sends_id (s <| hs_subs ::= _ |>)).
  apply (hub_inv_moves s sub sb); try done; [|by eauto].
  rewrite accounted_pump. unfold accounted. cbn [hs_sends]. by rewrite Hc.
Qed.

(** What subscribing and unsubscribing leave alone. *)
Record same_core (h h' : EventHub) : Prop := {
  sc_limit : eh_replayLimit h' = eh_replayLimit h;
  sc_buffer : eh_subscriberBuffer h' = eh_subscriberBuffer h;
  sc_next : eh_nextSequence h' = eh_nextSequence h;
  sc_replay : ∀ k, re_replay (run_of h' k) = re_replay (run_of h k)
}.

Lemma SubscribeAfter_Ok `{NameChecks} sub key after h replay h' :
  SubscribeAfter sub true key after h = Ok (replay, h') →
  replay = cloneEventsAfter (re_replay (run_of h key)) after ∧ same_core h h' ∧
  ∀ ko i, registered h' ko i ↔ registered h ko i ∨ (ko = Some key ∧ i = sub).
Proof.
  unfold SubscribeAfter. rewrite bind_tt_Ok. intros [_ Hs]. cbn [negb] in Hs. cbn in Hs.
  injection Hs as <- <-. split; [done|]. split.
  - split; try done. intros k. rewrite !run_of_insert. by case_decide; subst.
  - intros [k|] i; cbn [registered].
    + rewrite !run_of_insert. case_decide; subst; cbn; [|naive_solver].
      rewrite elem_of_union, elem_of_singleton. naive_solver.
    + naive_solver.
Qed.

Lemma SubscribeAllAfter_Ok sub after h replay h' :
  SubscribeAllAfter sub true after h = Ok (replay, h') →
  replay ≡ₚ (krun ← map_to_list (eh_runs h); cloneEventsAfter (re_replay krun.2) after) ∧
  same_core h h' ∧ ∀ ko i, registered h' ko i ↔ registered h ko i ∨ (ko = None ∧ i = sub).
Proof.
  intros [= <- <-]. split; [apply merge_sort_Permutation|]. split; [done|].
  intros [k|] i; cbn; [naive_solver|]. rewrite elem_of_union, elem_of_singleton. naive_solver.
Qed.

Lemma unsubscribe_spec key sub h :
  same_core h (unsubscribe key sub h) ∧
  ∀ ko i, registered (unsubscribe key sub h) ko i ↔
          registered h ko i ∧ ¬ (ko = Some key ∧ i = sub).
Proof.
  unfold unsubscribe. destruct (eh_runs h !! key) as [run|] eqn:Hrun.
  2:{ split; [done|]. intros [k|] i; cbn; [|naive_solver]. unfold run_of.
      destruct (decide (k = key)) as [->|]; [rewrite Hrun; set_solver|naive_solver]. }
  assert (run_of h key = run) as Hof by (unfold run_of; by rewrite Hrun).
  case_decide as Hd.
  - assert (∀ k, run_of (h <| eh_runs ::= delete key |>) k
                 = if decide (key = k) then MkRunEvents [] ∅ else run_of h k) as Hdel.
    { intros k. unfold run_of. cbn. case_decide; by simplify_map_eq. }
    split; [split; try done|].
    + intros k. rewrite Hdel. case_decide as Hk; [destruct Hk|done]. rewrite Hof. symmetry. apply Hd.
    + intros [k|] i; cbn [registered]; [|naive_solver]. rewrite Hdel.
      case_decide as Hk; [destruct Hk|naive_solver]. rewrite Hof. destruct Hd as [Hd _]. cbn in Hd |- *. set_solver.
  - split; [split; try done|].
    + intros k. rewrite run_of_insert. case_decide as Hk; [destruct Hk|done]. by rewrite Hof.
    + intros [k|] i; cbn [registered]; [|naive_solver]. rewrite run_of_insert.
      case_decide as Hk; [destruct Hk|naive_solver]. rewrite Hof. cbn. set_solver.
Qed.

Lemma unsubscribeAll_spec sub h :
  same_core h (unsubscribeAll sub h) ∧
  ∀ ko i, registered (unsubscribeAll sub h) ko i ↔ registered h ko i ∧ ¬ (ko = None ∧ i = sub).
Proof.
  split; [done|]. intros [k|] i; cbn; [naive_solver|]. set_solver.
Qed.

Lemma hub_inv_core s h' subs' :
  hub_inv s → same_core (hs_hub s) h' →
  (∀ key i, registered h' key i → ∃ sb, subs' !! i = Some sb ∧ sb_key sb = key ∧ sb_gone sb = false) →
  (∀ i, is_Some (hs_subs s !! i) → is_Some (subs' !! i)) →
  (∀ i sb, subs' !! i = Some sb → sub_inv h' (hs_sends s) (hs_log s) i sb) →
  hub_inv (s <| hs_hub := h' |> <| hs_subs := subs' |>).
Proof.
  intros [? ? ? ? Hrep ? Hs ?] [Hl Hb Hn Hr] Hk Hdom Hsub.
  split; cbn; rewrite ?Hl, ?Hb, ?Hn; try done.
  - intros k. by rewrite Hr, Hrep.
  - intros sd i ? ?. eauto.
Qed.

Lemma start_subscription_inv sub key replay h' s s' :
  hub_inv s → same_core (hs_hub s) h' →
  (∀ ko i, registered h' ko i ↔ registered (hs_hub s) ko i ∨ (ko = key ∧ i = sub)) →
  replay ⊆+ filter (matches key) (hs_log s) →
  start_subscription sub key (Ok (replay, h')) s = Some s' → hub_inv s'.
Proof.
  intros Hinv Hcore Hreg Hrep. unfold start_subscription.
  destruct (hs_subs s !! sub) eqn:Hsub; [done|]. intros [= <-].
  set (nsb := MkSubscription key (new_pump replay) false replay (length (hs_log s)) []).
  apply (hub_inv_core s h' (<[sub := nsb]> (hs_subs s))); try done.
  - intros ko i [Hi|[-> ->]]%Hreg.
    + destruct (hi_known _ Hinv _ _ Hi) as (sb & ? & ? & ?). exists sb.
      rewrite lookup_insert_ne by naive_solver. done.
    + exists nsb. by rewrite lookup_insert_eq.
  - intros i Hi. rewrite lookup_insert_ne; [done|]. intros ->. rewrite Hsub in Hi. by destruct Hi.
  - intros i sb. destruct (decide (i = sub)) as [->|Hne].
    + rewrite lookup_insert_eq. intros [= <-]. split; cbn; try done.
      * apply new_pump_ok.
      * by rewrite take_ge.
      * exists []. split; [|done]. rewrite app_nil_r.
        change (contents (new_pump replay) ++ [] ++ pending sub (hs_sends s) ≡ₚ
                replay ++ filter (matches key) (drop (length (hs_log s)) (hs_log s))).
        rewrite contents_new, drop_all, pending_none; [done|].
        intros sd Hsd Hi. destruct (hi_sends _ Hinv _ _ Hsd Hi) as [? He]. congruence.
      * intros _. apply Hreg. by right.
    + rewrite lookup_insert_ne by done. intros Hi%(hi_subs _ Hinv).
      destruct Hi. split; try done. intros ?. apply Hreg. auto.
Qed.

Lemma subscribe_inv `{NameChecks} sub key after s s' :
  hub_inv s →
  start_subscription sub (Some key) (SubscribeAfter sub true key after (hs_hub s)) s = Some s' →
  hub_inv s'.
Proof.
  intros Hinv. destruct (SubscribeAfter _ _ _ _ _) as [[replay h']|e] eqn:Hs; [|done].
  apply SubscribeAfter_Ok in Hs as (-> & Hcore & Hreg). apply start_subscription_inv; try done.
  etrans; [apply cloneEventsAfter_submseteq|]. rewrite (hi_replay _ Hinv).
  apply drop_submseteq.
Qed.

Lemma subscribe_all_inv sub after s s' :
  hub_inv s →
  start_subscription sub None (SubscribeAllAfter sub true after (hs_hub s)) s = Some s' →
  hub_inv s'.
Proof.
  intros Hinv. destruct (SubscribeAllAfter _ _ _ _) as [[replay h']|e] eqn:Hs; [|done].
  apply SubscribeAllAfter_Ok in Hs as (Hp & Hcore & Hreg). apply start_subscription_inv; try done.
  rewrite Hp. clear Hp Hreg Hcore.
  trans (k ← (map_to_list (eh_runs (hs_hub s))).*1; filter (matches (Some k)) (hs_log s)).
  - rewrite list_fmap_bind. apply bind_submseteq_pointwise. intros [k run] Hk%elem_of_map_to_list.
    cbn. etrans; [apply cloneEventsAfter_submseteq|].
    replace run with (run_of (hs_hub s) k) by (unfold run_of; by rewrite Hk).
    rewrite (hi_replay _ Hinv). apply drop_submseteq.
  - etrans; [apply bind_keys_submseteq, NoDup_fst_map_to_list|].
    rewrite (filter_all (matches None)) by (apply Forall_forall; done).
    apply sublist_submseteq, sublist_filter.
Qed.

Lemma unsubscribe_inv sub sb s h' :
  hub_inv s → hs_subs s !! sub = Some sb → same_core (hs_hub s) h' →
  (∀ ko i, registered h' ko i ↔ registered (hs_hub s) ko i ∧ ¬ (ko = sb_key sb ∧ i = sub)) →
  hub_inv (s <| hs_hub := h' |> <| hs_subs ::= <[sub := sb <| sb_gone := true |>]> |>).
Proof.
  intros Hinv Hsub Hcore Hreg.
  apply (hub_inv_core s h' (<[sub := sb <| sb_gone := true |>]> (hs_subs s))); try done.
  - intros ko i [Hi Hne]%Hreg. destruct (hi_known _ Hinv _ _ Hi) as (sbi & Hi' & ? & ?).
    exists sbi. rewrite lookup_insert_ne; [done|]. intros ->. apply Hne. naive_solver.
  - intros i Hi. destruct (decide (i = sub)) as [->|]; by simplify_map_eq.
  - intros i sbi. destruct (decide (i = sub)) as [->|Hne].
    + rewrite lookup_insert_eq. intros [= <-].
      destruct (hi_subs _ Hinv _ _ Hsub) as [? ? ? (m & ? & _) ?]. split; try done. by exists m.
    + rewrite lookup_insert_ne by done. intros Hi%(hi_subs _ Hinv).
      destruct Hi. split; try done. intros ?. apply Hreg. split; [auto|naive_solver].
Qed.

(** A publication, with the event as it is numbered. *)
Definition numbered (now : Time) (event : ControlEvent) (h : EventHub) : ControlEvent :=
  event <| ce_Sequence := wrap_u64 (eh_nextSequence h + 1) |> <| ce_PublishedAt := now |>.

Lemma publish_locked_spec now event h event' subs alls h' :
  publish_locked now event h = (event', subs, alls, h') →
  let e := numbered now event h in
  event' = e ∧ subs = re_subscribers (run_of h (ce_Key event)) ∧ alls = eh_allSubscribers h ∧
  eh_replayLimit h' = eh_replayLimit h ∧ eh_subscriberBuffer h' = eh_subscriberBuffer h ∧
  eh_nextSequence h' = wrap_u64 (eh_nextSequence h + 1) ∧
  (∀ k, re_replay (run_of h' k) = if decide (ce_Key event = k)
          then push_replay (eh_replayLimit h) (re_replay (run_of h k)) e
          else re_replay (run_of h k)) ∧
  (∀ ko i, registered h' ko i ↔ registered h ko i).
Proof.
  unfold publish_locked. cbn. intros [= <- <- <- <-]. repeat (split; [done|]). split.
  - intros k. unfold run_of. cbn. case_decide; simplify_map_eq; done.
  - intros [k|] i; cbn; [|done]. unfold run_of. cbn.
    destruct (decide (ce_Key event = k)); simplify_map_eq; done.
Qed.

Lemma publish_sub_inv h h' sends log e os oa i sb :
  sub_inv h sends log i sb →
  (∀ ko j, registered h' ko j ↔ registered h ko j) →
  (∀ j, j ∈ os ↔ registered h (Some (ce_Key e)) j) → (∀ j, j ∈ oa ↔ registered h None j) →
  (∀ ko, registered h ko i → sb_key sb = ko ∧ sb_gone sb = false) →
  NoDup (os ++ oa) →
  sub_inv h' (sends ++ [MkSend e (os ++ oa) false]) (log ++ [e]) i sb.
Proof.
  intros [? Hrep Hst (missed & Hm & Hg) Hreg] Hreg' Hos Hoa Hi Hnd. split; try done.
  - by rewrite take_app_le by done.
  - rewrite length_app. lia.
  - assert (accounted (sends ++ [MkSend e (os ++ oa) false]) i sb
            = accounted sends i sb ++ if decide (i ∈ os ++ oa) then [e] else []) as ->.
    { unfold accounted. rewrite pending_start by done. by rewrite !(assoc_L (++)). }
    rewrite expected_snoc by done.
    assert (i ∈ os ++ oa ↔ registered h (Some (ce_Key e)) i ∨ registered h None i) as Hmem
      by (by rewrite elem_of_app, Hos, Hoa).
    destruct (sb_gone sb) eqn:Hgone.
    + rewrite (decide_False (P := i ∈ _)) by (rewrite Hmem; intros [[_ ?]%Hi|[_ ?]%Hi]; done).
      rewrite app_nil_r.
      eexists. split; [by rewrite <-Hm, <-(assoc_L (++))|done].
    + rewrite (Hg eq_refl) in Hm. exists []. split; [|done]. rewrite <-Hm, !app_nil_r.
      specialize (Hreg eq_refl).
      assert (i ∈ os ++ oa ↔ matches (sb_key sb) e) as Hiff.
      { rewrite Hmem. split; [intros [[-> _]%Hi|[-> _]%Hi]; done|].
        destruct (sb_key sb) as [k|]; cbn; [intros <-; by left|by right]. }
      by rewrite (decide_ext _ _ [e] [] Hiff).
  - intros Hgone. by apply Hreg', Hreg.
Qed.

Lemma publish_inv `{NameChecks} now event os oa s s' :
  hub_inv s → hub_exec (HPublish now event os oa) s = Some s' → hub_inv s'.
Proof.
  intros Hinv. cbn [hub_exec]. destruct (check_event event); [|done].
  destruct (publish_locked now event (hs_hub s)) as [[[e subs] alls] h'] eqn:Hp.
  apply publish_locked_spec in Hp as (He & -> & -> & Hl & Hb & Hn & Hr & Hreg).
  case_decide as Hd; [|done]. destruct Hd as (Hndo & Hnda & Hos & Hoa). intros [= <-].
  assert (ce_Key e = ce_Key event) as Hkey by (by rewrite He).
  assert (∀ j, j ∈ os ↔ registered (hs_hub s) (Some (ce_Key e)) j) as Hos'.
  { intros j. rewrite Hkey. cbn. by rewrite <-Hos, elem_of_list_to_set. }
  assert (∀ j, j ∈ oa ↔ registered (hs_hub s) None j) as Hoa'.
  { intros j. cbn. by rewrite <-Hoa, elem_of_list_to_set. }
  assert (NoDup (os ++ oa)) as Hnd.
  { apply NoDup_app. split; [done|]. split; [|done].
    intros j [sb (? & ? & _)]%Hos'%(hi_known _ Hinv) [sb' (? & ? & _)]%Hoa'%(hi_known _ Hinv). naive_solver. }
  split; cbn; rewrite ?Hl, ?Hb, ?Hn.
  - apply Hinv.
  - apply Hinv.
  - rewrite (hi_next _ Hinv), length_app, wrap_u64_add_l. f_equal. cbn. lia.
  - intros i ev. rewrite lookup_app_Some. intros [Hi|[Hge Hi]]; [by apply (hi_seq _ Hinv)|].
    apply list_lookup_singleton_Some in Hi as [Hi ->]. rewrite He. cbn.
    rewrite (hi_next _ Hinv), wrap_u64_add_l. f_equal. lia.
  - intros k. rewrite Hr, (hi_replay _ Hinv), filter_app. case_decide as Hk.
    + rewrite filter_cons_True by (by rewrite <-Hk). rewrite filter_nil, <-He. apply push_replay_lastn, Hinv.
    + rewrite filter_cons_False by (cbn; by rewrite Hkey). by rewrite filter_nil, app_nil_r.
  - intros ko i Hi. by apply (hi_known _ Hinv), Hreg.
  - intros sd i [Hsd| ->%list_elem_of_singleton]%elem_of_app; [by apply (hi_sends _ Hinv)|].
    cbn. intros [Hi|Hi]%elem_of_app.
    + apply Hos', (hi_known _ Hinv) in Hi as (? & ? & _). eauto.
    + apply Hoa', (hi_known _ Hinv) in Hi as (? & ? & _). eauto.
  - intros i sb Hi. apply (publish_sub_inv (hs_hub s)); try done; [by apply Hinv|].
    intros ko (sb' & ? & ? & ?)%(hi_known _ Hinv). naive_solver.
Qed.

Lemma hub_exec_inv `{NameChecks} a s s' : hub_inv s → hub_exec a s = Some s' → hub_inv s'.
Proof.
  intros Hinv. destruct a as [now e os oa|n|n|sub key after|sub after|sub pa|sub].
  - by apply publish_inv.
  - by apply deliver_try_inv.
  - by apply deliver_drop_inv.
  - by apply subscribe_inv.
  - by apply subscribe_all_inv.
  - cbn. destruct (hs_subs s !! sub) as [sb|] eqn:Hs; [|done]. cbn.
    destruct (pump_exec pa (sb_pump sb)) as [p|] eqn:Hp; [|done]. intros [= <-]. by eapply pump_inv.
  - cbn. destruct (hs_subs s !! sub) as [sb|] eqn:Hs; [|done]. cbn. case_decide; [|done].
    intros [= <-]. destruct (sb_key sb) as [k|] eqn:Hk.
    + destruct (unsubscribe_spec k sub (hs_hub s)). apply unsubscribe_inv; auto. by rewrite Hk.
    + destruct (unsubscribeAll_spec sub (hs_hub s)). apply unsubscribe_inv; auto. by rewrite Hk.
Qed.

Lemma hub_start_inv limit buffer : hub_inv (hub_start limit buffer).
Proof.
  unfold hub_start, NewEventHubWithBuffer. split; cbn.
  - case_decide; lia.
  - case_decide; lia.
  - done.
  - done.
  - intros k. unfold run_of. cbn. by rewrite lookup_empty.
  - intros [k|] i; cbn; [unfold run_of; cbn; rewrite lookup_empty|]; set_solver.
  - set_solver.
  - intros i sb. by rewrite lookup_empty.
Qed.

Lemma hub_run_inv `{NameChecks} l s s' : hub_inv s → hub_run l s = Some s' → hub_inv s'.
Proof.
  revert s. induction l as [|a l IH]; intros s Hinv; cbn; [by intros [= <-]|].
  destruct (hub_exec a s) as [s1|] eqn:Ha; [|done]. cbn. eauto using hub_exec_inv.
Qed.

(** ** Sequence numbers *)

Definition seq_lt (a b : ControlEvent) : Prop := ce_Sequence a < ce_Sequence b.
#[export] Instance seq_lt_trans : Transitive seq_lt.
Proof. intros a b c. unfold seq_lt. lia. Qed.

(** Fewer than 2{^64} events have been published: the sequence has not wrapped. *)
Definition no_wrap (s : hub_system) : Prop := Z.of_nat (length (hs_log s)) ≤ max_uint64.

Lemma log_seq s i e :
  hub_inv s → no_wrap s → hs_log s !! i = Some e → ce_Sequence e = Z.of_nat i + 1.
Proof.
  intros Hinv Hw Hi. rewrite (hi_seq _ Hinv _ _ Hi). apply wrap_u64_id.
  apply lookup_lt_Some in Hi. unfold no_wrap in Hw. lia.
Qed.

Lemma log_sorted s : hub_inv s → no_wrap s → StronglySorted seq_lt (hs_log s).
Proof.
  intros Hinv Hw. pose proof (log_seq s) as Hs. unfold seq_lt.
  assert (∀ i e, hs_log s !! i = Some e → ce_Sequence e = 0 + Z.of_nat i + 1) as Hl.
  { intros i e Hi. rewrite (Hs i e) by done. lia. }
  clear Hs. revert Hl. generalize 0 as k. induction (hs_log s) as [|e l IH]; intros k Hl; constructor.
  - apply (IH (k + 1)). intros i x Hi. rewrite (Hl (S i) x) by done. lia.
  - apply Forall_lookup. intros i x Hi. rewrite (Hl 0%nat e), (Hl (S i) x) by done. lia.
Qed.

Lemma sorted_NoDup l : StronglySorted seq_lt l → NoDup l.
Proof.
  induction 1 as [|e l Hs IH Hall]; constructor; [|done]. intros He.
  rewrite Forall_forall in Hall. specialize (Hall e He). unfold seq_lt in Hall. lia.
Qed.

Lemma sorted_sublist l l' : sublist l l' → StronglySorted seq_lt l' → StronglySorted seq_lt l.
Proof.
  induction 1 as [|x l l' Hsub IH|x l l' Hsub IH]; intros Hs; [done|..].
  - apply StronglySorted_inv in Hs as [Hs Hall]. constructor; [auto|].
    rewrite Forall_forall in Hall |- *. intros y Hy. apply Hall. by eapply elem_of_sublist.
  - apply StronglySorted_inv in Hs as [Hs _]. auto.
Qed.

Lemma log_NoDup s : hub_inv s → no_wrap s → NoDup (hs_log s).
Proof. intros. by apply sorted_NoDup, log_sorted. Qed.

(** The events after a sequence number are a suffix of a sorted list. *)
Lemma cloneEventsAfter_sorted l after :
  StronglySorted seq_lt l → Forall (λ e, 0 < ce_Sequence e) l → 0 ≤ after →
  cloneEventsAfter l after = filter (λ e, after < ce_Sequence e) l.
Proof.
  intros Hs Hpos Ha. unfold cloneEventsAfter. case_decide as H0.
  { subst. symmetry. by apply filter_all. }
  clear Hpos H0. induction Hs as [|e l Hs IH Hall]; [done|]. cbn [list_find].
  destruct (decide (after < ce_Sequence e)) as [Hlt|Hge].
  - symmetry. apply filter_all. constructor; [done|].
    eapply Forall_impl; [exact Hall|]. unfold seq_lt. cbn. lia.
  - rewrite filter_cons_False by done.
    destruct (list_find _ l) as [[n y]|]; cbn in *; done.
Qed.

Lemma lastn_sublist {A} n (l : list A) : sublist (lastn n l) l.
Proof. apply sublist_drop. Qed.

Lemma replay_sorted s k :
  hub_inv s → no_wrap s →
  StronglySorted seq_lt (re_replay (run_of (hs_hub s) k)) ∧
  Forall (λ e, 0 < ce_Sequence e) (re_replay (run_of (hs_hub s) k)).
Proof.
  intros Hinv Hw. rewrite (hi_replay _ Hinv).
  assert (sublist (lastn (Z.to_nat (eh_replayLimit (hs_hub s)))
                         (filter (matches (Some k)) (hs_log s))) (hs_log s)) as Hsub.
  { etrans; [apply lastn_sublist|apply sublist_filter]. }
  split; [by eapply sorted_sublist, log_sorted|].
  apply Forall_forall. intros e He. eapply elem_of_sublist in He; [|exact Hsub].
  apply list_elem_of_lookup in He as [i Hi]. rewrite (log_seq _ _ _ Hinv Hw Hi). lia.
Qed.

(** ** Properties *)

(** C27: Nothing is invented, repeated or silently lost.  Whatever publishers, deliveries,
    subscriber goroutines, subscriptions and cancellations do, in any interleaving: what a
    subscriber was sent are events published for its run (or for any run), each at most once; and
    until it leaves the hub, every event of its replay and every event published since is either
    sent, on its way to it, or among those dropped because its channel was full. *)
Theorem hub_accounts `{NameChecks} limit buffer l s i sb :
  hub_run l (hub_start limit buffer) = Some s → hs_subs s !! i = Some sb →
  pu_out (sb_pump sb) ⊆+ filter (matches (sb_key sb)) (hs_log s) ∧
  (no_wrap s → NoDup (pu_out (sb_pump sb))) ∧
  (sb_gone sb = false →
   contents (sb_pump sb) ++ sb_dropped sb ++ pending i (hs_sends s)
   ≡ₚ sb_replay sb ++ filter (matches (sb_key sb)) (drop (sb_start sb) (hs_log s))).
Proof.
  intros Hrun Hi. assert (hub_inv s) as Hinv by (eapply hub_run_inv, Hrun; apply hub_start_inv).
  destruct (hi_subs _ Hinv _ _ Hi) as [_ Hrep Hst (missed & Hm & Hg) _].
  assert (pu_out (sb_pump sb) ⊆+ filter (matches (sb_key sb)) (hs_log s)) as Hout.
  { rewrite (filter_take_drop _ (sb_start sb) (hs_log s)).
    trans (expected (hs_log s) sb); [|by apply submseteq_app].
    rewrite <-Hm. unfold accounted, contents. rewrite <-!(assoc_L (++)). by apply submseteq_inserts_r. }
  split; [done|]. split.
  - intros Hw. apply submseteq_Permutation in Hout as [k Hk].
    pose proof (NoDup_filter (matches (sb_key sb)) _ (log_NoDup s Hinv Hw)) as Hnd.
    rewrite Hk in Hnd. apply NoDup_app in Hnd as [Hnd _]. exact Hnd.
  - intros Hgone. rewrite (Hg Hgone), app_nil_r in Hm. exact Hm.
Qed.

(** A replay is complete within its bound.  In every reachable state [SnapshotAfter] returns,
    in order, the events of the run that are newer than the given sequence number among the last
    [replayLimit] events published for it; so does the replay of a new subscription. *)
Theorem hub_replay `{NameChecks} limit buffer l s key after :
  hub_run l (hub_start limit buffer) = Some s → no_wrap s → valid_run_key key → 0 ≤ after →
  let recent := lastn (Z.to_nat (eh_replayLimit (hs_hub s))) (filter (matches (Some key)) (hs_log s)) in
  let wanted := filter (λ e, after < ce_Sequence e) recent in
  SnapshotAfter (hs_hub s) key after = Ok wanted ∧
  StronglySorted seq_lt wanted ∧
  ∀ sub, ∃ h', SubscribeAfter sub true key after (hs_hub s) = Ok (wanted, h').
Proof.
  intros Hrun Hw Hkey Ha. cbn zeta.
  assert (hub_inv s) as Hinv by (eapply hub_run_inv, Hrun; apply hub_start_inv).
  destruct (replay_sorted s key Hinv Hw) as [Hs Hpos].
  pose proof (cloneEventsAfter_sorted _ after Hs Hpos Ha) as Hclone.
  rewrite <-(hi_replay _ Hinv). apply RunKey_Validate_Ok in Hkey. split; [|split].
  - unfold SnapshotAfter. rewrite Hkey. cbn [mbind result_bind]. unfold run_of in Hclone |- *.
    destruct (eh_runs (hs_hub s) !! key) as [run|]; cbn in *; [|done].
    case_decide as Hl; [by destruct (re_replay run)|]. by rewrite Hclone.
  - eapply sorted_sublist; [apply sublist_filter|done].
  - intros sub. unfold SubscribeAfter. rewrite Hkey. cbn. rewrite Hclone. eauto.
Qed.

(** ** Publishing never blocks *)

Definition hub_room (s : hub_system) : Prop :=
  1 ≤ eh_subscriberBuffer (hs_hub s) ∧
  ∀ i sb, hs_subs s !! i = Some sb →
    Z.of_nat (length (pu_ch (sb_pump sb))) ≤ eh_subscriberBuffer (hs_hub s).

(** Steps that change one subscription and leave the buffer size. *)
Lemma hub_room_insert s h j sb :
  hub_room s → eh_subscriberBuffer h = eh_subscriberBuffer (hs_hub s) →
  Z.of_nat (length (pu_ch (sb_pump sb))) ≤ eh_subscriberBuffer h →
  ∀ sends log, hub_room (MkHubSystem h (<[j := sb]> (hs_subs s)) sends log).
Proof.
  intros [Hb Hroom] Hh Hlen sends log. split; cbn; [by rewrite Hh|]. intros i sbi.
  destruct (decide (i = j)) as [->|]; [rewrite lookup_insert_eq; by intros [= <-]|].
  rewrite lookup_insert_ne by done. rewrite Hh. apply Hroom.
Qed.

Lemma pump_exec_ch {A} a (p p' : pump A) :
  pump_exec a p = Some p' → (length (pu_ch p') ≤ length (pu_ch p))%nat.
Proof.
  destruct p as [[|x todo] [y|] [|z ch] out []], a; cbn; try done; intros [= <-]; cbn; lia.
Qed.

Lemma hub_exec_room `{NameChecks} a s s' :
  hub_inv s → hub_room s → hub_exec a s = Some s' → hub_room s'.
Proof.
  intros Hinv Hroom. destruct a as [now e os oa|n|n|sub key after|sub after|sub pa|sub]; cbn.
  - destruct (check_event e); [|done]. case_decide; [|done]. by intros [= <-].
  - unfold deliver_try. destruct (hs_sends s !! n) as [[e [|j js] []]|]; try done.
    destruct (hs_subs s !! j) as [sb|] eqn:Hj; [|done]. cbn. case_decide; intros [= <-]; [|done].
    apply (hub_room_insert s); [done..|]. cbn. rewrite length_app. cbn. lia.
  - unfold deliver_drop. destruct (hs_sends s !! n) as [[e [|j js] []]|]; try done.
    destruct (hs_subs s !! j) as [sb|] eqn:Hj; [|done]. cbn. intros [= <-].
    apply (hub_room_insert s); [done..|]. cbn. pose proof (proj2 Hroom _ _ Hj).
    destruct (pu_ch (sb_pump sb)); cbn in *; lia.
  - destruct (SubscribeAfter _ _ _ _ _) as [[r h']|] eqn:Hs; cbn; [|done].
    destruct (hs_subs s !! sub); [done|]. intros [= <-].
    apply SubscribeAfter_Ok in Hs as (_ & [? Hb ? ?] & _). pose proof Hroom as [H1 H2].
    apply (hub_room_insert s); [done|exact Hb|]. change (0 ≤ eh_subscriberBuffer h'). lia.
  - destruct (hs_subs s !! sub); [done|]. intros [= <-].
    pose proof Hroom as [H1 H2]. apply (hub_room_insert s); [done..|]. cbn. lia.
  - destruct (hs_subs s !! sub) as [sb|] eqn:Hj; [|done]. cbn.
    destruct (pump_exec pa (sb_pump sb)) as [p|] eqn:Hp; [|done]. intros [= <-].
    apply (hub_room_insert s); [done..|]. cbn. apply pump_exec_ch in Hp.
    pose proof (proj2 Hroom _ _ Hj). lia.
  - destruct (hs_subs s !! sub) as [sb|] eqn:Hj; [|done]. cbn. case_decide; [|done].
    intros [= <-]. pose proof (proj2 Hroom _ _ Hj) as Hlen.
    apply (hub_room_insert s); [done| |]; cbn.
    + destruct (sb_key sb); [|done]. apply unsubscribe_spec.
    + destruct (sb_key sb); [|done]. by rewrite (sc_buffer _ _ (proj1 (unsubscribe_spec r sub _))).
Qed.

Lemma hub_run_room `{NameChecks} l s s' :
  hub_inv s → hub_room s → hub_run l s = Some s' → hub_room s'.
Proof.
  revert s. induction l as [|a l IH]; intros s Hinv Hroom; cbn; [by intros [= <-]|].
  destruct (hub_exec a s) as [s1|] eqn:Ha; [|done]. cbn.
  eauto using hub_exec_inv, hub_exec_room.
Qed.

Lemma hub_start_room limit buffer : hub_room (hub_start limit buffer).
Proof. split; cbn; [case_decide; lia|]. intros i sb. by rewrite lookup_empty. Qed.

(** A send for which there is room. *)
Lemma deliver_now `{NameChecks} s n e j js sb :
  hs_sends s !! n = Some (MkSend e (j :: js) false) → hs_subs s !! j = Some sb →
  Z.of_nat (length (pu_ch (sb_pump sb))) < eh_subscriberBuffer (hs_hub s) →
  ∃ s', hub_exec (HTry n) s = Some s' ∧ hs_sends s' !! n = Some (MkSend e js false).
Proof.
  intros Hn Hj Hlen. cbn. unfold deliver_try. rewrite Hn, Hj. cbn. rewrite decide_True by done.
  eexists. split; [done|]. cbn. rewrite list_lookup_insert_eq; [done|]. by eapply lookup_lt_Some.
Qed.

(** A send that found the channel full makes room. *)
Lemma deliver_full `{NameChecks} s n e j js sb :
  hub_room s → hs_sends s !! n = Some (MkSend e (j :: js) true) → hs_subs s !! j = Some sb →
  ∃ s' sb', hub_exec (HDrop n) s = Some s' ∧ hs_sends s' !! n = Some (MkSend e (j :: js) false) ∧
    hs_subs s' !! j = Some sb' ∧
    Z.of_nat (length (pu_ch (sb_pump sb'))) < eh_subscriberBuffer (hs_hub s').
Proof.
  intros [Hb Hroom] Hn Hj. cbn. unfold deliver_drop. rewrite Hn, Hj. cbn.
  eexists _, _. split; [done|]. cbn.
  rewrite list_lookup_insert_eq by (by eapply lookup_lt_Some).
  rewrite lookup_insert_eq. split; [done|]. split; [done|].
  specialize (Hroom _ _ Hj). cbn. destruct (pu_ch (sb_pump sb)); cbn in *; lia.
Qed.

(** A slow subscriber never blocks a publisher.  In every reachable state, a publisher that
    still has subscribers to serve serves the next one within three operations of its own, whatever
    the other goroutines have done before and even if they do nothing. *)
Theorem publish_never_blocks `{NameChecks} limit buffer l s n e j js f :
  hub_run l (hub_start limit buffer) = Some s →
  hs_sends s !! n = Some (MkSend e (j :: js) f) →
  ∃ acts s', (length acts ≤ 3)%nat ∧ (∀ a, a ∈ acts → a = HTry n ∨ a = HDrop n) ∧
    hub_run acts s = Some s' ∧ hs_sends s' !! n = Some (MkSend e js false).
Proof.
  intros Hrun Hn. pose proof (hub_start_inv limit buffer) as Hinv0.
  assert (hub_room s) as Hroom by (eapply hub_run_room, Hrun; [done|apply hub_start_room]).
  assert (hub_inv s) as Hinv by (by eapply hub_run_inv).
  destruct (hi_sends _ Hinv (MkSend e (j :: js) f) j) as [sb Hj];
    [by eapply list_elem_of_lookup_2|by left|].
  assert (∀ s1, hub_room s1 → hs_sends s1 !! n = Some (MkSend e (j :: js) true) →
            is_Some (hs_subs s1 !! j) →
            ∃ s', hub_run [HDrop n; HTry n] s1 = Some s' ∧ hs_sends s' !! n = Some (MkSend e js false))
    as Hfull.
  { intros s1 Hr1 Hn1 [sb1 Hj1]. destruct (deliver_full s1 n e j js sb1) as (s2 & sb2 & He1 & ? & ? & ?);
      try done. destruct (deliver_now s2 n e j js sb2) as (s3 & He2 & ?); try done.
    exists s3. unfold hub_run. rewrite He1. cbn [mbind option_bind]. by rewrite He2. }
  destruct f.
  { destruct (Hfull s) as (s' & ? & ?); [done..|]. exists [HDrop n; HTry n], s'.
    split; [cbn; lia|]. split; [set_solver|done]. }
  destruct (decide (Z.of_nat (length (pu_ch (sb_pump sb))) < eh_subscriberBuffer (hs_hub s))) as [Hlt|Hge].
  { destruct (deliver_now s n e j js sb) as (s' & He1 & ?); try done. exists [HTry n], s'.
    split; [cbn; lia|]. split; [set_solver|]. unfold hub_run. by rewrite He1. }
  assert (hub_exec (HTry n) s = Some (s <| hs_sends ::= <[n := MkSend e (j :: js) true]> |>)) as He1.
  { cbn. unfold deliver_try. rewrite Hn, Hj. cbn. by rewrite decide_False. }
  destruct (Hfull (s <| hs_sends ::= <[n := MkSend e (j :: js) true]> |>)) as (s' & He2 & ?); [done| |done|].
  { cbn. rewrite list_lookup_insert_eq; [done|]. by eapply lookup_lt_Some. }
  exists [HTry n; HDrop n; HTry n], s'. split; [done|]. split; [set_solver|]. split; [|done].
  change (hub_run (HTry n :: [HDrop n; HTry n]) s = Some s'). cbn [hub_run].
  rewrite He1. exact He2.
Qed.

(** ** Order of delivery *)

(** No two publications overlap: one starts only when the deliveries of those
    before it are done. *)
Definition idle_sends (sends : list (send ControlEvent)) : bool :=
  forallb (λ sd, bool_decide (sd_to sd = [])) sends.

Fixpoint serial `{NameChecks} (l : list hub_action) (s : hub_system) : bool :=
  match l with
  | [] => true
  | a :: l =>
      (match a with HPublish _ _ _ _ => idle_sends (hs_sends s) | _ => true end) &&
      match hub_exec a s with Some s => serial l s | None => true end
  end.

(** Only the last publication still has events to deliver, and every subscription's events,
    with those on their way to it, are in order. *)
Record order_inv (s : hub_system) : Prop := {
  oi_last : ∀ n sd, hs_sends s !! n = Some sd → sd_to sd ≠ [] → S n = length (hs_sends s);
  oi_sub : ∀ i sb, hs_subs s !! i = Some sb →
    StronglySorted seq_lt (contents (sb_pump sb) ++ pending i (hs_sends s))
}.

Lemma pending_last (sends : list (send ControlEvent)) n e js f js' f' i :
  (∀ m sd, sends !! m = Some sd → sd_to sd ≠ [] → S m = length sends) →
  sends !! n = Some (MkSend e js f) → js ≠ [] →
  pending i (<[n := MkSend e js' f']> sends) = (λ _, e) <$> filter (λ j, j = i) js'.
Proof.
  intros Hlast Hn Hne. pose proof (Hlast _ _ Hn Hne) as Hlen.
  rewrite insert_take_drop by (by eapply lookup_lt_Some).
  rewrite (drop_ge sends) by lia. rewrite pending_app, pending_none.
  - cbn. apply app_nil_r.
  - intros sd [m Hm]%list_elem_of_lookup. apply lookup_take_Some in Hm as [Hm Hlt].
    destruct (decide (sd_to sd = [])) as [->|Hto]; [set_solver|]. specialize (Hlast _ _ Hm Hto). lia.
Qed.

Lemma pending_last_id (sends : list (send ControlEvent)) n e js f i :
  (∀ m sd, sends !! m = Some sd → sd_to sd ≠ [] → S m = length sends) →
  sends !! n = Some (MkSend e js f) → js ≠ [] →
  pending i sends = (λ _, e) <$> filter (λ j, j = i) js.
Proof.
  intros Hlast Hn Hne. rewrite <-(pending_last sends n e js f js f i Hlast Hn Hne).
  by rewrite list_insert_id.
Qed.

Lemma oi_last_insert (sends : list (send ControlEvent)) n e js f js' f' :
  (∀ m sd, sends !! m = Some sd → sd_to sd ≠ [] → S m = length sends) →
  sends !! n = Some (MkSend e js f) → js ≠ [] →
  ∀ m sd, <[n := MkSend e js' f']> sends !! m = Some sd → sd_to sd ≠ [] → S m = length (<[n := MkSend e js' f']> sends).
Proof.
  intros Hlast Hn Hne m sd Hm Hto. rewrite length_insert. destruct (decide (n = m)) as [<-|Hnm].
  - by eapply Hlast.
  - rewrite list_lookup_insert_ne in Hm by done. by eapply Hlast.
Qed.

Lemma accounted_in_log s i sb e :
  hub_inv s → hs_subs s !! i = Some sb → e ∈ contents (sb_pump sb) → e ∈ hs_log s.
Proof.
  intros Hinv Hi He. destruct (hi_subs _ Hinv _ _ Hi) as [_ Hrep _ (missed & Hm & _) _].
  assert (e ∈ expected (hs_log s) sb) as Hex.
  { rewrite <-Hm. unfold accounted. rewrite !elem_of_app. auto. }
  unfold expected in Hex. apply elem_of_app in Hex as [Hex|Hex].
  - eapply elem_of_submseteq in Hex; [|exact Hrep]. apply list_elem_of_filter in Hex as [_ Hex].
    by eapply elem_of_take in Hex as (n & Hex%list_elem_of_lookup_2 & _).
  - apply list_elem_of_filter in Hex as [_ Hex].
    rewrite <-(take_drop (sb_start sb) (hs_log s)). apply elem_of_app. auto.
Qed.

Lemma sorted_snoc l e :
  StronglySorted seq_lt l → (∀ x, x ∈ l → seq_lt x e) → StronglySorted seq_lt (l ++ [e]).
Proof.
  intros Hs Hall. apply StronglySorted_app_2; [|done|repeat constructor].
  intros x y Hx ->%list_elem_of_singleton. auto.
Qed.

Lemma publish_order `{NameChecks} now event os oa s s' :
  hub_inv s → order_inv s → no_wrap s' → idle_sends (hs_sends s) = true →
  hub_exec (HPublish now event os oa) s = Some s' → order_inv s'.
Proof.
  intros Hinv [Hlast Hsub] Hw Hidle Hex. pose proof (publish_inv _ _ _ _ _ _ Hinv Hex) as Hinv'.
  cbn [hub_exec] in Hex. destruct (check_event event); [|done].
  destruct (publish_locked now event (hs_hub s)) as [[[e subs] alls] h'] eqn:Hp.
  case_decide as Hd; [|done]. destruct Hd as (Hndo & Hnda & Hos & Hoa).
  apply publish_locked_spec in Hp as (He & -> & -> & _). injection Hex as <-.
  assert (∀ sd, sd ∈ hs_sends s → sd_to sd = []) as Hto.
  { intros sd Hsd. unfold idle_sends in Hidle. rewrite forallb_forall in Hidle.
    eapply bool_decide_eq_true_1, Hidle. by apply list_elem_of_In. }
  assert (NoDup (os ++ oa)) as Hnd.
  { apply NoDup_app. split; [done|]. split; [|done]. intros j Hjo Hja.
    apply (elem_of_list_to_set (C := gset nat)) in Hjo, Hja. rewrite Hos in Hjo. rewrite Hoa in Hja.
    destruct (hi_known _ Hinv (Some (ce_Key event)) j Hjo) as (? & ? & ? & _).
    destruct (hi_known _ Hinv None j Hja) as (? & ? & ? & _). naive_solver. }
  split; cbn.
  - intros n sd. rewrite lookup_app_Some, length_app. cbn.
    intros [Hn|[Hge Hn]] Hne; [by rewrite Hto in Hne by (by eapply list_elem_of_lookup_2)|].
    apply list_lookup_singleton_Some in Hn as [Hn _]. lia.
  - intros i sb Hi. change (StronglySorted seq_lt (contents (sb_pump sb) ++
      pending i (hs_sends s ++ [MkSend e (os ++ oa) false]))).
    rewrite pending_start, pending_none by (done || intros sd Hsd; rewrite Hto by done; set_solver).
    cbn [app].
    specialize (Hsub _ _ Hi). rewrite pending_none, app_nil_r in Hsub
      by (intros sd Hsd; rewrite Hto by done; set_solver).
    destruct (decide _); [|by rewrite app_nil_r]. apply sorted_snoc; [done|].
    intros x Hx%(accounted_in_log s i sb); [|done..]. apply list_elem_of_lookup in Hx as [m Hm].
    unfold seq_lt. pose proof (lookup_lt_Some _ _ _ Hm).
    rewrite (log_seq _ (length (hs_log s)) e Hinv' Hw); cbn.
    2:{ rewrite lookup_app_r, Nat.sub_diag by lia. done. }
    rewrite (log_seq _ m x Hinv' Hw); cbn; [lia|]. by apply lookup_app_l_Some.
Qed.

Lemma order_insert s h j sb sends :
  order_inv s →
  (∀ n sd, sends !! n = Some sd → sd_to sd ≠ [] → S n = length sends) →
  StronglySorted seq_lt (contents (sb_pump sb) ++ pending j sends) →
  (∀ i, i ≠ j → sublist (pending i sends) (pending i (hs_sends s))) →
  order_inv (MkHubSystem h (<[j := sb]> (hs_subs s)) sends (hs_log s)).
Proof.
  intros [_ Hsub] Hlast Hj Hother. split; cbn; [done|]. intros i sbi.
  destruct (decide (i = j)) as [->|Hne]; [rewrite lookup_insert_eq; by intros [= <-]|].
  rewrite lookup_insert_ne by done. intros Hi. eapply sorted_sublist; [|by apply Hsub].
  apply sublist_app; [done|exact (Hother i Hne)].
Qed.

Lemma contents_drop_sublist {A} (p : pump A) : sublist (contents (ch_drop p)) (contents p).
Proof.
  destruct p as [todo hand ch out st]. unfold contents. cbn.
  repeat (apply sublist_app; [done|]). destruct ch; [done|]. by apply sublist_cons.
Qed.

Lemma filter_sublist_mono {A} (P : A → Prop) `{∀ x, Decision (P x)} (x : A) l :
  sublist (filter P l) (filter P (x :: l)).
Proof. rewrite filter_cons. case_decide; [by apply sublist_cons|done]. Qed.

Lemma deliver_try_order n s s' : order_inv s → deliver_try n s = Some s' → order_inv s'.
Proof.
  intros Ho. pose proof Ho as [Hlast Hsub]. unfold deliver_try.
  destruct (hs_sends s !! n) as [[e [|j js] []]|] eqn:Hn; try done.
  destruct (hs_subs s !! j) as [sb|] eqn:Hj; [|done]. cbn [mbind option_bind].
  assert (∀ i, pending i (hs_sends s) = (λ _, e) <$> filter (λ k, k = i) (j :: js)) as Hid
    by (intros i; by eapply pending_last_id).
  assert (∀ js' f' i, pending i (<[n := MkSend e js' f']> (hs_sends s))
            = (λ _, e) <$> filter (λ k, k = i) js') as Hset
    by (intros js' f' i; by eapply pending_last).
  case_decide; intros [= <-].
  - apply (order_insert s (hs_hub s) j (sb <| sb_pump ::= ch_send e |>)); [done|..].
    + by eapply oi_last_insert.
    + change (StronglySorted seq_lt (contents (ch_send e (sb_pump sb)) ++
                pending j (<[n := MkSend e js false]> (hs_sends s)))).
      specialize (Hsub _ _ Hj). rewrite Hid, filter_cons_True in Hsub by done.
      by rewrite Hset, contents_send, <-(assoc_L (++)).
    + intros i Hi. rewrite Hset, Hid. apply fmap_sublist, filter_sublist_mono.
  - split; cbn; [by eapply oi_last_insert|]. intros i sbi Hi.
    change (StronglySorted seq_lt (contents (sb_pump sbi) ++
              pending i (<[n := MkSend e (j :: js) true]> (hs_sends s)))).
    rewrite Hset, <-Hid. by apply Hsub.
Qed.

Lemma deliver_drop_order n s s' : order_inv s → deliver_drop n s = Some s' → order_inv s'.
Proof.
  intros Ho. pose proof Ho as [Hlast Hsub]. unfold deliver_drop.
  destruct (hs_sends s !! n) as [[e [|j js] []]|] eqn:Hn; try done.
  destruct (hs_subs s !! j) as [sb|] eqn:Hj; [|done]. cbn [mbind option_bind]. intros [= <-].
  assert (∀ i, pending i (<[n := MkSend e (j :: js) false]> (hs_sends s)) = pending i (hs_sends s))
    as Hp by (intros i; by apply (pending_flag n _ e _ true)).
  apply (order_insert s (hs_hub s) j); [done|by eapply oi_last_insert| |].
  - change (StronglySorted seq_lt (contents (ch_drop (sb_pump sb)) ++
              pending j (<[n := MkSend e (j :: js) false]> (hs_sends s)))).
    rewrite Hp. eapply sorted_sublist; [|by apply Hsub].
    apply sublist_app; [apply contents_drop_sublist|done].
  - intros i Hi. by rewrite Hp.
Qed.

(** A new subscription gets its replay in order. *)
Lemma start_order sub key replay h' s s' :
  hub_inv s → order_inv s → StronglySorted seq_lt replay →
  start_subscription sub key (Ok (replay, h')) s = Some s' → order_inv s'.
Proof.
  intros Hinv Ho Hs. unfold start_subscription. destruct (hs_subs s !! sub) eqn:Hsub; [done|].
  intros [= <-]. apply (order_insert s h' sub); [done|apply Ho| |done].
  change (StronglySorted seq_lt (contents (new_pump replay) ++ pending sub (hs_sends s))).
  rewrite contents_new, pending_none, app_nil_r; [done|].
  intros sd Hsd Hi. destruct (hi_sends _ Hinv _ _ Hsd Hi) as [? He]. congruence.
Qed.

Lemma subscribe_order `{NameChecks} sub key after s s' :
  hub_inv s → no_wrap s → order_inv s →
  start_subscription sub (Some key) (SubscribeAfter sub true key after (hs_hub s)) s = Some s' →
  order_inv s'.
Proof.
  intros Hinv Hw Ho. destruct (SubscribeAfter _ _ _ _ _) as [[replay h']|e] eqn:Hs; [|done].
  apply SubscribeAfter_Ok in Hs as (-> & _). apply start_order; try done.
  destruct (cloneEventsAfter_drop (re_replay (run_of (hs_hub s) key)) after) as [n ->].
  eapply sorted_sublist; [apply sublist_drop|]. by apply replay_sorted.
Qed.

(** The events of all runs, sorted by their sequence numbers, which are distinct. *)
Lemma sort_events_sorted s l :
  hub_inv s → no_wrap s → l ⊆+ hs_log s → StronglySorted seq_lt (sort_by sequence_le l).
Proof.
  intros Hinv Hw Hsub.
  assert (sort_by sequence_le l ⊆+ hs_log s) as Hsub'.
  { etrans; [|exact Hsub]. by rewrite (merge_sort_Permutation sequence_le l). }
  pose proof (StronglySorted_merge_sort sequence_le l) as Hs. fold (sort_by sequence_le l) in Hs.
  revert Hs Hsub'. generalize (sort_by sequence_le l) as k. clear l Hsub.
  induction k as [|e k IH]; intros Hs Hsub; [constructor|].
  apply StronglySorted_inv in Hs as [Hs Hall]. constructor.
  - apply IH; [done|]. etrans; [|exact Hsub]. by apply submseteq_cons.
  - apply Forall_forall. intros x Hx. rewrite Forall_forall in Hall. specialize (Hall x Hx).
    unfold sequence_le, seq_lt in *.
    destruct (decide (ce_Sequence e = ce_Sequence x)) as [Heq|]; [|lia]. exfalso.
    assert (x ∈ hs_log s) as [m Hm]%list_elem_of_lookup
      by (eapply elem_of_submseteq; [|exact Hsub]; by right).
    assert (e ∈ hs_log s) as [m' Hm']%list_elem_of_lookup
      by (eapply elem_of_submseteq; [|exact Hsub]; by left).
    rewrite (log_seq _ _ _ Hinv Hw Hm), (log_seq _ _ _ Hinv Hw Hm') in Heq.
    assert (m = m') as -> by lia. assert (x = e) as -> by congruence.
    apply submseteq_Permutation in Hsub as [k' Hk'].
    pose proof (log_NoDup s Hinv Hw) as Hnd. rewrite Hk' in Hnd. cbn in Hnd.
    apply NoDup_cons in Hnd as [Hnot _]. apply Hnot, elem_of_app. by left.
Qed.

Lemma subscribe_all_order sub after s s' :
  hub_inv s → no_wrap s → order_inv s →
  start_subscription sub None (SubscribeAllAfter sub true after (hs_hub s)) s = Some s' →
  order_inv s'.
Proof.
  intros Hinv Hw Ho Hstart.
  pose proof (subscribe_all_inv _ _ _ _ Hinv Hstart) as Hinv'.
  revert Hstart. unfold SubscribeAllAfter. cbn [negb]. intros Hstart.
  apply (start_order sub None _ _ s s' Hinv Ho) in Hstart; [done|].
  unfold start_subscription in Hstart. destruct (hs_subs s !! sub); [done|].
  injection Hstart as <-. eapply sort_events_sorted; [exact Hinv|done|].
  rewrite <-(merge_sort_Permutation sequence_le).
  pose proof (si_replay _ _ _ _ _ (hi_subs _ Hinv' sub _ (lookup_insert_eq _ _ _))) as Hr.
  cbn in Hr. rewrite take_ge in Hr by done. by rewrite (filter_all (matches None)) in Hr by
    (apply Forall_forall; done).
Qed.

Lemma hub_exec_log `{NameChecks} a s s' :
  hub_exec a s = Some s' → ∃ k, hs_log s' = hs_log s ++ k.
Proof.
  destruct a as [now e os oa|n|n|sub key after|sub after|sub pa|sub]; cbn.
  - destruct (check_event e); [|done]. case_decide; [|done]. intros [= <-]. cbn. eauto.
  - unfold deliver_try. destruct (hs_sends s !! n) as [[e [|j js] []]|]; try done.
    destruct (hs_subs s !! j); [|done]. cbn. case_decide; intros [= <-]; exists []; by rewrite app_nil_r.
  - unfold deliver_drop. destruct (hs_sends s !! n) as [[e [|j js] []]|]; try done.
    destruct (hs_subs s !! j); [|done]. intros [= <-]. exists []. by rewrite app_nil_r.
  - unfold start_subscription. destruct (SubscribeAfter _ _ _ _ _) as [[? ?]|]; [|done].
    destruct (hs_subs s !! sub); [done|]. intros [= <-]. exists []. by rewrite app_nil_r.
  - destruct (hs_subs s !! sub); [done|]. intros [= <-]. exists []. by rewrite app_nil_r.
  - destruct (hs_subs s !! sub) as [sb|]; [|done]. cbn. destruct (pump_exec pa (sb_pump sb)); [|done].
    intros [= <-]. exists []. by rewrite app_nil_r.
  - destruct (hs_subs s !! sub); [|done]. cbn. case_decide; [|done]. intros [= <-].
    exists []. by rewrite app_nil_r.
Qed.

Lemma hub_run_log `{NameChecks} l s s' : hub_run l s = Some s' → ∃ k, hs_log s' = hs_log s ++ k.
Proof.
  revert s. induction l as [|a l IH]; intros s; cbn; [intros [= <-]; exists []; by rewrite app_nil_r|].
  destruct (hub_exec a s) as [s1|] eqn:Ha; [|done]. cbn. intros Hl.
  destruct (hub_exec_log _ _ _ Ha) as [k1 H1], (IH _ Hl) as [k2 H2].
  exists (k1 ++ k2). by rewrite H2, H1, (assoc_L (++)).
Qed.

Lemma no_wrap_prefix s s' k : hs_log s' = hs_log s ++ k → no_wrap s' → no_wrap s.
Proof. unfold no_wrap. intros ->. rewrite length_app. lia. Qed.

Lemma hub_exec_order `{NameChecks} a s s' :
  hub_inv s → order_inv s → no_wrap s' → serial [a] s = true →
  hub_exec a s = Some s' → order_inv s'.
Proof.
  intros Hinv Ho Hw Hser Hex. destruct (hub_exec_log _ _ _ Hex) as [k Hk].
  pose proof (no_wrap_prefix _ _ _ Hk Hw) as Hw0. cbn [serial] in Hser.
  apply andb_true_iff in Hser as [Hidle _].
  destruct a as [now e os oa|n|n|sub key after|sub after|sub pa|sub].
  - by eapply publish_order.
  - by eapply deliver_try_order.
  - by eapply deliver_drop_order.
  - by eapply subscribe_order.
  - by eapply subscribe_all_order.
  - revert Hex. cbn. destruct (hs_subs s !! sub) as [sb|] eqn:Hs; [|done]. cbn.
    destruct (pump_exec pa (sb_pump sb)) as [p|] eqn:Hp; [|done]. intros [= <-].
    pose proof (si_ok _ _ _ _ _ (hi_subs _ Hinv _ _ Hs)) as Hok.
    apply (order_insert s (hs_hub s) sub); [done|apply Ho| |done].
    change (StronglySorted seq_lt (contents p ++ pending sub (hs_sends s))).
    destruct (pump_exec_spec _ _ _ Hok Hp) as (_ & -> & _). by apply Ho.
  - revert Hex. cbn. destruct (hs_subs s !! sub) as [sb|] eqn:Hs; [|done]. cbn.
    case_decide; [|done]. intros [= <-].
    apply (order_insert s _ sub); [done|apply Ho| |done]. exact (oi_sub _ Ho _ _ Hs).
Qed.

Lemma hub_run_order `{NameChecks} l s s' :
  hub_inv s → order_inv s → no_wrap s' → serial l s = true → hub_run l s = Some s' → order_inv s'.
Proof.
  revert s. induction l as [|a l IH]; intros s Hinv Ho Hw Hser; cbn; [by intros [= <-]|].
  destruct (hub_exec a s) as [s1|] eqn:Ha; [|done]. cbn. intros Hl.
  cbn [serial] in Hser. rewrite Ha in Hser. apply andb_true_iff in Hser as [Hidle Hser].
  destruct (hub_run_log _ _ _ Hl) as [k Hk].
  apply (IH s1); try done; [by eapply hub_exec_inv|].
  eapply hub_exec_order; [done|done| | |exact Ha]; [by eapply no_wrap_prefix|].
  cbn [serial]. by rewrite Hidle, Ha.
Qed.

(** Delivery is in order when publications do not overlap: every subscriber, of one run or of
    all, is sent its events by increasing sequence number, its replay included, whatever the
    subscribers and their goroutines do and even if events are dropped in between.  So the last
    sequence number a client saw is all it needs to resume. *)
Theorem hub_serial_order `{NameChecks} limit buffer l s i sb :
  hub_run l (hub_start limit buffer) = Some s → serial l (hub_start limit buffer) = true →
  no_wrap s → hs_subs s !! i = Some sb → StronglySorted seq_lt (pu_out (sb_pump sb)).
Proof.
  intros Hrun Hser Hw Hi. assert (order_inv s) as [_ Ho].
  { eapply hub_run_order; [apply hub_start_inv| |done..]. split; cbn; [done|].
    intros j sbj. by rewrite lookup_empty. }
  eapply sorted_sublist; [|by eapply Ho]. unfold contents. rewrite <-!(assoc_L (++)).
  by apply sublist_inserts_r.
Qed.

(** ** Sample runs *)

Definition hub_report (phase : string) : ControlEvent :=
  target_event ((inhabitant : TargetEvent)
    <| te_RunNamespace := "backup" |> <| te_RunName := "nightly" |>
    <| te_RunKind := RunKindBackup |> <| te_Phase := phase |>).

(** Three reports, one before and two after a subscription with room for one
    event: the second report is dropped. *)
Definition sample_trace : list hub_action :=
  [HPublish 10 (hub_report "Ready") [] []; HSubscribe 7 sample_key 0;
   HPublish 20 (hub_report "Finalizing") [7%nat] []; HTry 1;
   HPublish 30 (hub_report "Completed") [7%nat] []; HTry 2; HDrop 2; HTry 2;
   HPump 7 PReplay; HPump 7 PTake; HPump 7 PEmit].

Definition sample_hub : hub_system :=
  default (hub_start 2 1) (hub_run (H := sample_checks) sample_trace (hub_start 2 1)).

Definition sample_sub : subscription :=
  default (MkSubscription None (new_pump []) true [] 0 []) (hs_subs sample_hub !! 7%nat).

Lemma sample_hub_runs : hub_run (H := sample_checks) sample_trace (hub_start 2 1) = Some sample_hub.
Proof. vm_compute. reflexivity. Qed.

Lemma sample_sub_there : hs_subs sample_hub !! 7%nat = Some sample_sub.
Proof. vm_compute. reflexivity. Qed.

Lemma hub_accounts_witness :
  ce_Sequence <$> pu_out (sb_pump sample_sub) = [1; 3] ∧
  ce_Sequence <$> sb_dropped sample_sub = [2] ∧
  contents (sb_pump sample_sub) ++ sb_dropped sample_sub ++ pending 7 (hs_sends sample_hub)
  ≡ₚ sb_replay sample_sub ++
     filter (matches (sb_key sample_sub)) (drop (sb_start sample_sub) (hs_log sample_hub)).
Proof.
  split; [by vm_compute|]. split; [by vm_compute|].
  refine (proj2 (proj2 (hub_accounts (H := sample_checks) 2 1 sample_trace sample_hub 7 sample_sub
    sample_hub_runs sample_sub_there)) _). by vm_compute.
Defined.

Lemma hub_replay_witness :
  ce_Sequence <$> (match SnapshotAfter (H := sample_checks) (hs_hub sample_hub) sample_key 1 with
                   | Ok l => l | Err _ => [] end) = [2; 3].
Proof.
  rewrite (proj1 (hub_replay (H := sample_checks) 2 1 sample_trace sample_hub sample_key 1
    sample_hub_runs ltac:(by vm_compute)
    ltac:(apply (RunKey_Validate_Ok (H := sample_checks)); by vm_compute) ltac:(lia))).
  by vm_compute.
Defined.

Lemma hub_serial_order_witness :
  StronglySorted seq_lt (pu_out (sb_pump sample_sub)).
Proof.
  refine (hub_serial_order (H := sample_checks) 2 1 sample_trace sample_hub 7 sample_sub
    sample_hub_runs _ _ sample_sub_there); by vm_compute.
Defined.

(** The same hub just after the third report. *)
Definition busy_trace : list hub_action := take 5 sample_trace.

Definition busy_hub : hub_system :=
  default (hub_start 2 1) (hub_run (H := sample_checks) busy_trace (hub_start 2 1)).

Definition busy_event : ControlEvent :=
  numbered 30 (hub_report "Completed") ((hs_hub (hub_start 2 1)) <| eh_nextSequence := 2 |>).

Lemma publish_never_blocks_witness :
  ∃ acts s', (length acts ≤ 3)%nat ∧ (∀ a, a ∈ acts → a = HTry 2 ∨ a = HDrop 2) ∧
    hub_run (H := sample_checks) acts busy_hub = Some s' ∧
    hs_sends s' !! 2%nat = Some (MkSend busy_event [] false).
Proof.
  apply (publish_never_blocks (H := sample_checks) 2 1 busy_trace busy_hub 2 busy_event 7 [] false);
    by vm_compute.
Defined.

(** Two overlapping publications: the first one has its number but is overtaken
    before it sends. *)
Definition racing_trace : list hub_action :=
  [HSubscribe 7 sample_key 0; HPublish 10 (hub_report "Ready") [7%nat] [];
   HPublish 20 (hub_report "Completed") [7%nat] []; HTry 1; HTry 0;
   HPump 7 PTake; HPump 7 PEmit; HPump 7 PTake; HPump 7 PEmit].

(** Without that condition order is not kept: the hub sends after it has released its lock, so
    of two concurrent publications the later one can reach a subscriber first, with the default
    limits and an otherwise idle hub. *)
Theorem hub_reordering :
  ∃ s sb, hub_run (H := sample_checks) racing_trace (hub_start 256 64) = Some s ∧
    hs_subs s !! 7%nat = Some sb ∧
    ce_Sequence <$> pu_out (sb_pump sb) = [2; 1].
Proof. eexists _, _. split; [vm_compute; reflexivity|]. split; vm_compute; reflexivity. Qed.
