(* ===== verification/CommandLog.v ===== *)
(** * The control service (internal/control/service.go)

    The log of commands of each run, the streams the targets of a run read it
    through, and the interleavings of enqueuers, streams, registrations and
    disconnections, one lock region or channel operation at a time; the reports
    of targets and sources, which go to the event hub. *)
From S2P Require Export EventHub.
From stdpp Require Import options.

Definition defaultTargetCommandBuffer : Z := 64.

Record targetCommandLog := MkTargetCommandLog {
  cl_commands : list TargetCommand;
  cl_seen : gset string;
  cl_streams : gset nat
}.
#[export] Instance targetCommandLog_eta : Eta targetCommandLog := λ r,
  MkTargetCommandLog (cl_commands r) (cl_seen r) (cl_streams r).

Record Service := MkService {
  sv_buffer : Z;
  sv_runs : gmap RunKey targetCommandLog
}.
#[export] Instance Service_eta : Eta Service := λ r, MkService (sv_buffer r) (sv_runs r).

Definition NewService : Service := MkService defaultTargetCommandBuffer ∅.

(** ** Operations *)

Definition log_of (s : Service) (key : RunKey) : targetCommandLog :=
  default (MkTargetCommandLog [] ∅ ∅) (sv_runs s !! key).

Definition service_runLocked (s : Service) (key : RunKey) : targetCommandLog * Service :=
  let run := log_of s key in (run, s <| sv_runs ::= <[key := run]> |>).

Definition unregisterTarget (key : RunKey) (stream : nat) (s : Service) : Service :=
  match sv_runs s !! key with
  | None => s
  | Some run => s <| sv_runs ::= <[key := run <| cl_streams ::= λ x, x ∖ {[stream]} |>]> |>
  end.

(** The locked region of [EnqueueTargetCommand]: whether the command is new, and
    the streams it has to be sent to. *)
Definition enqueue_locked (key : RunKey) (command : TargetCommand) (s : Service)
    : bool * gset nat * Service :=
  let '(run, s) := service_runLocked s key in
  if decide (tc_CommandID command ∈ cl_seen run) then (false, ∅, s)
  else
    let run := run <| cl_seen ::= λ x, {[tc_CommandID command]} ∪ x |>
                   <| cl_commands ::= λ l, l ++ [command] |> in
    (true, cl_streams run, s <| sv_runs ::= <[key := run]> |>).

Section service.
Context `{NameChecks}.

(** The replay goes to the new stream. *)
Definition RegisterTarget (stream : nat) (ctx : bool) (req : RegisterTargetRequest) (s : Service)
    : result (list TargetCommand * Service) :=
  if negb ctx then Err (ErrNew "context is required")
  else
    let key := rtr_Key req in
    _ ← RunKey_Validate key;
    _ ← validateNamespaceName "target namespace" (rtr_TargetNamespace req);
    _ ← validateObjectName "target name" (rtr_TargetName req);
    let '(run, s) := service_runLocked s key in
    Ok (cl_commands run,
        s <| sv_runs ::= <[key := run <| cl_streams ::= λ x, {[stream]} ∪ x |>]> |>).

Definition EnqueueTargetCommand (key : RunKey) (command : TargetCommand) (s : Service)
    : result (bool * gset nat * Service) :=
  _ ← RunKey_Validate key;
  _ ← validateTargetCommand command;
  Ok (enqueue_locked key command s).

Definition EnqueueFinalize (key : RunKey) (commandID : string) (finalize : FinalizeBackupJob) :=
  EnqueueTargetCommand key (NewFinalizeBackupJobCommand commandID finalize).
Definition EnqueueRecover (key : RunKey) (commandID : string) (recover : control_RecoverSpace) :=
  EnqueueTargetCommand key (NewRecoverSpaceCommand commandID recover).
Definition EnqueueAbort (key : RunKey) (commandID : string) (abort : AbortRun) :=
  EnqueueTargetCommand key (NewAbortRunCommand commandID abort).

(** The hub's [publish] as far as its caller sees it: the event with its number,
    and the hub. *)
Definition publish (now : Time) (event : ControlEvent) (h : EventHub)
    : result (ControlEvent * EventHub) :=
  _ ← check_event event;
  let '(event, _, _, h) := publish_locked now event h in Ok (event, h).

(** Reports answer with the sequence number of the published event. *)
Definition ReportTarget (now : Time) (event : TargetEvent) (h : EventHub) : result (Z * EventHub) :=
  _ ← validateTargetEvent event;
  p ← publish now (target_event event) h;
  Ok (ce_Sequence p.1, p.2).

Definition AcknowledgeTargetCommand (now : Time) (event : TargetCommandAckEvent) (h : EventHub)
    : result (Z * EventHub) :=
  let event := if decide (ta_AcknowledgedAt event = "")
               then event <| ta_AcknowledgedAt := format_rfc3339 now |> else event in
  _ ← validateTargetCommandAckEvent event;
  p ← publish now (command_ack_event event) h;
  Ok (ce_Sequence p.1, p.2).

Definition ReportSource (now : Time) (event : SourceEvent) (h : EventHub) : result (Z * EventHub) :=
  _ ← validateSourceEvent event;
  p ← publish now (source_event event) h;
  Ok (ce_Sequence p.1, p.2).
End service.

(** ** Interleavings *)

Record stream := MkStream {
  sm_key : RunKey;
  sm_pump : pump TargetCommand;
  sm_gone : bool
}.
#[export] Instance stream_eta : Eta stream := λ r,
  MkStream (sm_key r) (sm_pump r) (sm_gone r).

(** The service, the streams, and the enqueuers that are still sending. *)
Record command_system := MkCommandSystem {
  cs_service : Service;
  cs_streams : gmap nat stream;
  cs_sends : list (send TargetCommand)
}.
#[export] Instance command_system_eta : Eta command_system := λ r,
  MkCommandSystem (cs_service r) (cs_streams r) (cs_sends r).

(** [CSend] is a send of an enqueuer, which waits until there is room. *)
Inductive command_action :=
  | CRegister (stream : nat) (req : RegisterTargetRequest)
  | CEnqueue (key : RunKey) (command : TargetCommand) (streams : list nat)
  | CSend (n : nat)
  | CPump (stream : nat) (a : pump_action)
  | CUnregister (stream : nat).

Definition command_send (n : nat) (s : command_system) : option command_system :=
  match cs_sends s !! n with
  | Some (MkSend command (j :: js) f) =>
      sm ← cs_streams s !! j;
      if decide (Z.of_nat (length (pu_ch (sm_pump sm))) < sv_buffer (cs_service s))
      then Some (s <| cs_streams ::= <[j := sm <| sm_pump ::= ch_send command |>]> |>
                   <| cs_sends ::= <[n := MkSend command js f]> |>)
      else None
  | _ => None
  end.

Definition command_exec `{NameChecks} (a : command_action) (s : command_system)
    : option command_system :=
  match a with
  | CRegister i req =>
      match RegisterTarget i true req (cs_service s), cs_streams s !! i with
      | Ok (replay, sv), None =>
          Some (s <| cs_service := sv |>
                  <| cs_streams ::= <[i := MkStream (rtr_Key req) (new_pump replay) false]> |>)
      | _, _ => None
      end
  | CEnqueue key command js =>
      match EnqueueTargetCommand key command (cs_service s) with
      | Ok (false, _, sv) => Some (s <| cs_service := sv |>)
      | Ok (true, streams, sv) =>
          if decide (NoDup js ∧ list_to_set js = streams) then
            Some (s <| cs_service := sv |> <| cs_sends ::= λ l, l ++ [MkSend command js false] |>)
          else None
      | Err _ => None
      end
  | CSend n => command_send n s
  | CPump i a =>
      sm ← cs_streams s !! i;
      p ← pump_exec a (sm_pump sm);
      Some (s <| cs_streams ::= <[i := sm <| sm_pump := p |>]> |>)
  | CUnregister i =>
      sm ← cs_streams s !! i;
      if decide (pu_stopped (sm_pump sm) = true ∧ sm_gone sm = false) then
        Some (s <| cs_service ::= unregisterTarget (sm_key sm) i |>
                <| cs_streams ::= <[i := sm <| sm_gone := true |>]> |>)
      else None
  end.

Fixpoint command_run `{NameChecks} (l : list command_action) (s : command_system)
    : option command_system :=
  match l with
  | [] => Some s
  | a :: l => s ← command_exec a s; command_run l s
  end.

Definition command_start : command_system := MkCommandSystem NewService ∅ [].

(** The commands of a run, in the order they were enqueued. *)
Definition commands_of (s : command_system) (key : RunKey) : list TargetCommand :=
  cl_commands (log_of (cs_service s) key).

(** What a stream delivered, will deliver, and is about to be sent. *)
Definition assigned (s : command_system) (i : nat) (sm : stream) : list TargetCommand :=
  contents (sm_pump sm) ++ pending i (cs_sends s).

Record stream_inv (s : command_system) (i : nat) (sm : stream) : Prop := {
  sti_ok : pump_ok (sm_pump sm);
  sti_content : ∃ missed, assigned s i sm ++ missed ≡ₚ commands_of s (sm_key sm) ∧
                  (sm_gone sm = false → missed = []);
  sti_reg : sm_gone sm = false → i ∈ cl_streams (log_of (cs_service s) (sm_key sm))
}.

Record command_inv (s : command_system) : Prop := {
  ci_nodup : ∀ k, NoDup (tc_CommandID <$> commands_of s k);
  ci_seen : ∀ k id, id ∈ cl_seen (log_of (cs_service s) k) ↔ id ∈ tc_CommandID <$> commands_of s k;
  ci_known : ∀ k i, i ∈ cl_streams (log_of (cs_service s) k) →
    ∃ sm, cs_streams s !! i = Some sm ∧ sm_key sm = k ∧ sm_gone sm = false;
  ci_sends : ∀ sd i, sd ∈ cs_sends s → i ∈ sd_to sd → is_Some (cs_streams s !! i);
  ci_streams : ∀ i sm, cs_streams s !! i = Some sm → stream_inv s i sm
}.

(** ** Lemmas *)

Lemma log_of_insert sv k r k' :
  log_of (sv <| sv_runs ::= <[k := r]> |>) k' = if decide (k = k') then r else log_of sv k'.
Proof. unfold log_of. cbn. case_decide; simplify_map_eq; done. Qed.

Lemma RegisterTarget_Ok `{NameChecks} i req sv replay sv' :
  RegisterTarget i true req sv = Ok (replay, sv') →
  replay = cl_commands (log_of sv (rtr_Key req)) ∧
  ∀ k, log_of sv' k = if decide (rtr_Key req = k)
                      then (log_of sv k) <| cl_streams ::= λ x, {[i]} ∪ x |> else log_of sv k.
Proof.
  unfold RegisterTarget. cbn [negb]. rewrite !bind_tt_Ok. intros (_ & _ & _ & Hs).
  cbn in Hs. injection Hs as <- <-. split; [done|]. intros k. rewrite log_of_insert.
  case_decide; [by subst|]. rewrite log_of_insert. by rewrite decide_False.
Qed.

Lemma unregisterTarget_log key i sv k :
  log_of (unregisterTarget key i sv) k
  = if decide (key = k) then (log_of sv k) <| cl_streams ::= λ x, x ∖ {[i]} |> else log_of sv k.
Proof.
  unfold unregisterTarget. destruct (sv_runs sv !! key) as [run|] eqn:Hrun.
  - rewrite log_of_insert. case_decide as Hk; [|done]. destruct Hk. unfold log_of. by rewrite Hrun.
  - case_decide as Hk; [|done]. destruct Hk. unfold log_of. rewrite Hrun.
    apply (f_equal (MkTargetCommandLog [] ∅)). set_solver.
Qed.

Lemma enqueue_locked_spec key command sv :
  let run := log_of sv key in
  if decide (tc_CommandID command ∈ cl_seen run)
  then ∃ sv', enqueue_locked key command sv = (false, ∅, sv') ∧ ∀ k, log_of sv' k = log_of sv k
  else ∃ sv', enqueue_locked key command sv = (true, cl_streams run, sv') ∧
       ∀ k, log_of sv' k = if decide (key = k) then
              run <| cl_seen ::= λ x, {[tc_CommandID command]} ∪ x |>
                  <| cl_commands ::= λ l, l ++ [command] |> else log_of sv k.
Proof.
  unfold enqueue_locked, service_runLocked. cbn zeta. case_decide.
  - eexists. split; [done|]. intros k. rewrite log_of_insert. case_decide; by subst.
  - eexists. split; [done|]. intros k. rewrite !log_of_insert. by case_decide.
Qed.

(** Steps that leave the logs and move commands of one stream. *)
Lemma command_inv_moves s j sm sm' sends' :
  command_inv s → cs_streams s !! j = Some sm →
  sm_key sm' = sm_key sm → sm_gone sm' = sm_gone sm → pump_ok (sm_pump sm') →
  contents (sm_pump sm') ++ pending j sends' ≡ₚ assigned s j sm →
  (∀ i, i ≠ j → pending i sends' ≡ₚ pending i (cs_sends s)) →
  (∀ sd i, sd ∈ sends' → i ∈ sd_to sd → ∃ sd', sd' ∈ cs_sends s ∧ i ∈ sd_to sd') →
  command_inv (MkCommandSystem (cs_service s) (<[j := sm']> (cs_streams s)) sends').
Proof.
  intros [? ? Hknown Hsends Hstreams] Hj Hk Hg Hok Hacc Hpend Hto.
  assert (∀ i, is_Some (cs_streams s !! i) → is_Some (<[j := sm']> (cs_streams s) !! i)) as Hdom.
  { intros i Hi. destruct (decide (i = j)) as [->|]; by simplify_map_eq. }
  split; cbn; try done.
  - intros k i (smi & Hi & Hki & Hgi)%Hknown. destruct (decide (i = j)) as [->|].
    + simplify_map_eq. eauto with congruence.
    + exists smi. by simplify_map_eq.
  - intros sd i Hsd Hi. destruct (Hto sd i Hsd Hi) as (sd' & ? & ?). eauto.
  - intros i smi Hi. destruct (decide (i = j)) as [->|Hne].
    + rewrite lookup_insert_eq in Hi. injection Hi as <-.
      destruct (Hstreams _ _ Hj) as [_ (missed & Hm & Hgm) Hr].
      split; rewrite ?Hk, ?Hg; [done| |done]. exists missed. split; [|done].
      rewrite <-Hm. by f_equiv.
    + rewrite lookup_insert_ne in Hi by done.
      destruct (Hstreams _ _ Hi) as [? (missed & Hm & Hgm) ?]. split; try done.
      exists missed. split; [|done]. rewrite <-Hm. f_equiv. unfold assigned. cbn [cs_sends].
      by rewrite Hpend.
Qed.

Lemma command_send_inv n s s' : command_inv s → command_send n s = Some s' → command_inv s'.
Proof.
  intros Hinv. unfold command_send. destruct (cs_sends s !! n) as [[c [|j js] f]|] eqn:Hn; try done.
  destruct (cs_streams s !! j) as [sm|] eqn:Hj; [|done]. cbn [mbind option_bind].
  case_decide; [|done]. intros [= <-].
  apply (command_inv_moves s j sm (sm <| sm_pump ::= ch_send c |>)); try done.
  - apply (sti_ok _ _ _ (ci_streams _ Hinv _ _ Hj)).
  - change (contents (ch_send c (sm_pump sm)) ++ pending j (<[n := MkSend c js f]> (cs_sends s))
            ≡ₚ assigned s j sm).
    unfold assigned. rewrite contents_send, (pending_sent n (cs_sends s) c j js f f j Hn).
    rewrite decide_True by done. by rewrite <-(assoc_L (++)).
  - intros i Hi. rewrite (pending_sent n (cs_sends s) c j js f f i Hn). by rewrite decide_False by done.
  - intros sd i. apply (insert_sends_to _ n c j js f _ js sd i Hn). by right.
Qed.

Lemma register_inv `{NameChecks} i req sv' s :
  command_inv s → cs_streams s !! i = None →
  RegisterTarget i true req (cs_service s) = Ok (commands_of s (rtr_Key req), sv') →
  command_inv (MkCommandSystem sv' (<[i := MkStream (rtr_Key req)
                 (new_pump (commands_of s (rtr_Key req))) false]> (cs_streams s)) (cs_sends s)).
Proof.
  intros Hinv Hi Hreg. apply RegisterTarget_Ok in Hreg as [_ Hlog].
  assert (∀ k, cl_commands (log_of sv' k) = commands_of s k) as Hcmds
    by (intros k; rewrite Hlog; by case_decide).
  pose proof Hinv as [? Hseen Hknown Hsends Hstreams]. split; cbn.
  - intros k. unfold commands_of. cbn. by rewrite Hcmds.
  - intros k id. unfold commands_of. cbn. rewrite Hcmds, <-Hseen, Hlog. by case_decide.
  - intros k j. rewrite Hlog. case_decide as Hk; cbn.
    + rewrite elem_of_union, elem_of_singleton. intros [->|(sm & ? & ? & ?)%Hknown].
      * eexists. by rewrite lookup_insert_eq.
      * exists sm. rewrite lookup_insert_ne by congruence. done.
    + intros (sm & ? & ? & ?)%Hknown. exists sm. rewrite lookup_insert_ne by congruence. done.
  - intros sd j Hsd Hj. destruct (Hsends _ _ Hsd Hj) as [sm ?]. exists sm.
    by rewrite lookup_insert_ne by congruence.
  - intros j smj. destruct (decide (j = i)) as [->|Hne].
    + rewrite lookup_insert_eq. intros [= <-]. split; [apply new_pump_ok| |].
      * exists []. split; [|done]. unfold assigned, commands_of. cbn [cs_sends cs_service sm_pump sm_key].
        rewrite contents_new, pending_none, !app_nil_r; [by rewrite Hcmds|].
        intros sd Hsd Hin. destruct (Hsends _ _ Hsd Hin). congruence.
      * intros _. cbn. rewrite Hlog, decide_True by done. cbn. set_solver.
    + rewrite lookup_insert_ne by done. intros Hj. destruct (Hstreams _ _ Hj) as [? (m & Hm & ?) Hr].
      split; [done| |].
      * exists m. split; [|done]. unfold commands_of. cbn. by rewrite Hcmds.
      * intros Hg. cbn. rewrite Hlog. case_decide; cbn; [|auto]. specialize (Hr Hg). set_solver.
Qed.

Lemma unregister_inv i sm s :
  command_inv s → cs_streams s !! i = Some sm →
  command_inv (MkCommandSystem (unregisterTarget (sm_key sm) i (cs_service s))
                 (<[i := sm <| sm_gone := true |>]> (cs_streams s)) (cs_sends s)).
Proof.
  intros Hinv Hi. pose proof (unregisterTarget_log (sm_key sm) i (cs_service s)) as Hlog.
  set (sv' := unregisterTarget _ _ _) in *.
  assert (∀ k, cl_commands (log_of sv' k) = commands_of s k) as Hcmds
    by (intros k; rewrite Hlog; by case_decide).
  pose proof Hinv as [? Hseen Hknown Hsends Hstreams]. split; cbn.
  - intros k. unfold commands_of. cbn. by rewrite Hcmds.
  - intros k id. unfold commands_of. cbn. rewrite Hcmds, <-Hseen, Hlog. by case_decide.
  - intros k j. rewrite Hlog. case_decide as Hk; cbn.
    + rewrite elem_of_difference, elem_of_singleton. intros [(smj & ? & ? & ?)%Hknown Hne].
      exists smj. by rewrite lookup_insert_ne.
    + intros (smj & ? & ? & ?)%Hknown. exists smj. rewrite lookup_insert_ne by congruence. done.
  - intros sd j Hsd Hj. specialize (Hsends _ _ Hsd Hj).
    destruct (decide (j = i)) as [->|]; by simplify_map_eq.
  - intros j smj. destruct (decide (j = i)) as [->|Hne].
    + rewrite lookup_insert_eq. intros [= <-]. destruct (Hstreams _ _ Hi) as [? (m & Hm & ?) Hr].
      split; [done| |done]. exists m. split; [|done]. unfold commands_of. cbn. by rewrite Hcmds.
    + rewrite lookup_insert_ne by done. intros Hj. destruct (Hstreams _ _ Hj) as [? (m & Hm & ?) Hr].
      split; [done| |].
      * exists m. split; [|done]. unfold commands_of. cbn. by rewrite Hcmds.
      * intros Hg. cbn. rewrite Hlog. case_decide; cbn; [|auto]. specialize (Hr Hg). set_solver.
Qed.

Lemma enqueue_inv key c js sv' s :
  command_inv s → tc_CommandID c ∉ cl_seen (log_of (cs_service s) key) →
  (∀ k, log_of sv' k = if decide (key = k) then
      (log_of (cs_service s) key) <| cl_seen ::= λ x, {[tc_CommandID c]} ∪ x |>
                                  <| cl_commands ::= λ l, l ++ [c] |>
      else log_of (cs_service s) k) →
  NoDup js → (∀ j, j ∈ js ↔ j ∈ cl_streams (log_of (cs_service s) key)) →
  command_inv (MkCommandSystem sv' (cs_streams s) (cs_sends s ++ [MkSend c js false])).
Proof.
  intros Hinv Hnew Hlog Hnd Hjs.
  assert (∀ k, cl_commands (log_of sv' k) = commands_of s k ++ if decide (key = k) then [c] else [])
    as Hcmds.
  { intros k. rewrite Hlog. case_decide as Hk; [by destruct Hk|]. by rewrite app_nil_r. }
  assert (∀ k, cl_streams (log_of sv' k) = cl_streams (log_of (cs_service s) k)) as Hstr.
  { intros k. rewrite Hlog. case_decide as Hk; [by destruct Hk|done]. }
  pose proof Hinv as [Hn Hseen Hknown Hsends Hstreams]. split; cbn.
  - intros k. unfold commands_of. cbn. rewrite Hcmds. case_decide as Hk; [|by rewrite app_nil_r].
    destruct Hk. rewrite fmap_app. apply NoDup_app. split; [apply Hn|]. split; [|apply NoDup_singleton].
    intros id Hid ->%list_elem_of_singleton. by apply Hnew, Hseen.
  - intros k id. unfold commands_of. cbn. rewrite Hcmds, Hlog. case_decide as Hk.
    + destruct Hk. cbn. rewrite elem_of_union, elem_of_singleton, Hseen, fmap_app, elem_of_app.
      cbn. rewrite list_elem_of_singleton. tauto.
    + rewrite app_nil_r. apply Hseen.
  - intros k i. rewrite Hstr. apply Hknown.
  - intros sd i [Hsd| ->%list_elem_of_singleton]%elem_of_app Hi; [by eapply Hsends|].
    cbn in Hi. apply Hjs, Hknown in Hi as (sm & ? & _). eauto.
  - intros i sm Hi. destruct (Hstreams _ _ Hi) as [? (m & Hm & Hg) Hr].
    assert (assigned (MkCommandSystem sv' (cs_streams s) (cs_sends s ++ [MkSend c js false])) i sm
            = assigned s i sm ++ if decide (i ∈ js) then [c] else []) as Has.
    { unfold assigned. cbn [cs_sends]. rewrite pending_start by done. by rewrite (assoc_L (++)). }
    split; [done| |cbn; rewrite Hstr; done]. rewrite Has. unfold commands_of at 1. cbn [cs_service].
    rewrite Hcmds. destruct (sm_gone sm) eqn:Hgone.
    + rewrite decide_False by (intros (sm' & ? & ? & ?)%Hjs%Hknown; congruence).
      exists (m ++ if decide (key = sm_key sm) then [c] else []). split; [|done].
      rewrite app_nil_r, (assoc_L (++)). by rewrite Hm.
    + specialize (Hg eq_refl) as ->. specialize (Hr eq_refl). exists []. split; [|done].
      rewrite app_nil_r in Hm |- *. rewrite <-Hm.
      assert (i ∈ js ↔ key = sm_key sm) as Hiff.
      { rewrite Hjs. split; [intros (sm' & ? & ? & ?)%Hknown; congruence|]. by intros ->. }
      by rewrite (decide_ext _ _ [c] [] Hiff).
Qed.

Lemma command_inv_log sv' s :
  command_inv s → (∀ k, log_of sv' k = log_of (cs_service s) k) →
  command_inv (MkCommandSystem sv' (cs_streams s) (cs_sends s)).
Proof.
  intros [Hn Hseen Hknown Hsends Hstreams] Hlog.
  split; unfold commands_of in *; cbn; try (intros k; rewrite Hlog; apply Hn || apply Hseen || apply Hknown).
  - done.
  - intros i sm Hi. destruct (Hstreams _ _ Hi). split; unfold commands_of in *; cbn; by rewrite ?Hlog.
Qed.

Lemma command_exec_inv `{NameChecks} a s s' :
  command_inv s → command_exec a s = Some s' → command_inv s'.
Proof.
  intros Hinv. destruct a as [i req|key c js|n|i pa|i]; cbn [command_exec].
  - destruct (RegisterTarget i true req (cs_service s)) as [[replay sv]|] eqn:Hr; [|done].
    destruct (cs_streams s !! i) eqn:Hi; [done|]. intros [= <-].
    pose proof Hr as Hr'. apply RegisterTarget_Ok in Hr' as [-> _].
    by apply (register_inv i req sv s).
  - unfold EnqueueTargetCommand. destruct (RunKey_Validate key); [|done]. cbn [mbind result_bind].
    destruct (validateTargetCommand c); [|done].
    pose proof (enqueue_locked_spec key c (cs_service s)) as Hspec. cbn zeta in Hspec.
    destruct (decide (tc_CommandID c ∈ _)) as [Hin|Hnin]; destruct Hspec as (sv & -> & Hlog).
    + intros [= <-]. by apply (command_inv_log sv s).
    + cbn [mbind result_bind]. case_decide as Hd; [|done]. destruct Hd as [Hnd Hjs]. intros [= <-].
      apply (enqueue_inv key c js sv s); try done.
      intros j. by rewrite <-Hjs, elem_of_list_to_set.
  - by apply command_send_inv.
  - destruct (cs_streams s !! i) as [sm|] eqn:Hi; [|done]. cbn [mbind option_bind].
    destruct (pump_exec pa (sm_pump sm)) as [p|] eqn:Hp; [|done]. intros [= <-].
    pose proof (sti_ok _ _ _ (ci_streams _ Hinv _ _ Hi)) as Hok.
    destruct (pump_exec_spec _ _ _ Hok Hp) as (Hok' & Hc & _).
    apply (command_inv_moves s i sm (sm <| sm_pump := p |>)); try done; [|by eauto].
    change (contents p ++ pending i (cs_sends s) ≡ₚ assigned s i sm). by rewrite Hc.
  - destruct (cs_streams s !! i) as [sm|] eqn:Hi; [|done]. cbn [mbind option_bind].
    case_decide; [|done]. intros [= <-]. by apply (unregister_inv i sm s).
Qed.

Lemma command_run_inv `{NameChecks} l s s' :
  command_inv s → command_run l s = Some s' → command_inv s'.
Proof.
  revert s. induction l as [|a l IH]; intros s Hinv; cbn; [by intros [= <-]|].
  destruct (command_exec a s) as [s1|] eqn:Ha; [|done]. cbn. eauto using command_exec_inv.
Qed.

Lemma command_start_inv : command_inv command_start.
Proof.
  split; cbn.
  - intros k. constructor.
  - intros k id. cbn. set_solver.
  - intros k i. cbn. set_solver.
  - set_solver.
  - intros i sm. by rewrite lookup_empty.
Qed.

(** ** Properties *)

(** C26: Every target stream gets every command of its run exactly once.  In every interleaving of
    enqueuers, streams, registrations and disconnections: what a stream delivered are commands
    enqueued for its run, no command identifier twice; and while it is registered, the commands it
    delivered, still holds or is about to be sent are all the commands of the run, those enqueued
    before it registered included. *)
Theorem commands_exactly_once `{NameChecks} l s i sm :
  command_run l command_start = Some s → cs_streams s !! i = Some sm →
  pu_out (sm_pump sm) ⊆+ commands_of s (sm_key sm) ∧
  NoDup (tc_CommandID <$> pu_out (sm_pump sm)) ∧
  (sm_gone sm = false →
   contents (sm_pump sm) ++ pending i (cs_sends s) ≡ₚ commands_of s (sm_key sm)).
Proof.
  intros Hrun Hi. assert (command_inv s) as Hinv
    by (eapply command_run_inv, Hrun; apply command_start_inv).
  destruct (ci_streams _ Hinv _ _ Hi) as [_ (m & Hm & Hg) _].
  assert (pu_out (sm_pump sm) ⊆+ commands_of s (sm_key sm)) as Hout.
  { rewrite <-Hm. unfold assigned, contents. rewrite <-!(assoc_L (++)). by apply submseteq_inserts_r. }
  split; [done|]. split.
  - apply submseteq_Permutation in Hout as [k Hk]. pose proof (ci_nodup _ Hinv (sm_key sm)) as Hnd.
    rewrite Hk, fmap_app in Hnd. apply NoDup_app in Hnd as [Hnd _]. exact Hnd.
  - intros Hgone. rewrite (Hg Hgone), app_nil_r in Hm. exact Hm.
Qed.

(** Enqueueing is idempotent by command identifier.  In every reachable state a valid command
    is accepted exactly when no command with its identifier was enqueued for the run before; it is
    then the last command of that run and the other runs keep theirs, and otherwise no log changes,
    whatever the payload of the repeated command is. *)
Theorem enqueue_idempotent `{NameChecks} l s key c :
  command_run l command_start = Some s → valid_run_key key → validateTargetCommand c = Ok tt →
  ∃ streams sv, EnqueueTargetCommand key c (cs_service s)
    = Ok (bool_decide (tc_CommandID c ∉ tc_CommandID <$> commands_of s key), streams, sv) ∧
  ∀ k, cl_commands (log_of sv k) = commands_of s k ++
    if decide (k = key ∧ tc_CommandID c ∉ tc_CommandID <$> commands_of s key) then [c] else [].
Proof.
  intros Hrun Hkey%RunKey_Validate_Ok Hc. assert (command_inv s) as Hinv
    by (eapply command_run_inv, Hrun; apply command_start_inv).
  unfold EnqueueTargetCommand. rewrite Hkey, Hc. cbn [mbind result_bind].
  pose proof (enqueue_locked_spec key c (cs_service s)) as Hspec. cbn zeta in Hspec.
  pose proof (ci_seen _ Hinv key (tc_CommandID c)) as Hseen.
  destruct (decide (tc_CommandID c ∈ cl_seen _)) as [Hin|Hnin]; destruct Hspec as (sv & -> & Hlog).
  - apply Hseen in Hin. eexists _, sv. rewrite bool_decide_false by naive_solver. split; [done|].
    intros k. rewrite Hlog, decide_False by naive_solver. by rewrite app_nil_r.
  - rewrite Hseen in Hnin. eexists _, sv. rewrite bool_decide_true by done. split; [done|].
    intros k. rewrite Hlog. destruct (decide (key = k)) as [->|Hne].
    + by rewrite decide_True.
    + rewrite decide_False by naive_solver. by rewrite app_nil_r.
Qed.

(** ** An enqueuer that waits for ever *)

Definition stuck (n j : nat) (s : command_system) : Prop :=
  ∃ c js f sm, cs_sends s !! n = Some (MkSend c (j :: js) f) ∧ cs_streams s !! j = Some sm ∧
    pu_stopped (sm_pump sm) = true ∧
    sv_buffer (cs_service s) ≤ Z.of_nat (length (pu_ch (sm_pump sm))).

Lemma command_exec_stuck `{NameChecks} a n j s s' :
  stuck n j s → command_exec a s = Some s' → stuck n j s'.
Proof.
  intros (c & js & f & sm & Hn & Hj & Hstop & Hfull). unfold stuck.
  destruct a as [i req|key c' js'|m|i pa|i]; cbn [command_exec].
  - destruct (RegisterTarget i true req (cs_service s)) as [[replay sv]|] eqn:Hr; [|done].
    destruct (cs_streams s !! i) eqn:Hi; [done|]. intros [= <-].
    assert (sv_buffer sv = sv_buffer (cs_service s)) as Hb.
    { revert Hr. unfold RegisterTarget. cbn [negb]. rewrite !bind_tt_Ok. intros (_ & _ & _ & [= _ <-]). done. }
    exists c, js, f, sm. cbn. rewrite lookup_insert_ne by congruence. by rewrite Hb.
  - unfold EnqueueTargetCommand. destruct (RunKey_Validate key); [|done]. cbn [mbind result_bind].
    destruct (validateTargetCommand c'); [|done]. unfold enqueue_locked, service_runLocked.
    cbn zeta. destruct (decide (tc_CommandID c' ∈ _)); cbn.
    + intros [= <-]. exists c, js, f, sm. done.
    + case_decide; [|done]. intros [= <-]. exists c, js, f, sm. cbn.
      split; [|done]. by apply lookup_app_l_Some.
  - unfold command_send. destruct (cs_sends s !! m) as [[c' [|i js'] f']|] eqn:Hm; try done.
    destruct (cs_streams s !! i) as [smi|] eqn:Hi; [|done]. cbn. case_decide as Hroom; [|done].
    intros [= <-]. assert (i ≠ j) as Hij by (intros ->; simplify_eq; lia).
    exists c, js, f, sm. cbn. rewrite lookup_insert_ne by done.
    rewrite list_lookup_insert_ne by congruence. done.
  - destruct (cs_streams s !! i) as [smi|] eqn:Hi; [|done]. cbn.
    destruct (pump_exec pa (sm_pump smi)) as [p|] eqn:Hp; [|done]. intros [= <-].
    destruct (decide (i = j)) as [->|Hij].
    + simplify_eq. by rewrite pump_exec_stopped in Hp.
    + exists c, js, f, sm. cbn. by rewrite lookup_insert_ne.
  - destruct (cs_streams s !! i) as [smi|] eqn:Hi; [|done]. cbn. case_decide; [|done].
    intros [= <-]. assert (∀ k, sv_buffer (unregisterTarget k i (cs_service s)) = sv_buffer (cs_service s)) as Hb
      by (intros k; unfold unregisterTarget; by destruct (sv_runs _ !! k)).
    exists c, js, f. destruct (decide (i = j)) as [->|Hij].
    + simplify_eq. exists (sm <| sm_gone := true |>). cbn. by rewrite lookup_insert_eq, Hb.
    + exists sm. cbn. by rewrite lookup_insert_ne, Hb.
Qed.

Lemma command_run_stuck `{NameChecks} l n j s s' :
  stuck n j s → command_run l s = Some s' → stuck n j s'.
Proof.
  revert s. induction l as [|a l IH]; intros s Hs; cbn; [by intros [= <-]|].
  destruct (command_exec a s) as [s1|] eqn:Ha; [|done]. cbn. eauto using command_exec_stuck.
Qed.

(** ** Sample runs *)

Definition sample_request : RegisterTargetRequest :=
  MkRegisterTargetRequest "backup" "nightly" RunKindBackup "backup" "vault".

Definition abort_command (id : string) : TargetCommand := NewAbortRunCommand id (MkAbortRun "stop").

(** Two commands around a registration; the second one is enqueued twice. *)
Definition sample_commands : list command_action :=
  [CEnqueue sample_key (abort_command "a") []; CRegister 7 sample_request;
   CEnqueue sample_key (abort_command "b") [7%nat]; CEnqueue sample_key (abort_command "b") [];
   CSend 1; CPump 7 PReplay; CPump 7 PTake; CPump 7 PEmit].

Definition sample_system : command_system :=
  default command_start (command_run (H := sample_checks) sample_commands command_start).

Definition sample_stream : stream :=
  default (MkStream sample_key (new_pump []) true) (cs_streams sample_system !! 7%nat).

Lemma sample_system_runs :
  command_run (H := sample_checks) sample_commands command_start = Some sample_system.
Proof. vm_compute. reflexivity. Qed.

Lemma sample_stream_there : cs_streams sample_system !! 7%nat = Some sample_stream.
Proof. vm_compute. reflexivity. Qed.

Lemma commands_exactly_once_witness :
  tc_CommandID <$> pu_out (sm_pump sample_stream) = ["a"; "b"] ∧
  contents (sm_pump sample_stream) ++ pending 7 (cs_sends sample_system)
  ≡ₚ commands_of sample_system (sm_key sample_stream).
Proof.
  split; [by vm_compute|].
  refine (proj2 (proj2 (commands_exactly_once (H := sample_checks) sample_commands sample_system 7
    sample_stream sample_system_runs sample_stream_there)) _). by vm_compute.
Defined.

Lemma enqueue_idempotent_witness :
  ∃ streams sv, EnqueueTargetCommand (H := sample_checks) sample_key (abort_command "b")
                  (cs_service sample_system) = Ok (false, streams, sv).
Proof.
  destruct (enqueue_idempotent (H := sample_checks) sample_commands sample_system sample_key
    (abort_command "b") sample_system_runs) as (streams & sv & He & _).
  - apply (RunKey_Validate_Ok (H := sample_checks)). by vm_compute.
  - by vm_compute.
  - exists streams, sv. rewrite He. f_equal.
Defined.

(** A target that disconnects while commands keep arriving: as many as its
    channel holds, and one more. *)
Definition lost_target_trace : list command_action :=
  [CRegister 7 sample_request; CPump 7 PStop] ++
  (n ← seq 0 64; [CEnqueue sample_key (abort_command (Itoa (Z.of_nat n))) [7%nat]; CSend n]) ++
  [CEnqueue sample_key (abort_command "last") [7%nat]].

(** An enqueuer can wait for ever: when a target's stream ends (its context is done) after an
    enqueuer has listed it but before it has sent, and the stream's channel is full, nothing that
    any goroutine does later lets that call of [EnqueueTargetCommand] return, not even the
    stream's own unregistration. *)
Theorem enqueue_can_block_forever :
  ∃ s, command_run (H := sample_checks) lost_target_trace command_start = Some s ∧
  ∀ l s', command_run (H := sample_checks) l s = Some s' →
    ∃ c js f, cs_sends s' !! 64%nat = Some (MkSend c (7%nat :: js) f).
Proof.
  assert (∃ s, command_run (H := sample_checks) lost_target_trace command_start = Some s ∧ stuck 64 7 s)
    as (s & Hs & Hstuck).
  { eexists. split; [vm_compute; reflexivity|]. eexists _, _, _, _.
    split; [vm_compute; reflexivity|]. split; [vm_compute; reflexivity|].
    split; by vm_compute. }
  exists s. split; [done|]. intros l s' Hl.
  destruct (command_run_stuck l 64 7 s s' Hstuck Hl) as (c & js & f & sm & Hn & _). eauto.
Qed.
