(* ===== verification/Events.v ===== *)
(** * Applying control events to the API objects (internal/controller/events.go)

    How a target event, a command acknowledgement or a source event changes
    the status of a BackupJob, a RestoreJob or an RsyncMachine.  Each handler
    returns the new object and the flag that makes the caller write the status
    back.  [now] is the reading of the clock during the call. *)
From S2P Require Export Control.
From stdpp Require Import options.

Definition ConditionTargetReady : string := "TargetReady".
Definition ConditionSnapshotCapture : string := "SnapshotCapture".
Definition ConditionTransport : string := "Transport".
Definition ConditionFailed : string := "Failed".

Definition ReasonTargetReady : string := "TargetReady".
Definition ReasonSnapshotPreparing : string := "SnapshotPreparing".
Definition ReasonSnapshotReady : string := "SnapshotReady".
Definition ReasonSnapshotSkipped : string := "SnapshotSkipped".
Definition ReasonSnapshotFailed : string := "SnapshotFailed".
Definition ReasonTransportRunning : string := "TransportRunning".
Definition ReasonTransportComplete : string := "TransportComplete".
Definition ReasonTransportFailed : string := "TransportFailed".
Definition ReasonRunSucceeded : string := "RunSucceeded".
Definition ReasonRunFailed : string := "RunFailed".

Definition ConditionTrue : string := "True".
Definition ConditionFalse : string := "False".
Definition ConditionUnknown : string := "Unknown".

(** ** Scalars *)

Definition uint64ToInt64 (value : Z) : Z :=
  if decide (value > max_int64) then max_int64 else value.

Definition parseMetaTime (now : Time) (value : string) : Time :=
  if decide (value = "") then now
  else match time_Parse layout_rfc3339 value with Some t => t | None => now end.

Definition transferPhase (phase : string) : string :=
  if decide (phase = "Preparing") then TransferPhasePreparing
  else if decide (phase = "Running") then TransferPhaseRunning
  else if decide (phase = "Succeeded") then TransferPhaseSucceeded
  else if decide (phase = "Failed") then TransferPhaseFailed
  else if decide (phase = "Skipped") then TransferPhaseSkipped
  else TransferPhasePending.

(** ** Conditions *)

Definition conditionsEqual (l r : Condition) : bool :=
  bool_decide (cond_Type l = cond_Type r ∧ cond_Status l = cond_Status r ∧
    cond_Reason l = cond_Reason r ∧ cond_Message l = cond_Message r ∧
    cond_ObservedGeneration l = cond_ObservedGeneration r).

(** The loop of [upsertCondition] over the conditions. *)
Fixpoint upsert_loop (condition : Condition) (conditions : list Condition)
    : list Condition * bool :=
  match conditions with
  | [] => ([condition], true)
  | c :: cs =>
      if decide (cond_Type c = cond_Type condition) then
        if conditionsEqual c condition then (c :: cs, false)
        else
          let condition :=
            if decide (cond_Status c = cond_Status condition ∧
                       IsZero (cond_LastTransitionTime c) = false)
            then condition <| cond_LastTransitionTime := cond_LastTransitionTime c |>
            else condition in
          (condition :: cs, true)
      else let '(cs, ch) := upsert_loop condition cs in (c :: cs, ch)
  end.

Definition upsertCondition (now : Time) (conditions : list Condition) (condition : Condition)
    : list Condition * bool :=
  let condition :=
    if IsZero (cond_LastTransitionTime condition)
    then condition <| cond_LastTransitionTime := now |> else condition in
  upsert_loop condition conditions.

Definition setCondition (now : Time) (conditions : list Condition)
    (conditionType status reason message : string) (observedGeneration : Z)
    : list Condition * bool :=
  let reason := if decide (reason = "") then "Observed" else reason in
  upsertCondition now conditions
    (MkCondition conditionType status observedGeneration now reason message).

(** ** Object updates with a changed flag *)

(** [if cond && x.f != v { x.f = v; changed = true }] *)
Definition assign {T A} `{EqDecision A} (f : T → A) `{!Setter f} (cond : bool) (v : A)
    (xc : T * bool) : T * bool :=
  if cond && negb (bool_decide (f xc.1 = v)) then (xc.1 <| f := v |>, true) else xc.

(** [changed = setCondition(&run.Status.Conditions, ..., run.Generation) || changed] *)
Definition set_job_condition (now : Time) (ty status reason message : string)
    (rc : BackupJob * bool) : BackupJob * bool :=
  let '(run, changed) := rc in
  let '(cs, ch) := setCondition now (bjs_Conditions (bj_Status run)) ty status reason message
                     (om_Generation (bj_Meta run)) in
  (run <| bj_Status ::= λ st, st <| bjs_Conditions := cs |> |>, ch || changed).

(** An assignment to a field of the status. *)
Definition assign_status {A} `{EqDecision A} (f : BackupJobStatus → A) `{!Setter f}
    (cond : bool) (v : A) (rc : BackupJob * bool) : BackupJob * bool :=
  let '(st, ch) := assign f cond v (bj_Status rc.1, rc.2) in
  (rc.1 <| bj_Status := st |>, ch).

(** Moves a run to a phase and stamps its completion time. *)
Definition complete_phase (now : Time) (phase : string) (rc : BackupJob * bool)
    : BackupJob * bool :=
  if decide (bjs_Phase (bj_Status rc.1) ≠ phase)
  then (rc.1 <| bj_Status ::= λ st, st <| bjs_Phase := phase |>
                                       <| bjs_CompletedAt := Some now |> |>, true)
  else rc.

(** ** Target events *)

Definition for_this_run (run : BackupJob) (ns name kind : string) : bool :=
  bool_decide (ns = om_Namespace (bj_Meta run) ∧ name = om_Name (bj_Meta run)
               ∧ kind = RunKindBackup).

Definition ApplyTargetEventToBackupJob (now : Time) (run : BackupJob) (event : TargetEvent)
    : BackupJob * bool :=
  if negb (for_this_run run (te_RunNamespace event) (te_RunName event) (te_RunKind event))
  then (run, false)
  else
    let rc := assign_status bjs_TargetPhase true (te_Phase event) (run, false) in
    if decide (te_Phase event = "Ready") then
      let phase := bjs_Phase (bj_Status rc.1) in
      let rc := assign_status bjs_Phase
                  (bool_decide (phase = RunPhasePreparing ∨ phase = "")) RunPhaseRunning rc in
      set_job_condition now ConditionTargetReady ConditionTrue ReasonTargetReady
        "RsyncMachine reported ready" rc
    else if decide (te_Phase event = "Finalizing") then
      assign_status bjs_Phase true RunPhaseFinalizing rc
    else if decide (te_Phase event = "Completed") then
      let rc := complete_phase now RunPhaseSucceeded rc in
      let rc := set_job_condition now ConditionFailed ConditionFalse ReasonRunSucceeded
                  "BackupJob completed successfully" rc in
      let rc := set_job_condition now ConditionTransport ConditionTrue ReasonTransportComplete
                  "Target transport finalized successfully" rc in
      assign_status bjs_SnapshotPath (bool_decide (te_Snapshot event ≠ "")) (te_Snapshot event) rc
    else if decide (te_Phase event = "Failed") then
      let rc := complete_phase now RunPhaseFailed rc in
      let message := if decide (te_Message event = "") then "Backup target reported failure"
                     else te_Message event in
      let rc := set_job_condition now ConditionFailed ConditionTrue ReasonRunFailed message rc in
      set_job_condition now ConditionTransport ConditionFalse ReasonTransportFailed message rc
    else rc.

Definition ApplyTargetCommandAckToBackupJob (now : Time) (run : BackupJob)
    (event : TargetCommandAckEvent) : BackupJob * bool :=
  if negb (for_this_run run (ta_RunNamespace event) (ta_RunName event) (ta_RunKind event))
  then (run, false)
  else
    let acknowledgedAt := Some (parseMetaTime now (ta_AcknowledgedAt event)) in
    let set c := run <| bj_Status ::= λ st, st <| bjs_LastCommand := Some c |> |> in
    match bjs_LastCommand (bj_Status run) with
    | None => (set (MkCommandStatus (ta_CommandID event) (ta_CommandType event) None acknowledgedAt),
               true)
    | Some c =>
        if decide (cs_ID c ≠ ta_CommandID event ∨ cs_Type c ≠ ta_CommandType event)
        then (run, false)
        else if decide (cs_AcknowledgedAt c ≠ acknowledgedAt)
        then (set (c <| cs_AcknowledgedAt := acknowledgedAt |>), true)
        else (run, false)
    end.

Definition MarkFinalizeCommandSent (run : BackupJob) (command : TargetCommand) (sentAt : Time)
    : BackupJob * bool :=
  let set c := run <| bj_Status ::= λ st, st <| bjs_LastCommand := Some c |> |> in
  let fresh := MkCommandStatus (tc_CommandID command) (tc_Type command) (Some sentAt) None in
  if decide (tc_CommandID command = "") then (run, false)
  else match bjs_LastCommand (bj_Status run) with
       | Some c =>
           if decide (cs_ID c = tc_CommandID command ∧ cs_Type c = tc_Type command) then
             if decide (cs_SentAt c ≠ Some sentAt)
             then (set (c <| cs_SentAt := Some sentAt |>), true) else (run, false)
           else (set fresh, true)
       | None => (set fresh, true)
       end.

(** ** Source events *)

Definition nonzero (z : Z) : bool := bool_decide (z ≠ 0).
Definition nonempty (s : string) : bool := bool_decide (s ≠ "").

Definition speedup_changed (event_speedup speedup : spec_float) : bool :=
  negb (SFeqb event_speedup (S754_zero false)) && negb (SFeqb speedup event_speedup).

Definition assign_speedup (v : spec_float) (tc : TransferStatus * bool) : TransferStatus * bool :=
  if speedup_changed v (ts_Speedup tc.1) then (tc.1 <| ts_Speedup := v |>, true) else tc.

Definition updateTransfer (now : Time) (transfer : TransferStatus) (event : SourceEvent)
    (phase : string) : TransferStatus * bool :=
  let tc := assign ts_Phase true phase (transfer, false) in
  let tc := assign ts_Percent (nonzero (se_Percent event)) (se_Percent event) tc in
  let tc := assign ts_BytesTransferred (nonzero (se_BytesTransferred event) || se_StatsComplete event)
              (uint64ToInt64 (se_BytesTransferred event)) tc in
  let tc := assign ts_RateBytesPerSecond (nonzero (se_RateBytesPerSecond event))
              (uint64ToInt64 (se_RateBytesPerSecond event)) tc in
  let tc := assign ts_FilesTransferred (nonzero (se_FilesTransferred event) || se_StatsComplete event)
              (uint64ToInt64 (se_FilesTransferred event)) tc in
  let tc := assign ts_TotalFiles (nonzero (se_TotalFiles event))
              (uint64ToInt64 (se_TotalFiles event)) tc in
  let tc := assign ts_TotalFileSize (nonzero (se_TotalFileSize event))
              (uint64ToInt64 (se_TotalFileSize event)) tc in
  let tc := assign ts_BytesSent (nonzero (se_BytesSent event))
              (uint64ToInt64 (se_BytesSent event)) tc in
  let tc := assign ts_BytesReceived (nonzero (se_BytesReceived event))
              (uint64ToInt64 (se_BytesReceived event)) tc in
  let tc := assign_speedup (se_Speedup event) tc in
  let tc := assign ts_Message (nonempty (se_Message event)) (se_Message event) tc in
  let tc := assign ts_ExitCode (nonzero (se_RsyncExitCode event)) (se_RsyncExitCode event) tc in
  let tc := assign ts_CaptureMethod (nonempty (se_CaptureMethod event)) (se_CaptureMethod event) tc in
  let tc := assign ts_VolumeSnapshotName (nonempty (se_VolumeSnapshotName event))
              (se_VolumeSnapshotName event) tc in
  let tc := assign ts_CaptureTime (nonempty (se_CaptureTime event))
              (Some (parseMetaTime now (se_CaptureTime event))) tc in
  let tc := assign ts_StartedAt (nonempty (se_StartedAt event))
              (Some (parseMetaTime now (se_StartedAt event))) tc in
  assign ts_CompletedAt (nonempty (se_CompletedAt event))
    (Some (parseMetaTime now (se_CompletedAt event))) tc.

Definition setTransferConditions (now : Time) (event : SourceEvent) (phase : string)
    (run : BackupJob) : BackupJob * bool :=
  let message := if decide (se_Message event = "") then "Source transfer " +:+ phase
                 else se_Message event in
  let rc := (run, false) in
  if decide (phase = TransferPhasePreparing) then
    set_job_condition now ConditionSnapshotCapture ConditionUnknown ReasonSnapshotPreparing message rc
  else if decide (phase = TransferPhaseRunning) then
    set_job_condition now ConditionTransport ConditionUnknown ReasonTransportRunning message rc
  else if decide (phase = TransferPhaseSucceeded) then
    let rc := set_job_condition now ConditionSnapshotCapture ConditionTrue ReasonSnapshotReady
                "Source capture is ready" rc in
    set_job_condition now ConditionTransport ConditionTrue ReasonTransportComplete message rc
  else if decide (phase = TransferPhaseFailed) then
    let rc := set_job_condition now ConditionTransport ConditionFalse ReasonTransportFailed message rc in
    set_job_condition now ConditionFailed ConditionTrue ReasonRunFailed message rc
  else if decide (phase = TransferPhaseSkipped) then
    set_job_condition now ConditionSnapshotCapture ConditionFalse ReasonSnapshotSkipped message rc
  else rc.

(** A new entry of the transfer list. *)
Definition new_transfer (sourceID : string) : TransferStatus :=
  (inhabitant : TransferStatus) <| ts_Source := sourceID |>.

(** The loop over the transfers: [None] when no entry names the source. *)
Fixpoint update_first (sourceID : string) (upd : TransferStatus → TransferStatus * bool)
    (transfers : list TransferStatus) : option (list TransferStatus * bool) :=
  match transfers with
  | [] => None
  | t :: ts =>
      if decide (ts_Source t = sourceID) then let '(t', ch) := upd t in Some (t' :: ts, ch)
      else '(ts', ch) ← update_first sourceID upd ts; Some (t :: ts', ch)
  end.

Definition ApplySourceEventToBackupJob (now : Time) (run : BackupJob) (event : SourceEvent)
    : BackupJob * bool :=
  if negb (for_this_run run (se_RunNamespace event) (se_RunName event) (se_RunKind event))
  then (run, false)
  else
    let sourceID := se_SourceNamespace event +:+ "/" +:+ se_SourceName event in
    let phase := transferPhase (se_Phase event) in
    let upd t := updateTransfer now t event phase in
    let transfers := bjs_Transfers (bj_Status run) in
    match update_first sourceID upd transfers with
    | Some (transfers', changed) =>
        let run := run <| bj_Status ::= λ st, st <| bjs_Transfers := transfers' |> |> in
        let '(run, ch) := setTransferConditions now event phase run in (run, ch || changed)
    | None =>
        let transfers' := transfers ++ [(upd (new_transfer sourceID)).1] in
        let run := run <| bj_Status ::= λ st, st <| bjs_Transfers := transfers' |> |> in
        let '(run, _) := setTransferConditions now event phase run in (run, true)
    end.

(** ** Machines and restore jobs *)

Definition restore_point_of (now : Time) (p : control_RestorePoint) : RestorePoint :=
  MkRestorePoint (crp_Snapshot p) (crp_ResolvesTo p) (crp_Tier p)
    (Some (parseMetaTime now (crp_CreatedAt p))) (crp_BytesTransferred p).

Definition condition_of (now : Time) (c : TargetCondition) : Condition :=
  MkCondition (tcn_Type c) (tcn_Status c) (tcn_ObservedGeneration c)
    (parseMetaTime now (tcn_LastTransitionTime c)) (tcn_Reason c) (tcn_Message c).

Definition ApplyTargetEventToRsyncMachine (now : Time) (target : RsyncMachine)
    (event : TargetEvent) : RsyncMachine * bool :=
  if decide (te_TargetNamespace event ≠ om_Namespace (m_Meta target)
             ∨ te_TargetName event ≠ om_Name (m_Meta target))
  then (target, false)
  else
    let '(target, changed) :=
      if decide (te_RestoreScanned event = true ∨ te_RestorePoints event ≠ []) then
        let points : list RestorePoint := restore_point_of now <$> te_RestorePoints event in
        (target <| m_Status ::= λ st,
           st <| mst_RestorePoints := points |>
              <| mst_RestorePointCount := wrap_i32 (Z.of_nat (length points)) |>
              <| mst_RestorePointsUpdatedAt := Some now |> |>, true)
      else (target, false) in
    if decide (te_Conditions event ≠ []) then
      let cs := foldl (λ cs c, (upsertCondition now cs (condition_of now c)).1)
                  (mst_Conditions (m_Status target)) (te_Conditions event) in
      (target <| m_Status ::= λ st, st <| mst_Conditions := cs |> |>, true)
    else (target, changed).

Definition assign_restore {A} `{EqDecision A} (f : RestoreJobStatus → A) `{!Setter f}
    (cond : bool) (v : A) (rc : RestoreJob * bool) : RestoreJob * bool :=
  let '(st, ch) := assign f cond v (rj_Status rc.1, rc.2) in
  (rc.1 <| rj_Status := st |>, ch).

Definition complete_restore (now : Time) (phase : string) (rc : RestoreJob * bool)
    : RestoreJob * bool :=
  if decide (rjs_Phase (rj_Status rc.1) ≠ phase)
  then (rc.1 <| rj_Status ::= λ st, st <| rjs_Phase := phase |>
                                       <| rjs_CompletedAt := Some now |> |>, true)
  else rc.

Definition ApplySourceEventToRestoreJob (now : Time) (run : RestoreJob) (event : SourceEvent)
    : RestoreJob * bool :=
  if decide (se_RunNamespace event ≠ om_Namespace (rj_Meta run)
             ∨ se_RunName event ≠ om_Name (rj_Meta run) ∨ se_RunKind event ≠ RunKindRestore)
  then (run, false)
  else
    let phase := transferPhase (se_Phase event) in
    let sourceID := se_SourceNamespace event +:+ "/" +:+ se_SourceName event in
    let upd t := updateTransfer now t event phase in
    let transfers := rjs_Transfers (rj_Status run) in
    let '(transfers', changed) :=
      match update_first sourceID upd transfers with
      | Some r => r
      | None => (transfers ++ [(upd (new_transfer sourceID)).1], true)
      end in
    let rc := (run <| rj_Status ::= λ st, st <| rjs_Transfers := transfers' |> |>, changed) in
    let rc :=
      if decide (se_Phase event = "Running") then assign_restore rjs_Phase true RunPhaseRunning rc
      else if decide (se_Phase event = "Succeeded") then complete_restore now RunPhaseSucceeded rc
      else if decide (se_Phase event = "Failed") then complete_restore now RunPhaseFailed rc
      else rc in
    let rc := assign_restore rjs_ExitCode (nonzero (se_RsyncExitCode event))
                (se_RsyncExitCode event) rc in
    assign_restore rjs_Message (nonempty (se_Message event)) (se_Message event) rc.

(** internal/manager/event_applier.go: which source events are written at all. *)
Definition shouldPersistSourceEvent (event : SourceEvent) : bool :=
  bool_decide (se_StartedAt event ≠ "" ∨ se_CompletedAt event ≠ "" ∨ se_Phase event ≠ "Running").

(** ** Lemmas on conditions *)

Definition find_condition (ty : string) (cs : list Condition) : option Condition :=
  snd <$> list_find (λ c, cond_Type c = ty) cs.

Lemma find_condition_cons ty c cs :
  find_condition ty (c :: cs) =
  if decide (cond_Type c = ty) then Some c else find_condition ty cs.
Proof.
  unfold find_condition. cbn [list_find]. case_decide; [done|].
  by destruct (list_find _ cs) as [[]|].
Qed.

Lemma find_condition_Some ty cs c : find_condition ty cs = Some c → c ∈ cs ∧ cond_Type c = ty.
Proof.
  induction cs as [|c' cs IH]; [done|]. rewrite find_condition_cons. case_decide; set_solver.
Qed.

Lemma conditionsEqual_true l r :
  conditionsEqual l r = true ↔ cond_Type l = cond_Type r ∧ cond_Status l = cond_Status r ∧
    cond_Reason l = cond_Reason r ∧ cond_Message l = cond_Message r ∧
    cond_ObservedGeneration l = cond_ObservedGeneration r.
Proof. unfold conditionsEqual. by rewrite bool_decide_eq_true. Qed.

(** The transition time [upsertCondition] gives to the entry it writes. *)
Definition transition_time (old : option Condition) (c : Condition) : Time :=
  match old with
  | Some o => if decide (cond_Status o = cond_Status c ∧ IsZero (cond_LastTransitionTime o) = false)
              then cond_LastTransitionTime o else cond_LastTransitionTime c
  | None => cond_LastTransitionTime c
  end.

Definition upserted (old : option Condition) (c : Condition) : Condition :=
  match old with
  | Some o => if conditionsEqual o c then o
              else c <| cond_LastTransitionTime := transition_time old c |>
  | None => c
  end.

Lemma upsert_loop_find c cs ty :
  find_condition ty (upsert_loop c cs).1 =
  if decide (ty = cond_Type c) then Some (upserted (find_condition ty cs) c)
  else find_condition ty cs.
Proof.
  induction cs as [|o cs IH]; cbn [upsert_loop].
  { cbn [fst]. rewrite find_condition_cons. unfold find_condition at 2. cbn.
    repeat case_decide; congruence. }
  destruct (decide (cond_Type o = cond_Type c)) as [Ho|Ho].
  - destruct (conditionsEqual o c) eqn:He; cbn [fst]; rewrite !find_condition_cons.
    + repeat case_decide; try congruence. cbn [upserted]. by rewrite He.
    + destruct (decide (ty = cond_Type c)) as [->|Hty].
      * rewrite (decide_True (P := cond_Type o = cond_Type c)) by done.
        cbn [upserted transition_time]. rewrite He.
        destruct (decide (cond_Status o = cond_Status c ∧ _));
          rewrite decide_True by done; destruct c; done.
      * rewrite (decide_False (P := cond_Type o = ty)) by congruence.
        destruct (decide (cond_Status o = cond_Status c ∧ _));
          rewrite decide_False by (cbn; congruence); done.
  - destruct (upsert_loop c cs) as [cs' ch]. cbn [fst] in *. rewrite !find_condition_cons, IH.
    repeat case_decide; congruence.
Qed.

Lemma upsert_loop_others c cs x :
  cond_Type x ≠ cond_Type c → x ∈ (upsert_loop c cs).1 ↔ x ∈ cs.
Proof.
  intros Hx. induction cs as [|o cs IH]; cbn [upsert_loop]; [set_solver|].
  destruct (decide (cond_Type o = cond_Type c)) as [Ho|Ho].
  - destruct (conditionsEqual o c); [done|]. cbn [fst]. rewrite !elem_of_cons.
    assert (x ≠ o) by congruence. case_decide; [|naive_solver congruence].
    assert (x ≠ c <| cond_LastTransitionTime := cond_LastTransitionTime o |>)
      by (intros ->; by apply Hx). naive_solver.
  - destruct (upsert_loop c cs) as [cs' ch]. cbn [fst] in *. set_solver.
Qed.

Lemma upsert_loop_types c cs :
  cond_Type <$> (upsert_loop c cs).1 =
  if decide (cond_Type c ∈ cond_Type <$> cs) then cond_Type <$> cs
  else (cond_Type <$> cs) ++ [cond_Type c].
Proof.
  induction cs as [|o cs IH]; cbn [upsert_loop].
  { rewrite decide_False; [done|]. set_solver. }
  destruct (decide (cond_Type o = cond_Type c)) as [Ho|Ho].
  - rewrite (decide_True (P := cond_Type c ∈ _)) by (rewrite fmap_cons, elem_of_cons; auto).
    destruct (conditionsEqual o c); cbn [fst]; [done|]. rewrite !fmap_cons. f_equal.
    destruct (decide (cond_Status o = cond_Status c ∧ _)); by rewrite Ho.
  - destruct (upsert_loop c cs) as [cs' ch]. cbn [fst] in *. rewrite !fmap_cons, IH.
    destruct (decide (cond_Type c ∈ cond_Type <$> cs)) as [Hin|Hin].
    + by rewrite decide_True by (rewrite elem_of_cons; auto).
    + rewrite decide_False; [done|]. rewrite elem_of_cons. intros [?|?]; [congruence|done].
Qed.

Lemma upsert_loop_changed c cs : (upsert_loop c cs).2 = negb (bool_decide ((upsert_loop c cs).1 = cs)).
Proof.
  induction cs as [|o cs IH]; cbn [upsert_loop]; [done|].
  destruct (decide (cond_Type o = cond_Type c)) as [Ho|Ho].
  - destruct (conditionsEqual o c) eqn:He; cbn [fst snd].
    + by rewrite bool_decide_true.
    + rewrite bool_decide_false; [done|]. apply not_true_iff_false in He.
      rewrite conditionsEqual_true in He. intros Heq. apply He.
      case_decide; injection Heq as <-; done.
  - destruct (upsert_loop c cs) as [cs' ch]. cbn [fst snd] in *. rewrite IH.
    f_equal. apply bool_decide_ext. naive_solver.
Qed.

Lemma NoDup_upsert c cs :
  NoDup (cond_Type <$> cs) → NoDup (cond_Type <$> (upsert_loop c cs).1).
Proof.
  intros Hnd. rewrite upsert_loop_types. case_decide; [done|].
  apply NoDup_app. split; [done|]. split; [set_solver|]. apply NoDup_singleton.
Qed.

(** The condition a caller asked for is in place. *)
Definition holds_condition (cs : list Condition) (ty status reason message : string) (gen : Z)
    : Prop :=
  ∃ c, find_condition ty cs = Some c ∧ cond_Status c = status ∧
       cond_Reason c = (if decide (reason = "") then "Observed" else reason) ∧
       cond_Message c = message ∧ cond_ObservedGeneration c = gen.

Lemma setCondition_unfold now cs ty st reason msg gen :
  ∃ t, setCondition now cs ty st reason msg gen =
  upsert_loop (MkCondition ty st gen t (if decide (reason = "") then "Observed" else reason) msg) cs
  ∧ t = now.
Proof.
  unfold setCondition, upsertCondition. cbn zeta. cbn [cond_LastTransitionTime].
  exists now. split; [|done]. by destruct (IsZero now).
Qed.

Lemma setCondition_holds now cs ty st reason msg gen :
  holds_condition (setCondition now cs ty st reason msg gen).1 ty st reason msg gen.
Proof.
  destruct (setCondition_unfold now cs ty st reason msg gen) as (t & -> & _).
  unfold holds_condition. rewrite upsert_loop_find. rewrite decide_True by done.
  eexists. split; [done|]. unfold upserted. destruct (find_condition ty cs) as [o|]; [|done].
  destruct (conditionsEqual o _) eqn:He; [|done].
  apply conditionsEqual_true in He as (_ & ? & ? & ? & ?). done.
Qed.

Lemma setCondition_preserves now cs ty st reason msg gen ty' st' reason' msg' gen' :
  ty' ≠ ty → holds_condition cs ty' st' reason' msg' gen' →
  holds_condition (setCondition now cs ty st reason msg gen).1 ty' st' reason' msg' gen'.
Proof.
  intros Hne (c & Hf & Hc). destruct (setCondition_unfold now cs ty st reason msg gen) as (t & -> & _).
  exists c. rewrite upsert_loop_find. rewrite decide_False by done. done.
Qed.

Lemma upsert_loop_noop c cs o :
  find_condition (cond_Type c) cs = Some o → conditionsEqual o c = true →
  upsert_loop c cs = (cs, false).
Proof.
  induction cs as [|o' cs IH]; [done|]. rewrite find_condition_cons. cbn [upsert_loop].
  case_decide as Ht.
  - intros [= ->] ->. done.
  - intros Hf He. by rewrite IH.
Qed.

Lemma setCondition_noop now cs ty st reason msg gen :
  holds_condition cs ty st reason msg gen →
  setCondition now cs ty st reason msg gen = (cs, false).
Proof.
  intros (o & Hf & Hs & Hr & Hm & Hg).
  destruct (setCondition_unfold now cs ty st reason msg gen) as (t & -> & _).
  apply upsert_loop_noop with o; [done|]. apply conditionsEqual_true. cbn.
  apply find_condition_Some in Hf as [_ ?]. done.
Qed.

(** Setting a status condition touches that condition alone.  No type
    occurs twice if none did before; every condition of another type is kept;
    the entry of the type is the old one if only the timestamp would change,
    and otherwise the new one, which keeps the old transition time when the
    status is the same and gets the current time when it is not; and the flag
    returned to the caller says exactly whether the list changed. *)
Theorem setCondition_spec now cs ty st reason msg gen :
  let new := MkCondition ty st gen now (if decide (reason = "") then "Observed" else reason) msg in
  let '(cs', changed) := setCondition now cs ty st reason msg gen in
  (NoDup (cond_Type <$> cs) → NoDup (cond_Type <$> cs')) ∧
  (∀ x, cond_Type x ≠ ty → x ∈ cs' ↔ x ∈ cs) ∧
  find_condition ty cs' = Some (upserted (find_condition ty cs) new) ∧
  (changed = false ↔ cs' = cs).
Proof.
  destruct (setCondition_unfold now cs ty st reason msg gen) as (t & -> & ->). cbn zeta.
  set (new := MkCondition _ _ _ _ _ _).
  pose proof (NoDup_upsert new cs) as H1. pose proof (upsert_loop_others new cs) as H2.
  pose proof (upsert_loop_find new cs ty) as H3. pose proof (upsert_loop_changed new cs) as H4.
  destruct (upsert_loop new cs) as [cs' ch]. cbn [fst snd] in *. subst ch.
  rewrite decide_True in H3 by done. do 3 (split; [done|]).
  rewrite negb_false_iff, bool_decide_eq_true. done.
Qed.

(** ** Lemmas on the transfer update *)

Lemma assign_eq {T A} `{EqDecision A} (f : T → A) `{!Setter f} cond v x ch :
  (∀ x, x <| f := f x |> = x) →
  assign f cond v (x, ch)
  = (x <| f := if cond then v else f x |>, (cond && negb (bool_decide (f x = v))) || ch).
Proof.
  intros Hid. unfold assign. cbn [fst snd]. destruct cond; cbn [andb]; [|by rewrite Hid].
  destruct (decide (f x = v)) as [Heq|Hne].
  - rewrite bool_decide_true by done. cbn. rewrite <-Heq. by rewrite Hid.
  - by rewrite bool_decide_false.
Qed.

(** The fields after [updateTransfer]. *)
Definition updated_transfer (now : Time) (t : TransferStatus) (e : SourceEvent) (phase : string)
    : TransferStatus :=
  let pick {A} (c : bool) (v old : A) := if c then v else old in
  let stamp s old := pick (nonempty s) (Some (parseMetaTime now s)) old in
  MkTransferStatus (ts_Source t) phase
    (pick (nonzero (se_Percent e)) (se_Percent e) (ts_Percent t))
    (pick (nonzero (se_BytesTransferred e) || se_StatsComplete e)
       (uint64ToInt64 (se_BytesTransferred e)) (ts_BytesTransferred t))
    (pick (nonzero (se_RateBytesPerSecond e))
       (uint64ToInt64 (se_RateBytesPerSecond e)) (ts_RateBytesPerSecond t))
    (pick (nonzero (se_FilesTransferred e) || se_StatsComplete e)
       (uint64ToInt64 (se_FilesTransferred e)) (ts_FilesTransferred t))
    (pick (nonzero (se_TotalFiles e)) (uint64ToInt64 (se_TotalFiles e)) (ts_TotalFiles t))
    (pick (nonzero (se_TotalFileSize e)) (uint64ToInt64 (se_TotalFileSize e)) (ts_TotalFileSize t))
    (pick (nonzero (se_BytesSent e)) (uint64ToInt64 (se_BytesSent e)) (ts_BytesSent t))
    (pick (nonzero (se_BytesReceived e)) (uint64ToInt64 (se_BytesReceived e)) (ts_BytesReceived t))
    (pick (speedup_changed (se_Speedup e) (ts_Speedup t)) (se_Speedup e) (ts_Speedup t))
    (pick (nonempty (se_Message e)) (se_Message e) (ts_Message t))
    (pick (nonzero (se_RsyncExitCode e)) (se_RsyncExitCode e) (ts_ExitCode t))
    (stamp (se_StartedAt e) (ts_StartedAt t))
    (stamp (se_CompletedAt e) (ts_CompletedAt t))
    (pick (nonempty (se_CaptureMethod e)) (se_CaptureMethod e) (ts_CaptureMethod t))
    (pick (nonempty (se_VolumeSnapshotName e)) (se_VolumeSnapshotName e) (ts_VolumeSnapshotName t))
    (stamp (se_CaptureTime e) (ts_CaptureTime t)).

Lemma assign_flag {A} `{EqDecision A} (c : bool) (old v : A) :
  c && negb (bool_decide (old = v)) = false ↔ (if c then v else old) = old.
Proof. destruct c; cbn; [|done]. rewrite negb_false_iff, bool_decide_eq_true. naive_solver. Qed.

Lemma speedup_step t ch v :
  assign_speedup v (t, ch)
  = (t <| ts_Speedup := if speedup_changed v (ts_Speedup t) then v else ts_Speedup t |>,
     speedup_changed v (ts_Speedup t) || ch).
Proof. destruct t. unfold assign_speedup. cbn. by destruct (speedup_changed _ _). Qed.

Ltac ts_cbn := unfold update_field; cbn [fst snd ts_Source ts_Phase ts_Percent
  ts_BytesTransferred ts_RateBytesPerSecond ts_FilesTransferred ts_TotalFiles ts_TotalFileSize
  ts_BytesSent ts_BytesReceived ts_Speedup ts_Message ts_ExitCode ts_StartedAt ts_CompletedAt
  ts_CaptureMethod ts_VolumeSnapshotName ts_CaptureTime].

(** Evaluates a chain of assignments from the inside out. *)
Ltac run_assigns :=
  repeat match goal with
  | |- context[assign ?f ?c ?v (?x, ?b)] =>
      rewrite (assign_eq f c v x b) by (by intros []); ts_cbn
  | |- context[assign_speedup ?v (?x, ?b)] => rewrite (speedup_step x b v); ts_cbn
  end.

Lemma updateTransfer_eq now t e phase :
  ∃ ch, updateTransfer now t e phase = (updated_transfer now t e phase, ch) ∧
  (ch = false ↔ updated_transfer now t e phase = t ∧
                speedup_changed (se_Speedup e) (ts_Speedup t) = false).
Proof.
  destruct t. unfold updateTransfer. eexists. split.
  - run_assigns. unfold updated_transfer. ts_cbn. reflexivity.
  - unfold updated_transfer. ts_cbn. rewrite !orb_false_iff, !assign_flag. split.
    + intros H. split; [|tauto]. decompose [and] H. clear H.
      f_equal; try assumption.
      match goal with H : speedup_changed _ _ = false |- _ => by rewrite H end.
    + intros [H Hs]. injection H as H. rewrite Hs. repeat split; assumption.
Qed.

(** ** Redelivery of source events *)

(** A timestamp whose reading does not depend on the clock. *)
Definition stamp_ok (s : string) : Prop := s = "" ∨ is_Some (time_Parse layout_rfc3339 s).

#[export] Instance stamp_ok_dec s : Decision (stamp_ok s).
Proof. unfold stamp_ok. apply _. Defined.

(** What makes an event's effect independent of when it is applied: readable
    timestamps, and a speedup that is a number. *)
Definition replayable (e : SourceEvent) : Prop :=
  stamp_ok (se_StartedAt e) ∧ stamp_ok (se_CompletedAt e) ∧ stamp_ok (se_CaptureTime e) ∧
  SFeqb (se_Speedup e) (se_Speedup e) = true.

#[export] Instance replayable_dec e : Decision (replayable e).
Proof. unfold replayable. apply _. Defined.

Lemma parseMetaTime_stable now now' s :
  stamp_ok s → nonempty s = true → parseMetaTime now s = parseMetaTime now' s.
Proof.
  unfold nonempty, parseMetaTime. rewrite bool_decide_eq_true. intros [?|[t Ht]] Hn; [done|].
  by rewrite Ht, !decide_False.
Qed.

Lemma speedup_changed_again v old :
  SFeqb v v = true →
  speedup_changed v (if speedup_changed v old then v else old) = false.
Proof.
  intros Hv. destruct (speedup_changed v old) eqn:Hc; [|done].
  unfold speedup_changed. rewrite Hv. apply andb_false_r.
Qed.

Lemma pick_again {A} (c : bool) (v old : A) :
  (if c then v else if c then v else old) = (if c then v else old).
Proof. by destruct c. Qed.

Lemma stamp_again now now' s (old : option Time) :
  stamp_ok s →
  (if nonempty s then Some (parseMetaTime now' s)
   else if nonempty s then Some (parseMetaTime now s) else old)
  = (if nonempty s then Some (parseMetaTime now s) else old).
Proof.
  intros Hs. destruct (nonempty s) eqn:Hn; [|done]. f_equal. by apply parseMetaTime_stable.
Qed.

Lemma updated_transfer_again now now' t e phase :
  replayable e →
  updated_transfer now' (updated_transfer now t e phase) e phase = updated_transfer now t e phase.
Proof.
  intros (Hs & Hc & Hcap & Hv). unfold updated_transfer. cbn zeta. ts_cbn.
  rewrite speedup_changed_again by done.
  f_equal; first [by apply stamp_again|apply pick_again|done].
Qed.

Lemma updateTransfer_again now now' t e phase :
  replayable e →
  updateTransfer now' (updateTransfer now t e phase).1 e phase
  = ((updateTransfer now t e phase).1, false).
Proof.
  intros He. destruct (updateTransfer_eq now t e phase) as (ch & -> & _). cbn [fst].
  destruct (updateTransfer_eq now' (updated_transfer now t e phase) e phase) as (ch' & -> & Hch').
  rewrite updated_transfer_again in * by done. f_equal. apply Hch'. split; [done|].
  apply speedup_changed_again. by destruct He as (_ & _ & _ & ?).
Qed.

Lemma updateTransfer_source now t e phase : ts_Source (updateTransfer now t e phase).1 = ts_Source t.
Proof. by destruct (updateTransfer_eq now t e phase) as (ch & -> & _). Qed.

Lemma update_first_again id upd upd' ts ts' ch :
  (∀ t, upd' (upd t).1 = ((upd t).1, false)) → (∀ t, ts_Source (upd t).1 = ts_Source t) →
  update_first id upd ts = Some (ts', ch) → update_first id upd' ts' = Some (ts', false).
Proof.
  intros Hag Hsrc. revert ts' ch. induction ts as [|t ts IH]; intros ts' ch; [done|].
  cbn [update_first]. case_decide as Hid.
  - pose proof (Hag t) as Ht. pose proof (Hsrc t) as Hs. destruct (upd t) as [t' ch'].
    intros [= <- <-]. cbn [update_first fst] in *. rewrite decide_True by congruence. by rewrite Ht.
  - intros ([ts1 ch1] & H1 & [= <- <-])%bind_Some. cbn [update_first].
    rewrite decide_False by done. by rewrite (IH _ _ H1).
Qed.

Lemma update_first_None id upd ts :
  update_first id upd ts = None ↔ id ∉ ts_Source <$> ts.
Proof.
  induction ts as [|t ts IH]; cbn [update_first]; [set_solver|].
  rewrite fmap_cons, not_elem_of_cons. case_decide as Hid.
  - destruct (upd t). split; [done|]. intros [? _]. congruence.
  - rewrite bind_None, IH. split.
    + intros [H|([ts1 ch1] & H1 & [=])]. split; [congruence|done].
    + intros [_ H]. by left.
Qed.

Lemma update_first_app id upd ts t :
  id ∉ ts_Source <$> ts → ts_Source t = id →
  update_first id upd (ts ++ [t]) = Some (ts ++ [(upd t).1], (upd t).2).
Proof.
  intros Hn Ht. induction ts as [|t0 ts IH]; cbn [update_first app].
  - rewrite decide_True by done. by destruct (upd t).
  - rewrite fmap_cons, not_elem_of_cons in Hn. rewrite decide_False by naive_solver.
    rewrite IH by naive_solver. done.
Qed.

Lemma update_first_others id upd ts ts' ch :
  (∀ t, ts_Source (upd t).1 = ts_Source t) → update_first id upd ts = Some (ts', ch) →
  ts_Source <$> ts' = ts_Source <$> ts ∧ (∀ t, ts_Source t ≠ id → t ∈ ts' ↔ t ∈ ts).
Proof.
  intros Hsrc. revert ts' ch. induction ts as [|t ts IH]; intros ts' ch; [done|].
  cbn [update_first]. case_decide as Hid.
  - pose proof (Hsrc t) as Hs. destruct (upd t) as [t' ch']. intros [= <- <-]. cbn in Hs.
    rewrite !fmap_cons, Hs. split; [done|]. intros x Hx. rewrite !elem_of_cons.
    assert (x ≠ t ∧ x ≠ t') as [? ?] by (split; congruence). tauto.
  - intros ([ts1 ch1] & H1 & [= <- <-])%bind_Some. destruct (IH _ _ H1) as [Hs Ho].
    rewrite !fmap_cons, Hs. split; [done|]. intros x Hx. rewrite !elem_of_cons, Ho by done. done.
Qed.

(** ** Lemmas on run conditions *)

Definition job_holds (run : BackupJob) (ty status reason message : string) : Prop :=
  holds_condition (bjs_Conditions (bj_Status run)) ty status reason message
    (om_Generation (bj_Meta run)).

Lemma set_job_condition_shape now ty st reason msg run ch :
  set_job_condition now ty st reason msg (run, ch) =
  let r := setCondition now (bjs_Conditions (bj_Status run)) ty st reason msg
             (om_Generation (bj_Meta run)) in
  (run <| bj_Status ::= λ s, s <| bjs_Conditions := r.1 |> |>, r.2 || ch).
Proof. unfold set_job_condition. by destruct (setCondition _ _ _ _ _ _ _). Qed.

Lemma set_job_condition_holds now ty st reason msg rc :
  job_holds (set_job_condition now ty st reason msg rc).1 ty st reason msg.
Proof. destruct rc. rewrite set_job_condition_shape. apply setCondition_holds. Qed.

Lemma set_job_condition_preserves now ty st reason msg rc ty' st' reason' msg' :
  ty' ≠ ty → job_holds rc.1 ty' st' reason' msg' →
  job_holds (set_job_condition now ty st reason msg rc).1 ty' st' reason' msg'.
Proof. destruct rc. rewrite set_job_condition_shape. apply setCondition_preserves. Qed.

Lemma set_job_condition_noop now ty st reason msg rc :
  job_holds rc.1 ty st reason msg → set_job_condition now ty st reason msg rc = rc.
Proof.
  destruct rc as [run ch]. intros H. rewrite set_job_condition_shape.
  rewrite setCondition_noop by done. destruct run as [? ? []]. done.
Qed.

Lemma set_job_condition_transfers now ty st reason msg rc :
  bjs_Transfers (bj_Status (set_job_condition now ty st reason msg rc).1)
  = bjs_Transfers (bj_Status rc.1) ∧
  bj_Meta (set_job_condition now ty st reason msg rc).1 = bj_Meta rc.1 ∧
  bjs_Phase (bj_Status (set_job_condition now ty st reason msg rc).1) = bjs_Phase (bj_Status rc.1) ∧
  bjs_CompletedAt (bj_Status (set_job_condition now ty st reason msg rc).1)
  = bjs_CompletedAt (bj_Status rc.1) ∧
  bjs_TargetPhase (bj_Status (set_job_condition now ty st reason msg rc).1)
  = bjs_TargetPhase (bj_Status rc.1).
Proof. destruct rc. by rewrite set_job_condition_shape. Qed.

Ltac solve_holds :=
  cbn [fst];
  first [apply set_job_condition_holds
        |apply set_job_condition_preserves; [discriminate|solve_holds]].

Lemma setTransferConditions_again now now' e phase run :
  setTransferConditions now' e phase (setTransferConditions now e phase run).1
  = ((setTransferConditions now e phase run).1, false).
Proof.
  unfold setTransferConditions. cbn zeta.
  repeat case_decide; try done;
    repeat (rewrite set_job_condition_noop by solve_holds); done.
Qed.

Lemma setTransferConditions_keeps now e phase run :
  bjs_Transfers (bj_Status (setTransferConditions now e phase run).1)
  = bjs_Transfers (bj_Status run) ∧
  bj_Meta (setTransferConditions now e phase run).1 = bj_Meta run ∧
  bjs_Phase (bj_Status (setTransferConditions now e phase run).1) = bjs_Phase (bj_Status run).
Proof.
  unfold setTransferConditions. cbn zeta.
  repeat case_decide; try done;
    repeat match goal with
    | |- context[set_job_condition ?n ?t ?s ?r ?m ?rc] =>
        destruct (set_job_condition_transfers n t s r m rc) as (-> & -> & -> & _)
    end; done.
Qed.

(** ** The list of transfers after a source event *)

Definition source_id (e : SourceEvent) : string :=
  se_SourceNamespace e +:+ "/" +:+ se_SourceName e.

Definition apply_to_transfer (now : Time) (e : SourceEvent) (t : TransferStatus) :=
  updateTransfer now t e (transferPhase (se_Phase e)).

Definition source_transfers (now : Time) (e : SourceEvent) (ts : list TransferStatus)
    : list TransferStatus :=
  match update_first (source_id e) (apply_to_transfer now e) ts with
  | Some (ts', _) => ts'
  | None => ts ++ [(apply_to_transfer now e (new_transfer (source_id e))).1]
  end.

Lemma apply_to_transfer_source now e t : ts_Source (apply_to_transfer now e t).1 = ts_Source t.
Proof. apply updateTransfer_source. Qed.

Lemma ApplySourceEventToBackupJob_shape now run e :
  for_this_run run (se_RunNamespace e) (se_RunName e) (se_RunKind e) = true →
  (ApplySourceEventToBackupJob now run e).1
  = (setTransferConditions now e (transferPhase (se_Phase e))
       (run <| bj_Status ::= λ st,
          st <| bjs_Transfers := source_transfers now e (bjs_Transfers (bj_Status run)) |> |>)).1.
Proof.
  intros Hrun. unfold ApplySourceEventToBackupJob. rewrite Hrun. cbn [negb].
  unfold source_transfers, apply_to_transfer, source_id.
  destruct (update_first _ _ _) as [[ts1 ch1]|]; by destruct (setTransferConditions _ _ _ _).
Qed.

Lemma source_transfers_again now now' e ts :
  replayable e →
  update_first (source_id e) (apply_to_transfer now' e) (source_transfers now e ts)
  = Some (source_transfers now e ts, false).
Proof.
  intros He. unfold source_transfers.
  destruct (update_first (source_id e) (apply_to_transfer now e) ts) as [[ts1 ch1]|] eqn:Hu.
  - eapply update_first_again; [| |exact Hu]; intros t.
    + by apply updateTransfer_again.
    + apply apply_to_transfer_source.
  - apply update_first_None in Hu.
    rewrite update_first_app by (done || by apply apply_to_transfer_source).
    unfold apply_to_transfer. by rewrite updateTransfer_again.
Qed.

Lemma source_transfers_others now e ts :
  (NoDup (ts_Source <$> ts) → NoDup (ts_Source <$> source_transfers now e ts)) ∧
  (∀ t, ts_Source t ≠ source_id e → t ∈ source_transfers now e ts ↔ t ∈ ts) ∧
  source_id e ∈ ts_Source <$> source_transfers now e ts.
Proof.
  unfold source_transfers. pose proof (apply_to_transfer_source now e) as Hsrc.
  destruct (update_first (source_id e) _ ts) as [[ts1 ch1]|] eqn:Hu.
  - destruct (update_first_others _ _ _ _ _ Hsrc Hu) as [Hs Ho]. rewrite Hs.
    do 2 (split; [done|]). apply dec_stable. intros Hn.
    rewrite <-(update_first_None _ (apply_to_transfer now e)) in Hn. congruence.
  - apply update_first_None in Hu. rewrite fmap_app. cbn [fmap list_fmap]. rewrite Hsrc.
    change (ts_Source (new_transfer (source_id e))) with (source_id e).
    split_and!; [|intros t Hne|set_solver].
    + intros Hnd. apply NoDup_app. split; [done|]. split; [set_solver|]. apply NoDup_singleton.
    + rewrite elem_of_app, list_elem_of_singleton. split; [|by left].
      intros [?| ->]; [done|]. by rewrite Hsrc in Hne.
Qed.

(** ** Properties of source events *)

(** source events may be delivered more than once.  Applying to a backup
    job an event that was applied to it already changes nothing and asks for no
    write, whatever the clock says the second time. *)
Theorem ApplySourceEventToBackupJob_idempotent now now' run e :
  replayable e →
  let run' := (ApplySourceEventToBackupJob now run e).1 in
  ApplySourceEventToBackupJob now' run' e = (run', false).
Proof.
  intros He. cbn zeta.
  destruct (for_this_run run (se_RunNamespace e) (se_RunName e) (se_RunKind e)) eqn:Hrun.
  2:{ unfold ApplySourceEventToBackupJob at 2 3. rewrite Hrun. cbn [negb fst].
      unfold ApplySourceEventToBackupJob. by rewrite Hrun. }
  rewrite ApplySourceEventToBackupJob_shape by done.
  set (ts' := source_transfers now e _). set (run1 := run <| bj_Status ::= _ |>).
  set (phase := transferPhase (se_Phase e)).
  destruct (setTransferConditions_keeps now e phase run1) as (Ht & Hmeta & _).
  pose proof (setTransferConditions_again now now' e phase run1) as Hag.
  set (run' := (setTransferConditions now e phase run1).1) in *. clearbody run'.
  unfold ApplySourceEventToBackupJob.
  assert (for_this_run run' (se_RunNamespace e) (se_RunName e) (se_RunKind e) = true) as ->.
  { rewrite <-Hrun. unfold for_this_run. by rewrite Hmeta. }
  cbn [negb]. rewrite Ht. change (bjs_Transfers (bj_Status run1)) with ts'.
  pose proof (source_transfers_again now now' e (bjs_Transfers (bj_Status run)) He) as Hup.
  fold ts' in Hup. unfold source_id, apply_to_transfer in Hup. rewrite Hup. fold phase.
  assert (run' <| bj_Status ::= λ st, st <| bjs_Transfers := ts' |> |> = run') as ->.
  { destruct run' as [? ? []]. cbn in Ht. by subst. }
  by rewrite Hag.
Qed.

(** A source event changes the entry of its own source only.  The list of
    transfers keeps one entry per source, every other entry is kept as it was,
    the run's own phase is not touched, and afterwards there is an entry for
    the source of the event. *)
Theorem ApplySourceEventToBackupJob_isolated now run e :
  for_this_run run (se_RunNamespace e) (se_RunName e) (se_RunKind e) = true →
  let id := se_SourceNamespace e +:+ "/" +:+ se_SourceName e in
  let ts := bjs_Transfers (bj_Status run) in
  let run' := (ApplySourceEventToBackupJob now run e).1 in
  let ts' := bjs_Transfers (bj_Status run') in
  (NoDup (ts_Source <$> ts) → NoDup (ts_Source <$> ts')) ∧
  (∀ t, ts_Source t ≠ id → t ∈ ts' ↔ t ∈ ts) ∧ id ∈ ts_Source <$> ts' ∧
  bjs_Phase (bj_Status run') = bjs_Phase (bj_Status run).
Proof.
  intros Hrun. cbn zeta. rewrite ApplySourceEventToBackupJob_shape by done.
  set (run1 := run <| bj_Status ::= _ |>).
  destruct (setTransferConditions_keeps now e (transferPhase (se_Phase e)) run1) as (-> & _ & ->).
  destruct (source_transfers_others now e (bjs_Transfers (bj_Status run))) as (Hnd & Ho & Hin).
  done.
Qed.

(** Counters saturate.  A 64-bit unsigned counter of an event is stored as
    a signed number that is never negative, never larger than the counter, and
    the counter itself unless it exceeds the signed range. *)
Lemma uint64ToInt64_saturates n :
  0 ≤ n ≤ max_uint64 →
  0 ≤ uint64ToInt64 n ≤ max_int64 ∧ uint64ToInt64 n = Z.min n max_int64.
Proof. unfold uint64ToInt64, max_uint64, max_int64. intros. case_decide; lia. Qed.

(** ** Lemmas on target events *)

Lemma assign_status_eq {A} `{EqDecision A} (f : BackupJobStatus → A) `{!Setter f} cond v run ch :
  (∀ x : BackupJobStatus, x <| f := f x |> = x) →
  (assign_status f cond v (run, ch)).1
  = run <| bj_Status ::= λ st, st <| f := if cond then v else f st |> |>.
Proof.
  intros Hid. unfold assign_status. cbn [fst snd]. rewrite assign_eq by done. by destruct run.
Qed.

(** The fields of the status that the phase table is about. *)
Definition phases (run : BackupJob) : string * option Time * string :=
  (bjs_Phase (bj_Status run), bjs_CompletedAt (bj_Status run), bjs_TargetPhase (bj_Status run)).

Lemma phases_set_job_condition now ty st reason msg rc :
  phases (set_job_condition now ty st reason msg rc).1 = phases rc.1.
Proof. destruct rc. by rewrite set_job_condition_shape. Qed.

Lemma phases_assign_snapshot cond v rc :
  phases (assign_status bjs_SnapshotPath cond v rc).1 = phases rc.1.
Proof. destruct rc. rewrite assign_status_eq by (by intros []). done. Qed.

Lemma phases_assign_phase cond v rc :
  phases (assign_status bjs_Phase cond v rc).1 =
  (if cond then v else (phases rc.1).1.1, (phases rc.1).1.2, (phases rc.1).2).
Proof. destruct rc. rewrite assign_status_eq by (by intros []). done. Qed.

Lemma phases_assign_target v rc :
  phases (assign_status bjs_TargetPhase true v rc).1 = ((phases rc.1).1.1, (phases rc.1).1.2, v).
Proof. destruct rc. rewrite assign_status_eq by (by intros []). done. Qed.

Lemma phases_complete now ph rc :
  phases (complete_phase now ph rc).1 =
  (ph, if decide ((phases rc.1).1.1 = ph) then (phases rc.1).1.2 else Some now, (phases rc.1).2).
Proof.
  unfold complete_phase, phases. cbn [fst snd].
  destruct (decide (bjs_Phase (bj_Status rc.1) = ph)) as [Heq|Hne].
  - rewrite decide_False by naive_solver. by rewrite Heq.
  - by rewrite decide_True.
Qed.

(** ** Properties of target events *)

(** how a target event moves the phase of a run.  Only four phases of the
    target have an effect: [Ready] starts a run that is preparing or new,
    [Finalizing], [Completed] and [Failed] set the run's phase from any phase
    (also from a final one), and the completion time is stamped exactly when a
    final phase is entered. *)
Theorem ApplyTargetEventToBackupJob_phase now run e :
  for_this_run run (te_RunNamespace e) (te_RunName e) (te_RunKind e) = true →
  let old := bjs_Phase (bj_Status run) in
  let completed := bjs_CompletedAt (bj_Status run) in
  phases (ApplyTargetEventToBackupJob now run e).1 =
  (if decide (te_Phase e = "Ready")
   then (if decide (old = RunPhasePreparing ∨ old = "") then RunPhaseRunning else old, completed)
   else if decide (te_Phase e = "Finalizing") then (RunPhaseFinalizing, completed)
   else if decide (te_Phase e = "Completed")
   then (RunPhaseSucceeded, if decide (old = RunPhaseSucceeded) then completed else Some now)
   else if decide (te_Phase e = "Failed")
   then (RunPhaseFailed, if decide (old = RunPhaseFailed) then completed else Some now)
   else (old, completed), te_Phase e).
Proof.
  intros Hrun. cbn zeta. unfold ApplyTargetEventToBackupJob. rewrite Hrun. cbn [negb].
  pose proof (phases_assign_target (te_Phase e) (run, false)) as Hrc. cbn [fst] in Hrc.
  set (rc := assign_status bjs_TargetPhase _ _ _) in *.
  assert (bjs_Phase (bj_Status rc.1) = bjs_Phase (bj_Status run)) as Hph by (by injection Hrc).
  repeat destruct (decide (te_Phase e = _));
    rewrite ?phases_set_job_condition, ?phases_assign_snapshot, ?phases_set_job_condition,
      ?phases_complete, ?phases_assign_phase, ?Hrc, ?Hph; cbn; try done.
  destruct (decide (bjs_Phase (bj_Status run) = RunPhasePreparing ∨ _)) as [Hp|Hp].
  - by rewrite bool_decide_true.
  - by rewrite bool_decide_false.
Qed.

(** ** Witnesses *)

Definition sample_job : BackupJob :=
  MkBackupJob ((inhabitant : ObjectMeta) <| om_Namespace := "backup" |> <| om_Name := "nightly" |>)
    inhabitant
    ((inhabitant : BackupJobStatus)
       <| bjs_Phase := RunPhaseRunning |>
       <| bjs_Transfers := [new_transfer "media/photos"; new_transfer "apps/db"] |>).

Definition sample_source_event : SourceEvent :=
  (inhabitant : SourceEvent)
    <| se_RunNamespace := "backup" |> <| se_RunName := "nightly" |> <| se_RunKind := "backup" |>
    <| se_SourceNamespace := "apps" |> <| se_SourceName := "db" |> <| se_Phase := "Succeeded" |>
    <| se_BytesTransferred := 2 ^ 63 + 5 |> <| se_CompletedAt := "2024-05-01T10:00:00Z" |>
    <| se_Speedup := S754_finite false 1 0 |>.

Definition sample_target_event : TargetEvent :=
  (inhabitant : TargetEvent)
    <| te_RunNamespace := "backup" |> <| te_RunName := "nightly" |> <| te_RunKind := "backup" |>
    <| te_Phase := "Completed" |> <| te_Snapshot := "hourly/2024-05-01T10-00-00Z" |>.

Lemma ApplySourceEventToBackupJob_idempotent_witness :
  let run' := (ApplySourceEventToBackupJob 17 sample_job sample_source_event).1 in
  (ts_BytesTransferred <$> bjs_Transfers (bj_Status run')) = [0; 2 ^ 63 - 1] ∧
  ApplySourceEventToBackupJob 42 run' sample_source_event = (run', false).
Proof.
  split; [vm_compute; reflexivity|].
  apply (ApplySourceEventToBackupJob_idempotent 17 42 sample_job sample_source_event).
  apply (bool_decide_unpack _). by vm_compute.
Defined.

Lemma ApplySourceEventToBackupJob_isolated_witness :
  bjs_Phase (bj_Status (ApplySourceEventToBackupJob 17 sample_job sample_source_event).1)
  = RunPhaseRunning.
Proof.
  refine (proj2 (proj2 (proj2 (ApplySourceEventToBackupJob_isolated 17 sample_job
    sample_source_event _)))).
  by vm_compute.
Defined.

Lemma ApplyTargetEventToBackupJob_phase_witness :
  phases (ApplyTargetEventToBackupJob 17 sample_job sample_target_event).1
  = (RunPhaseSucceeded, Some 17, "Completed").
Proof.
  rewrite (ApplyTargetEventToBackupJob_phase 17 sample_job sample_target_event);
    [vm_compute; reflexivity|by vm_compute].
Defined.

(** A final phase is not protected: a late [Finalizing] report reopens a run
    that has already succeeded and been stamped complete. *)
Lemma late_finalizing_reopens_run :
  let done_run := (ApplyTargetEventToBackupJob 17 sample_job sample_target_event).1 in
  phases (ApplyTargetEventToBackupJob 18 done_run
            (sample_target_event <| te_Phase := "Finalizing" |>)).1
  = (RunPhaseFinalizing, Some 17, "Finalizing").
Proof. vm_compute. reflexivity. Qed.
