(* ===== verification/FileSys.v ===== *)
(** * The file system of the target volume

    What the data plane uses of packages [os], [io/fs] and [path/filepath]: a
    tree of directories, files with inode numbers (so that hard links share
    content), symbolic links and other nodes, stored as a map from absolute
    segment lists to nodes.  Paths are resolved component by component, with at
    most forty symbolic links, as Linux does.

    Operations run in a state and error monad.  A list of injected faults
    decides which system calls fail, so that error paths are values: the n-th
    call fails when the n-th fault is present, and no fault means the calls
    succeed as far as the tree allows.  Modification times and the free space
    of the volume are inputs of the model.  Permissions are not modelled. *)
From S2P Require Export Paths.
From stdpp Require Import options.
From Stdlib Require Import Ascii.

(** ** The world *)

Inductive node :=
  | Dir
  | File (ino : nat)
  | Symlink (target : string)
  | Other.

#[export] Instance node_eq_dec : EqDecision node.
Proof. solve_decision. Defined.

Notation fpath := (list string) (only parsing).

(** A failing call: its error, and, for a recursive removal, what survives. *)
Record fault := MkFault { f_err : goerr; f_keep : list fpath }.

Record world := MkWorld {
  w_nodes : gmap fpath node;
  w_data : gmap nat string;
  w_next_ino : nat;
  w_cwd : fpath;
  w_faults : list (option fault);
  w_mtime : fpath → Z;
  w_statfs : gmap fpath node → Z * Z
}.

#[export] Instance world_eta : Eta world := λ r,
  MkWorld (w_nodes r) (w_data r) (w_next_ino r) (w_cwd r) (w_faults r) (w_mtime r) (w_statfs r).

(** ** The monad *)

Definition M (A : Type) : Type := world → result A * world.

#[export] Instance M_ret : MRet M := λ A a w, (Ok a, w).
#[export] Instance M_bind : MBind M := λ A B f m w,
  match m w with
  | (Ok a, w) => f a w
  | (Err e, w) => (Err e, w)
  end.

Definition throw {A} (e : goerr) : M A := λ w, (Err e, w).
Definition lift {A} (r : result A) : M A := λ w, (r, w).

(** The result of a call as a value: [v, err := f()]. *)
Definition try {A} (m : M A) : M (result A) := λ w, let '(r, w) := m w in (Ok r, w).

(** [if err := f(); err != nil { return wrap(err) }] *)
Definition on_err {A} (f : goerr → goerr) (m : M A) : M A := λ w,
  let '(r, w) := m w in (map_err f r, w).

Fixpoint for_eachM {A} (f : A → M unit) (xs : list A) : M unit :=
  match xs with
  | [] => mret tt
  | x :: xs => _ ← f x; for_eachM f xs
  end.

(** A system call: it consumes one fault. *)
Definition sys {A} (on_fault : fault → M A) (f : M A) : M A := λ w,
  match w_faults w with
  | [] => f w
  | None :: fs => f (w <| w_faults := fs |>)
  | Some ft :: fs => on_fault ft (w <| w_faults := fs |>)
  end.

Definition syscall {A} (f : M A) : M A := sys (λ ft, throw (f_err ft)) f.

(** ** Path resolution *)

(** The components of a path string, from the root. *)
Definition segs_of (w : world) (p : string) : fpath :=
  (if IsAbs p then [] else w_cwd w) ++ kept_segs p.

Definition target_segs (cur : fpath) (t : string) : fpath * fpath :=
  (if IsAbs t then [] else cur, kept_segs t).

(** Walks [rest] from the directory [cur]; the result is the canonical path of
    an existing node.  [links] bounds the symbolic links followed. *)
Fixpoint walk (links : nat) (m : gmap fpath node) (follow : bool) : fpath → fpath → result fpath :=
  fix go (cur rest : fpath) {struct rest} : result fpath :=
    match rest with
    | [] => Ok cur
    | s :: rest' =>
        if decide (s = "..") then go (take (length cur - 1) cur) rest'
        else
          match m !! (cur ++ [s]) with
          | None => Err (ErrSys KNotExist "no such file or directory")
          | Some Dir => go (cur ++ [s]) rest'
          | Some (Symlink t) =>
              if decide (rest' = [] ∧ follow = false) then Ok (cur ++ [s])
              else match links with
                   | O => Err (ErrSys KLoop "too many levels of symbolic links")
                   | S links =>
                       let '(start, segs) := target_segs cur t in
                       walk links m follow start (segs ++ rest')
                   end
          | Some _ => if decide (rest' = []) then Ok (cur ++ [s])
                      else Err (ErrSys KNotDir "not a directory")
          end
    end.

Definition max_links : nat := 40.

Definition resolve (w : world) (follow : bool) (p : fpath) : result fpath :=
  walk max_links (w_nodes w) follow [] p.

(** The parent directory, resolved, and the last component. *)
Definition resolve_parent (w : world) (p : fpath) : result (fpath * string) :=
  match last p with
  | None => Err (ErrSys KExist "file exists")
  | Some name =>
      if decide (name = "..") then Err (ErrSys KInvalid "invalid argument")
      else
        d ← resolve w true (take (length p - 1) p);
        match w_nodes w !! d with
        | Some Dir => Ok (d, name)
        | Some _ => Err (ErrSys KNotDir "not a directory")
        | None => Err (ErrSys KNotExist "no such file or directory")
        end
  end.

(** ** Calls *)

Definition path_err (op p : string) (e : goerr) : goerr := wrap (op +:+ " " +:+ p +:+ ": ") e.

(** The node a call looks at, and its canonical path. *)
Definition look (w : world) (follow : bool) (p : fpath) : result (fpath * node) :=
  q ← resolve w follow p;
  match w_nodes w !! q with
  | Some n => Ok (q, n)
  | None => Err (ErrSys KNotExist "no such file or directory")
  end.

Definition Stat (p : string) : M node := on_err (path_err "stat" p) (syscall (λ w,
  (snd <$> look w true (segs_of w p), w))).

Definition Lstat (p : string) : M node := on_err (path_err "lstat" p) (syscall (λ w,
  (snd <$> look w false (segs_of w p), w))).

Definition Readlink (p : string) : M string := on_err (path_err "readlink" p) (syscall (λ w,
  (qn ← look w false (segs_of w p);
   match snd qn with
   | Symlink t => Ok t
   | _ => Err (ErrSys KInvalid "invalid argument")
   end, w))).

(** The names in a directory. *)
Definition child_of (d : fpath) (q : fpath) : option string :=
  match last q with
  | Some x => if decide (q = d ++ [x]) then Some x else None
  | None => None
  end.

Definition children (m : gmap fpath node) (d : fpath) : list string :=
  omap (child_of d) (map_to_list m).*1.

(** [os.ReadDir]: the entries sorted by name; the entry of a symbolic link is
    not a directory. *)
Definition dir_entries (m : gmap fpath node) (d : fpath) : list (string * node) :=
  omap (λ x, n ← m !! (d ++ [x]); Some (x, n)) (sort_Strings (children m d)).

Definition ReadDir (p : string) : M (list (string * node)) := on_err (path_err "open" p)
  (syscall (λ w,
    (qn ← look w true (segs_of w p);
     match snd qn with
     | Dir => Ok (dir_entries (w_nodes w) (fst qn))
     | _ => Err (ErrSys KNotDir "not a directory")
     end, w))).

(** Creates a node that must not exist yet. *)
Definition create_node (p : fpath) (n : node) : M unit := λ w,
  match resolve_parent w p with
  | Err e => (Err e, w)
  | Ok (d, name) =>
      if decide (is_Some (w_nodes w !! (d ++ [name])))
      then (Err (ErrSys KExist "file exists"), w)
      else (Ok tt, w <| w_nodes ::= <[d ++ [name] := n]> |>)
  end.

Definition at_path {A} (p : string) (f : fpath → M A) : M A := λ w, f (segs_of w p) w.

Definition mkdir (p : fpath) : M unit := syscall (create_node p Dir).

(** [os.MkdirAll] on the components in reverse order. *)
Fixpoint mkdir_all (rev_p : fpath) : M unit := λ w,
  let p := reverse rev_p in
  match syscall (λ w, (snd <$> look w true p, w)) w with
  | (Ok Dir, w) => (Ok tt, w)
  | (Ok _, w) => (Err (ErrSys KNotDir "not a directory"), w)
  | (Err e, w) =>
      match rev_p with
      | [] => (Err e, w)
      | _ :: rev_parent =>
          match mkdir_all rev_parent w with
          | (Err e, w) => (Err e, w)
          | (Ok _, w) =>
              match mkdir p w with
              | (Ok _, w) => (Ok tt, w)
              | (Err e, w) =>
                  (* another process may have created it *)
                  match syscall (λ w, (snd <$> look w false p, w)) w with
                  | (Ok Dir, w) => (Ok tt, w)
                  | (_, w) => (Err e, w)
                  end
              end
          end
      end
  end.

Definition MkdirAll (p : string) : M unit :=
  on_err (path_err "mkdir" p) (at_path p (λ q, mkdir_all (reverse q))).

Definition os_Symlink (target p : string) : M unit :=
  on_err (path_err ("symlink " +:+ target) p)
    (syscall (at_path p (λ q, create_node q (Symlink target)))).

(** [os.Link]: the new name gets the inode of the old one. *)
Definition os_Link (old new : string) : M unit :=
  on_err (path_err ("link " +:+ old) new) (syscall (λ w,
    match look w false (segs_of w old) with
    | Err e => (Err e, w)
    | Ok (_, Dir) => (Err (ErrSys KIsDir "operation not permitted"), w)
    | Ok (_, n) => create_node (segs_of w new) n w
    end)).

(** The nodes at or below a path. *)
Definition below (p : fpath) (q : fpath) : Prop := p `prefix_of` q.
#[export] Instance below_dec p q : Decision (below p q).
Proof. unfold below. apply _. Defined.

Definition remove_below (p : fpath) (m : gmap fpath node) : gmap fpath node :=
  filter (λ qn, ¬ below p qn.1) m.

Definition remove_except (p : fpath) (keep : list fpath) (m : gmap fpath node) : gmap fpath node :=
  filter (λ qn, ¬ below p qn.1 ∨ Exists (λ k, qn.1 `prefix_of` p ++ k) keep) m.

(** [os.RemoveAll]: removes what is at the path and below it, without
    following a symbolic link at the path itself; a missing path is fine. *)
Definition remove_all (p : fpath) : M unit := λ w,
  match resolve_parent w p with
  | Err e => (if errors_is KNotExist e then Ok tt else Err e, w)
  | Ok (d, name) => (Ok tt, w <| w_nodes ::= remove_below (d ++ [name]) |>)
  end.

(** A removal that fails half-way keeps some of the nodes. *)
Definition remove_partly (ft : fault) (p : fpath) : M unit := λ w,
  match resolve_parent w p with
  | Err _ => (Err (f_err ft), w)
  | Ok (d, name) =>
      (Err (f_err ft), w <| w_nodes ::= remove_except (d ++ [name]) (f_keep ft) |>)
  end.

Definition RemoveAll (p : string) : M unit :=
  on_err (path_err "unlinkat" p)
    (sys (λ ft, at_path p (remove_partly ft)) (at_path p remove_all)).

(** [os.Remove]: one node, a directory only when it is empty. *)
Definition Remove (p : string) : M unit := on_err (path_err "remove" p) (syscall (λ w,
  match look w false (segs_of w p) with
  | Err e => (Err e, w)
  | Ok (q, Dir) =>
      if decide (children (w_nodes w) q = [])
      then (Ok tt, w <| w_nodes ::= delete q |>)
      else (Err (ErrSys KNotEmpty "directory not empty"), w)
  | Ok (q, _) => (Ok tt, w <| w_nodes ::= delete q |>)
  end)).

Definition rekey (old new : fpath) (q : fpath) : fpath :=
  if decide (below old q) then new ++ drop (length old) q else q.

Definition rename_nodes (old new : fpath) (m : gmap fpath node) : gmap fpath node :=
  list_to_map ((λ qn, (rekey old new qn.1, qn.2)) <$> map_to_list (remove_below new m)).

(** [os.Rename]: an existing directory is never replaced. *)
Definition Rename (old new : string) : M unit :=
  on_err (path_err ("rename " +:+ old) new) (syscall (λ w,
    match look w false (segs_of w old), resolve_parent w (segs_of w new) with
    | Err e, _ => (Err e, w)
    | _, Err e => (Err e, w)
    | Ok (q, n), Ok (d, name) =>
        let dst := d ++ [name] in
        match w_nodes w !! dst with
        | Some Dir => (Err (ErrSys KExist "file exists"), w)
        | Some _ =>
            if decide (n = Dir) then (Err (ErrSys KNotDir "not a directory"), w)
            else if decide (q = dst) then (Ok tt, w)
            else (Ok tt, w <| w_nodes ::= rename_nodes q dst |>)
        | None =>
            if decide (below q dst) then (Err (ErrSys KInvalid "invalid argument"), w)
            else (Ok tt, w <| w_nodes ::= rename_nodes q dst |>)
        end
    end)).

(** Exclusive creation of an empty file; the result is its inode. *)
Definition OpenExcl (p : string) : M nat := on_err (path_err "open" p) (syscall (λ w,
  match create_node (segs_of w p) (File (w_next_ino w)) w with
  | (Ok _, w') =>
      (Ok (w_next_ino w), w' <| w_data ::= <[w_next_ino w := ""]> |> <| w_next_ino ::= S |>)
  | (Err e, w') => (Err e, w')
  end)).

Definition WriteFile (ino : nat) (data : string) : M unit := syscall (λ w,
  (Ok tt, w <| w_data ::= <[ino := data]> |>)).

Definition ReadFile (p : string) : M string := on_err (path_err "open" p) (syscall (λ w,
  (qn ← look w true (segs_of w p);
   match snd qn with
   | File i => Ok (default "" (w_data w !! i))
   | _ => Err (ErrSys KIsDir "is a directory")
   end, w))).

(** [filepath.Abs] *)
Definition Abs (p : string) : M string := λ w,
  (Ok (if IsAbs p then Clean p else path_Join ["/" +:+ strings_Join (w_cwd w) "/"; p]), w).

(** [syscall.Statfs]: free blocks and block size. *)
Definition Statfs (p : string) : M (Z * Z) := syscall (λ w,
  match look w true (segs_of w p) with
  | Err e => (Err e, w)
  | Ok _ => (Ok (w_statfs w (w_nodes w)), w)
  end).

Definition IsDir (n : node) : bool := bool_decide (n = Dir).

(** ** Well-formed trees *)

(** The root is a directory, the parent of every node is a directory, and
    every component is a file name. *)
Record wf_tree (m : gmap fpath node) : Prop := {
  wf_root : m !! [] = Some Dir;
  wf_parent : ∀ p x n, m !! (p ++ [x]) = Some n → m !! p = Some Dir;
  wf_names : ∀ p n, m !! p = Some n → Forall plain_seg p
}.

(** A world in which no call fails by itself. *)
Definition calm (w : world) : Prop := w_faults w = [].

Lemma wf_ancestor m p q n : wf_tree m → m !! (p ++ q) = Some n → q ≠ [] → m !! p = Some Dir.
Proof.
  intros Hwf. revert n. induction q as [|x q IH] using rev_ind; intros n Hn Hq; [done|].
  rewrite (assoc_L (++)) in Hn. apply (wf_parent m Hwf) in Hn.
  destruct (decide (q = [])) as [->|Hne]; [by rewrite (right_id_L [] (++)) in Hn|eauto].
Qed.

Lemma wf_below_None m p q : wf_tree m → m !! p = None → m !! (p ++ q) = None.
Proof.
  intros Hwf Hp. destruct (decide (q = [])) as [->|Hq]; [by rewrite (right_id_L [] (++))|].
  destruct (m !! (p ++ q)) as [n|] eqn:Hn; [|done].
  by rewrite (wf_ancestor m p q n Hwf Hn Hq) in Hp.
Qed.

Lemma wf_below_nondir m p q n :
  wf_tree m → m !! p = Some n → n ≠ Dir → q ≠ [] → m !! (p ++ q) = None.
Proof.
  intros Hwf Hp Hn Hq. destruct (m !! (p ++ q)) as [n'|] eqn:Hn'; [|done].
  rewrite (wf_ancestor m p q n' Hwf Hn' Hq) in Hp. congruence.
Qed.

Lemma plain_not_dotdot p : Forall plain_seg p → ".." ∉ p.
Proof. intros H Hin. eapply Forall_forall in H; [|done]. by destruct H as (_&_&?&_). Qed.

(** ** Resolution in a well-formed tree *)

(** A fold of [walk] over directories. *)
Lemma walk_go links m follow cur rest :
  walk links m follow cur rest =
  match rest with
  | [] => Ok cur
  | s :: rest' =>
      if decide (s = "..") then walk links m follow (take (length cur - 1) cur) rest'
      else
        match m !! (cur ++ [s]) with
        | None => Err (ErrSys KNotExist "no such file or directory")
        | Some Dir => walk links m follow (cur ++ [s]) rest'
        | Some (Symlink t) =>
            if decide (rest' = [] ∧ follow = false) then Ok (cur ++ [s])
            else match links with
                 | O => Err (ErrSys KLoop "too many levels of symbolic links")
                 | S links =>
                     let '(start, segs) := target_segs cur t in
                     walk links m follow start (segs ++ rest')
                 end
        | Some _ => if decide (rest' = []) then Ok (cur ++ [s])
                    else Err (ErrSys KNotDir "not a directory")
        end
  end.
Proof. destruct links, rest; reflexivity. Qed.

Lemma walk_app links m follow cur p rest :
  ".." ∉ p → (∀ k, (k ≤ length p)%nat → m !! (cur ++ take k p) = Some Dir) →
  walk links m follow cur (p ++ rest) = walk links m follow (cur ++ p) rest.
Proof.
  revert cur. induction p as [|s p IH]; intros cur Hd Hm; [by rewrite (right_id_L [] (++))|].
  rewrite not_elem_of_cons in Hd. cbn [app]. rewrite walk_go. rewrite decide_False by naive_solver.
  specialize (Hm 1%nat ltac:(cbn; lia)) as H1. cbn in H1. rewrite take_0 in H1. rewrite H1.
  rewrite IH; [by rewrite <-(assoc_L (++))|naive_solver|].
  intros k Hk. rewrite <-(assoc_L (++)). apply (Hm (S k)). cbn. lia.
Qed.

Lemma wf_prefix_dirs m p : wf_tree m → m !! p = Some Dir →
  ∀ k, (k ≤ length p)%nat → m !! take k p = Some Dir.
Proof.
  intros Hwf Hp k Hk. destruct (decide (drop k p = [])) as [Hd|Hd].
  - by rewrite <-(take_drop k p), Hd, (right_id_L [] (++)) in Hp.
  - eapply wf_ancestor; [done| |exact Hd]. by rewrite take_drop.
Qed.

Lemma resolve_from_dir w follow p rest :
  wf_tree (w_nodes w) → w_nodes w !! p = Some Dir →
  resolve w follow (p ++ rest) = walk max_links (w_nodes w) follow p rest.
Proof.
  intros Hwf Hp. unfold resolve. rewrite walk_app; [done| |].
  - apply plain_not_dotdot. by eapply wf_names.
  - intros k Hk. by apply wf_prefix_dirs.
Qed.

Lemma resolve_dir w follow p :
  wf_tree (w_nodes w) → w_nodes w !! p = Some Dir → resolve w follow p = Ok p.
Proof.
  intros Hwf Hp. rewrite <-(right_id_L [] (++) p) at 1. rewrite resolve_from_dir by done.
  by rewrite walk_go.
Qed.

Lemma resolve_node w follow p n :
  wf_tree (w_nodes w) → w_nodes w !! p = Some n → (∀ t, n = Symlink t → follow = false) →
  resolve w follow p = Ok p.
Proof.
  intros Hwf Hp Hf. destruct (decide (n = Dir)) as [->|Hn]; [by apply resolve_dir|].
  destruct p as [|x p _] using rev_ind; [pose proof (wf_root _ Hwf); congruence|].
  rewrite resolve_from_dir by (done || by eapply wf_parent).
  rewrite walk_go. rewrite decide_False.
  - rewrite Hp. destruct n; [done|by rewrite decide_True| |by rewrite decide_True].
    rewrite decide_True; [done|]. naive_solver.
  - intros ->. eapply (plain_not_dotdot (p ++ [".."])); [by eapply wf_names|]. set_solver.
Qed.

Lemma resolve_missing w follow p x rest :
  wf_tree (w_nodes w) → w_nodes w !! p = Some Dir → x ≠ ".." → w_nodes w !! (p ++ [x]) = None →
  resolve w follow (p ++ x :: rest) = Err (ErrSys KNotExist "no such file or directory").
Proof.
  intros Hwf Hp Hx Hn. rewrite resolve_from_dir by done. rewrite walk_go.
  rewrite decide_False by done. by rewrite Hn.
Qed.

Lemma look_node w follow p n :
  wf_tree (w_nodes w) → w_nodes w !! p = Some n → (∀ t, n = Symlink t → follow = false) →
  look w follow p = Ok (p, n).
Proof.
  intros Hwf Hp Hf. unfold look. rewrite (resolve_node w follow p n) by done. cbn. by rewrite Hp.
Qed.

Lemma look_missing w follow p x rest :
  wf_tree (w_nodes w) → w_nodes w !! p = Some Dir → x ≠ ".." → w_nodes w !! (p ++ [x]) = None →
  look w follow (p ++ x :: rest) = Err (ErrSys KNotExist "no such file or directory").
Proof. intros. unfold look. by rewrite (resolve_missing w follow p x rest). Qed.

Lemma resolve_parent_dir w d x :
  wf_tree (w_nodes w) → w_nodes w !! d = Some Dir → x ≠ ".." →
  resolve_parent w (d ++ [x]) = Ok (d, x).
Proof.
  intros Hwf Hd Hx. unfold resolve_parent. rewrite last_snoc. rewrite decide_False by done.
  rewrite length_app, Nat.add_sub, take_app_length. rewrite resolve_dir by done. cbn.
  by rewrite Hd.
Qed.

(** ** Path strings *)

Lemma segs_of_abs w l : Forall plain_seg l → segs_of w ("/" +:+ strings_Join l "/") = l.
Proof.
  intros Hl. unfold segs_of. assert (IsAbs ("/" +:+ strings_Join l "/") = true) as ->
    by apply (HasPrefix_app "/").
  cbn [app]. by apply rel_segs_abs.
Qed.

(** The string of an absolute path. *)
Definition abs_str (l : fpath) : string := "/" +:+ strings_Join l "/".

Lemma segs_of_abs_str w l : Forall plain_seg l → segs_of w (abs_str l) = l.
Proof. apply segs_of_abs. Qed.

Lemma clean_root_abs_str l : Forall plain_seg l → clean_root (abs_str l) l.
Proof. done. Qed.

Lemma path_Join_abs_str l segs :
  Forall plain_seg l → segs ≠ [] → Forall plain_seg segs →
  path_Join [abs_str l; strings_Join segs "/"] = abs_str (l ++ segs).
Proof. intros. by apply (path_Join_root (abs_str l) l). Qed.

Lemma path_Join_abs_str_1 l x :
  Forall plain_seg l → plain_seg x → path_Join [abs_str l; x] = abs_str (l ++ [x]).
Proof. intros. apply (path_Join_abs_str l [x]); [done|done|by apply Forall_singleton]. Qed.

Lemma path_Join_rel l x :
  l ≠ [] → Forall plain_seg l → plain_seg x →
  path_Join [strings_Join l "/"; x] = strings_Join (l ++ [x]) "/".
Proof.
  intros Hn Hl Hx. rewrite path_Join_2 by (by apply Join_plain_nonempty || by apply plain_seg_nil_app).
  rewrite <-(Join_app l [x]) by done. apply Clean_plain; [by destruct l|].
  apply Forall_app. split; [done|]. by apply Forall_singleton.
Qed.

Lemma Abs_abs_str l w : Forall plain_seg l → Abs (abs_str l) w = (Ok (abs_str l), w).
Proof.
  intros Hl. unfold Abs. assert (IsAbs (abs_str l) = true) as -> by apply (HasPrefix_app "/").
  unfold abs_str. by rewrite Clean_plain_abs.
Qed.

(** ** Running a program *)

Lemma run_bind {A B} (m : M A) (f : A → M B) w a w' :
  m w = (Ok a, w') → (m ≫= f) w = f a w'.
Proof. intros Hm. unfold mbind, M_bind. by rewrite Hm. Qed.

Lemma run_bind_err {A B} (m : M A) (f : A → M B) w e w' :
  m w = (Err e, w') → (m ≫= f) w = (Err e, w').
Proof. intros Hm. unfold mbind, M_bind. by rewrite Hm. Qed.

Lemma run_try {A B} (m : M A) (f : result A → M B) w r w' :
  m w = (r, w') → (try m ≫= f) w = f r w'.
Proof. intros Hm. apply run_bind. unfold try. by rewrite Hm. Qed.

Lemma run_on_err {A} g (m : M A) w a w' : m w = (Ok a, w') → on_err g m w = (Ok a, w').
Proof. intros Hm. unfold on_err. by rewrite Hm. Qed.

Lemma run_lift {A B} (r : result A) (f : A → M B) w a :
  r = Ok a → (lift r ≫= f) w = f a w.
Proof. intros ->. done. Qed.

(** ** Calls in a calm, well-formed world *)

Lemma syscall_calm {A} (f : M A) w : calm w → syscall f w = f w.
Proof. intros Hc. unfold syscall, sys. by rewrite Hc. Qed.

Lemma sys_calm {A} (g : fault → M A) (f : M A) w : calm w → sys g f w = f w.
Proof. intros Hc. unfold sys. by rewrite Hc. Qed.

Definition set_nodes (m : gmap fpath node) (w : world) : world := w <| w_nodes := m |>.

Lemma set_nodes_nodes m w : w_nodes (set_nodes m w) = m.
Proof. done. Qed.
Lemma set_nodes_calm m w : calm w → calm (set_nodes m w).
Proof. done. Qed.
Lemma set_nodes_set_nodes m1 m2 w : set_nodes m1 (set_nodes m2 w) = set_nodes m1 w.
Proof. by destruct w. Qed.
Lemma set_nodes_id w : set_nodes (w_nodes w) w = w.
Proof. by destruct w. Qed.

Section calm.
Context (w : world) (Hc : calm w) (Hwf : wf_tree (w_nodes w)).

Lemma Stat_node p n :
  w_nodes w !! p = Some n → (∀ t, n ≠ Symlink t) → Stat (abs_str p) w = (Ok n, w).
Proof using Type*.
  intros Hp Hn. unfold Stat, on_err. rewrite syscall_calm by done.
  rewrite segs_of_abs_str by (by eapply wf_names).
  rewrite (look_node w true p n); [done..|]. intros t ->. by destruct (Hn t).
Qed.

Lemma Stat_missing p x rest :
  w_nodes w !! p = Some Dir → Forall plain_seg (x :: rest) → w_nodes w !! (p ++ [x]) = None →
  ∃ e, Stat (abs_str (p ++ x :: rest)) w = (Err e, w) ∧ errors_is KNotExist e = true.
Proof using Type*.
  intros Hp Hx Hn. unfold Stat, on_err. rewrite syscall_calm by done.
  rewrite segs_of_abs_str by (apply Forall_app; split; [by eapply wf_names|done]).
  apply Forall_cons in Hx as [(_ & _ & ? & _) _].
  rewrite (look_missing w true p x rest) by done. cbn. eauto.
Qed.

Lemma Lstat_node p n : w_nodes w !! p = Some n → Lstat (abs_str p) w = (Ok n, w).
Proof using Type*.
  intros Hp. unfold Lstat, on_err. rewrite syscall_calm by done.
  rewrite segs_of_abs_str by (by eapply wf_names). by rewrite (look_node w false p n).
Qed.

Lemma Lstat_missing p x :
  w_nodes w !! p = Some Dir → plain_seg x → w_nodes w !! (p ++ [x]) = None →
  ∃ e, Lstat (abs_str (p ++ [x])) w = (Err e, w) ∧ errors_is KNotExist e = true.
Proof using Type*.
  intros Hp Hx Hn. unfold Lstat, on_err. rewrite syscall_calm by done.
  rewrite segs_of_abs_str
    by (apply Forall_app; split; [by eapply wf_names|by apply Forall_singleton]).
  destruct Hx as (_ & _ & ? & _). rewrite (look_missing w false p x []) by done. cbn. eauto.
Qed.

Lemma Readlink_node p t : w_nodes w !! p = Some (Symlink t) → Readlink (abs_str p) w = (Ok t, w).
Proof using Type*.
  intros Hp. unfold Readlink, on_err. rewrite syscall_calm by done.
  rewrite segs_of_abs_str by (by eapply wf_names). by rewrite (look_node w false p (Symlink t)).
Qed.

Lemma ReadDir_node p :
  w_nodes w !! p = Some Dir → ReadDir (abs_str p) w = (Ok (dir_entries (w_nodes w) p), w).
Proof using Type*.
  intros Hp. unfold ReadDir, on_err. rewrite syscall_calm by done.
  rewrite segs_of_abs_str by (by eapply wf_names). by rewrite (look_node w true p Dir).
Qed.

Lemma ReadDir_missing p x :
  w_nodes w !! p = Some Dir → plain_seg x → w_nodes w !! (p ++ [x]) = None →
  ∃ e, ReadDir (abs_str (p ++ [x])) w = (Err e, w) ∧ errors_is KNotExist e = true.
Proof using Type*.
  intros Hp Hx Hn. unfold ReadDir, on_err. rewrite syscall_calm by done.
  rewrite segs_of_abs_str
    by (apply Forall_app; split; [by eapply wf_names|by apply Forall_singleton]).
  destruct Hx as (_ & _ & ? & _). rewrite (look_missing w true p x []) by done. cbn. eauto.
Qed.

Lemma segs_of_child p x :
  w_nodes w !! p = Some Dir → plain_seg x → segs_of w (abs_str (p ++ [x])) = p ++ [x].
Proof using Hwf.
  intros Hp Hx. apply segs_of_abs_str. apply Forall_app.
  split; [by eapply wf_names|by apply Forall_singleton].
Qed.

Lemma RemoveAll_child p x :
  w_nodes w !! p = Some Dir → plain_seg x →
  RemoveAll (abs_str (p ++ [x])) w = (Ok tt, set_nodes (remove_below (p ++ [x]) (w_nodes w)) w).
Proof using Type*.
  intros Hp Hx. unfold RemoveAll, on_err. rewrite sys_calm by done. unfold at_path.
  rewrite segs_of_child by done. unfold remove_all. destruct Hx as (_ & _ & ? & _).
  by rewrite resolve_parent_dir.
Qed.

Lemma Remove_node p n :
  w_nodes w !! p = Some n → n ≠ Dir →
  Remove (abs_str p) w = (Ok tt, set_nodes (delete p (w_nodes w)) w).
Proof using Type*.
  intros Hp Hn. unfold Remove, on_err. rewrite syscall_calm by done.
  rewrite segs_of_abs_str by (by eapply wf_names). rewrite (look_node w false p n) by done.
  by destruct n.
Qed.

Lemma create_node_new p x n :
  w_nodes w !! p = Some Dir → plain_seg x → w_nodes w !! (p ++ [x]) = None →
  create_node (p ++ [x]) n w = (Ok tt, set_nodes (<[p ++ [x] := n]> (w_nodes w)) w).
Proof using Hwf.
  intros Hp (_ & _ & Hx & _) Hn. unfold create_node. rewrite resolve_parent_dir by done.
  rewrite decide_False by (rewrite Hn; by intros []). done.
Qed.

Lemma Symlink_new p x t :
  w_nodes w !! p = Some Dir → plain_seg x → w_nodes w !! (p ++ [x]) = None →
  os_Symlink t (abs_str (p ++ [x])) w
  = (Ok tt, set_nodes (<[p ++ [x] := Symlink t]> (w_nodes w)) w).
Proof using Type*.
  intros Hp Hx Hn. unfold os_Symlink, on_err. rewrite syscall_calm by done. unfold at_path.
  rewrite segs_of_child by done. by rewrite create_node_new.
Qed.

Lemma Link_new q i p x :
  w_nodes w !! q = Some (File i) → w_nodes w !! p = Some Dir → plain_seg x →
  w_nodes w !! (p ++ [x]) = None →
  os_Link (abs_str q) (abs_str (p ++ [x])) w
  = (Ok tt, set_nodes (<[p ++ [x] := File i]> (w_nodes w)) w).
Proof using Type*.
  intros Hq Hp Hx Hn. unfold os_Link, on_err. rewrite syscall_calm by done.
  rewrite segs_of_abs_str by (by eapply wf_names). rewrite (look_node w false q (File i)) by done.
  rewrite segs_of_child by done. by rewrite create_node_new.
Qed.

Lemma MkdirAll_dir p : w_nodes w !! p = Some Dir → MkdirAll (abs_str p) w = (Ok tt, w).
Proof using Type*.
  intros Hp. unfold MkdirAll, on_err, at_path. rewrite segs_of_abs_str by (by eapply wf_names).
  destruct (reverse p) as [|x rp] eqn:Hr; cbn [mkdir_all];
    rewrite syscall_calm by done; rewrite <-Hr, reverse_involutive;
    by rewrite (look_node w true p Dir).
Qed.

Lemma MkdirAll_child p x :
  w_nodes w !! p = Some Dir → plain_seg x → w_nodes w !! (p ++ [x]) = None →
  MkdirAll (abs_str (p ++ [x])) w = (Ok tt, set_nodes (<[p ++ [x] := Dir]> (w_nodes w)) w).
Proof using Type*.
  intros Hp Hx Hn. unfold MkdirAll, on_err, at_path. rewrite segs_of_child by done.
  rewrite reverse_snoc. cbn [mkdir_all]. rewrite syscall_calm by done.
  rewrite reverse_cons, reverse_involutive. pose proof Hx as (_ & _ & Hdd & _).
  rewrite (look_missing w true p x []) by done. cbn [fmap result_fmap].
  assert (mkdir_all (reverse p) w = (Ok tt, w)) as ->.
  { destruct (reverse p) as [|y rp] eqn:Hr; cbn [mkdir_all];
      rewrite syscall_calm by done; rewrite <-Hr, reverse_involutive;
      by rewrite (look_node w true p Dir). }
  unfold mkdir. rewrite syscall_calm by done. by rewrite create_node_new.
Qed.
End calm.

(** ** How the node map changes *)

Lemma lookup_remove_below p m q :
  remove_below p m !! q = if decide (below p q) then None else m !! q.
Proof.
  unfold remove_below. case_decide as Hb.
  - apply map_lookup_filter_None. right. intros n _ Hn. by apply Hn.
  - destruct (m !! q) as [n|] eqn:Hq.
    + by apply map_lookup_filter_Some.
    + apply map_lookup_filter_None. by left.
Qed.

Lemma below_refl p : below p p.
Proof. by exists []; rewrite (right_id_L [] (++)). Qed.

Lemma below_app p q : below p (p ++ q).
Proof. by exists q. Qed.

Lemma below_trans p q r : below p q → below q r → below p r.
Proof. apply (transitivity (R := prefix)). Qed.

Lemma below_snoc p q x : below p (q ++ [x]) ↔ below p q ∨ p = q ++ [x].
Proof.
  split.
  - intros [k Hk]. destruct k as [|y k _] using rev_ind.
    + right. by rewrite (right_id_L [] (++)) in Hk.
    + left. rewrite (assoc_L (++)) in Hk. apply app_inj_tail in Hk as [-> _]. apply below_app.
  - intros [H|H]; [|rewrite H; apply below_refl]. eapply below_trans; [done|apply below_app].
Qed.

Lemma wf_remove_below p m : p ≠ [] → wf_tree m → wf_tree (remove_below p m).
Proof.
  intros Hp Hwf. split.
  - rewrite lookup_remove_below, decide_False; [by apply wf_root|].
    intros [k Hk]. by destruct p.
  - intros q x n. rewrite !lookup_remove_below. case_decide as Hb; [done|]. intros Hn.
    rewrite decide_False; [by eapply wf_parent|]. intros Hq. apply Hb, below_snoc. by left.
  - intros q n. rewrite lookup_remove_below. case_decide; [done|]. by apply wf_names.
Qed.

Lemma wf_insert m p x n :
  wf_tree m → m !! p = Some Dir → plain_seg x → m !! (p ++ [x]) = None ∨ n = Dir →
  (∀ t, m !! (p ++ [x]) ≠ Some (Symlink t)) → wf_tree (<[p ++ [x] := n]> m).
Proof.
  intros Hwf Hp Hx Hn Hs. assert (p ++ [x] ≠ []) as Hne by by destruct p.
  split.
  - rewrite lookup_insert_ne by done. by apply wf_root.
  - intros q y n' Hq. destruct (decide (q ++ [y] = p ++ [x])) as [Heq|Hneq].
    + apply app_inj_tail in Heq as [-> _]. rewrite lookup_insert_ne; [done|].
      intros Hc. apply (f_equal length) in Hc. rewrite length_app in Hc. cbn in Hc. lia.
    + rewrite lookup_insert_ne in Hq by done. pose proof (wf_parent m Hwf q y n' Hq) as Hd.
      destruct (decide (q = p ++ [x])) as [->|Hqne].
      * rewrite lookup_insert_eq. destruct Hn as [Hn| ->]; [congruence|done].
      * by rewrite lookup_insert_ne.
  - intros q n' Hq. destruct (decide (q = p ++ [x])) as [->|Hqne].
    + apply Forall_app. split; [by eapply wf_names|by apply Forall_singleton].
    + rewrite lookup_insert_ne in Hq by done. by eapply wf_names.
Qed.

Lemma wf_insert_new m p x n :
  wf_tree m → m !! p = Some Dir → plain_seg x → m !! (p ++ [x]) = None →
  wf_tree (<[p ++ [x] := n]> m).
Proof. intros Hwf Hp Hx Hn. apply wf_insert; auto. by rewrite Hn. Qed.

Lemma wf_delete m p n : wf_tree m → m !! p = Some n → n ≠ Dir → wf_tree (delete p m).
Proof.
  intros Hwf Hp Hn. split.
  - rewrite lookup_delete_ne; [by apply wf_root|]. intros ->.
    rewrite (wf_root m Hwf) in Hp. congruence.
  - intros q x n' Hq. apply lookup_delete_Some in Hq as [Hne Hq].
    pose proof (wf_parent m Hwf q x n' Hq) as Hd. rewrite lookup_delete_ne; [done|]. congruence.
  - intros q n' Hq. apply lookup_delete_Some in Hq as [_ Hq]. by eapply wf_names.
Qed.
