(* ===== verification/Snapshot.v ===== *)
(** * Snapshots on the target volume (internal/dataplane/snapshot.go)

    Promotion of a partial run to an hourly snapshot, the [latest] link, the
    daily, weekly and monthly hard-linked copies, retention, space recovery,
    clean-up of stale partial runs and the scan of restore points, as programs
    over the file system of [FileSys].  A Go function that returns a value
    together with an error returns a pair here. *)
From S2P Require Export FileSys GoTime.
From stdpp Require Import options.
From Stdlib Require Import Ascii.

Record FinalizeOptions := MkFinalizeOptions {
  fo_TargetRoot : string;
  fo_RunID : string;
  fo_Timestamp : string;
  fo_Sources : list string;
  fo_Retention : RetentionPolicy
}.

Record dp_RestorePoint := MkDpRestorePoint {
  dp_Snapshot : string;
  dp_ResolvesTo : string;
  dp_Tier : string;
  dp_CreatedAt : Time;
  dp_BytesTransferred : Z
}.

(** A value returned with an error. *)
Definition partial (A : Type) : Type := A * option goerr.

Definition tiers : list string := ["hourly"; "daily"; "weekly"; "monthly"].

(** ** Names *)

(** [filepath.Dir] of a cleaned path. *)
Definition path_Dir (p : string) : string := path_Join [p; ".."].

Definition weekStart (ts : Time) : Time :=
  let '(year, month, day) := Time_Date ts in
  let start := time_Date year month day in
  let offset := (Weekday start + 6) `mod` 7 in
  AddDays start (- offset).

Definition tierSnapshotNames (ts : Time) : list string :=
  [path_Join ["daily"; format_date ts];
   path_Join ["weekly"; format_date (weekStart ts)];
   path_Join ["monthly"; format_month ts]].

Definition parseSnapshotTime (snapshot : string) : Time :=
  match Split snapshot slash with
  | [tier; name] =>
      if decide (tier = "hourly") then default zero_time (time_Parse layout_snapshot name)
      else if decide (tier = "daily" ∨ tier = "weekly")
      then default zero_time (time_Parse layout_date name)
      else if decide (tier = "monthly") then default zero_time (time_Parse layout_month name)
      else zero_time
  | _ => zero_time
  end.

(** ** Sources and the [latest] link *)

Definition validateSnapshotSources (snapshotPath : string) (sources : list string) : M unit :=
  for_eachM (λ source,
    _ ← on_err (wrap ("invalid source " +:+ Quote source +:+ ": "))
          (lift (NormalizeRelativePath source));
    _ ← on_err (wrap ("expected source " +:+ Quote source +:+ " is missing from snapshot: "))
          (Stat (path_Join [snapshotPath; source]));
    mret tt) sources.

Definition replaceLatestSymlink (root target : string) : M unit :=
  _ ← on_err (wrap ("invalid latest target " +:+ Quote target +:+ ": "))
        (lift (NormalizeRelativePath target));
  let targetPath := path_Join [root; target] in
  _ ← lift (ensureInside root targetPath);
  info ← Stat targetPath;
  if negb (IsDir info)
  then throw (ErrNew ("latest target " +:+ targetPath +:+ " is not a directory"))
  else
    let latest := path_Join [root; "latest"] in
    let tmp := latest +:+ ".tmp" in
    _ ← try (RemoveAll tmp);
    _ ← os_Symlink target tmp;
    _ ← try (RemoveAll latest);
    Rename tmp latest.

Definition newestSnapshot (root tier : string) : M string :=
  r ← try (ReadDir (path_Join [root; tier]));
  match r with
  | Err e => if errors_is KNotExist e then mret "" else throw e
  | Ok entries =>
      let names := (filter (λ xn, IsDir xn.2 = true) entries).*1 in
      match last (sort_Strings names) with
      | None => mret ""
      | Some name => mret (path_Join [tier; name])
      end
  end.

Definition latestSnapshotTarget (root : string) : M string :=
  let latest := path_Join [root; "latest"] in
  r ← try (Lstat latest);
  match r with
  | Err e => if errors_is KNotExist e then mret "" else throw e
  | Ok (Symlink _) =>
      target ← Readlink latest;
      normalized ← on_err (wrap ("invalid latest target " +:+ Quote target +:+ ": "))
                     (lift (NormalizeRelativePath target));
      r ← try (Stat (path_Join [root; normalized]));
      match r with
      | Err e => if errors_is KNotExist e then mret "" else throw e
      | Ok _ => mret normalized
      end
  | Ok _ => newestSnapshot root "hourly"
  end.

Definition cleanupDanglingLatest (root : string) : M unit :=
  let latest := path_Join [root; "latest"] in
  r ← try (Lstat latest);
  match r with
  | Err e => if errors_is KNotExist e then mret tt else throw e
  | Ok (Symlink _) =>
      target ← Readlink latest;
      match NormalizeRelativePath target with
      | Err _ => Remove latest
      | Ok normalized =>
          r ← try (Stat (path_Join [root; normalized]));
          match r with
          | Err e => if errors_is KNotExist e then Remove latest else throw e
          | Ok _ => mret tt
          end
      end
  | Ok _ => mret tt
  end.

(** ** Hard-linked copies *)

(** [filepath.WalkDir] below an entry; the fuel bounds the depth of the tree. *)
Fixpoint walk_dir (fuel : nat) (path : string) (d : node) (fn : string → M unit) : M unit :=
  match fuel with
  | O => throw (ErrNew "out of fuel")
  | S fuel =>
      _ ← fn path;
      if IsDir d then
        entries ← ReadDir path;
        for_eachM (λ xn, walk_dir fuel (path_Join [path; xn.1]) xn.2 fn) entries
      else mret tt
  end.

(** Deeper than any node of the tree. *)
Definition walk_fuel (w : world) : nat :=
  S (max_list (length <$> (map_to_list (w_nodes w)).*1)).

Definition with_fuel {A} (f : nat → M A) : M A := λ w, f (walk_fuel w) w.

Definition WalkDir (root : string) (fn : string → M unit) : M unit :=
  info ← Lstat root; with_fuel (λ fuel, walk_dir fuel root info fn).

(** The function [linkTree] passes to [filepath.WalkDir]. *)
Definition link_entry (src dst path : string) : M unit :=
  rel ← lift (Rel src path);
  let target := path_Join [dst; rel] in
  if decide (rel = ".") then MkdirAll target
  else
    info ← Lstat path;
    match info with
    | Dir => MkdirAll target
    | File _ =>
        _ ← MkdirAll (path_Dir target);
        os_Link path target
    | Symlink _ =>
        link ← Readlink path;
        _ ← MkdirAll (path_Dir target);
        os_Symlink link target
    | Other => mret tt
    end.

Definition linkTree (src dst : string) : M unit :=
  src ← Abs src;
  dst ← Abs dst;
  WalkDir src (link_entry src dst).

(** ** Retention *)

(** The loop that removes the first names of a tier. *)
Fixpoint prune_tier (root tier : string) (keep : Z) (names removed : list string)
    : M (partial (list string)) :=
  match names with
  | [] => mret (removed, None)
  | x :: rest =>
      if decide (Z.of_nat (length names) > keep) then
        let name := path_Join [tier; x] in
        r ← try (RemoveAll (path_Join [root; name]));
        match r with
        | Err e => mret (removed, Some e)
        | Ok _ => prune_tier root tier keep rest (removed ++ [name])
        end
      else mret (removed, None)
  end.

(** One iteration of the loop over the tiers. *)
Definition retain_tier (root tier : string) (keep : Z) (removed : list string)
    : M (partial (list string)) :=
  if decide (keep < 0) then mret (removed, None)
  else
    r ← try (ReadDir (path_Join [root; tier]));
    match r with
    | Err e => if errors_is KNotExist e then mret (removed, None) else mret (removed, Some e)
    | Ok entries =>
        let names := (filter (λ xn, IsDir xn.2 = true) entries).*1 in
        prune_tier root tier keep (sort_Strings names) removed
    end.

Definition tier_keep (policy : RetentionPolicy) (tier : string) : Z :=
  if decide (tier = "hourly") then rp_Hourly policy
  else if decide (tier = "daily") then rp_Daily policy
  else if decide (tier = "weekly") then rp_Weekly policy
  else rp_Monthly policy.

Fixpoint retain_tiers (root : string) (policy : RetentionPolicy) (ts removed : list string)
    : M (partial (list string)) :=
  match ts with
  | [] =>
      r ← try (cleanupDanglingLatest root);
      mret (removed, match r with Err e => Some e | Ok _ => None end)
  | tier :: ts =>
      re ← retain_tier root tier (tier_keep policy tier) removed;
      match re.2 with
      | Some _ => mret re
      | None => retain_tiers root policy ts re.1
      end
  end.

Definition ApplyRetention (root : string) (policy : RetentionPolicy) : M (partial (list string)) :=
  retain_tiers root policy tiers [].

(** ** Promotion *)

(** The loop over the tier snapshot names; [points] accumulates. *)
Fixpoint link_tiers (root hourlyPath : string) (names points : list string)
    : M (partial (list string)) :=
  match names with
  | [] => mret (points, None)
  | name :: names =>
      let dst := path_Join [root; name] in
      r ← try (Stat dst);
      match r with
      | Err e =>
          if errors_is KNotExist e then
            r ← try (linkTree hourlyPath dst);
            match r with
            | Err e => mret (points, Some (wrap ("create tier snapshot " +:+ name +:+ ": ") e))
            | Ok _ => link_tiers root hourlyPath names (points ++ [name])
            end
          else mret (points, Some e)
      | Ok _ => link_tiers root hourlyPath names points
      end
  end.

Definition finalizePromotedSnapshot (root hourlyName hourlyPath : string) (ts : Time)
    (sources : list string) (retention : RetentionPolicy) : M (partial (list string)) :=
  r ← try (validateSnapshotSources hourlyPath sources);
  match r with
  | Err e => mret ([], Some e)
  | Ok _ =>
      let points := [hourlyName] in
      r ← try (replaceLatestSymlink root hourlyName);
      match r with
      | Err e => mret (points, Some (wrap "refresh latest: " e))
      | Ok _ =>
          let points := points ++ ["latest -> " +:+ hourlyName] in
          re ← link_tiers root hourlyPath (tierSnapshotNames ts) points;
          match re with
          | (points, Some e) => mret (points, Some e)
          | (points, None) =>
              rr ← ApplyRetention root retention;
              mret (points, rr.2)
          end
      end
  end.

(** [FinalizeBackup] after the options are checked: the partial run is
    promoted, or an earlier promotion is taken up again. *)
Definition finalize_run (root partial_ hourlyName hourlyPath : string) (ts : Time)
    (opts : FinalizeOptions) : M (partial (list string)) :=
  let fail e := mret ([], Some e) in
  let promoted := finalizePromotedSnapshot root hourlyName hourlyPath ts (fo_Sources opts)
                    (fo_Retention opts) in
  info ← try (Stat partial_);
  match info with
  | Err e =>
      let not_ready := wrap "partial run is not ready: " e in
      if errors_is KNotExist e then
        re ← promoted;
        match re.2 with
        | None => mret re
        | Some _ => fail not_ready
        end
      else fail not_ready
  | Ok info =>
      if negb (IsDir info)
      then fail (ErrNew ("partial run " +:+ partial_ +:+ " is not a directory"))
      else
        r ← try (validateSnapshotSources partial_ (fo_Sources opts));
        match r with
        | Err e => fail e
        | Ok _ =>
            r ← try (Stat hourlyPath);
            match r with
            | Ok _ => promoted
            | Err e =>
                if negb (errors_is KNotExist e) then fail e
                else
                  r ← try (MkdirAll (path_Dir hourlyPath));
                  match r with
                  | Err e => fail e
                  | Ok _ =>
                      r ← try (Rename partial_ hourlyPath);
                      match r with
                      | Err e => fail (wrap "promote partial snapshot: " e)
                      | Ok _ => promoted
                      end
                  end
            end
        end
  end.

Definition FinalizeBackup (opts : FinalizeOptions) : M (partial (list string)) :=
  let fail e := mret ([], Some e) in
  if decide (fo_TargetRoot opts = "" ∨ fo_RunID opts = "" ∨ fo_Timestamp opts = "")
  then fail (ErrNew "target root, run id, and timestamp are required")
  else
    match validateRunID (fo_RunID opts) with
    | Err e => fail e
    | Ok _ =>
        match time_Parse layout_snapshot (fo_Timestamp opts) with
        | None =>
            (* the text of [time.Parse]'s own error is not modelled *)
            fail (wrap ("invalid timestamp " +:+ Quote (fo_Timestamp opts) +:+ ": ")
                    (ErrNew "parsing time"))
        | Some ts =>
            root ← Abs (fo_TargetRoot opts);
            let partial_ := path_Join [root; ".partial"; fo_RunID opts] in
            match ensureInside root partial_ with
            | Err e => fail e
            | Ok _ =>
                let hourlyName := path_Join ["hourly"; fo_Timestamp opts] in
                let hourlyPath := path_Join [root; hourlyName] in
                finalize_run root partial_ hourlyName hourlyPath ts opts
            end
        end
    end.

(** ** Scanning, stale partial runs, space recovery *)

Definition rp_le (a b : dp_RestorePoint) : Prop :=
  dp_Snapshot a = "latest" ∨ (dp_Snapshot b ≠ "latest" ∧ String.le (dp_Snapshot b) (dp_Snapshot a)).
#[export] Instance rp_le_dec : RelDecision rp_le.
Proof. intros a b. unfold rp_le. apply _. Defined.

Definition tier_point (tier : string) (xn : string * node) : option dp_RestorePoint :=
  if IsDir xn.2 then
    let snapshot := path_Join [tier; xn.1] in
    Some (MkDpRestorePoint snapshot "" tier (parseSnapshotTime snapshot) 0)
  else None.

Fixpoint scan_tiers (root : string) (ts : list string) (points : list dp_RestorePoint)
    : M (list dp_RestorePoint) :=
  match ts with
  | [] => mret points
  | tier :: ts =>
      r ← try (ReadDir (path_Join [root; tier]));
      match r with
      | Err e => if errors_is KNotExist e then scan_tiers root ts points else throw e
      | Ok entries => scan_tiers root ts (points ++ omap (tier_point tier) entries)
      end
  end.

Definition ScanRestorePoints (root : string) : M (list dp_RestorePoint) :=
  root ← Abs root;
  latestTarget ← latestSnapshotTarget root;
  r ← try (Stat (path_Join [root; "latest"]));
  points ← match r with
           | Ok _ => mret [MkDpRestorePoint "latest" latestTarget "" (parseSnapshotTime latestTarget) 0]
           | Err e => if errors_is KNotExist e then mret [] else throw e
           end;
  points ← scan_tiers root tiers points;
  mret (sort_by rp_le points).

Fixpoint remove_stale (partialRoot : string) (active : list string)
    (entries : list (string * node)) (removed : list string) : M (partial (list string)) :=
  match entries with
  | [] => mret (sort_Strings removed, None)
  | xn :: entries =>
      if decide (IsDir xn.2 = false ∨ xn.1 ∈ active)
      then remove_stale partialRoot active entries removed
      else
        r ← try (RemoveAll (path_Join [partialRoot; xn.1]));
        match r with
        | Err e => mret (removed, Some e)
        | Ok _ => remove_stale partialRoot active entries (removed ++ [xn.1])
        end
  end.

Definition CleanupStalePartials (root : string) (activeRunIDs : list string)
    : M (partial (list string)) :=
  let active := filter (λ r, r ≠ "") activeRunIDs in
  match for_each validateRunID active with
  | Err e => mret ([], Some e)
  | Ok _ =>
      let partialRoot := path_Join [root; ".partial"] in
      r ← try (ReadDir partialRoot);
      match r with
      | Err e => if errors_is KNotExist e then mret ([], None) else mret ([], Some e)
      | Ok entries => remove_stale partialRoot active entries []
      end
  end.

(** [uint64(stat.Bavail) * uint64(stat.Bsize)] *)
Definition AvailableBytes (path : string) : M Z :=
  st ← Statfs path; mret (wrap_u64 (wrap_u64 st.1 * wrap_u64 st.2)).

Record snapshotInfo := MkSnapshotInfo { si_name : string; si_modTime : Z }.

Definition snapshotInfo_le (a b : snapshotInfo) : Prop :=
  si_modTime a < si_modTime b ∨ (si_modTime a = si_modTime b ∧ String.le (si_name a) (si_name b)).
#[export] Instance snapshotInfo_le_dec : RelDecision snapshotInfo_le.
Proof. intros a b. unfold snapshotInfo_le. apply _. Defined.

Definition modification_time (p : string) : M Z := λ w, (Ok (w_mtime w (segs_of w p)), w).

(** [entry.Info()] of an entry of a directory, for its modification time. *)
Definition entry_info (root tier name : string) : M snapshotInfo :=
  let p := path_Join [root; tier; name] in
  _ ← Lstat p; modtime ← modification_time p; mret (MkSnapshotInfo (path_Join [tier; name]) modtime).

Fixpoint tier_infos (root tier : string) (entries : list (string * node))
    (infos : list snapshotInfo) : M (list snapshotInfo) :=
  match entries with
  | [] => mret infos
  | xn :: entries =>
      if IsDir xn.2 then
        info ← entry_info root tier xn.1;
        tier_infos root tier entries (infos ++ [info])
      else tier_infos root tier entries infos
  end.

Fixpoint collect_infos (root : string) (ts : list string) (infos : list snapshotInfo)
    : M (list snapshotInfo) :=
  match ts with
  | [] => mret infos
  | tier :: ts =>
      r ← try (ReadDir (path_Join [root; tier]));
      match r with
      | Err e => if errors_is KNotExist e then collect_infos root ts infos else throw e
      | Ok entries => infos ← tier_infos root tier entries infos; collect_infos root ts infos
      end
  end.

Definition removableSnapshots (root : string) : M (list string) :=
  infos ← collect_infos root tiers [];
  mret (si_name <$> sort_by snapshotInfo_le infos).

Fixpoint recover_loop (root : string) (minAvailableBytes : Z) (protected : list string)
    (available : Z) (candidates removed : list string) : M (partial (list string)) :=
  match candidates with
  | [] =>
      mret (removed, Some (ErrNew ("available space " +:+ Itoa available +:+
        " is below requested minimum " +:+ Itoa minAvailableBytes +:+ " after pruning " +:+
        Itoa (Z.of_nat (length removed)) +:+ " snapshots")))
  | c :: candidates =>
      if decide (c ∈ protected)
      then recover_loop root minAvailableBytes protected available candidates removed
      else
        r ← try (RemoveAll (path_Join [root; c]));
        match r with
        | Err e => mret (removed, Some e)
        | Ok _ =>
            let removed := removed ++ [c] in
            r ← try (AvailableBytes root);
            match r with
            | Err e => mret (removed, Some e)
            | Ok available =>
                if decide (minAvailableBytes ≤ available) then mret (removed, None)
                else recover_loop root minAvailableBytes protected available candidates removed
            end
        end
  end.

Definition RecoverSpace (root : string) (minAvailableBytes : Z) (protectedSnapshots : list string)
    : M (partial (list string)) :=
  r ← try (AvailableBytes root);
  match r with
  | Err e => mret ([], Some e)
  | Ok available =>
      if decide (minAvailableBytes ≤ available) then mret ([], None)
      else
        match map_result (λ s, map_err (wrap ("invalid protected snapshot " +:+ Quote s +:+ ": "))
                                 (NormalizeRelativePath s)) protectedSnapshots with
        | Err e => mret ([], Some e)
        | Ok protected =>
            r ← try (removableSnapshots root);
            match r with
            | Err e => mret ([], Some e)
            | Ok candidates => recover_loop root minAvailableBytes protected available candidates []
            end
        end
  end.
