(* ===== verification/Retention.v ===== *)
(** * Retention and the [latest] link: correctness of [Snapshot]

    The invariant of a target volume, the exact effect of [ApplyRetention],
    [cleanupDanglingLatest], [CleanupStalePartials] and [RecoverSpace] on the
    tree, and what follows for the snapshots that remain. *)
From S2P Require Export Snapshot.
From stdpp Require Import options.
From Stdlib Require Import Ascii.

(** ** The directories in a directory *)

(** The names of the directories in a directory, in the order of [os.ReadDir]. *)
Definition dir_names (m : gmap fpath node) (d : fpath) : list string :=
  (filter (λ xn, IsDir xn.2 = true) (dir_entries m d)).*1.

Lemma child_of_Some d q x : child_of d q = Some x ↔ q = d ++ [x].
Proof.
  unfold child_of. split.
  - destruct (last q); [|done]. case_decide; naive_solver.
  - intros ->. rewrite last_snoc. by rewrite decide_True.
Qed.

Lemma elem_of_children m d x : x ∈ children m d ↔ is_Some (m !! (d ++ [x])).
Proof.
  unfold children. rewrite list_elem_of_omap. split.
  - intros (q & Hq & ->%child_of_Some). apply list_elem_of_fmap in Hq as ([q n] & Hqn & Hin).
    apply elem_of_map_to_list in Hin. cbn in Hqn. subst. eauto.
  - intros [n Hn]. exists (d ++ [x]). rewrite child_of_Some. split; [|done].
    apply list_elem_of_fmap. exists (d ++ [x], n). by rewrite elem_of_map_to_list.
Qed.

Lemma NoDup_omap_inj {A B} (f : A → option B) l :
  (∀ x y b, f x = Some b → f y = Some b → x = y) → NoDup l → NoDup (omap f l).
Proof.
  intros Hf. induction 1 as [|x l Hx Hl IH]; [constructor|]. cbn.
  destruct (f x) as [b|] eqn:Hb; [|done]. constructor; [|done].
  rewrite list_elem_of_omap. intros (y & Hy & Hyb). by rewrite (Hf x y b) in Hx.
Qed.

Lemma NoDup_children m d : NoDup (children m d).
Proof.
  apply NoDup_omap_inj.
  - intros p q x ->%child_of_Some ->%child_of_Some. done.
  - apply NoDup_fst_map_to_list.
Qed.

Lemma elem_of_dir_entries m d x n : (x, n) ∈ dir_entries m d ↔ m !! (d ++ [x]) = Some n.
Proof.
  unfold dir_entries. rewrite list_elem_of_omap. split.
  - intros (y & _ & Hy). apply bind_Some in Hy as (n' & Hn & [= -> ->]). done.
  - intros Hn. exists x. rewrite elem_of_sort_Strings, elem_of_children, Hn. split; [eauto|done].
Qed.

Lemma dir_entries_fst m d : (dir_entries m d).*1 = sort_Strings (children m d).
Proof.
  unfold dir_entries.
  assert (Forall (λ x, is_Some (m !! (d ++ [x]))) (sort_Strings (children m d))) as H.
  { apply Forall_forall. intros x. by rewrite elem_of_sort_Strings, elem_of_children. }
  induction H as [|x l [n Hn] Hl IH]; [done|]. cbn. rewrite Hn. cbn. by rewrite IH.
Qed.

Lemma NoDup_dir_entries m d : NoDup (dir_entries m d).*1.
Proof. rewrite dir_entries_fst. apply NoDup_sort_Strings, NoDup_children. Qed.

Lemma elem_of_dir_names m d x : x ∈ dir_names m d ↔ m !! (d ++ [x]) = Some Dir.
Proof.
  unfold dir_names. rewrite list_elem_of_fmap. split.
  - intros ([y n] & -> & Hin). apply list_elem_of_filter in Hin as [Hd Hin].
    apply elem_of_dir_entries in Hin. cbn in *. unfold IsDir in Hd.
    apply bool_decide_eq_true in Hd. by subst.
  - intros Hn. exists (x, Dir). split; [done|]. apply list_elem_of_filter.
    split; [done|]. by apply elem_of_dir_entries.
Qed.

Lemma fmap_filter_sublist {A B} (f : A → B) (P : A → Prop) `{∀ x, Decision (P x)} (l : list A) :
  f <$> filter P l `sublist_of` f <$> l.
Proof.
  induction l as [|x l IH]; [constructor|]. rewrite filter_cons.
  destruct (decide (P x)); cbn; by constructor.
Qed.

Lemma StronglySorted_sublist {A} (R : relation A) l1 l2 :
  l1 `sublist_of` l2 → StronglySorted R l2 → StronglySorted R l1.
Proof.
  induction 1 as [|x l1 l2 Hs IH|x l1 l2 Hs IH]; intros H; [constructor|..];
    apply StronglySorted_inv in H as [H1 H2].
  - constructor; [auto|]. eapply Forall_impl; [|intros y Hy; exact Hy].
    apply Forall_forall. intros y Hy. eapply Forall_forall; [exact H2|].
    by eapply elem_of_submseteq, sublist_submseteq.
  - auto.
Qed.

Lemma dir_names_sorted m d : StronglySorted String.le (dir_names m d).
Proof.
  eapply StronglySorted_sublist; [apply fmap_filter_sublist|].
  rewrite dir_entries_fst. apply sort_Strings_sorted.
Qed.

Lemma NoDup_dir_names m d : NoDup (dir_names m d).
Proof. eapply sublist_NoDup; [apply NoDup_dir_entries|apply fmap_filter_sublist]. Qed.

(** A directory's names are determined by the map. *)
Lemma dir_names_unique m d l :
  StronglySorted String.le l → NoDup l → (∀ x, x ∈ l ↔ m !! (d ++ [x]) = Some Dir) →
  dir_names m d = l.
Proof.
  intros Hs Hnd Hl. apply (StronglySorted_unique String.le); [apply dir_names_sorted|done|].
  apply NoDup_Permutation; [apply NoDup_dir_names|done|]. intros x. by rewrite elem_of_dir_names, Hl.
Qed.

Lemma dir_names_ext m m' d :
  (∀ x, m !! (d ++ [x]) = Some Dir ↔ m' !! (d ++ [x]) = Some Dir) → dir_names m d = dir_names m' d.
Proof.
  intros H. apply dir_names_unique; [apply dir_names_sorted|apply NoDup_dir_names|].
  intros x. by rewrite elem_of_dir_names, H.
Qed.

(** ** Removing several subtrees *)

Definition remove_paths (ps : list fpath) (m : gmap fpath node) : gmap fpath node :=
  filter (λ qn, ¬ Exists (λ p, below p qn.1) ps) m.

Lemma lookup_remove_paths ps m q :
  remove_paths ps m !! q = if decide (Exists (λ p, below p q) ps) then None else m !! q.
Proof.
  unfold remove_paths. destruct (decide _) as [Hb|Hb].
  - apply map_lookup_filter_None. right. intros n _ Hn. by apply Hn.
  - destruct (m !! q) as [n|] eqn:Hq.
    + by apply map_lookup_filter_Some.
    + apply map_lookup_filter_None. by left.
Qed.

Lemma remove_paths_nil m : remove_paths [] m = m.
Proof.
  apply map_eq. intros q. rewrite lookup_remove_paths. rewrite decide_False; [done|].
  intros H; inversion H.
Qed.

Lemma remove_paths_app ps1 ps2 m :
  remove_paths (ps1 ++ ps2) m = remove_paths ps2 (remove_paths ps1 m).
Proof.
  apply map_eq. intros q. rewrite !lookup_remove_paths.
  destruct (decide (Exists (λ p, below p q) ps2)) as [H2|H2].
  - rewrite decide_True; [done|]. apply Exists_app. by right.
  - destruct (decide (Exists (λ p, below p q) ps1)) as [H1|H1].
    + rewrite decide_True; [done|]. apply Exists_app. by left.
    + rewrite decide_False; [done|]. rewrite Exists_app. naive_solver.
Qed.

Lemma remove_paths_cons p ps m : remove_paths (p :: ps) m = remove_paths ps (remove_below p m).
Proof.
  change (p :: ps) with ([p] ++ ps). rewrite remove_paths_app. f_equal.
  apply map_eq. intros q. rewrite lookup_remove_paths, lookup_remove_below.
  destruct (decide (below p q)).
  - rewrite decide_True; [done|]. by apply Exists_cons_hd.
  - rewrite decide_False; [done|]. rewrite Exists_cons, Exists_nil. naive_solver.
Qed.

Lemma wf_remove_paths ps m : [] ∉ ps → wf_tree m → wf_tree (remove_paths ps m).
Proof.
  revert m. induction ps as [|p ps IH]; intros m Hne Hwf; [by rewrite remove_paths_nil|].
  rewrite not_elem_of_cons in Hne. rewrite remove_paths_cons. apply IH; [naive_solver|].
  apply wf_remove_below; naive_solver.
Qed.

(** ** The target volume *)

(** The root directory [R] of a target volume: no call fails, the tiers are
    directories or missing, snapshots are not symbolic links, and [latest] is
    missing or a link to a snapshot. *)
Record target (R : fpath) (w : world) : Prop := {
  tg_wf : wf_tree (w_nodes w);
  tg_calm : calm w;
  tg_root : w_nodes w !! R = Some Dir;
  tg_tier : ∀ tier, tier ∈ tiers →
    w_nodes w !! (R ++ [tier]) = None ∨ w_nodes w !! (R ++ [tier]) = Some Dir;
  tg_snap : ∀ tier x t, tier ∈ tiers → w_nodes w !! (R ++ [tier; x]) ≠ Some (Symlink t);
  tg_latest : ∀ n, w_nodes w !! (R ++ ["latest"]) = Some n →
    ∃ tier x, tier ∈ tiers ∧ plain_seg x ∧ ContainsByte x backslash = false
      ∧ n = Symlink (strings_Join [tier; x] "/")
}.

Lemma tier_plain tier : tier ∈ tiers → plain_seg tier ∧ ContainsByte tier backslash = false.
Proof.
  intros H. unfold tiers in H. rewrite !elem_of_cons in H.
  destruct H as [->|[->|[->|[->|H]]]]; [..|by apply not_elem_of_nil in H]; done.
Qed.

Lemma tier_latest tier : tier ∈ tiers → tier ≠ "latest".
Proof. intros H ->. unfold tiers in H. set_solver. Qed.

Lemma plain_two x y : plain_seg x → plain_seg y → Forall plain_seg [x; y].
Proof. intros. apply Forall_cons. split; [done|]. by apply Forall_singleton. Qed.

(** The name and the path of a snapshot. *)
Definition snap_name (tier x : string) : string := strings_Join [tier; x] "/".
Definition snap_path (R : fpath) (tier x : string) : fpath := R ++ [tier; x].

Lemma snap_path_tier R tier x : snap_path R tier x = (R ++ [tier]) ++ [x].
Proof. unfold snap_path. by rewrite <-(assoc_L (++)). Qed.

Lemma path_Join_snap tier x : tier ∈ tiers → plain_seg x → path_Join [tier; x] = snap_name tier x.
Proof.
  intros Ht Hx. change tier with (strings_Join [tier] "/") at 1.
  apply path_Join_rel; [done| |done]. apply Forall_singleton. by apply tier_plain.
Qed.

Lemma path_Join_root_snap R tier x :
  Forall plain_seg R → tier ∈ tiers → plain_seg x →
  path_Join [abs_str R; snap_name tier x] = abs_str (snap_path R tier x).
Proof.
  intros HR Ht Hx. apply path_Join_abs_str; [done|done|].
  apply plain_two; [by apply tier_plain|done].
Qed.

Lemma Normalize_snap tier x :
  tier ∈ tiers → plain_seg x → ContainsByte x backslash = false →
  NormalizeRelativePath (snap_name tier x) = Ok (snap_name tier x).
Proof.
  intros Ht Hx Hb. destruct (tier_plain tier Ht) as [Hp Hbt].
  apply NormalizeRelativePath_normal; [done|by apply plain_two|].
  rewrite ContainsByte_Join by done. cbn [existsb]. by rewrite Hb, Hbt.
Qed.

Lemma snap_name_inj tier x tier' x' :
  tier ∈ tiers → tier' ∈ tiers → plain_seg x → plain_seg x' →
  snap_name tier x = snap_name tier' x' → tier = tier' ∧ x = x'.
Proof.
  intros [Ht _]%tier_plain [Ht' _]%tier_plain Hx Hx' He.
  assert ([tier; x] = [tier'; x']) as [=]; [|done].
  eapply (Join_inj _ _ slash); [done|done|..|exact He];
    by apply Forall_plain_noslash, plain_two.
Qed.

Section target.
Context (R : fpath).

Lemma tg_plain w : target R w → Forall plain_seg R.
Proof. intros H. eapply wf_names; [apply H|apply H]. Qed.

Lemma tg_snap_plain w tier x n :
  target R w → w_nodes w !! snap_path R tier x = Some n → plain_seg x.
Proof.
  intros H Hn. pose proof (wf_names _ (tg_wf _ _ H) _ _ Hn) as Hp.
  unfold snap_path in Hp. rewrite Forall_app, !Forall_cons in Hp. naive_solver.
Qed.

Lemma below_snap_tier tier x tier' : ¬ below (snap_path R tier x) (R ++ [tier']).
Proof.
  intros [k Hk]. apply (f_equal length) in Hk. unfold snap_path in Hk.
  rewrite !length_app in Hk. cbn in Hk. lia.
Qed.

Lemma below_snap_root tier x : ¬ below (snap_path R tier x) R.
Proof.
  intros [k Hk]. apply (f_equal length) in Hk. unfold snap_path in Hk.
  rewrite !length_app in Hk. cbn in Hk. lia.
Qed.

Lemma below_snap_snap tier x tier' x' :
  below (snap_path R tier x) (snap_path R tier' x') ↔ tier = tier' ∧ x = x'.
Proof.
  split.
  - intros [k Hk]. unfold snap_path in Hk. rewrite <-(assoc_L (++)) in Hk.
    apply app_inv_head in Hk. by simplify_eq/=.
  - intros [-> ->]. apply below_refl.
Qed.

Lemma lookup_remove_snaps ps m q :
  (∀ p, p ∈ ps → ¬ below p q) → remove_paths ps m !! q = m !! q.
Proof.
  intros H. rewrite lookup_remove_paths. rewrite decide_False; [done|].
  rewrite Exists_exists. naive_solver.
Qed.

(** Removing snapshots keeps the invariant. *)
Lemma target_remove_snaps w (ps : list (string * string)) :
  target R w →
  target R (set_nodes (remove_paths ((λ tx, snap_path R tx.1 tx.2) <$> ps) (w_nodes w)) w).
Proof.
  intros H. set (l := (λ tx, snap_path R tx.1 tx.2) <$> ps).
  assert (∀ p, p ∈ l → ∃ tier x, p = snap_path R tier x) as Hl.
  { intros p ([tier x] & -> & _)%list_elem_of_fmap. eauto. }
  assert (∀ tier, remove_paths l (w_nodes w) !! (R ++ [tier]) = w_nodes w !! (R ++ [tier])) as Hk.
  { intros tier. apply lookup_remove_snaps. intros p (t & x & ->)%Hl. apply below_snap_tier. }
  split; rewrite ?set_nodes_nodes.
  - apply wf_remove_paths; [|apply H]. intros (t & x & He)%Hl. by destruct R.
  - apply set_nodes_calm, H.
  - rewrite lookup_remove_snaps; [apply H|]. intros p (t & x & ->)%Hl. apply below_snap_root.
  - intros tier Ht. rewrite Hk. by apply H.
  - intros tier x t Ht. rewrite lookup_remove_paths. case_decide; [done|]. by apply H.
  - intros n. rewrite Hk. apply H.
Qed.

(** The calls on a tier and on a snapshot. *)
Lemma ReadDir_tier w tier :
  target R w → tier ∈ tiers →
  ReadDir (path_Join [abs_str R; tier]) w
    = (Ok (dir_entries (w_nodes w) (R ++ [tier])), w)
  ∨ w_nodes w !! (R ++ [tier]) = None
    ∧ ∃ e, ReadDir (path_Join [abs_str R; tier]) w = (Err e, w) ∧ errors_is KNotExist e = true.
Proof.
  intros H Ht. destruct (tier_plain tier Ht) as [Hp _].
  rewrite path_Join_abs_str_1 by (done || by eapply tg_plain).
  destruct (tg_tier R w H tier Ht) as [Hn|Hn].
  - right. split; [done|]. apply ReadDir_missing; [apply H|apply H|apply H|done|done].
  - left. apply ReadDir_node; [apply H|apply H|done].
Qed.

Lemma missing_tier w tier x :
  target R w → w_nodes w !! (R ++ [tier]) = None → w_nodes w !! snap_path R tier x = None.
Proof. intros H Hn. rewrite snap_path_tier. by apply wf_below_None; [apply H|]. Qed.

Lemma dir_names_missing w tier :
  target R w → w_nodes w !! (R ++ [tier]) = None → dir_names (w_nodes w) (R ++ [tier]) = [].
Proof.
  intros H Hn. apply dir_names_unique; [constructor|constructor|]. intros x.
  rewrite <-snap_path_tier, missing_tier by done. split; [by intros ?%not_elem_of_nil|done].
Qed.

Lemma Stat_snap w tier x :
  target R w → tier ∈ tiers → plain_seg x →
  match w_nodes w !! snap_path R tier x with
  | Some n => Stat (abs_str (snap_path R tier x)) w = (Ok n, w)
  | None => ∃ e, Stat (abs_str (snap_path R tier x)) w = (Err e, w) ∧ errors_is KNotExist e = true
  end.
Proof.
  intros H Ht Hx. destruct (tier_plain tier Ht) as [Hp _].
  destruct (w_nodes w !! snap_path R tier x) as [n|] eqn:Hn.
  - apply Stat_node; [apply H|apply H|done|]. intros t ->. by eapply (tg_snap R w H).
  - destruct (tg_tier R w H tier Ht) as [Ht'|Ht'].
    + apply (Stat_missing w (tg_calm R w H) (tg_wf R w H) R tier [x]); [apply H|by apply plain_two|done].
    + rewrite snap_path_tier in *.
      apply (Stat_missing w (tg_calm R w H) (tg_wf R w H) (R ++ [tier]) x []); [done| |done].
      by apply Forall_singleton.
Qed.

Lemma RemoveAll_snap w tier x :
  target R w → tier ∈ tiers → plain_seg x → w_nodes w !! (R ++ [tier]) = Some Dir →
  RemoveAll (path_Join [abs_str R; snap_name tier x]) w
  = (Ok tt, set_nodes (remove_below (snap_path R tier x) (w_nodes w)) w).
Proof.
  intros H Ht Hx Hd. rewrite path_Join_root_snap by (done || by eapply tg_plain).
  rewrite snap_path_tier. by apply RemoveAll_child; [apply H|apply H|..].
Qed.

Lemma target_remove_snap w tier x :
  target R w → target R (set_nodes (remove_below (snap_path R tier x) (w_nodes w)) w).
Proof.
  intros H. pose proof (target_remove_snaps w [(tier, x)] H) as H'. cbn in H'.
  by rewrite remove_paths_cons, remove_paths_nil in H'.
Qed.

(** ** Retention *)

(** The names a tier loses: all but the [keep] greatest. *)
Definition expired (keep : Z) (names : list string) : list string :=
  if decide (keep < 0) then [] else take (length names - Z.to_nat keep) names.

Lemma expired_nil keep : expired keep [] = [].
Proof. unfold expired. destruct (decide _); [done|]. apply take_nil. Qed.

Lemma expired_cons keep x names :
  0 ≤ keep → keep < Z.of_nat (length (x :: names)) →
  expired keep (x :: names) = x :: expired keep names.
Proof.
  intros H0 Hk. unfold expired. rewrite !decide_False by lia. cbn [length] in *.
  destruct (Z.to_nat keep) as [|k] eqn:Hz; cbn [Nat.sub].
  - by rewrite Nat.sub_0_r.
  - replace (length names - k)%nat with (S (length names - S k)) by lia. done.
Qed.

Lemma expired_none keep names : Z.of_nat (length names) ≤ keep → expired keep names = [].
Proof.
  intros Hk. unfold expired. destruct (decide _); [done|].
  by replace (length names - Z.to_nat keep)%nat with 0%nat by lia.
Qed.

Lemma prune_tier_spec tier keep names : ∀ w removed,
  target R w → tier ∈ tiers → 0 ≤ keep → Forall plain_seg names →
  (names ≠ [] → w_nodes w !! (R ++ [tier]) = Some Dir) →
  prune_tier (abs_str R) tier keep names removed w
  = (Ok (removed ++ (snap_name tier <$> expired keep names), None),
     set_nodes (remove_paths (snap_path R tier <$> expired keep names) (w_nodes w)) w).
Proof.
  induction names as [|x names IH]; intros w removed H Ht Hk Hp Hd.
  { rewrite expired_nil. cbn. by rewrite (right_id_L [] (++)), remove_paths_nil, set_nodes_id. }
  apply Forall_cons in Hp as [Hx Hp]. cbn [prune_tier].
  destruct (decide (Z.of_nat (length (x :: names)) > keep)) as [Hgt|Hle].
  - rewrite expired_cons by lia. unfold try, mbind, M_bind at 1.
    rewrite (path_Join_snap tier x) by done. rewrite RemoveAll_snap by auto.
    rewrite IH; [|by apply target_remove_snap|done..|].
    + cbn [fmap list_fmap]. rewrite remove_paths_cons, set_nodes_set_nodes, set_nodes_nodes.
      by rewrite <-(assoc_L (++)).
    + intros _. rewrite set_nodes_nodes, lookup_remove_below.
      rewrite decide_False by apply below_snap_tier. auto.
  - rewrite expired_none by lia. cbn. rewrite (right_id_L [] (++)), remove_paths_nil.
    by rewrite set_nodes_id.
Qed.

(** What one tier loses in a tree. *)
Definition tier_expired (policy : RetentionPolicy) (m : gmap fpath node) (tier : string)
    : list string :=
  expired (tier_keep policy tier) (dir_names m (R ++ [tier])).

Lemma retain_tier_spec w policy tier removed :
  target R w → tier ∈ tiers →
  retain_tier (abs_str R) tier (tier_keep policy tier) removed w
  = (Ok (removed ++ (snap_name tier <$> tier_expired policy (w_nodes w) tier), None),
     set_nodes (remove_paths (snap_path R tier <$> tier_expired policy (w_nodes w) tier)
       (w_nodes w)) w).
Proof.
  intros H Ht. unfold retain_tier, tier_expired.
  destruct (decide (tier_keep policy tier < 0)) as [Hneg|Hpos].
  { unfold expired. rewrite decide_True by done. cbn.
    by rewrite (right_id_L [] (++)), remove_paths_nil, set_nodes_id. }
  unfold try, mbind, M_bind at 1.
  destruct (ReadDir_tier w tier H Ht) as [->|(Hm & e & -> & He)].
  - rewrite sort_Strings_id by apply dir_names_sorted. apply prune_tier_spec; [done|done|lia| |].
    + apply Forall_forall. intros x Hx. apply elem_of_dir_names in Hx.
      rewrite <-snap_path_tier in Hx. by eapply tg_snap_plain.
    + intros Hne. destruct (tg_tier R w H tier Ht) as [Hn|Hn]; [|done].
      change ((filter _ _).*1) with (dir_names (w_nodes w) (R ++ [tier])) in Hne.
      by rewrite dir_names_missing in Hne.
  - rewrite He, dir_names_missing, expired_nil by done. cbn.
    by rewrite (right_id_L [] (++)), remove_paths_nil, set_nodes_id.
Qed.

(** The [latest] link is dropped when the snapshot it names is gone. *)
Definition drop_dangling (m : gmap fpath node) : gmap fpath node :=
  match m !! (R ++ ["latest"]) with
  | Some (Symlink t) =>
      if decide (m !! (R ++ kept_segs t) = None) then delete (R ++ ["latest"]) m else m
  | _ => m
  end.

Lemma kept_segs_snap tier x : tier ∈ tiers → plain_seg x → kept_segs (snap_name tier x) = [tier; x].
Proof.
  intros [Ht _]%tier_plain Hx. apply kept_segs_Join; [done|]. by apply plain_two.
Qed.

Lemma lookup_drop_dangling m q :
  drop_dangling m !! q = m !! q ∨ q = R ++ ["latest"] ∧ drop_dangling m !! q = None.
Proof.
  unfold drop_dangling. destruct (m !! (R ++ ["latest"])) as [[]|]; try by left.
  destruct (decide _); [|by left]. destruct (decide (q = R ++ ["latest"])) as [->|Hne].
  - right. by rewrite lookup_delete_eq.
  - left. by rewrite lookup_delete_ne.
Qed.

Lemma drop_dangling_other m q : q ≠ R ++ ["latest"] → drop_dangling m !! q = m !! q.
Proof. destruct (lookup_drop_dangling m q) as [|[-> _]]; [done|by intros []]. Qed.

Lemma snap_not_latest tier x : snap_path R tier x ≠ R ++ ["latest"].
Proof. unfold snap_path. intros He%app_inv_head. discriminate. Qed.

Lemma tier_not_latest tier : tier ∈ tiers → R ++ [tier] ≠ R ++ ["latest"].
Proof. intros Ht He%app_inv_head. injection He as He. by apply (tier_latest tier). Qed.

Lemma target_drop_dangling w :
  target R w → target R (set_nodes (drop_dangling (w_nodes w)) w).
Proof.
  intros H. split; rewrite ?set_nodes_nodes.
  - unfold drop_dangling. destruct (w_nodes w !! (R ++ ["latest"])) as [[]|] eqn:Hl; try apply H.
    destruct (decide _); [|apply H]. by eapply wf_delete; [apply H|..].
  - apply set_nodes_calm, H.
  - rewrite drop_dangling_other; [apply H|]. intros He. apply (f_equal length) in He.
    rewrite length_app in He. cbn in He. lia.
  - intros tier Ht. rewrite drop_dangling_other by (by apply tier_not_latest). by apply H.
  - intros tier x t Ht. rewrite drop_dangling_other by apply snap_not_latest. by apply H.
  - intros n. destruct (lookup_drop_dangling (w_nodes w) (R ++ ["latest"])) as [->|[_ ->]]; [apply H|done].
Qed.

Lemma cleanupDanglingLatest_spec w :
  target R w →
  cleanupDanglingLatest (abs_str R) w = (Ok tt, set_nodes (drop_dangling (w_nodes w)) w).
Proof.
  intros H. pose proof (tg_wf R w H) as Hwf. pose proof (tg_calm R w H) as Hc.
  unfold cleanupDanglingLatest, drop_dangling.
  rewrite path_Join_abs_str_1 by (done || by eapply tg_plain).
  destruct (w_nodes w !! (R ++ ["latest"])) as [n|] eqn:Hl.
  - erewrite run_try by by apply Lstat_node.
    destruct (tg_latest R w H n Hl) as (tier & x & Ht & Hx & Hb & ->).
    erewrite run_bind by by apply Readlink_node.
    change (strings_Join [tier; x] "/") with (snap_name tier x).
    rewrite (Normalize_snap tier x), (kept_segs_snap tier x) by done.
    rewrite path_Join_root_snap by (done || by eapply tg_plain).
    pose proof (Stat_snap w tier x H Ht Hx) as Hs. unfold snap_path in *.
    destruct (w_nodes w !! (R ++ [tier; x])) as [n|] eqn:Hn.
    + erewrite run_try by exact Hs. rewrite decide_False by done. by rewrite set_nodes_id.
    + destruct Hs as (e & Hs & He). erewrite run_try by exact Hs. cbv beta iota.
      rewrite He, decide_True by done. by erewrite Remove_node.
  - destruct (Lstat_missing w Hc Hwf R "latest") as (e & Hs & He); [apply H|done|done|].
    erewrite run_try by exact Hs. cbv beta iota. rewrite He. by rewrite set_nodes_id.
Qed.

(** The snapshots the whole pass removes. *)
Definition all_expired (policy : RetentionPolicy) (m : gmap fpath node) (ts : list string)
    : list (string * string) :=
  ts ≫= λ tier, (λ x, (tier, x)) <$> tier_expired policy m tier.

Definition snap_of (tx : string * string) : fpath := snap_path R tx.1 tx.2.
Definition name_of (tx : string * string) : string := snap_name tx.1 tx.2.

Lemma dir_names_remove_other tier l m tier' :
  tier ≠ tier' →
  dir_names (remove_paths (snap_path R tier <$> l) m) (R ++ [tier']) = dir_names m (R ++ [tier']).
Proof.
  intros Hne. apply dir_names_ext. intros x. rewrite lookup_remove_snaps; [done|].
  intros p (y & -> & _)%list_elem_of_fmap. rewrite <-snap_path_tier, below_snap_snap. naive_solver.
Qed.

Lemma all_expired_remove policy tier l m ts :
  tier ∉ ts →
  all_expired policy (remove_paths (snap_path R tier <$> l) m) ts = all_expired policy m ts.
Proof.
  intros Hne. induction ts as [|t ts IH]; [done|]. rewrite not_elem_of_cons in Hne.
  unfold all_expired in *. cbn. rewrite IH by naive_solver. f_equal. unfold tier_expired.
  by rewrite dir_names_remove_other by naive_solver.
Qed.

Lemma retain_tiers_spec policy ts : ∀ w removed,
  target R w → NoDup ts → (∀ tier, tier ∈ ts → tier ∈ tiers) →
  let l := all_expired policy (w_nodes w) ts in
  retain_tiers (abs_str R) policy ts removed w
  = (Ok (removed ++ (name_of <$> l), None),
     set_nodes (drop_dangling (remove_paths (snap_of <$> l) (w_nodes w))) w).
Proof.
  induction ts as [|tier ts IH]; intros w removed H Hnd Hts l.
  - subst l. cbn. unfold try, mbind, M_bind. rewrite cleanupDanglingLatest_spec by done.
    by rewrite (right_id_L [] (++)), remove_paths_nil.
  - apply NoDup_cons in Hnd as [Hn Hnd]. cbn [retain_tiers]. unfold mbind, M_bind at 1.
    rewrite retain_tier_spec by set_solver. cbn.
    set (e := tier_expired policy (w_nodes w) tier).
    pose proof (target_remove_snaps w ((λ x, (tier, x)) <$> e) H) as H'.
    rewrite <-list_fmap_compose in H'. change (_ ∘ _) with (snap_path R tier) in H'.
    rewrite IH by (done || set_solver). rewrite set_nodes_nodes, set_nodes_set_nodes.
    rewrite all_expired_remove by done.
    assert (l = ((λ x, (tier, x)) <$> e) ++ all_expired policy (w_nodes w) ts) as -> by done.
    rewrite !fmap_app, remove_paths_app, <-!list_fmap_compose, <-(assoc_L (++)). done.
Qed.

Lemma NoDup_tiers : NoDup tiers.
Proof. apply (bool_decide_unpack _). by vm_compute. Qed.

Lemma ApplyRetention_spec w policy :
  target R w →
  let l := all_expired policy (w_nodes w) tiers in
  ApplyRetention (abs_str R) policy w
  = (Ok (name_of <$> l, None),
     set_nodes (drop_dangling (remove_paths (snap_of <$> l) (w_nodes w))) w).
Proof. intros H. apply (retain_tiers_spec policy tiers w []); [done|apply NoDup_tiers|done]. Qed.
End target.

(** ** Checking the invariant on a concrete tree *)

Definition wf_check (m : gmap fpath node) : Prop :=
  m !! [] = Some Dir ∧
  map_Forall (λ p _, Forall plain_seg p ∧ m !! take (length p - 1) p = Some Dir) m.

#[export] Instance wf_check_dec m : Decision (wf_check m).
Proof. unfold wf_check. apply _. Defined.

Lemma wf_check_sound m : wf_check m → wf_tree m.
Proof.
  intros [Hr Hm]. split; [done|..].
  - intros p x n Hn. apply Hm in Hn as [_ Hn].
    by rewrite length_app, Nat.add_sub, take_app_length in Hn.
  - intros p n Hn. by apply Hm in Hn as [Hn _].
Qed.

Definition latest_check (n : node) : Prop :=
  match n with
  | Symlink t =>
      match kept_segs t with
      | [tier; x] => tier ∈ tiers ∧ plain_seg x ∧ ContainsByte x backslash = false
                     ∧ t = strings_Join [tier; x] "/"
      | _ => False
      end
  | _ => False
  end.
#[export] Instance latest_check_dec n : Decision (latest_check n).
Proof. destruct n; cbn; [apply _|apply _| |apply _]. destruct (kept_segs _) as [|? [|? [|]]]; apply _. Defined.

Definition not_symlink (n : node) : Prop := match n with Symlink _ => False | _ => True end.
#[export] Instance not_symlink_dec n : Decision (not_symlink n).
Proof. destruct n; cbn; apply _. Defined.

Definition target_check (R : fpath) (w : world) : Prop :=
  wf_check (w_nodes w) ∧ length (w_faults w) = 0%nat ∧ w_nodes w !! R = Some Dir ∧
  Forall (λ tier, from_option (λ n, n = Dir) True (w_nodes w !! (R ++ [tier]))) tiers ∧
  map_Forall (λ q n, Forall (λ tier, take (length q - 1) q = R ++ [tier] → not_symlink n) tiers)
    (w_nodes w) ∧
  from_option latest_check True (w_nodes w !! (R ++ ["latest"])).

#[export] Instance from_option_dec {A} (P : A → Prop) `{∀ x, Decision (P x)} (o : option A) :
  Decision (from_option P True o).
Proof. destruct o; cbn; apply _. Defined.

#[export] Instance target_check_dec R w : Decision (target_check R w).
Proof. unfold target_check. apply _. Defined.

Lemma target_check_sound R w : target_check R w → target R w.
Proof.
  intros (Hwf & Hc & HR & Ht & Hs & Hl). split.
  - by apply wf_check_sound.
  - by apply nil_length_inv.
  - done.
  - intros tier Hin. eapply Forall_forall in Ht; [|done].
    destruct (w_nodes w !! (R ++ [tier])) as [n|]; cbn in Ht; [right; by subst|by left].
  - intros tier x t Hin Hn. apply Hs in Hn as Hf. eapply Forall_forall in Hf; [|done].
    apply Hf. change [tier; x] with ([tier] ++ [x]). rewrite (assoc_L (++)), length_app, Nat.add_sub.
    apply take_app_length.
  - intros n Hn. rewrite Hn in Hl. cbn in Hl. unfold latest_check in Hl.
    destruct n as [| |t|]; try done. destruct (kept_segs t) as [|tier [|x [|]]]; try done.
    exists tier, x. naive_solver.
Qed.

(** ** What retention keeps *)

(** The [keep] greatest of a sorted list of names; a negative count keeps all. *)
Definition newest (keep : Z) (names : list string) : list string :=
  if decide (keep < 0) then names else drop (length names - Z.to_nat keep) names.

Lemma expired_newest keep names : expired keep names ++ newest keep names = names.
Proof. unfold expired, newest. destruct (decide _); [done|]. apply take_drop. Qed.

Lemma elem_of_newest keep names x :
  NoDup names → x ∈ newest keep names ↔ x ∈ names ∧ x ∉ expired keep names.
Proof.
  intros Hnd. rewrite <-(expired_newest keep names) in Hnd at 1.
  rewrite <-(expired_newest keep names) at 2. apply NoDup_app in Hnd as (_ & Hd & _). set_solver.
Qed.

Lemma newest_sublist keep names : newest keep names `sublist_of` names.
Proof. rewrite <-(expired_newest keep names) at 2. by apply sublist_inserts_l. Qed.

Lemma length_newest keep names : 0 ≤ keep → Z.of_nat (length (newest keep names)) ≤ keep.
Proof. intros Hk. unfold newest. rewrite decide_False by lia. rewrite length_drop. lia. Qed.

Lemma expired_newest_nil keep names : expired keep (newest keep names) = [].
Proof.
  destruct (decide (keep < 0)) as [Hk|Hk].
  - unfold expired. by rewrite decide_True.
  - apply expired_none, length_newest. lia.
Qed.

(** Everything expired is smaller than everything kept. *)
Lemma expired_le_newest keep names x y :
  StronglySorted String.le names → x ∈ expired keep names → y ∈ newest keep names → String.le x y.
Proof.
  intros Hs. rewrite <-(expired_newest keep names) in Hs.
  by apply StronglySorted_app_1_elem_of.
Qed.

Section retention.
Context (R : fpath) (policy : RetentionPolicy).

Definition retained (m : gmap fpath node) : gmap fpath node :=
  drop_dangling R (remove_paths (snap_of R <$> all_expired R policy m tiers) m).

Lemma elem_of_all_expired m ts tier x :
  (tier, x) ∈ all_expired R policy m ts ↔ tier ∈ ts ∧ x ∈ tier_expired R policy m tier.
Proof.
  unfold all_expired. rewrite list_elem_of_bind. setoid_rewrite list_elem_of_fmap. naive_solver.
Qed.

Lemma NoDup_all_expired m : NoDup (all_expired R policy m tiers).
Proof.
  apply NoDup_bind; [|intros tier _|apply NoDup_tiers].
  - intros t1 t2 y _ _ (? & -> & _)%list_elem_of_fmap (? & [= -> _] & _)%list_elem_of_fmap. done.
  - apply NoDup_fmap_2; [by intros ? ? [= ->]|]. unfold tier_expired, expired.
    eapply sublist_NoDup; [apply NoDup_dir_names|]. destruct (decide _); [apply sublist_nil_l|apply sublist_take].
Qed.

Lemma lookup_retained_snap m tier x :
  tier ∈ tiers →
  retained m !! snap_path R tier x =
  if decide (x ∈ tier_expired R policy m tier) then None else m !! snap_path R tier x.
Proof.
  intros Ht. unfold retained. rewrite drop_dangling_other by apply snap_not_latest.
  rewrite lookup_remove_paths. apply decide_ext. rewrite Exists_exists. split.
  - intros (p & ([t y] & -> & Hin)%list_elem_of_fmap & Hb). unfold snap_of in Hb. cbn in Hb.
    apply below_snap_snap in Hb as [-> ->]. by apply elem_of_all_expired in Hin as [_ ?].
  - intros Hx. exists (snap_path R tier x). split; [|apply below_refl].
    apply list_elem_of_fmap. exists (tier, x). split; [done|]. by apply elem_of_all_expired.
Qed.

Lemma dir_names_retained m tier :
  tier ∈ tiers →
  dir_names (retained m) (R ++ [tier]) = newest (tier_keep policy tier) (dir_names m (R ++ [tier])).
Proof.
  intros Ht. apply dir_names_unique.
  - eapply StronglySorted_sublist; [apply newest_sublist|apply dir_names_sorted].
  - eapply sublist_NoDup; [apply NoDup_dir_names|apply newest_sublist].
  - intros x. rewrite elem_of_newest by apply NoDup_dir_names.
    rewrite elem_of_dir_names, <-snap_path_tier, lookup_retained_snap by done.
    unfold tier_expired. destruct (decide _); naive_solver.
Qed.

Lemma all_expired_retained m : all_expired R policy (retained m) tiers = [].
Proof.
  unfold all_expired. assert (∀ ts, (∀ t, t ∈ ts → t ∈ tiers) →
    (ts ≫= λ tier, (λ x, (tier, x)) <$> tier_expired R policy (retained m) tier) = []) as H.
  { induction ts as [|t ts IH]; intros Hts; [done|]. cbn. rewrite IH by set_solver.
    unfold tier_expired. rewrite dir_names_retained by set_solver. by rewrite expired_newest_nil. }
  by apply H.
Qed.

Lemma target_retained w : target R w → target R (set_nodes (retained (w_nodes w)) w).
Proof.
  intros H. pose proof (target_remove_snaps R w (all_expired R policy (w_nodes w) tiers) H) as H'.
  apply target_drop_dangling in H'. by rewrite set_nodes_nodes, set_nodes_set_nodes in H'.
Qed.

(** After retention the link never dangles. *)
Lemma drop_dangling_idem m : drop_dangling R (drop_dangling R m) = drop_dangling R m.
Proof.
  unfold drop_dangling at 2 3. destruct (m !! (R ++ ["latest"])) as [[]|] eqn:Hl;
    try (unfold drop_dangling; by rewrite Hl).
  destruct (decide _) as [Hd|Hd]; unfold drop_dangling.
  - by rewrite lookup_delete_eq.
  - rewrite Hl. by rewrite decide_False.
Qed.
End retention.

(** A volume with three hourly snapshots, one daily copy and a [latest] link. *)
Definition sample_nodes : gmap fpath node := list_to_map
  [([], Dir); (["t"], Dir); (["t"; "hourly"], Dir); (["t"; "daily"], Dir);
   (["t"; "hourly"; "2024-05-01T00-00-00Z"], Dir);
   (["t"; "hourly"; "2024-05-01T00-00-00Z"; "apps"], Dir);
   (["t"; "hourly"; "2024-05-01T00-00-00Z"; "apps"; "f"], File 0);
   (["t"; "hourly"; "2024-05-01T01-00-00Z"], Dir);
   (["t"; "hourly"; "2024-05-01T01-00-00Z"; "apps"], Dir);
   (["t"; "hourly"; "2024-05-01T02-00-00Z"], Dir);
   (["t"; "daily"; "2024-05-01"], Dir);
   (["t"; "daily"; "2024-05-01"; "f"], File 0);
   (["t"; "latest"], Symlink "hourly/2024-05-01T00-00-00Z");
   (["t"; ".partial"], Dir); (["t"; ".partial"; "run-9"], Dir);
   (["t"; ".partial"; "run-9"; "apps"], Dir); (["t"; ".partial"; "run-9"; "apps"; "g"], File 1);
   (["t"; ".partial"; "run-8"], Dir)].

Definition sample_world : world :=
  MkWorld sample_nodes {[0%nat := "one"; 1%nat := "two"]} 2 [] [] (λ p, Z.of_nat (length p))
    (λ m, (Z.of_nat (100 - size m)%nat, 10)).

Lemma sample_target : target ["t"] sample_world.
Proof. apply target_check_sound. apply (bool_decide_unpack _). by vm_compute. Qed.

(** C23: ApplyRetention on a target volume succeeds and leaves in every tier with a non-negative
    count exactly the that many greatest snapshot names, in every other tier all of them, and it
    reports exactly the snapshots it removed, once each. *)
Theorem ApplyRetention_keeps_newest R policy w :
  target R w →
  ∃ removed w', ApplyRetention (abs_str R) policy w = (Ok (removed, None), w') ∧ target R w' ∧
    (∀ tier, tier ∈ tiers →
      dir_names (w_nodes w') (R ++ [tier])
      = newest (tier_keep policy tier) (dir_names (w_nodes w) (R ++ [tier]))) ∧
    NoDup removed ∧
    (∀ s, s ∈ removed ↔ ∃ tier x, s = strings_Join [tier; x] "/" ∧ tier ∈ tiers ∧
      x ∈ dir_names (w_nodes w) (R ++ [tier]) ∧ x ∉ dir_names (w_nodes w') (R ++ [tier])).
Proof.
  intros H. eexists _, _. split; [by apply ApplyRetention_spec|].
  split; [by apply target_retained|]. rewrite set_nodes_nodes.
  split; [intros; by apply dir_names_retained|]. split.
  { apply NoDup_fmap_2_strong; [|apply NoDup_all_expired].
    intros [t1 x1] [t2 x2] [Ht1 Hx1]%elem_of_all_expired [Ht2 Hx2]%elem_of_all_expired He.
    assert (∀ t x, t ∈ tiers → x ∈ tier_expired R policy (w_nodes w) t → plain_seg x) as Hplain.
    { intros t x Ht Hx. apply (tg_snap_plain R w t x Dir H). unfold snap_path. change [t; x] with ([t] ++ [x]). rewrite (assoc_L (++)).
      apply (elem_of_dir_names (w_nodes w) (R ++ [t]) x).
      unfold tier_expired in Hx. rewrite <-(expired_newest (tier_keep policy t)). set_solver. }
    unfold name_of in He. cbn [fst snd] in He.
    apply snap_name_inj in He as [-> ->]; eauto. }
  intros s. rewrite list_elem_of_fmap. split.
  - intros ([tier x] & -> & [Ht Hx]%elem_of_all_expired). exists tier, x.
    change (drop_dangling R _) with (retained R policy (w_nodes w)).
    rewrite dir_names_retained, elem_of_newest by (done || apply NoDup_dir_names).
    split; [done|]. split; [done|]. split; [|naive_solver].
    unfold tier_expired in Hx. rewrite <-(expired_newest (tier_keep policy tier)). set_solver.
  - change (drop_dangling R _) with (retained R policy (w_nodes w)).
    intros (tier & x & -> & Ht & Hx & Hnx). exists (tier, x). split; [done|].
    rewrite dir_names_retained, elem_of_newest in Hnx by (done || apply NoDup_dir_names).
    apply elem_of_all_expired. split; [done|]. unfold tier_expired.
    destruct (decide (x ∈ expired (tier_keep policy tier) (dir_names (w_nodes w) (R ++ [tier]))));
      naive_solver.
Qed.

Lemma ApplyRetention_keeps_newest_witness :
  target ["t"] sample_world ∧
  ∃ removed w', ApplyRetention "/t" (MkRetentionPolicy 2 0 1 (-1)) sample_world
    = (Ok (removed, None), w') ∧
    dir_names (w_nodes w') ["t"; "hourly"] = ["2024-05-01T01-00-00Z"; "2024-05-01T02-00-00Z"] ∧
    dir_names (w_nodes w') ["t"; "daily"] = [].
Proof.
  split; [exact sample_target|].
  destruct (ApplyRetention_keeps_newest ["t"] (MkRetentionPolicy 2 0 1 (-1)) sample_world
    sample_target) as (removed & w' & Hr & _ & Hn & _).
  exists removed, w'. split; [exact Hr|]. split.
  - etransitivity; [apply (Hn "hourly"); apply (bool_decide_unpack _); by vm_compute|by vm_compute].
  - etransitivity; [apply (Hn "daily"); apply (bool_decide_unpack _); by vm_compute|by vm_compute].
Defined.

(** ApplyRetention only removes: nothing is added or changed, a node outside the snapshots it
    reports stays, the content of every file is untouched, and the latest link is gone
    afterwards only when the snapshot it names is gone, so it never dangles. *)
Theorem ApplyRetention_frame R policy w :
  target R w →
  ∃ removed w', ApplyRetention (abs_str R) policy w = (Ok (removed, None), w') ∧
    w_data w' = w_data w ∧ w_nodes w' ⊆ w_nodes w ∧
    (∀ q n, w_nodes w !! q = Some n → q ≠ R ++ ["latest"] →
      w_nodes w' !! q = Some n ∨ ∃ tier x, strings_Join [tier; x] "/" ∈ removed ∧
        (R ++ [tier; x]) `prefix_of` q) ∧
    (∀ tier x, w_nodes w !! (R ++ ["latest"]) = Some (Symlink (strings_Join [tier; x] "/")) →
      tier ∈ tiers → plain_seg x →
      (is_Some (w_nodes w' !! (R ++ ["latest"])) ↔ is_Some (w_nodes w' !! (R ++ [tier; x])))).
Proof.
  intros H. eexists _, _. split; [by apply ApplyRetention_spec|]. rewrite set_nodes_nodes.
  set (ps := snap_of R <$> all_expired R policy (w_nodes w) tiers).
  split; [done|]. split; [|split].
  - apply map_subseteq_spec. intros q n Hq.
    destruct (lookup_drop_dangling R (remove_paths ps (w_nodes w)) q) as [He|[_ He]];
      rewrite He in Hq; [|done].
    rewrite lookup_remove_paths in Hq. by destruct (decide _).
  - intros q n Hq Hne. rewrite drop_dangling_other by done. rewrite lookup_remove_paths.
    destruct (decide _) as [Hex|]; [right|by left].
    apply Exists_exists in Hex as (p & ([tier x] & -> & Hin)%list_elem_of_fmap & Hb).
    exists tier, x. split; [|done]. apply list_elem_of_fmap. by exists (tier, x).
  - intros tier x Hl Ht Hx. unfold drop_dangling.
    assert (remove_paths ps (w_nodes w) !! (R ++ ["latest"])
      = Some (Symlink (snap_name tier x))) as Hl'.
    { rewrite lookup_remove_snaps; [done|].
      intros p ([t y] & -> & _)%list_elem_of_fmap. apply below_snap_tier. }
    rewrite Hl', kept_segs_snap by done. destruct (decide _) as [Hd|Hd].
    + rewrite lookup_delete_eq. rewrite lookup_delete_ne by (apply not_eq_sym, snap_not_latest).
      rewrite Hd. by split; intros [].
    + rewrite Hl'. split; intros _; [by apply not_eq_None_Some|eauto].
Qed.

Lemma ApplyRetention_frame_witness :
  target ["t"] sample_world ∧
  ∃ removed w', ApplyRetention "/t" (MkRetentionPolicy 2 0 1 (-1)) sample_world
    = (Ok (removed, None), w') ∧
    (is_Some (w_nodes w' !! ["t"; "latest"])
     ↔ is_Some (w_nodes w' !! ["t"; "hourly"; "2024-05-01T00-00-00Z"])).
Proof.
  split; [exact sample_target|].
  destruct (ApplyRetention_frame ["t"] (MkRetentionPolicy 2 0 1 (-1)) sample_world sample_target)
    as (removed & w' & Hr & _ & _ & _ & Hl).
  exists removed, w'. split; [exact Hr|].
  apply (Hl "hourly" "2024-05-01T00-00-00Z"); [reflexivity|apply (bool_decide_unpack _); by vm_compute..].
Defined.

(** Applying retention a second time removes nothing and changes nothing. *)
Theorem ApplyRetention_idempotent R policy w :
  target R w →
  ∃ removed w', ApplyRetention (abs_str R) policy w = (Ok (removed, None), w') ∧
    ApplyRetention (abs_str R) policy w' = (Ok ([], None), w').
Proof.
  intros H. eexists _, _. split; [by apply ApplyRetention_spec|].
  change (drop_dangling R _) with (retained R policy (w_nodes w)).
  rewrite ApplyRetention_spec by by apply target_retained.
  rewrite set_nodes_nodes, all_expired_retained. cbn [fmap list_fmap]. rewrite remove_paths_nil.
  rewrite set_nodes_set_nodes. unfold retained. by rewrite drop_dangling_idem.
Qed.

Lemma ApplyRetention_idempotent_witness :
  target ["t"] sample_world ∧
  ∃ removed w', ApplyRetention "/t" (MkRetentionPolicy 1 1 1 1) sample_world
      = (Ok (removed, None), w') ∧
    ApplyRetention "/t" (MkRetentionPolicy 1 1 1 1) w' = (Ok ([], None), w').
Proof.
  split; [exact sample_target|].
  exact (ApplyRetention_idempotent ["t"] (MkRetentionPolicy 1 1 1 1) sample_world sample_target).
Defined.

(** ** Names and times *)

Lemma str_compare_lt x y : String.le x y → x ≠ y → String.compare x y = Lt.
Proof.
  intros Hle%le_compare Hne. destruct (String.compare x y) eqn:Hc; [|done..].
  by apply String.compare_eq_iff in Hc.
Qed.

Lemma format_date_compare_nil t1 t2 :
  four_digit_year t1 → four_digit_year t2 →
  String.compare (format_date t1) (format_date t2) = Z.compare (t1 `div` day_ns) (t2 `div` day_ns).
Proof.
  intros H1 H2. pose proof (format_date_compare t1 t2 "" "" H1 H2) as H.
  rewrite !str_app_nil_r in H. rewrite H. by destruct (Z.compare _ _).
Qed.

Definition non_digit (c : ascii) : Prop := (nat_of_ascii c < 48 ∨ 57 < nat_of_ascii c)%nat.

Lemma non_digit_slash : non_digit slash.
Proof. left. apply Nat.ltb_lt. reflexivity. Qed.

Lemma ContainsByte_pad w n c : non_digit c → ContainsByte (pad w n) c = false.
Proof.
  intros Hc. revert n. induction w as [|w IH]; intros n; [done|]. cbn [pad].
  rewrite ContainsByte_app, IH. cbn. rewrite orb_false_r. apply bool_decide_false. intros He.
  pose proof (nat_of_digit n) as Hd. pose proof (Z.mod_pos_bound n 10 ltac:(lia)).
  unfold non_digit in Hc. rewrite He in Hd || rewrite <-He in Hd. lia.
Qed.

Lemma ContainsByte_format_date t c :
  four_digit_year t → non_digit c → c ≠ "-"%char → ContainsByte (format_date t) c = false.
Proof.
  unfold four_digit_year, format_date. intros Hy Hc Hne.
  destruct (Time_Date t) as [[y m] d]. cbn in Hy. unfold format_year. rewrite decide_True by done.
  rewrite !ContainsByte_app, !ContainsByte_pad by done. cbn.
  by rewrite bool_decide_false by naive_solver.
Qed.

Lemma length_format_date t : four_digit_year t → String.length (format_date t) = 10%nat.
Proof.
  unfold four_digit_year, format_date. intros Hy. destruct (Time_Date t) as [[y m] d]. cbn in Hy.
  unfold format_year. rewrite decide_True by done. by rewrite !length_app_str, !length_pad.
Qed.

Lemma plain_long x : (2 < String.length x)%nat → ContainsByte x slash = false → plain_seg x.
Proof. intros Hl Hs. repeat split; try done; intros ->; cbn in Hl; lia. Qed.

Lemma plain_format_date t : four_digit_year t → plain_seg (format_date t).
Proof.
  intros Ht. apply plain_long; [rewrite length_format_date by done; lia|].
  apply ContainsByte_format_date; [done|apply non_digit_slash|done].
Qed.

Lemma ContainsByte_format_snapshot t c :
  four_digit_year t → non_digit c → c ∉ ["-"; "T"; "Z"]%char →
  ContainsByte (format_snapshot t) c = false.
Proof.
  intros Ht Hc Hn. rewrite !not_elem_of_cons in Hn. destruct Hn as (H1 & H2 & H3 & _).
  unfold format_snapshot, format_clock. cbv zeta.
  rewrite !ContainsByte_app, ContainsByte_format_date, !ContainsByte_pad by done. cbn.
  by rewrite !bool_decide_false by naive_solver.
Qed.

Lemma plain_format_snapshot t : four_digit_year t → plain_seg (format_snapshot t).
Proof.
  intros Ht. apply plain_long.
  - unfold format_snapshot. rewrite length_app_str, length_format_date by done. lia.
  - apply ContainsByte_format_snapshot; [done|apply non_digit_slash|].
    apply (bool_decide_unpack _). by vm_compute.
Qed.

(** Retention deletes the past: with snapshot names written by the program for years of four
    digits, a removed hourly snapshot is at least a second older than every hourly snapshot that
    is kept, and a removed daily or weekly snapshot is of an earlier day than every kept one. *)
Theorem ApplyRetention_removes_oldest R policy w :
  target R w →
  ∃ removed w', ApplyRetention (abs_str R) policy w = (Ok (removed, None), w') ∧
    ∀ t1 t2, four_digit_year t1 → four_digit_year t2 →
      (strings_Join ["hourly"; format_snapshot t1] "/" ∈ removed →
       w_nodes w' !! (R ++ ["hourly"; format_snapshot t2]) = Some Dir →
       t1 `div` 10 ^ 9 < t2 `div` 10 ^ 9) ∧
      (∀ tier, tier = "daily" ∨ tier = "weekly" →
       strings_Join [tier; format_date t1] "/" ∈ removed →
       w_nodes w' !! (R ++ [tier; format_date t2]) = Some Dir →
       t1 `div` day_ns < t2 `div` day_ns).
Proof.
  intros H. eexists _, _. split; [by apply ApplyRetention_spec|]. rewrite set_nodes_nodes.
  change (drop_dangling R _) with (retained R policy (w_nodes w)).
  assert (∀ tier x y, tier ∈ tiers →
    strings_Join [tier; x] "/" ∈ name_of <$> all_expired R policy (w_nodes w) tiers →
    plain_seg x → retained R policy (w_nodes w) !! snap_path R tier y = Some Dir →
    String.compare x y = Lt) as Hlt.
  { intros tier x y Ht Hx Hpx Hy. rewrite snap_path_tier in Hy.
    apply elem_of_dir_names in Hy. rewrite dir_names_retained in Hy by done.
    apply list_elem_of_fmap in Hx as ([tier' x'] & He & [Ht' Hx']%elem_of_all_expired).
    assert (plain_seg x') as Hpx'.
    { assert (x' ∈ dir_names (w_nodes w) (R ++ [tier'])) as Hin.
      { unfold tier_expired in Hx'. rewrite <-(expired_newest (tier_keep policy tier')). set_solver. }
      apply elem_of_dir_names in Hin. rewrite <-snap_path_tier in Hin. by eapply tg_snap_plain. }
    cbn in He. apply snap_name_inj in He as [<- <-]; [|done..].
    apply str_compare_lt.
    - eapply expired_le_newest; [apply dir_names_sorted|exact Hx'|exact Hy].
    - intros <-. by apply elem_of_newest in Hy as [_ ?]; [|apply NoDup_dir_names]. }
  intros t1 t2 H1 H2. split.
  - intros Hx Hy.
    pose proof (Hlt "hourly" _ _ ltac:(set_solver) Hx (plain_format_snapshot t1 H1) Hy) as Hc.
    by rewrite format_snapshot_compare in Hc.
  - intros tier Ht Hx Hy.
    assert (tier ∈ tiers) as Ht' by (destruct Ht as [->| ->]; set_solver).
    pose proof (Hlt tier _ _ Ht' Hx (plain_format_date t1 H1) Hy) as Hc.
    by rewrite format_date_compare_nil in Hc.
Qed.

Lemma ApplyRetention_removes_oldest_witness :
  target ["t"] sample_world ∧
  ∃ removed w' t1 t2, ApplyRetention "/t" (MkRetentionPolicy 2 0 1 (-1)) sample_world
      = (Ok (removed, None), w') ∧
    strings_Join ["hourly"; format_snapshot t1] "/" ∈ removed ∧
    w_nodes w' !! (["t"] ++ ["hourly"; format_snapshot t2]) = Some Dir ∧
    t1 `div` 10 ^ 9 < t2 `div` 10 ^ 9.
Proof.
  split; [exact sample_target|].
  destruct (ApplyRetention_removes_oldest ["t"] (MkRetentionPolicy 2 0 1 (-1)) sample_world
    sample_target) as (removed & w' & Hr & H).
  exists removed, w', (1714521600 * 10 ^ 9), (1714525200 * 10 ^ 9). split; [exact Hr|].
  assert (strings_Join ["hourly"; format_snapshot (1714521600 * 10 ^ 9)] "/" ∈ removed) as H1.
  { apply (f_equal (λ p, result_to_option p.1)) in Hr. vm_compute in Hr. injection Hr as <-.
    apply (bool_decide_unpack _). by vm_compute. }
  assert (w_nodes w' !! (["t"] ++ ["hourly"; format_snapshot (1714525200 * 10 ^ 9)]) = Some Dir)
    as H2.
  { apply (f_equal (λ p, w_nodes p.2 !! (["t"] ++ ["hourly"; format_snapshot (1714525200 * 10 ^ 9)])))
      in Hr. vm_compute in Hr. symmetry. exact Hr. }
  split; [exact H1|]. split; [exact H2|].
  apply (H (1714521600 * 10 ^ 9) (1714525200 * 10 ^ 9));
    [apply (bool_decide_unpack _); by vm_compute..|exact H1|exact H2].
Defined.
