(* ===== verification/Recovery.v ===== *)
(** * Space recovery, stale partial runs and the scan of restore points

    What [RecoverSpace], [CleanupStalePartials] and [ScanRestorePoints] of
    internal/dataplane/snapshot.go do on a target volume ([Retention.target]). *)
From S2P Require Export Retention.
From stdpp Require Import options.
From Stdlib Require Import Ascii.

(** ** The snapshots of a volume *)

(** Every snapshot directory, tier by tier. *)
Definition snapshots (R : fpath) (m : gmap fpath node) (ts : list string) : list (string * string) :=
  ts ≫= λ tier, (λ x, (tier, x)) <$> dir_names m (R ++ [tier]).

Lemma elem_of_snapshots R m ts tier x :
  (tier, x) ∈ snapshots R m ts ↔ tier ∈ ts ∧ m !! snap_path R tier x = Some Dir.
Proof.
  unfold snapshots. rewrite list_elem_of_bind. setoid_rewrite list_elem_of_fmap.
  rewrite snap_path_tier, <-elem_of_dir_names. naive_solver.
Qed.

Definition info_of (R : fpath) (w : world) (tx : string * string) : snapshotInfo :=
  MkSnapshotInfo (name_of tx) (w_mtime w (snap_of R tx)).

(** The free bytes of the volume when its tree is [m]. *)
Definition available_in (w : world) (m : gmap fpath node) : Z :=
  wrap_u64 (wrap_u64 (w_statfs w m).1 * wrap_u64 (w_statfs w m).2).

Lemma AvailableBytes_calm w p :
  calm w → wf_tree (w_nodes w) → w_nodes w !! p = Some Dir →
  AvailableBytes (abs_str p) w = (Ok (available_in w (w_nodes w)), w).
Proof.
  intros Hc Hwf Hp. unfold AvailableBytes.
  erewrite run_bind; [reflexivity|]. unfold Statfs. rewrite syscall_calm by done.
  rewrite segs_of_abs_str by (by eapply wf_names). by rewrite (look_node w true p Dir).
Qed.

#[export] Instance snapshotInfo_le_trans : Transitive snapshotInfo_le.
Proof.
  intros a b c. unfold snapshotInfo_le.
  intros [H1|[H1 H1']] [H2|[H2 H2']]; [left; lia..|]. right. split; [lia|].
  by eapply (transitivity (R := String.le)).
Qed.

#[export] Instance snapshotInfo_le_total : Total snapshotInfo_le.
Proof.
  intros a b. unfold snapshotInfo_le.
  destruct (Z.lt_total (si_modTime a) (si_modTime b)) as [|[|]]; [by left; left| |by right; left].
  destruct (total String.le (si_name a) (si_name b)); [left|right]; right; auto.
Qed.

Section recovery.
Context (R : fpath).

Lemma abs_str_nonempty l : abs_str l ≠ "".
Proof. done. Qed.

Lemma entry_info_spec w tier x n :
  target R w → tier ∈ tiers → w_nodes w !! snap_path R tier x = Some n →
  entry_info (abs_str R) tier x w = (Ok (info_of R w (tier, x)), w).
Proof.
  intros H Ht Hn. pose proof (tg_snap_plain R w tier x n H Hn) as Hx.
  pose proof (tier_plain tier Ht) as [Hp _]. unfold entry_info.
  rewrite path_Join_3 by (done || by apply plain_seg_nil_app).
  change (strings_Join [tier; x] "/") with (snap_name tier x).
  rewrite path_Join_root_snap by (done || by eapply tg_plain).
  erewrite run_bind by (apply Lstat_node; [apply H|apply H|exact Hn]).
  unfold modification_time. erewrite run_bind by reflexivity.
  rewrite segs_of_abs_str by (eapply wf_names; [apply H|done]).
  by rewrite path_Join_snap.
Qed.

Lemma tier_infos_spec w tier es infos :
  target R w → tier ∈ tiers → (∀ x n, (x, n) ∈ es → w_nodes w !! snap_path R tier x = Some n) →
  tier_infos (abs_str R) tier es infos w
  = (Ok (infos ++ ((λ x, info_of R w (tier, x)) <$> (filter (λ xn, IsDir xn.2 = true) es).*1)), w).
Proof.
  intros H Ht. revert infos. induction es as [|[x n] es IH]; intros infos Hes.
  { cbn. by rewrite (right_id_L [] (++)). }
  cbn [tier_infos]. rewrite filter_cons. cbn [snd]. destruct (IsDir n) eqn:Hd.
  - rewrite decide_True by done. erewrite run_bind by (eapply entry_info_spec; [done|done|apply Hes, list_elem_of_here]).
    rewrite IH by set_solver. cbn. by rewrite <-(assoc_L (++)).
  - rewrite decide_False by done. apply IH. set_solver.
Qed.

Lemma collect_infos_spec w ts infos :
  target R w → (∀ t, t ∈ ts → t ∈ tiers) →
  collect_infos (abs_str R) ts infos w
  = (Ok (infos ++ (info_of R w <$> snapshots R (w_nodes w) ts)), w).
Proof.
  intros H. revert infos. induction ts as [|tier ts IH]; intros infos Hts.
  { cbn. by rewrite (right_id_L [] (++)). }
  cbn [collect_infos]. unfold snapshots. cbn. fold (snapshots R (w_nodes w) ts).
  rewrite fmap_app, <-list_fmap_compose, (assoc_L (++)).
  destruct (ReadDir_tier R w tier H) as [Hr|(Hm & e & Hr & He)]; [set_solver|..];
    erewrite run_try by exact Hr; cbv beta iota.
  - erewrite run_bind; [|apply tier_infos_spec; [done|set_solver|]].
    + apply IH. set_solver.
    + intros x n. by rewrite elem_of_dir_entries, <-snap_path_tier.
  - rewrite He. rewrite dir_names_missing by done. cbn. rewrite (right_id_L [] (++)).
    apply IH. set_solver.
Qed.

(** The snapshots from the oldest to the newest modification time. *)
Lemma removableSnapshots_spec w :
  target R w →
  ∃ l, removableSnapshots (abs_str R) w = (Ok (name_of <$> l), w) ∧
    l ≡ₚ snapshots R (w_nodes w) tiers ∧
    StronglySorted snapshotInfo_le (info_of R w <$> l).
Proof.
  intros H. unfold removableSnapshots.
  erewrite run_bind by (apply collect_infos_spec; [done|naive_solver]). cbn [app].
  assert (∃ l, sort_by snapshotInfo_le (info_of R w <$> snapshots R (w_nodes w) tiers)
    = info_of R w <$> l ∧ snapshots R (w_nodes w) tiers ≡ₚ l) as (l & Hl & Hp).
  { eapply Permutation_map_inv. apply merge_sort_Permutation. }
  exists l. split; [|split].
  - unfold mret, M_ret. by rewrite Hl, <-list_fmap_compose.
  - by symmetry.
  - rewrite <-Hl. apply (StronglySorted_merge_sort _).
Qed.

(** The candidates that are not protected, and the tree without the first [k]. *)
Definition unprotected (P : list string) (l : list (string * string)) : list (string * string) :=
  filter (λ tx, name_of tx ∉ P) l.

Definition without (u : list (string * string)) (w : world) (k : nat) : gmap fpath node :=
  remove_paths (snap_of R <$> take k u) (w_nodes w).

Lemma without_0 u w : without u w 0 = w_nodes w.
Proof. apply remove_paths_nil. Qed.

Lemma without_S tier x u w k :
  without ((tier, x) :: u) w (S k)
  = without u (set_nodes (remove_below (snap_path R tier x) (w_nodes w)) w) k.
Proof. unfold without. cbn. by rewrite remove_paths_cons. Qed.

(** The loop removes unprotected candidates in order, and stops as soon as
    there is enough room. *)
Lemma recover_loop_spec min P l : ∀ w available removed,
  target R w → (∀ tier x, (tier, x) ∈ l → tier ∈ tiers ∧ plain_seg x ∧
    w_nodes w !! (R ++ [tier]) = Some Dir) →
  ∃ k err, recover_loop (abs_str R) min P available (name_of <$> l) removed w
      = (Ok (removed ++ (name_of <$> take k (unprotected P l)), err),
         set_nodes (without (unprotected P l) w k) w) ∧
    (∀ j, (0 < j < k)%nat → available_in w (without (unprotected P l) w j) < min) ∧
    match err with
    | None => (0 < k ≤ length (unprotected P l))%nat
              ∧ min ≤ available_in w (without (unprotected P l) w k)
    | Some _ => k = length (unprotected P l)
                ∧ ((0 < k)%nat → available_in w (without (unprotected P l) w k) < min)
    end.
Proof.
  induction l as [|[tier x] l IH]; intros w available removed H Hl.
  { eexists 0%nat, (Some _). split; [|split; [lia|split; [done|lia]]].
    cbn. by rewrite (right_id_L [] (++)), without_0, set_nodes_id. }
  destruct (Hl tier x (list_elem_of_here _ _)) as (Ht & Hx & Hd).
  cbn [fmap list_fmap recover_loop]. unfold unprotected. rewrite filter_cons.
  fold (unprotected P l). change (name_of (tier, x)) with (snap_name tier x) in *.
  destruct (decide (snap_name tier x ∈ P)) as [Hin|Hin].
  { rewrite decide_False by naive_solver. apply IH; [done|]. intros t y Hty. apply Hl. by apply elem_of_cons; right. }
  rewrite decide_True by done. set (u := unprotected P l) in *.
  erewrite run_try by by apply RemoveAll_snap. cbv beta iota.
  set (w1 := set_nodes (remove_below (snap_path R tier x) (w_nodes w)) w).
  assert (target R w1) as H1 by by apply target_remove_snap.
  erewrite run_try by (apply AvailableBytes_calm; apply H1). cbv beta iota.
  assert (available_in w1 (w_nodes w1) = available_in w (without ((tier, x) :: u) w 1)) as ->.
  { by rewrite without_S, without_0. }
  destruct (decide (min ≤ available_in w (without ((tier, x) :: u) w 1))) as [Hge|Hlt].
  - exists 1%nat, None. split; [|split; [lia|split; [cbn; lia|done]]].
    by rewrite without_S, without_0.
  - edestruct (IH w1) as (k & err & Hr & Hj & He); [done| |].
    { intros t y Hty. destruct (Hl t y (list_elem_of_further _ _ _ Hty)) as (? & ? & ?). split; [done|].
      split; [done|]. subst w1. rewrite set_nodes_nodes, lookup_remove_below.
      by rewrite decide_False by apply below_snap_tier. }
    exists (S k), err. split; [|split].
    + rewrite Hr, without_S. fold w1. cbn [take fmap list_fmap]. by rewrite <-(assoc_L (++)).
    + intros [|[|j]] Hjk; [lia|lia|]. rewrite without_S. apply Hj. lia.
    + rewrite without_S. fold w1. destruct err as [e|].
      * destruct He as [-> He]. split; [done|]. intros _. destruct (length u) eqn:Hu; [|apply He; lia].
        rewrite without_S in Hlt. fold w1 in Hlt. change (available_in w) with (available_in w1) in *. lia.
      * destruct He as [? He]. split; [cbn; lia|done].
Qed.
End recovery.

Lemma unprotected_sorted R w P l :
  StronglySorted snapshotInfo_le (info_of R w <$> l) →
  StronglySorted snapshotInfo_le (info_of R w <$> unprotected P l).
Proof. apply StronglySorted_sublist, fmap_filter_sublist. Qed.

Lemma map_result_map_err {A B} (f : A → result B) (g : A → goerr → goerr) xs ys :
  map_result f xs = Ok ys → map_result (λ x, map_err (g x) (f x)) xs = Ok ys.
Proof.
  rewrite !map_result_Ok. intros H. eapply Forall2_impl; [exact H|]. cbn.
  intros x y. by rewrite map_err_Ok.
Qed.

Lemma NoDup_snapshots R m ts : NoDup ts → NoDup (snapshots R m ts).
Proof.
  induction 1 as [|t ts Ht Hts IH]; [constructor|]. unfold snapshots. cbn.
  fold (snapshots R m ts). apply NoDup_app. split; [|split; [|done]].
  - apply NoDup_fmap_2; [|apply NoDup_dir_names]. by intros x y [=].
  - intros [t' x] Hin. apply list_elem_of_fmap in Hin as (y & [= -> ->] & _).
    by intros [? _]%elem_of_snapshots.
Qed.

Lemma RecoverSpace_run R w min protected ps l :
  target R w → map_result NormalizeRelativePath protected = Ok ps →
  removableSnapshots (abs_str R) w = (Ok (name_of <$> l), w) →
  (∀ tier x, (tier, x) ∈ l → tier ∈ tiers ∧ plain_seg x ∧ w_nodes w !! (R ++ [tier]) = Some Dir) →
  ∃ k err, RecoverSpace (abs_str R) min protected w
    = (Ok (name_of <$> take k (unprotected ps l), err),
       set_nodes (without R (unprotected ps l) w k) w) ∧
    (∀ j, (j < k)%nat → available_in w (without R (unprotected ps l) w j) < min) ∧
    match err with
    | None => min ≤ available_in w (without R (unprotected ps l) w k)
    | Some _ => k = length (unprotected ps l)
                ∧ available_in w (without R (unprotected ps l) w k) < min
    end.
Proof.
  intros H Hps Hr Hl.
  unfold RecoverSpace. erewrite run_try by (apply AvailableBytes_calm; apply H). cbv beta iota.
  destruct (decide (min ≤ available_in w (w_nodes w))) as [Hge|Hlt].
  { exists 0%nat, None. rewrite without_0, set_nodes_id. split; [done|]. split; [lia|done]. }
  erewrite map_result_map_err by exact Hps. erewrite run_try by exact Hr. cbv beta iota.
  destruct (recover_loop_spec R min ps l w (available_in w (w_nodes w)) [] H Hl)
    as (k & err & -> & Hj & He).
  exists k, err. split; [done|]. split.
  - intros [|j] Hjk; [rewrite without_0; lia|apply Hj; lia].
  - destruct err; [|naive_solver]. destruct He as [-> He]. split; [done|].
    destruct (length (unprotected ps l)); [rewrite without_0; lia|apply He; lia].
Qed.

(** C24: RecoverSpace deletes whole snapshots one at a time, from the least recently modified on
    and by name among equals, never one the caller protects, until the free space reaches the
    requested minimum; it deletes no more than needed, and it reports an error exactly when all
    unprotected snapshots are gone and there is still too little room. *)
Theorem RecoverSpace_oldest_first R w min protected ps :
  target R w → map_result NormalizeRelativePath protected = Ok ps →
  ∃ l k err,
    RecoverSpace (abs_str R) min protected w
      = (Ok (name_of <$> take k l, err), set_nodes (without R l w k) w) ∧
    NoDup l ∧ (∀ tier x, (tier, x) ∈ l ↔ tier ∈ tiers ∧
      w_nodes w !! (R ++ [tier; x]) = Some Dir ∧ strings_Join [tier; x] "/" ∉ ps) ∧
    StronglySorted snapshotInfo_le (info_of R w <$> l) ∧
    (∀ j, (j < k)%nat → available_in w (without R l w j) < min) ∧
    match err with
    | None => min ≤ available_in w (without R l w k)
    | Some _ => k = length l ∧ available_in w (without R l w k) < min
    end.
Proof.
  intros H Hps. destruct (removableSnapshots_spec R w H) as (l & Hr & Hl & Hs).
  assert (∀ tier x, (tier, x) ∈ l ↔ tier ∈ tiers ∧ w_nodes w !! (R ++ [tier; x]) = Some Dir) as Hin.
  { intros tier x. rewrite Hl. apply elem_of_snapshots. }
  assert (∀ tier x, (tier, x) ∈ l → tier ∈ tiers ∧ plain_seg x ∧
    w_nodes w !! (R ++ [tier]) = Some Dir) as Hl'.
  { intros tier x [Ht Hn]%Hin. split; [done|]. split; [by eapply tg_snap_plain|].
    change [tier; x] with ([tier] ++ [x]) in Hn. rewrite (assoc_L (++)) in Hn.
    by eapply wf_parent; [apply H|]. }
  destruct (RecoverSpace_run R w min protected ps l H Hps Hr Hl') as (k & err & He & Hj & Hm).
  exists (unprotected ps l), k, err. split; [done|].
  split; [|split; [|split; [by apply unprotected_sorted|done]]].
  - apply NoDup_filter. rewrite Hl. apply NoDup_snapshots, NoDup_tiers.
  - intros tier x. unfold unprotected. rewrite list_elem_of_filter, Hin. unfold name_of. cbn.
    naive_solver.
Qed.

Lemma RecoverSpace_oldest_first_witness :
  target ["t"] sample_world ∧
  map_result NormalizeRelativePath ["hourly/2024-05-01T01-00-00Z"]
    = Ok ["hourly/2024-05-01T01-00-00Z"] ∧
  ∃ l k err, RecoverSpace "/t" 850 ["hourly/2024-05-01T01-00-00Z"] sample_world
    = (Ok (name_of <$> take k l, err), set_nodes (without ["t"] l sample_world k) sample_world) ∧
    (∀ tier x, (tier, x) ∈ l ↔ tier ∈ tiers ∧
      w_nodes sample_world !! (["t"] ++ [tier; x]) = Some Dir ∧
      strings_Join [tier; x] "/" ∉ ["hourly/2024-05-01T01-00-00Z"]).
Proof.
  split; [exact sample_target|]. split; [reflexivity|].
  destruct (RecoverSpace_oldest_first ["t"] sample_world 850 ["hourly/2024-05-01T01-00-00Z"]
    ["hourly/2024-05-01T01-00-00Z"] sample_target eq_refl) as (l & k & err & Hr & _ & Hl & _).
  exists l, k, err. split; [exact Hr|exact Hl].
Defined.

(** ** Stale partial runs *)

Section stale.
Context (R : fpath).

Definition stale (active : list string) (names : list string) : list string :=
  filter (λ x, x ∉ active) names.

Lemma remove_stale_spec d active es : ∀ w removed,
  calm w → wf_tree (w_nodes w) → w_nodes w !! d = Some Dir →
  Forall plain_seg es.*1 →
  let u := stale active (filter (λ xn, IsDir xn.2 = true) es).*1 in
  remove_stale (abs_str d) active es removed w
  = (Ok (sort_Strings (removed ++ u), None),
     set_nodes (remove_paths ((λ x, d ++ [x]) <$> u) (w_nodes w)) w).
Proof.
  induction es as [|[x n] es IH]; intros w removed Hc Hwf Hd Hp.
  { cbn. by rewrite (right_id_L [] (++)), remove_paths_nil, set_nodes_id. }
  apply Forall_cons in Hp as [Hx Hp]. cbv zeta. cbn [remove_stale snd fst]. rewrite filter_cons. cbn [snd].
  destruct (decide (IsDir n = false ∨ x ∈ active)) as [Hs|Hs].
  - rewrite IH by done. destruct (decide (IsDir n = true)) as [Ht|Ht]; [|done].
    destruct Hs as [Hs|Hs]; [congruence|]. unfold stale. cbn [fmap list_fmap fst].
    by rewrite filter_cons_False by (intros Hn; by apply Hn).
  - rewrite decide_True by (destruct (IsDir n); naive_solver). unfold stale. cbn [fmap list_fmap fst].
    rewrite filter_cons_True by naive_solver. fold (stale active).
    rewrite path_Join_abs_str_1 by (done || by eapply wf_names).
    erewrite run_try by by apply RemoveAll_child. cbv beta iota.
    rewrite IH; [|by apply set_nodes_calm|apply wf_remove_below; [by destruct d|done]| |done].
    + cbn [fmap list_fmap]. rewrite remove_paths_cons, set_nodes_set_nodes, set_nodes_nodes.
      by rewrite <-(assoc_L (++)).
    + rewrite set_nodes_nodes, lookup_remove_below. rewrite decide_False; [done|].
      intros [k Hk]. apply (f_equal length) in Hk. rewrite !length_app in Hk. cbn in Hk. lia.
Qed.

Definition partial_dir : fpath := R ++ [".partial"].

Lemma CleanupStalePartials_run w activeRunIDs :
  target R w → Forall (λ r, r = "" ∨ validateRunID r = Ok tt) activeRunIDs →
  w_nodes w !! partial_dir = None ∨ w_nodes w !! partial_dir = Some Dir →
  let u := stale activeRunIDs (dir_names (w_nodes w) partial_dir) in
  CleanupStalePartials (abs_str R) activeRunIDs w
  = (Ok (u, None), set_nodes (remove_paths ((λ x, partial_dir ++ [x]) <$> u) (w_nodes w)) w).
Proof.
  intros H Ha Hpd. cbv zeta. unfold CleanupStalePartials.
  assert (for_each validateRunID (filter (λ r, r ≠ "") activeRunIDs) = Ok tt) as ->.
  { apply for_each_Ok. intros r [Hne Hr]%list_elem_of_filter.
    eapply Forall_forall in Ha; [|exact Hr]. naive_solver. }
  assert (plain_seg ".partial") as Hpp by (apply (bool_decide_unpack _); by vm_compute).
  assert (∀ es, Forall plain_seg es →
    stale (filter (λ r, r ≠ "") activeRunIDs) es = stale activeRunIDs es) as Hst.
  { intros es. induction 1 as [|x es [Hx _] _ IH]; [done|]. unfold stale.
    rewrite !filter_cons. fold (stale activeRunIDs es). rewrite <-IH.
    rewrite (decide_ext (x ∉ filter (λ r, r ≠ "") activeRunIDs) (x ∉ activeRunIDs)); [done|].
    rewrite list_elem_of_filter. naive_solver. }
  rewrite path_Join_abs_str_1 by (done || by eapply tg_plain). fold partial_dir.
  destruct Hpd as [Hm|Hd].
  - destruct (ReadDir_missing w (tg_calm R w H) (tg_wf R w H) R ".partial") as (e & Hr & He);
      [apply H|done|done|].
    erewrite run_try by exact Hr. cbv beta iota. rewrite He.
    assert (dir_names (w_nodes w) partial_dir = []) as ->.
    { apply dir_names_unique; [constructor..|]. intros x. rewrite wf_below_None by (done || apply H).
      split; [by intros ?%not_elem_of_nil|done]. }
    cbn. by rewrite remove_paths_nil, set_nodes_id.
  - erewrite run_try by (apply ReadDir_node; [apply H|apply H|done]). cbv beta iota.
    assert (Forall plain_seg (dir_entries (w_nodes w) partial_dir).*1) as Hp.
    { apply Forall_fmap, Forall_forall. intros [x n] Hin%elem_of_dir_entries. cbn.
      apply (wf_names _ (tg_wf R w H)) in Hin. rewrite Forall_app, Forall_singleton in Hin. naive_solver. }
    rewrite remove_stale_spec by (done || apply H). fold (dir_names (w_nodes w) partial_dir).
    rewrite Hst.
    + cbn [app]. rewrite sort_Strings_id; [done|].
      eapply StronglySorted_sublist; [apply sublist_filter|apply dir_names_sorted].
    + eapply Forall_forall. intros x Hx. eapply Forall_forall in Hp; [exact Hp|].
      eapply elem_of_sublist; [exact Hx|]. apply fmap_filter_sublist.
Qed.
End stale.

(** CleanupStalePartials removes exactly the partial runs that are not active: it reports them
    in ascending order, an active run and everything outside the removed directories is
    untouched, and afterwards every partial run directory left belongs to an active run. *)
Theorem CleanupStalePartials_exact R activeRunIDs w :
  target R w → Forall (λ r, r = "" ∨ validateRunID r = Ok tt) activeRunIDs →
  w_nodes w !! (R ++ [".partial"]) = None ∨ w_nodes w !! (R ++ [".partial"]) = Some Dir →
  ∃ removed w', CleanupStalePartials (abs_str R) activeRunIDs w = (Ok (removed, None), w') ∧
    StronglySorted String.le removed ∧ w_data w' = w_data w ∧
    (∀ x, x ∈ removed ↔ w_nodes w !! (R ++ [".partial"; x]) = Some Dir ∧ x ∉ activeRunIDs) ∧
    (∀ q, (∀ x, x ∈ removed → ¬ (R ++ [".partial"; x]) `prefix_of` q) →
      w_nodes w' !! q = w_nodes w !! q) ∧
    (∀ x, w_nodes w' !! (R ++ [".partial"; x]) = Some Dir → x ∈ activeRunIDs).
Proof.
  intros H Ha Hpd. eexists _, _. split; [by apply CleanupStalePartials_run|].
  assert (∀ x, R ++ [".partial"; x] = partial_dir R ++ [x]) as Hpx.
  { intros x. unfold partial_dir. by rewrite <-(assoc_L (++)). }
  assert (∀ x, x ∈ stale activeRunIDs (dir_names (w_nodes w) (partial_dir R)) ↔
    w_nodes w !! (R ++ [".partial"; x]) = Some Dir ∧ x ∉ activeRunIDs) as Hx.
  { intros x. unfold stale. rewrite list_elem_of_filter, elem_of_dir_names, Hpx. naive_solver. }
  split; [eapply StronglySorted_sublist; [apply sublist_filter|apply dir_names_sorted]|].
  split; [done|]. split; [exact Hx|]. rewrite set_nodes_nodes. split.
  - intros q Hq. apply lookup_remove_snaps. intros p (x & -> & Hin)%list_elem_of_fmap.
    rewrite <-Hpx. by apply Hq.
  - intros x. rewrite lookup_remove_paths. destruct (decide _) as [|Hn]; [done|]. intros Hd.
    destruct (decide (x ∈ activeRunIDs)) as [|Hna]; [done|]. destruct Hn. apply Exists_exists.
    exists (partial_dir R ++ [x]). rewrite <-Hpx. split; [|apply below_refl].
    apply list_elem_of_fmap. exists x. rewrite Hpx. split; [done|]. by apply Hx.
Qed.

Lemma CleanupStalePartials_exact_witness :
  target ["t"] sample_world ∧ Forall (λ r, r = "" ∨ validateRunID r = Ok tt) [""; "run-9"] ∧
  ∃ removed w', CleanupStalePartials "/t" [""; "run-9"] sample_world = (Ok (removed, None), w') ∧
    ("run-8" ∈ removed ↔ w_nodes sample_world !! (["t"] ++ [".partial"; "run-8"]) = Some Dir
      ∧ "run-8" ∉ [""; "run-9"]).
Proof.
  assert (Forall (λ r, r = "" ∨ validateRunID r = Ok tt) [""; "run-9"]) as Ha
    by (apply (bool_decide_unpack _); by vm_compute).
  split; [exact sample_target|]. split; [exact Ha|].
  destruct (CleanupStalePartials_exact ["t"] [""; "run-9"] sample_world sample_target Ha)
    as (removed & w' & Hr & _ & _ & Hx & _); [right; by vm_compute|].
  exists removed, w'. split; [exact Hr|apply Hx].
Defined.

(** ** The scan of restore points *)

#[export] Instance rp_le_trans : Transitive rp_le.
Proof.
  intros a b c. unfold rp_le. intros [|[Hb H1]] [|[Hc H2]]; [by left|by left|done|right].
  split; [done|]. by eapply (transitivity (R := String.le)).
Qed.

#[export] Instance rp_le_total : Total rp_le.
Proof.
  intros a b. unfold rp_le.
  destruct (decide (dp_Snapshot a = "latest")), (decide (dp_Snapshot b = "latest"));
    [auto..|]. destruct (total String.le (dp_Snapshot a) (dp_Snapshot b)); auto.
Qed.

Section scan.
Context (R : fpath).

Definition point_of (tx : string * string) : dp_RestorePoint :=
  MkDpRestorePoint (name_of tx) "" tx.1 (parseSnapshotTime (name_of tx)) 0.

Definition latest_point (target : string) : dp_RestorePoint :=
  MkDpRestorePoint "latest" target "" (parseSnapshotTime target) 0.

Lemma tier_points_spec tier es :
  tier ∈ tiers → Forall plain_seg es.*1 →
  omap (tier_point tier) es
  = (λ x, point_of (tier, x)) <$> (filter (λ xn, IsDir xn.2 = true) es).*1.
Proof.
  intros Ht. induction es as [|[x n] es IH]; intros Hp; [done|].
  apply Forall_cons in Hp as [Hx Hp]. rewrite filter_cons. cbn [omap list_omap snd].
  unfold tier_point at 1. cbn [snd fst]. destruct (IsDir n) eqn:Hd.
  - rewrite decide_True by done. cbn [fmap list_fmap fst]. rewrite <-IH by done.
    by rewrite path_Join_snap.
  - rewrite decide_False by done. by apply IH.
Qed.

Lemma entries_plain w d : wf_tree (w_nodes w) → Forall plain_seg (dir_entries (w_nodes w) d).*1.
Proof.
  intros H. apply Forall_fmap, Forall_forall. intros [x n] Hin%elem_of_dir_entries. cbn.
  apply (wf_names _ H) in Hin. rewrite Forall_app, Forall_singleton in Hin. naive_solver.
Qed.

Lemma scan_tiers_spec w ts points :
  target R w → (∀ t, t ∈ ts → t ∈ tiers) →
  scan_tiers (abs_str R) ts points w
  = (Ok (points ++ (point_of <$> snapshots R (w_nodes w) ts)), w).
Proof.
  intros H. revert points. induction ts as [|tier ts IH]; intros points Hts.
  { cbn. by rewrite (right_id_L [] (++)). }
  assert (tier ∈ tiers) as Ht by apply Hts, list_elem_of_here.
  assert (∀ t, t ∈ ts → t ∈ tiers) as Hts' by (intros t ?; by apply Hts, list_elem_of_further).
  cbn [scan_tiers]. unfold snapshots. cbn. fold (snapshots R (w_nodes w) ts).
  rewrite fmap_app, <-list_fmap_compose, (assoc_L (++)).
  destruct (ReadDir_tier R w tier H Ht) as [Hr|(Hm & e & Hr & He)];
    erewrite run_try by exact Hr; cbv beta iota.
  - rewrite tier_points_spec by (done || apply entries_plain, H). by apply IH.
  - rewrite He. rewrite dir_names_missing by done. cbn. rewrite (right_id_L [] (++)).
    by apply IH.
Qed.

(** [os.Stat] of the link. *)
Lemma look_latest w tier x :
  target R w → tier ∈ tiers → plain_seg x →
  w_nodes w !! (R ++ ["latest"]) = Some (Symlink (snap_name tier x)) →
  look w true (R ++ ["latest"])
  = match w_nodes w !! snap_path R tier x with
    | Some n => Ok (snap_path R tier x, n)
    | None => Err (ErrSys KNotExist "no such file or directory")
    end.
Proof.
  intros H Ht Hx Hl. destruct (tier_plain tier Ht) as [Hp _].
  pose proof (Join_plain_rel [tier; x] (plain_two _ _ Hp Hx)) as Habs.
  pose proof Hx as (_ & _ & Hxd & _). pose proof Hp as (_ & _ & Htd & _).
  unfold look. rewrite resolve_from_dir by apply H. rewrite walk_go.
  rewrite decide_False by done. rewrite Hl. rewrite decide_False by naive_solver.
  unfold max_links. cbv beta iota. unfold target_segs.
  change (strings_Join [tier; x] "/") with (snap_name tier x) in Habs. rewrite Habs.
  rewrite kept_segs_snap by done. cbv beta iota. cbn [app]. rewrite walk_go, decide_False by done.
  pose proof (snap_path_tier R tier x) as Hsp.
  destruct (tg_tier R w H tier Ht) as [Hn|Hn]; rewrite Hn.
  { by rewrite missing_tier. }
  rewrite walk_go, decide_False, <-Hsp by done.
  destruct (w_nodes w !! snap_path R tier x) as [[| |t|]|] eqn:Hs.
  - rewrite walk_go. unfold mbind, result_bind. by rewrite Hs.
  - rewrite decide_True by done. unfold mbind, result_bind. by rewrite Hs.
  - by destruct (tg_snap R w H tier x t Ht).
  - rewrite decide_True by done. unfold mbind, result_bind. by rewrite Hs.
  - done.
Qed.

Definition latest_points (w : world) : list dp_RestorePoint :=
  match w_nodes w !! (R ++ ["latest"]) with
  | Some (Symlink t) =>
      match w_nodes w !! (R ++ kept_segs t) with
      | Some _ => [latest_point t]
      | None => []
      end
  | _ => []
  end.

Lemma latest_points_spec w tier x :
  target R w → tier ∈ tiers → plain_seg x →
  w_nodes w !! (R ++ ["latest"]) = Some (Symlink (snap_name tier x)) →
  latest_points w
  = match w_nodes w !! snap_path R tier x with
    | Some _ => [latest_point (snap_name tier x)]
    | None => []
    end.
Proof. intros H Ht Hx Hl. unfold latest_points. by rewrite Hl, kept_segs_snap. Qed.

Lemma scan_latest w :
  target R w →
  ∃ lt r, latestSnapshotTarget (abs_str R) w = (Ok lt, w) ∧
    Stat (path_Join [abs_str R; "latest"]) w = (r, w) ∧
    match r with
    | Ok _ => latest_points w = [latest_point lt]
    | Err e => errors_is KNotExist e = true ∧ latest_points w = []
    end.
Proof.
  intros H. pose proof (tg_wf R w H) as Hwf. pose proof (tg_calm R w H) as Hc.
  unfold latestSnapshotTarget. rewrite path_Join_abs_str_1 by (done || by eapply tg_plain).
  destruct (w_nodes w !! (R ++ ["latest"])) as [n|] eqn:Hl.
  - destruct (tg_latest R w H n Hl) as (tier & x & Ht & Hx & Hb & ->).
    change (strings_Join [tier; x] "/") with (snap_name tier x) in *.
    erewrite run_try by by apply Lstat_node. cbv beta iota.
    erewrite run_bind by by apply Readlink_node.
    rewrite (Normalize_snap tier x) by done. unfold on_err at 1. erewrite run_bind by reflexivity.
    rewrite path_Join_root_snap by (done || by eapply tg_plain).
    rewrite (latest_points_spec w tier x) by done.
    assert (segs_of w (abs_str (R ++ ["latest"])) = R ++ ["latest"]) as Hseg
      by (apply segs_of_abs_str; by eapply wf_names).
    pose proof (Stat_snap R w tier x H Ht Hx) as Hs.
    destruct (w_nodes w !! snap_path R tier x) as [n|] eqn:Hn.
    + erewrite run_try by exact Hs. eexists _, (Ok n). split; [done|]. split; [|done].
      unfold Stat, on_err. rewrite syscall_calm, Hseg, (look_latest w tier x), Hn by done. done.
    + destruct Hs as (e & Hs & He). erewrite run_try by exact Hs. cbv beta iota. rewrite He.
      eexists "", (Err _). split; [done|]. split.
      * unfold Stat, on_err. rewrite syscall_calm, Hseg, (look_latest w tier x), Hn by done. done.
      * done.
  - assert (plain_seg "latest") as Hpl by (apply (bool_decide_unpack _); by vm_compute).
    destruct (Lstat_missing w Hc Hwf R "latest") as (e & Hs & He); [apply H|done|done|].
    destruct (Stat_missing w Hc Hwf R "latest" []) as (e' & Hs' & He');
      [apply H|by apply Forall_singleton|done|].
    erewrite run_try by exact Hs. cbv beta iota. rewrite He.
    exists "", (Err e'). split; [done|]. split; [exact Hs'|]. split; [done|].
    unfold latest_points. by rewrite Hl.
Qed.

Lemma ScanRestorePoints_run w :
  target R w →
  ScanRestorePoints (abs_str R) w
  = (Ok (sort_by rp_le (latest_points w ++ (point_of <$> snapshots R (w_nodes w) tiers))), w).
Proof.
  intros H. unfold ScanRestorePoints.
  erewrite run_bind by (apply Abs_abs_str; by eapply tg_plain).
  destruct (scan_latest w H) as (lt & r & Hlt & Hs & Hr).
  erewrite run_bind by exact Hlt. erewrite run_try by exact Hs. cbv beta iota.
  destruct r as [n|e].
  - erewrite run_bind by reflexivity. rewrite Hr.
    erewrite run_bind by (apply scan_tiers_spec; [done|naive_solver]). done.
  - destruct Hr as [He Hr]. rewrite He, Hr. erewrite run_bind by reflexivity.
    erewrite run_bind by (apply scan_tiers_spec; [done|naive_solver]). done.
Qed.

Lemma elem_of_latest_points w p :
  target R w →
  p ∈ latest_points w ↔ ∃ tier x, tier ∈ tiers ∧ plain_seg x ∧
    is_Some (w_nodes w !! (R ++ [tier; x])) ∧
    w_nodes w !! (R ++ ["latest"]) = Some (Symlink (strings_Join [tier; x] "/")) ∧
    p = latest_point (strings_Join [tier; x] "/").
Proof.
  intros H. split.
  - intros Hp. destruct (w_nodes w !! (R ++ ["latest"])) as [n|] eqn:Hl;
      [|unfold latest_points in Hp; rewrite Hl in Hp; by apply not_elem_of_nil in Hp].
    destruct (tg_latest R w H n Hl) as (tier & x & Ht & Hx & Hb & ->).
    rewrite (latest_points_spec w tier x) in Hp by done. unfold snap_path in Hp.
    destruct (w_nodes w !! (R ++ [tier; x])) eqn:Hn; [|by apply not_elem_of_nil in Hp].
    apply list_elem_of_singleton in Hp as ->. exists tier, x. rewrite Hn. naive_solver.
  - intros (tier & x & Ht & Hx & [n Hn] & Hl & ->). rewrite (latest_points_spec w tier x) by done.
    unfold snap_path. rewrite Hn. by apply list_elem_of_singleton.
Qed.

Lemma snap_name_not_latest tier x : tier ∈ tiers → snap_name tier x ≠ "latest".
Proof.
  intros Ht He. apply (f_equal (λ s, ContainsByte s slash)) in He. unfold snap_name in He.
  rewrite Join_cons, !ContainsByte_app in He by done. cbn in He.
  by rewrite orb_true_r in He.
Qed.

Lemma NoDup_points w :
  target R w →
  NoDup ((dp_Snapshot <$> latest_points w)
    ++ (dp_Snapshot <$> (point_of <$> snapshots R (w_nodes w) tiers))).
Proof.
  intros H. rewrite <-list_fmap_compose. apply NoDup_app. split; [|split].
  - unfold latest_points. destruct (w_nodes w !! _) as [[]|]; try constructor.
    destruct (w_nodes w !! _); [apply NoDup_singleton|constructor].
  - intros s (p & -> & Hp)%list_elem_of_fmap ([t x] & He & Hin)%list_elem_of_fmap.
    apply elem_of_latest_points in Hp as (? & ? & _ & _ & _ & _ & ->); [|done].
    apply elem_of_snapshots in Hin as [Ht _]. symmetry in He. by apply snap_name_not_latest in He.
  - apply NoDup_fmap_2_strong; [|apply NoDup_snapshots, NoDup_tiers].
    intros [t1 x1] [t2 x2] [H1 Hn1]%elem_of_snapshots [H2 Hn2]%elem_of_snapshots He.
    cbn -[snap_name] in He. unfold name_of in He. cbn [fst snd] in He. apply snap_name_inj in He as [-> ->]; [done|done|done|by eapply tg_snap_plain..].
Qed.
End scan.

(** ScanRestorePoints reports exactly the snapshot directories of the four tiers, each with
    its tier and the time its name stands for, and, when the latest link points to an existing
    snapshot, one further point for it that comes first; the others follow in descending order
    of their names, and the volume is not changed. *)
Theorem ScanRestorePoints_complete R w :
  target R w →
  ∃ points, ScanRestorePoints (abs_str R) w = (Ok points, w) ∧
    StronglySorted rp_le points ∧ NoDup (dp_Snapshot <$> points) ∧
    ∀ p, p ∈ points ↔
      (∃ tier x, tier ∈ tiers ∧ w_nodes w !! (R ++ [tier; x]) = Some Dir ∧
        p = MkDpRestorePoint (strings_Join [tier; x] "/") "" tier
              (parseSnapshotTime (strings_Join [tier; x] "/")) 0) ∨
      (∃ tier x, tier ∈ tiers ∧ plain_seg x ∧ is_Some (w_nodes w !! (R ++ [tier; x])) ∧
        w_nodes w !! (R ++ ["latest"]) = Some (Symlink (strings_Join [tier; x] "/")) ∧
        p = MkDpRestorePoint "latest" (strings_Join [tier; x] "/") ""
              (parseSnapshotTime (strings_Join [tier; x] "/")) 0).
Proof.
  intros H. eexists. split; [by apply ScanRestorePoints_run|].
  split; [apply (StronglySorted_merge_sort _)|]. split.
  - unfold sort_by. rewrite merge_sort_Permutation, fmap_app. by apply NoDup_points.
  - intros p. unfold sort_by. rewrite merge_sort_Permutation, elem_of_app, elem_of_latest_points by done.
    rewrite list_elem_of_fmap. split.
    + intros [Hp|([tier x] & -> & [Ht Hn]%elem_of_snapshots)]; [by right|left; eauto 10].
    + intros [(tier & x & Ht & Hn & ->)|Hp]; [right|by left].
      exists (tier, x). split; [done|]. by apply elem_of_snapshots.
Qed.

Lemma ScanRestorePoints_complete_witness :
  target ["t"] sample_world ∧
  ∃ points, ScanRestorePoints "/t" sample_world = (Ok points, sample_world) ∧
    StronglySorted rp_le points ∧ length points = 5%nat.
Proof.
  split; [exact sample_target|].
  destruct (ScanRestorePoints_complete ["t"] sample_world sample_target)
    as (points & Hr & Hs & _ & _).
  exists points. split; [exact Hr|]. split; [exact Hs|].
  refine (eq_trans (eq_sym (f_equal (λ p, length (default [] (result_to_option p.1))) Hr)) _).
  by vm_compute.
Defined.
