(* ===== verification/LinkTree.v ===== *)
(** * Hard-linked copies and renames

    [linkTree] of internal/dataplane/snapshot.go copies a directory tree by
    hard links: the result has the same entries, a file of the copy is the same
    inode as the file it was made from, and nothing else changes.  Also the
    effect of [os.Rename] on the node map. *)
From S2P Require Export Retention.
From stdpp Require Import options.
From Stdlib Require Import Ascii.

(** ** Path strings *)

Lemma clean_segs_plain_app rooted acc segs rest :
  Forall plain_seg segs →
  clean_segs rooted acc (segs ++ rest) = clean_segs rooted (reverse segs ++ acc) rest.
Proof.
  intros H. revert acc. induction H as [|p segs (Hp1 & Hp2 & Hp3 & _) Hs IH]; intros acc; [done|].
  cbn [app clean_segs]. rewrite decide_False by naive_solver. rewrite decide_False by done.
  by rewrite IH, reverse_cons, <-(assoc_L (++)).
Qed.

Lemma Split_abs_str l : l ≠ [] → Forall plain_seg l → Split (abs_str l) slash = "" :: l.
Proof. intros Hn Hl. unfold abs_str. by rewrite Split_abs, Split_Join_plain. Qed.

Lemma path_Dir_abs l x :
  Forall plain_seg l → plain_seg x → path_Dir (abs_str (l ++ [x])) = abs_str l.
Proof.
  intros Hl Hx. pose proof Hx as (_ & _ & Hdd & _).
  assert (Forall plain_seg (l ++ [x])) as Hlx by (apply Forall_app; split; [done|by apply Forall_singleton]).
  unfold path_Dir. rewrite path_Join_2 by done. unfold Clean.
  rewrite decide_False by (rewrite str_app_eq_nil; naive_solver).
  assert (IsAbs (abs_str (l ++ [x]) +:+ "/" +:+ "..") = true) as ->.
  { unfold abs_str. rewrite str_app_assoc. apply (HasPrefix_app "/"). }
  rewrite Split_app_slash, Split_abs_str by (done || by destruct l).
  cbn [app clean_segs]. rewrite decide_True by (by left).
  rewrite clean_segs_plain_app by done. rewrite (right_id_L [] (++)), reverse_snoc.
  change (Split ".." slash) with [".."]. cbn [clean_segs].
  rewrite decide_False by naive_solver. rewrite decide_True, decide_False by done.
  by rewrite reverse_involutive.
Qed.

Lemma path_Join_dot l : Forall plain_seg l → path_Join [abs_str l; "."] = abs_str l.
Proof.
  intros Hl. rewrite path_Join_2 by done. unfold Clean.
  rewrite decide_False by (rewrite str_app_eq_nil; naive_solver).
  assert (IsAbs (abs_str l +:+ "/" +:+ ".") = true) as ->.
  { unfold abs_str. rewrite str_app_assoc. apply (HasPrefix_app "/"). }
  rewrite Split_app_slash. destruct (decide (l = [])) as [->|Hn]; [done|].
  rewrite Split_abs_str by done. cbn [app clean_segs]. rewrite decide_True by (by left).
  rewrite clean_segs_plain_app by done. rewrite (right_id_L [] (++)).
  change (Split "." slash) with ["."]. cbn [clean_segs]. rewrite decide_True by naive_solver. by rewrite reverse_involutive.
Qed.

Lemma Clean_abs_str l : Forall plain_seg l → Clean (abs_str l) = abs_str l.
Proof. apply Clean_plain_abs. Qed.

Lemma Rel_self p : Rel p p = Ok ".".
Proof. unfold Rel. by rewrite decide_True. Qed.

Lemma Rel_abs_str l segs :
  segs ≠ [] → Forall plain_seg l → Forall plain_seg segs →
  Rel (abs_str l) (abs_str (l ++ segs)) = Ok (strings_Join segs "/").
Proof. intros. by apply (Rel_below (abs_str l) l). Qed.

Lemma below_dec_app p q : below p q → q = p ++ drop (length p) q.
Proof. intros [k ->]. by rewrite drop_app_length. Qed.

(** ** Renames *)

Lemma rekey_inj old new m p q :
  ¬ below new old → is_Some (remove_below new m !! p) → is_Some (remove_below new m !! q) →
  rekey old new p = rekey old new q → p = q.
Proof.
  intros Hno [np Hp] [nq Hq]. rewrite lookup_remove_below in Hp, Hq.
  destruct (decide (below new p)) as [|Hnp]; [done|].
  destruct (decide (below new q)) as [|Hnq]; [done|]. unfold rekey.
  destruct (decide (below old p)) as [[kp ->]|Hop], (decide (below old q)) as [[kq ->]|Hoq];
    rewrite ?drop_app_length; intros He.
  - by apply app_inv_head in He as ->.
  - destruct Hnq. rewrite <-He. apply below_app.
  - destruct Hnp. rewrite He. apply below_app.
  - done.
Qed.

Lemma lookup_rename_nodes old new m q :
  ¬ below new old → ¬ below old new →
  rename_nodes old new m !! q =
  if decide (below new q) then m !! (old ++ drop (length new) q)
  else if decide (below old q) then None else m !! q.
Proof.
  intros Hno Hon. unfold rename_nodes. set (r := remove_below new m).
  assert (NoDup (((λ qn, (rekey old new qn.1, qn.2)) <$> map_to_list r).*1)) as Hnd.
  { rewrite <-list_fmap_compose. apply NoDup_fmap_2_strong; [|apply NoDup_map_to_list].
    intros [p np] [p' np'] Hp%elem_of_map_to_list Hp'%elem_of_map_to_list. cbn. intros He.
    assert (p = p') as ->; [|congruence]. by apply (rekey_inj old new m); [|exists np|exists np'|]. }
  apply option_eq. intros n.
  rewrite <-elem_of_list_to_map by exact Hnd. rewrite list_elem_of_fmap.
  assert (∀ p, r !! p = Some n ↔ m !! p = Some n ∧ ¬ below new p) as Hr.
  { intros p. subst r. rewrite lookup_remove_below. destruct (decide _); naive_solver. }
  assert ((∃ y, (q, n) = (rekey old new y.1, y.2) ∧ y ∈ map_to_list r) ↔
    ∃ p, q = rekey old new p ∧ m !! p = Some n ∧ ¬ below new p) as ->.
  { split.
    - intros ([p n'] & [= -> ->] & Hp%elem_of_map_to_list). exists p. by rewrite <-Hr.
    - intros (p & -> & Hp). exists (p, n). split; [done|]. apply elem_of_map_to_list. by apply Hr. }
  assert (∀ k, ¬ below new (old ++ k)) as Hold.
  { intros k [j Hj]. apply app_eq_inv in Hj as [(l & -> & _)|(l & -> & _)]; [apply Hno|apply Hon]; apply below_app. }
  unfold rekey. split.
  - intros (p & -> & Hp & Hnp). destruct (decide (below old p)) as [[k ->]|Hop].
    + rewrite drop_app_length, decide_True by apply below_app. by rewrite drop_app_length.
    + by rewrite !decide_False by done.
  - destruct (decide (below new q)) as [[k ->]|Hnq].
    + rewrite drop_app_length. intros Hn. exists (old ++ k). rewrite decide_True by apply below_app.
      rewrite drop_app_length. by split; [|split].
    + destruct (decide (below old q)) as [|Hoq]; [done|]. intros Hn. exists q.
      by rewrite decide_False.
Qed.

Lemma below_length p q : below p q → (length p ≤ length q)%nat.
Proof. intros [k ->]. rewrite length_app. lia. Qed.

Lemma not_below_snoc p x : ¬ below (p ++ [x]) p.
Proof. intros H%below_length. rewrite length_app in H. cbn in H. lia. Qed.

Lemma wf_rename_nodes m old p x :
  wf_tree m → old ≠ [] → is_Some (m !! old) → m !! p = Some Dir → plain_seg x →
  ¬ below (p ++ [x]) old → ¬ below old (p ++ [x]) → wf_tree (rename_nodes old (p ++ [x]) m).
Proof.
  intros Hwf Hne [no Hold] Hp Hx Hno Hon.
  assert (¬ below old p) as Hop by (intros Hb; apply Hon; apply below_snoc; by left).
  assert (Forall plain_seg (p ++ [x])) as Hpl
    by (apply Forall_app; split; [by eapply wf_names|by apply Forall_singleton]).
  split.
  - rewrite lookup_rename_nodes, !decide_False; [by apply wf_root|..|done|done].
    + intros [k Hk]. by destruct old.
    + intros [k Hk]. by destruct p.
  - intros q y n'. rewrite !lookup_rename_nodes by done.
    destruct (decide (below (p ++ [x]) (q ++ [y]))) as [Hb|Hb].
    + apply below_snoc in Hb as [[k ->]|He].
      * rewrite decide_True by apply below_app. rewrite <-(assoc_L (++)), !drop_app_length.
        rewrite (assoc_L (++)). by apply wf_parent.
      * apply app_inj_tail in He as [<- <-]. intros _.
        by rewrite !decide_False by (done || apply not_below_snoc).
    + destruct (decide (below old (q ++ [y]))) as [|Hb']; [done|]. intros Hn.
      rewrite !decide_False by (intros Hq; first [apply Hb; apply below_snoc; by left|apply Hb'; apply below_snoc; by left]).
      by eapply wf_parent.
  - intros q n'. rewrite lookup_rename_nodes by done.
    destruct (decide (below (p ++ [x]) q)) as [[k ->]|Hb].
    + rewrite drop_app_length. intros Hn%(wf_names _ Hwf). apply Forall_app in Hn as [_ Hk].
      by apply Forall_app.
    + destruct (decide (below old q)); [done|]. by apply wf_names.
Qed.

Lemma Rename_run w old n p x :
  calm w → wf_tree (w_nodes w) → w_nodes w !! old = Some n → w_nodes w !! p = Some Dir →
  plain_seg x → w_nodes w !! (p ++ [x]) = None → ¬ below old (p ++ [x]) →
  Rename (abs_str old) (abs_str (p ++ [x])) w
  = (Ok tt, set_nodes (rename_nodes old (p ++ [x]) (w_nodes w)) w).
Proof.
  intros Hc Hwf Hold Hp Hx Hn Hb. unfold Rename, on_err. rewrite syscall_calm by done.
  rewrite (segs_of_child w Hwf) by done. rewrite segs_of_abs_str by (by eapply wf_names).
  rewrite (look_node w false old n) by done. destruct Hx as (_ & _ & Hx & _).
  rewrite resolve_parent_dir by done. rewrite Hn. by rewrite decide_False.
Qed.

(** ** Creating a path *)

(** [m] with the directories of the path [rest] below [p]. *)
Fixpoint mkdirs (p rest : fpath) (m : gmap fpath node) : gmap fpath node :=
  match rest with
  | [] => m
  | x :: rest => mkdirs (p ++ [x]) rest (<[p ++ [x] := Dir]> m)
  end.

(** Nothing but directories is in the way. *)
Definition free (m : gmap fpath node) (p rest : fpath) : Prop :=
  ∀ j, j ≠ [] → below j rest → m !! (p ++ j) = None ∨ m !! (p ++ j) = Some Dir.

Lemma mkdirs_snoc p rest x m : mkdirs p (rest ++ [x]) m = <[p ++ rest ++ [x] := Dir]> (mkdirs p rest m).
Proof.
  revert p m. induction rest as [|y rest IH]; intros p m; [done|]. cbn. rewrite IH.
  by rewrite <-(assoc_L (++)).
Qed.

(** What lies between [p] and the path [rest] below it. *)
Definition made (p rest q : fpath) : Prop := below p q ∧ q ≠ p ∧ below q (p ++ rest).
#[export] Instance made_dec p rest q : Decision (made p rest q).
Proof. unfold made. apply _. Defined.

Lemma made_app p rest j : made p rest (p ++ j) ↔ j ≠ [] ∧ below j rest.
Proof.
  unfold made, below. split.
  - intros (_ & Hne & [k Hk]). rewrite <-(assoc_L (++)) in Hk. apply app_inv_head in Hk as ->.
    split; [|by exists k]. intros ->. by rewrite (right_id_L [] (++)) in Hne.
  - intros [Hj [k ->]]. split; [by exists j|]. split; [|exists k; by rewrite <-(assoc_L (++))].
    intros He. apply Hj. apply (app_inv_head p). by rewrite (right_id_L [] (++)).
Qed.

Lemma lookup_mkdirs p rest m q :
  mkdirs p rest m !! q = if decide (made p rest q) then Some Dir else m !! q.
Proof.
  induction rest as [|x rest IH] using rev_ind.
  { rewrite decide_False; [done|]. intros Hm. pose proof Hm as [[j ->] _]. apply made_app in Hm as [Hj [k Hk]]. by destruct j. }
  rewrite mkdirs_snoc. destruct (decide (q = p ++ rest ++ [x])) as [->|Hq].
  - rewrite lookup_insert_eq, decide_True; [done|]. apply made_app. split; [by destruct rest|apply below_refl].
  - rewrite lookup_insert_ne by done. rewrite IH. apply decide_ext. unfold made.
    rewrite (assoc_L (++) p). rewrite below_snoc. rewrite <-(assoc_L (++) p). naive_solver.
Qed.

Lemma free_snoc m p rest x : free m p (rest ++ [x]) → free m p rest.
Proof. intros H j Hj Hb. apply H; [done|]. eapply below_trans; [exact Hb|apply below_app]. Qed.

Lemma wf_mkdirs p rest m :
  wf_tree m → m !! p = Some Dir → Forall plain_seg rest → free m p rest →
  wf_tree (mkdirs p rest m) ∧ mkdirs p rest m !! (p ++ rest) = Some Dir.
Proof.
  intros Hwf Hp. induction rest as [|x rest IH] using rev_ind.
  { intros _ _. by rewrite (right_id_L [] (++)). }
  rewrite Forall_app, Forall_singleton. intros [Hr Hx] Hf.
  destruct IH as [Hw Hd]; [done|by eapply free_snoc|]. rewrite mkdirs_snoc. split; [|apply lookup_insert_eq].
  rewrite (assoc_L (++)). apply wf_insert; [done..|by right|]. intros t.
  rewrite <-(assoc_L (++)), lookup_mkdirs. case_decide; [done|].
  assert (rest ++ [x] ≠ []) as Hne by by destruct rest.
  by destruct (Hf (rest ++ [x]) Hne (below_refl _)) as [->| ->].
Qed.

Lemma mkdirs_id p rest m :
  wf_tree m → m !! (p ++ rest) = Some Dir → mkdirs p rest m = m.
Proof.
  intros Hwf Hd. apply map_eq. intros q. rewrite lookup_mkdirs. case_decide as Hj; [|done].
  pose proof Hj as [[j ->] _]. apply made_app in Hj as [_ [k ->]]. symmetry. destruct (decide (k = [])) as [->|Hk].
  - by rewrite (right_id_L [] (++)) in Hd.
  - rewrite (assoc_L (++)) in Hd. by eapply wf_ancestor.
Qed.

(** The first missing component of a path. *)
Lemma resolve_free w follow p rest :
  wf_tree (w_nodes w) → w_nodes w !! p = Some Dir → Forall plain_seg rest → free (w_nodes w) p rest →
  w_nodes w !! (p ++ rest) = None →
  resolve w follow (p ++ rest) = Err (ErrSys KNotExist "no such file or directory").
Proof.
  revert p. induction rest as [|x rest IH]; intros p Hwf Hp.
  { rewrite (right_id_L [] (++)). congruence. }
  intros [Hx Hr]%Forall_cons Hf Hn.
  destruct (Hf [x]) as [Hpx|Hpx]; [done|by exists rest|..].
  - destruct Hx as (_ & _ & ? & _). by apply resolve_missing.
  - change (x :: rest) with ([x] ++ rest) in *. rewrite (assoc_L (++)) in *. apply IH; [done..| |done].
    intros j Hj [k ->]. rewrite <-(assoc_L (++)). apply Hf; [done|]. by exists k.
Qed.

Lemma look_free w follow p rest :
  wf_tree (w_nodes w) → w_nodes w !! p = Some Dir → Forall plain_seg rest → free (w_nodes w) p rest →
  w_nodes w !! (p ++ rest) = None →
  look w follow (p ++ rest) = Err (ErrSys KNotExist "no such file or directory").
Proof. intros. unfold look. by rewrite resolve_free. Qed.

(** A removal below directories that are there or missing. *)
Lemma RemoveAll_free w p more x :
  calm w → wf_tree (w_nodes w) → w_nodes w !! p = Some Dir → Forall plain_seg more → plain_seg x →
  free (w_nodes w) p more →
  RemoveAll (abs_str (p ++ more ++ [x])) w
  = (Ok tt, set_nodes (remove_below (p ++ more ++ [x]) (w_nodes w)) w).
Proof.
  intros Hc Hwf Hp Hm Hx Hf. assert (Forall plain_seg p) as Hpp by by eapply wf_names.
  assert (w_nodes w !! (p ++ more) = None ∨ w_nodes w !! (p ++ more) = Some Dir) as [Hn|Hd].
  { destruct (decide (more = [])) as [->|Hne]; [rewrite (right_id_L [] (++)); by right|].
    apply Hf; [done|apply below_refl]. }
  2:{ rewrite (assoc_L (++)). by apply RemoveAll_child. }
  unfold RemoveAll, on_err. rewrite sys_calm by done. unfold at_path.
  rewrite segs_of_abs_str by by rewrite !Forall_app, Forall_singleton.
  unfold remove_all, resolve_parent. rewrite (assoc_L (++)), last_snoc.
  destruct Hx as (_ & _ & Hx & _). rewrite decide_False by done.
  rewrite length_app, Nat.add_sub, take_app_length, resolve_free by done. cbn.
  f_equal. rewrite <-(set_nodes_id w) at 1. f_equal. apply map_eq. intros q. rewrite lookup_remove_below.
  case_decide as Hb; [|done]. destruct Hb as [k ->]. rewrite <-!(assoc_L (++)), (assoc_L (++) p).
  by apply wf_below_None.
Qed.

Lemma MkdirAll_app w p rest :
  calm w → wf_tree (w_nodes w) → w_nodes w !! p = Some Dir → Forall plain_seg rest →
  free (w_nodes w) p rest →
  MkdirAll (abs_str (p ++ rest)) w = (Ok tt, set_nodes (mkdirs p rest (w_nodes w)) w).
Proof.
  intros Hc Hwf Hp Hr Hf. assert (Forall plain_seg p) as Hpp by by eapply wf_names.
  unfold MkdirAll, on_err, at_path. rewrite segs_of_abs_str by by apply Forall_app.
  assert (mkdir_all (reverse (p ++ rest)) w = (Ok tt, set_nodes (mkdirs p rest (w_nodes w)) w)) as ->; [|done].
  assert (∀ q, w_nodes w !! q = Some Dir → mkdir_all (reverse q) w = (Ok tt, w)) as Hdir.
  { intros q Hq. destruct (reverse q) as [|y rq] eqn:Hrq; cbn [mkdir_all]; rewrite syscall_calm by done;
      rewrite <-Hrq, reverse_involutive; by rewrite (look_node w true q Dir). }
  induction rest as [|x rest IH] using rev_ind.
  { rewrite (right_id_L [] (++)). cbn. rewrite set_nodes_id. by apply Hdir. }
  destruct (Hf (rest ++ [x])) as [Hn|Hd]; [by destruct rest|apply below_refl| |].
  2:{ rewrite mkdirs_id by done. rewrite set_nodes_id. by apply Hdir. }
  pose proof Hr as Hr'. rewrite Forall_app, Forall_singleton in Hr'. destruct Hr' as [Hrest Hx].
  destruct (wf_mkdirs p rest (w_nodes w)) as [Hw2 Hd2]; [done..|by eapply free_snoc|].
  rewrite (assoc_L (++)), reverse_snoc. cbn [mkdir_all]. rewrite syscall_calm by done.
  rewrite reverse_cons, reverse_involutive, <-(assoc_L (++)).
  rewrite look_free by done. cbn [fmap result_fmap].
  rewrite IH by (done || by eapply free_snoc). unfold mkdir.
  rewrite syscall_calm by by apply set_nodes_calm. rewrite (assoc_L (++)).
  rewrite create_node_new; rewrite ?set_nodes_nodes; [|done..|].
  - by rewrite set_nodes_set_nodes, mkdirs_snoc, (assoc_L (++)).
  - rewrite <-(assoc_L (++)), lookup_mkdirs. rewrite decide_False; [done|].
    intros [_ [k He]]%made_app. apply (f_equal length) in He. rewrite !length_app in He. cbn in He. lia.
Qed.

(** ** Calls on a path that leads through links *)

Section look.
Context (w : world) (Hc : calm w) (p : fpath) (Hp : Forall plain_seg p).

Lemma Lstat_look q n : look w false p = Ok (q, n) → Lstat (abs_str p) w = (Ok n, w).
Proof using Type*.
  intros Hl. unfold Lstat, on_err. rewrite syscall_calm, segs_of_abs_str by done. by rewrite Hl.
Qed.

Lemma Stat_look q n : look w true p = Ok (q, n) → Stat (abs_str p) w = (Ok n, w).
Proof using Type*.
  intros Hl. unfold Stat, on_err. rewrite syscall_calm, segs_of_abs_str by done. by rewrite Hl.
Qed.

Lemma Readlink_look q t : look w false p = Ok (q, Symlink t) → Readlink (abs_str p) w = (Ok t, w).
Proof using Type*.
  intros Hl. unfold Readlink, on_err. rewrite syscall_calm, segs_of_abs_str by done. by rewrite Hl.
Qed.

Lemma ReadDir_look q : look w true p = Ok (q, Dir) → ReadDir (abs_str p) w = (Ok (dir_entries (w_nodes w) q), w).
Proof using Type*.
  intros Hl. unfold ReadDir, on_err. rewrite syscall_calm, segs_of_abs_str by done. by rewrite Hl.
Qed.

Lemma Link_look q i d x :
  look w false p = Ok (q, File i) → wf_tree (w_nodes w) → w_nodes w !! d = Some Dir → plain_seg x →
  w_nodes w !! (d ++ [x]) = None →
  os_Link (abs_str p) (abs_str (d ++ [x])) w = (Ok tt, set_nodes (<[d ++ [x] := File i]> (w_nodes w)) w).
Proof using Type*.
  intros Hl Hwf Hd Hx Hn. unfold os_Link, on_err. rewrite syscall_calm, segs_of_abs_str by done.
  rewrite Hl. rewrite (segs_of_child w Hwf) by done. by rewrite create_node_new.
Qed.
End look.

(** ** The image of a tree *)

(** The node a copy gets: devices, sockets and pipes are left out. *)
Definition copy_node (n : node) : option node :=
  match n with Other => None | _ => Some n end.

Section link.
Context (lit src dst : fpath) (m0 : gmap fpath node).
Context (Hwf0 : wf_tree m0) (Hsrc : m0 !! src = Some Dir) (Hdst : Forall plain_seg dst).
Context (Hsd : ¬ below src dst) (Hds : ¬ below dst src).

(** What the copy holds below its root. *)
Definition copied (k : fpath) : option node := m0 !! (src ++ k) ≫= copy_node.

(** A world in which part of the copy has been made and nothing else changed. *)
Record linking (w : world) : Prop := {
  lk_calm : calm w;
  lk_wf : wf_tree (w_nodes w);
  lk_rest : ∀ q, ¬ below dst q → w_nodes w !! q = m0 !! q
}.

(** The copy is made from the path [lit], which leads to the directory [src], perhaps through links. *)
Context (Hlit : Forall plain_seg lit).
Context (reach : ∀ w k follow n, linking w → m0 !! (src ++ k) = Some n →
  (∀ t, n = Symlink t → follow = false) → look w follow (lit ++ k) = Ok (src ++ k, n)).

Lemma src_not_dst k : ¬ below dst (src ++ k).
Proof using Hsd Hds.
  intros [j Hj]. apply app_eq_inv in Hj as [(l & He & _)|(l & He & _)]; [apply Hds|apply Hsd]; by exists l.
Qed.

Lemma lk_src w k : linking w → w_nodes w !! (src ++ k) = m0 !! (src ++ k).
Proof using Hsd Hds. intros H. apply (lk_rest w H), src_not_dst. Qed.

Lemma linking_insert w k x n :
  linking w → w_nodes w !! (dst ++ k) = Some Dir → plain_seg x →
  w_nodes w !! (dst ++ k ++ [x]) = None →
  linking (set_nodes (<[dst ++ k ++ [x] := n]> (w_nodes w)) w).
Proof using.
  intros H Hd Hx Hn. split; rewrite ?set_nodes_nodes.
  - apply set_nodes_calm, H.
  - rewrite (assoc_L (++)) in *. by apply wf_insert_new; [apply H|..].
  - intros q Hq. rewrite lookup_insert_ne; [by apply H|]. intros <-. apply Hq, below_app.
Qed.

Lemma link_entry_spec w k x n :
  linking w → m0 !! (src ++ k ++ [x]) = Some n → w_nodes w !! (dst ++ k) = Some Dir →
  w_nodes w !! (dst ++ k ++ [x]) = None →
  link_entry (abs_str lit) (abs_str dst) (abs_str (lit ++ k ++ [x])) w
  = (Ok tt, set_nodes (match copy_node n with
                       | Some n' => <[dst ++ k ++ [x] := n']> (w_nodes w)
                       | None => w_nodes w
                       end) w).
Proof using Type*.
  intros H Hn Hd Hnew. pose proof (lk_calm w H) as Hc. pose proof (lk_wf w H) as Hwf.
  pose proof (wf_names _ Hwf0 _ _ Hn) as Hp. apply Forall_app in Hp as [Hps Hpk].
  pose proof Hpk as Hpx. rewrite Forall_app, Forall_singleton in Hpx. destruct Hpx as [Hpk' Hpx].
  assert (k ++ [x] ≠ []) as Hne by by destruct k.
  unfold link_entry. rewrite Rel_abs_str by done.
  erewrite run_lift by done. cbv beta zeta.
  rewrite decide_False.
  2:{ intros He. pose proof (Split_Join_plain (k ++ [x]) Hne Hpk) as Hsp. rewrite He in Hsp.
      change (Split "." slash) with ["."] in Hsp. rewrite <-Hsp in Hpk.
      rewrite Forall_singleton in Hpk. by destruct Hpk as (_ & ? & _). }
  rewrite path_Join_abs_str by done.
  assert (look w false (lit ++ k ++ [x]) = Ok (src ++ k ++ [x], n)) as Hn' by by apply reach.
  assert (Forall plain_seg (lit ++ k ++ [x])) as Hpl by by apply Forall_app.
  erewrite run_bind by by eapply Lstat_look.
  assert (path_Dir (abs_str (dst ++ k ++ [x])) = abs_str (dst ++ k)) as Hdir.
  { rewrite (assoc_L (++)). apply path_Dir_abs; [|done]. by apply Forall_app. }
  rewrite (assoc_L (++) dst) in Hnew. destruct n as [|i|t|]; cbn [copy_node]; rewrite ?Hdir.
  - rewrite (assoc_L (++) dst). by apply MkdirAll_child.
  - erewrite run_bind by by apply MkdirAll_dir. rewrite (assoc_L (++) dst). by eapply Link_look.
  - erewrite run_bind by by eapply Readlink_look. erewrite run_bind by by apply MkdirAll_dir.
    rewrite (assoc_L (++) dst). by apply Symlink_new.
  - by rewrite set_nodes_id.
Qed.

(** [m'] is [m] with the copy of the subtree [k] in place. *)
Definition filled (k : fpath) (m m' : gmap fpath node) : Prop :=
  ∀ q, m' !! q = if decide (below (dst ++ k) q) then copied (drop (length dst) q) else m !! q.

Definition walk_ok (fuel : nat) : Prop := ∀ k x n w,
  linking w → m0 !! (src ++ k ++ [x]) = Some n → w_nodes w !! (dst ++ k) = Some Dir →
  w_nodes w !! (dst ++ k ++ [x]) = None →
  (∀ j, is_Some (m0 !! (src ++ k ++ [x] ++ j)) → (length j < fuel)%nat) →
  ∃ m', walk_dir fuel (abs_str (lit ++ k ++ [x])) n (link_entry (abs_str lit) (abs_str dst)) w
    = (Ok tt, set_nodes m' w) ∧ linking (set_nodes m' w) ∧ filled (k ++ [x]) (w_nodes w) m'.

Lemma walk_children fuel k es : walk_ok fuel → ∀ w,
  linking w → m0 !! (src ++ k) = Some Dir → w_nodes w !! (dst ++ k) = Some Dir → NoDup es.*1 →
  (∀ x n, (x, n) ∈ es → m0 !! (src ++ k ++ [x]) = Some n ∧ w_nodes w !! (dst ++ k ++ [x]) = None) →
  (∀ x j, is_Some (m0 !! (src ++ k ++ [x] ++ j)) → (length j < fuel)%nat) →
  ∃ m', for_eachM (λ xn, walk_dir fuel (path_Join [abs_str (lit ++ k); xn.1]) xn.2
      (link_entry (abs_str lit) (abs_str dst))) es w = (Ok tt, set_nodes m' w) ∧
    linking (set_nodes m' w) ∧
    ∀ q, m' !! q = if decide (Exists (λ x, below (dst ++ k ++ [x]) q) es.*1)
                   then copied (drop (length dst) q) else w_nodes w !! q.
Proof using Hwf0 Hlit.
  intros Hok. induction es as [|[x n] es IH]; intros w H Hk Hd Hnd Hes Hf.
  { exists (w_nodes w). cbn. rewrite set_nodes_id. split; [done|]. split; [done|]. intros q.
    rewrite decide_False; [done|]. intros He; inversion He. }
  apply NoDup_cons in Hnd as [Hx Hnd]. destruct (Hes x n (list_elem_of_here _ _)) as [Hn Hnew].
  assert (plain_seg x) as Hpx.
  { pose proof (wf_names _ Hwf0 _ _ Hn) as Hp. rewrite !Forall_app, Forall_singleton in Hp. apply Hp. }
  destruct (Hok k x n w H Hn Hd Hnew (Hf x)) as (m1 & Hr & Hl & Hfill).
  cbn [for_eachM fst snd].
  assert (Forall plain_seg (lit ++ k)) as Hpl.
  { apply Forall_app. split; [done|]. apply (wf_names _ Hwf0), Forall_app in Hk. apply Hk. }
  rewrite path_Join_abs_str_1 by done. rewrite <-(assoc_L (++)).
  erewrite run_bind by exact Hr.
  destruct (IH (set_nodes m1 w) Hl Hk) as (m2 & Hr2 & Hl2 & Hfill2); [|done| |done|].
  - rewrite set_nodes_nodes, Hfill, decide_False; [done|]. rewrite (assoc_L (++)). apply not_below_snoc.
  - intros y ny Hy. destruct (Hes y ny (list_elem_of_further _ _ _ Hy)) as [Hny Hnewy].
    split; [done|]. rewrite set_nodes_nodes, Hfill, decide_False; [done|].
    intros [j Hj]. rewrite <-!(assoc_L (++)) in Hj. apply app_inv_head, app_inv_head in Hj.
    injection Hj as <-. apply Hx. by apply (list_elem_of_fmap_2 fst) in Hy.
  - exists m2. rewrite set_nodes_set_nodes in Hr2, Hl2. split; [done|]. split; [done|]. intros q.
    rewrite Hfill2, set_nodes_nodes, Hfill. cbn [fmap list_fmap fst].
    destruct (decide (Exists _ es.*1)) as [He|He].
    + rewrite decide_True; [done|]. by apply Exists_cons_tl.
    + apply decide_ext. rewrite Exists_cons. naive_solver.
Qed.

(** The entries a directory of the source shows during the copy. *)
Lemma lk_entries w k : linking w → dir_entries (w_nodes w) (src ++ k) = dir_entries m0 (src ++ k).
Proof using Hsd Hds.
  intros H. assert (∀ x, w_nodes w !! ((src ++ k) ++ [x]) = m0 !! ((src ++ k) ++ [x])) as He.
  { intros x. rewrite <-(assoc_L (++)). by apply lk_src. }
  unfold dir_entries. assert (sort_Strings (children (w_nodes w) (src ++ k))
    = sort_Strings (children m0 (src ++ k))) as ->.
  { apply sort_Strings_unique, NoDup_Permutation; [apply NoDup_children..|].
    intros x. by rewrite !elem_of_children, He. }
  apply list_omap_ext, Forall2_same_length_lookup_2; [done|]. intros i x y Hx Hy.
  assert (x = y) as -> by congruence. by rewrite He.
Qed.

Lemma copied_below_missing k q :
  m0 !! (src ++ k) = None → below (dst ++ k) q → copied (drop (length dst) q) = None.
Proof using Hwf0.
  intros Hn [j ->]. unfold copied. rewrite <-(assoc_L (++)), drop_app_length, (assoc_L (++)).
  by rewrite wf_below_None.
Qed.

(** The children of one directory of the source. *)
Lemma walk_entries fuel k w :
  walk_ok fuel → linking w → m0 !! (src ++ k) = Some Dir → w_nodes w !! (dst ++ k) = Some Dir →
  (∀ x, w_nodes w !! (dst ++ k ++ [x]) = None) →
  (∀ j, is_Some (m0 !! (src ++ k ++ j)) → (length j < S fuel)%nat) →
  ∃ m', (ReadDir (abs_str (lit ++ k)) ≫= for_eachM (λ xn, walk_dir fuel
      (path_Join [abs_str (lit ++ k); xn.1]) xn.2 (link_entry (abs_str lit) (abs_str dst)))) w
      = (Ok tt, set_nodes m' w) ∧
    linking (set_nodes m' w) ∧ filled k (w_nodes w) m'.
Proof using Type*.
  intros Hok H Hk Hd Hnew Hf.
  assert (Forall plain_seg (lit ++ k)) as Hpl.
  { apply Forall_app. split; [done|]. apply (wf_names _ Hwf0), Forall_app in Hk. apply Hk. }
  erewrite run_bind by (eapply ReadDir_look; [apply H|done|by apply reach]).
  rewrite lk_entries by done.
  destruct (walk_children fuel k (dir_entries m0 (src ++ k)) Hok w H Hk Hd) as (m' & Hr & Hl & Hfill).
  - apply NoDup_dir_entries.
  - intros x n Hx%elem_of_dir_entries. by rewrite <-(assoc_L (++)) in Hx.
  - intros x j Hj. apply Hf in Hj. rewrite length_app in Hj. cbn in Hj. lia.
  - exists m'. split; [done|]. split; [done|]. intros q. rewrite Hfill.
    destruct (decide (below (dst ++ k) q)) as [[j ->]|Hq].
    + destruct j as [|x j].
      * rewrite (right_id_L [] (++)). rewrite decide_False.
        { rewrite Hd. unfold copied. by rewrite drop_app_length, Hk. }
        intros (x & _ & Hb)%Exists_exists. rewrite (assoc_L (++)) in Hb. by apply not_below_snoc in Hb.
      * destruct (decide (Exists _ _)) as [|Hex]; [done|]. assert (m0 !! (src ++ k ++ [x]) = None) as Hm.
        { apply eq_None_not_Some. intros [n Hn]. apply Hex, Exists_exists. exists x. split.
          - apply list_elem_of_fmap. exists (x, n). split; [done|]. apply elem_of_dir_entries.
            by rewrite <-(assoc_L (++)).
          - exists j. by rewrite <-!(assoc_L (++)). }
        rewrite (copied_below_missing (k ++ [x])); [|done|exists j; by rewrite <-!(assoc_L (++))].
        change (x :: j) with ([x] ++ j). rewrite !(assoc_L (++)). apply wf_below_None; [apply H|].
        rewrite <-!(assoc_L (++)). apply Hnew.
    + rewrite decide_False; [done|]. intros (x & _ & Hb)%Exists_exists. apply Hq.
      rewrite (assoc_L (++)) in Hb. eapply below_trans; [apply below_app|exact Hb].
Qed.

(** Copying a node that is not a directory. *)
Lemma filled_leaf k x n w :
  linking w → m0 !! (src ++ k ++ [x]) = Some n → n ≠ Dir →
  w_nodes w !! (dst ++ k ++ [x]) = None →
  filled (k ++ [x]) (w_nodes w)
    (match copy_node n with
     | Some n' => <[dst ++ k ++ [x] := n']> (w_nodes w)
     | None => w_nodes w
     end).
Proof using Hwf0.
  intros H Hn Hnd Hnew q.
  destruct (decide (below (dst ++ k ++ [x]) q)) as [[j ->]|Hq].
  - unfold copied. rewrite <-!(assoc_L (++)), drop_app_length.
    destruct (decide (j = [])) as [->|Hj].
    + rewrite (right_id_L [] (++)), Hn. cbn [mbind option_bind].
      destruct n; cbn [copy_node]; by rewrite ?lookup_insert_eq.
    + assert (m0 !! (src ++ k ++ [x] ++ j) = None) as ->.
      { rewrite (assoc_L (++) k), (assoc_L (++) src). by eapply wf_below_nondir. }
      assert (w_nodes w !! (dst ++ k ++ [x] ++ j) = None) as Hwn.
      { rewrite (assoc_L (++) k), (assoc_L (++) dst). apply wf_below_None; [apply H|done]. }
      assert (dst ++ k ++ [x] ≠ dst ++ k ++ [x] ++ j) as Hne.
      { intros He%app_inv_head%app_inv_head. by destruct j. }
      cbn [mbind option_bind]. destruct n; cbn [copy_node]; rewrite ?lookup_insert_ne by done; done.
  - assert (dst ++ k ++ [x] ≠ q) as Hne by (intros <-; apply Hq, below_refl).
    destruct n; cbn [copy_node]; rewrite ?lookup_insert_ne by done; done.
Qed.

Lemma walk_spec fuel : walk_ok fuel.
Proof using Type*.
  induction fuel as [|fuel IH]; intros k x n w H Hn Hd Hnew Hf.
  { specialize (Hf []). rewrite (right_id_L [] (++)) in Hf. rewrite Hn in Hf.
    specialize (Hf ltac:(eauto)). cbn in Hf. lia. }
  assert (plain_seg x) as Hpx.
  { pose proof (wf_names _ Hwf0 _ _ Hn) as Hp. rewrite !Forall_app, Forall_singleton in Hp. apply Hp. }
  assert (∀ j, below (dst ++ k ++ [x]) (dst ++ k ++ [x] ++ j)) as Hbj.
  { intros j. exists j. by rewrite <-!(assoc_L (++)). }
  cbn [walk_dir]. erewrite run_bind by by eapply link_entry_spec.
  set (w1 := set_nodes _ w). destruct (decide (n = Dir)) as [->|Hnd].
  - change (IsDir Dir) with true. cbv iota.
    assert (linking w1) as H1 by by apply linking_insert.
    destruct (walk_entries fuel (k ++ [x]) w1 IH H1 Hn) as (m' & Hr & Hl & Hfill).
    + subst w1. apply lookup_insert_eq.
    + intros y. subst w1. rewrite set_nodes_nodes. cbn [copy_node]. rewrite lookup_insert_ne.
      * rewrite (assoc_L (++)). apply wf_below_None; [apply H|done].
      * intros He. apply (f_equal length) in He. rewrite !length_app in He. cbn in He. lia.
    + intros j Hj. apply Hf. by rewrite <-!(assoc_L (++)) in Hj.
    + exists m'. subst w1. rewrite set_nodes_set_nodes in Hr, Hl. split; [exact Hr|]. split; [done|].
      intros q. rewrite Hfill, set_nodes_nodes. cbn [copy_node].
      destruct (decide (below (dst ++ k ++ [x]) q)) as [|Hq]; [done|].
      rewrite lookup_insert_ne; [done|]. intros <-. apply Hq, below_refl.
  - unfold IsDir. rewrite bool_decide_false by done. eexists. split; [reflexivity|].
    split; [|by apply filled_leaf].
    subst w1. destruct n; cbn [copy_node]; [done|by apply linking_insert..|by rewrite set_nodes_id].
Qed.
End link.

(** ** The whole copy *)

Lemma max_list_elem n l : n ∈ l → (n ≤ max_list l)%nat.
Proof.
  induction l as [|m l IH]; cbn; [by intros ?%not_elem_of_nil|].
  intros [->|Hn]%elem_of_cons; [lia|]. specialize (IH Hn). lia.
Qed.

Lemma walk_fuel_length w q n : w_nodes w !! q = Some n → (length q < walk_fuel w)%nat.
Proof.
  intros Hq. unfold walk_fuel. assert (length q ≤ max_list (length <$> (map_to_list (w_nodes w)).*1))%nat;
    [|lia]. apply max_list_elem, list_elem_of_fmap_2, list_elem_of_fmap.
  exists (q, n). split; [done|]. by apply elem_of_map_to_list.
Qed.

Section linkTree.
Context (w : world) (lit src p more : fpath) (x : string).
Context (Hc : calm w) (Hwf : wf_tree (w_nodes w)) (Hsrc : w_nodes w !! src = Some Dir).
Context (Hp : w_nodes w !! p = Some Dir) (Hmore : Forall plain_seg more) (Hx : plain_seg x).
Context (Hfree : free (w_nodes w) p more).

Let dst : fpath := p ++ more ++ [x].
Let m0 : gmap fpath node := mkdirs p more (w_nodes w).

Context (Hnew : w_nodes w !! dst = None) (Hsd : ¬ below src dst) (Hds : ¬ below dst src).
Context (Hlit : Forall plain_seg lit) (Hlook : look w false lit = Ok (src, Dir)).
Context (reach : ∀ w' k follow n, linking dst m0 w' → m0 !! (src ++ k) = Some n →
  (∀ t, n = Symlink t → follow = false) → look w' follow (lit ++ k) = Ok (src ++ k, n)).

Lemma dst_snoc : dst = (p ++ more) ++ [x].
Proof using. unfold dst. by rewrite (assoc_L (++)). Qed.

Lemma m0_src k : m0 !! (src ++ k) = w_nodes w !! (src ++ k).
Proof using Hsd.
  unfold m0. rewrite lookup_mkdirs. case_decide as Hm; [|done]. destruct Hsd. rewrite dst_snoc.
  destruct Hm as (_ & _ & Hb). eapply below_trans; [apply (below_app src k)|].
  eapply below_trans; [exact Hb|apply below_app].
Qed.

Lemma m0_src0 : m0 !! src = Some Dir.
Proof using Hsd Hsrc. pose proof (m0_src []) as H. by rewrite !(right_id_L [] (++)), Hsrc in H. Qed.

Lemma m0_wf : wf_tree m0 ∧ m0 !! (p ++ more) = Some Dir.
Proof using Hwf Hp Hmore Hfree. by apply wf_mkdirs. Qed.

Lemma m0_new : m0 !! dst = None.
Proof using Hnew.
  unfold m0. rewrite lookup_mkdirs, decide_False; [done|]. unfold dst. rewrite made_app. intros [_ [k Hk]].
  apply (f_equal length) in Hk. rewrite !length_app in Hk. cbn in Hk. lia.
Qed.

Lemma dst_plain : Forall plain_seg dst.
Proof using Hwf Hp Hmore Hx.
  unfold dst. rewrite !Forall_app, Forall_singleton. split; [by eapply wf_names|done].
Qed.

Lemma linking_start : linking dst m0 (set_nodes (<[dst := Dir]> m0) w).
Proof using Hc Hwf Hp Hmore Hx Hfree Hnew.
  destruct m0_wf as [Hw0 Hd0]. split; rewrite ?set_nodes_nodes.
  - by apply set_nodes_calm.
  - rewrite dst_snoc. apply wf_insert_new; [done..|]. rewrite <-dst_snoc. apply m0_new.
  - intros q Hq. rewrite lookup_insert_ne; [done|]. intros <-. apply Hq, below_refl.
Qed.

Lemma MkdirAll_dst : MkdirAll (abs_str dst) w = (Ok tt, set_nodes (<[dst := Dir]> m0) w).
Proof using Hc Hwf Hp Hmore Hx Hfree Hnew.
  unfold dst. rewrite MkdirAll_app; [by rewrite mkdirs_snoc|done..| |].
  - by rewrite Forall_app, Forall_singleton.
  - intros j Hj Hb. apply below_snoc in Hb as [Hb| ->]; [by apply Hfree|by left].
Qed.

(** The copy has, below its root, what the source has; the directories above it are made. *)
Lemma linkTree_through :
  ∃ m', linkTree (abs_str lit) (abs_str dst) w = (Ok tt, set_nodes m' w) ∧ wf_tree m' ∧
    ∀ q, m' !! q = if decide (below dst q)
                   then w_nodes w !! (src ++ drop (length dst) q) ≫= copy_node
                   else mkdirs p more (w_nodes w) !! q.
Proof using Type*.
  destruct m0_wf as [Hw0 Hd0]. pose proof dst_plain as Hpd. unfold linkTree.
  erewrite run_bind by by apply Abs_abs_str. erewrite run_bind by by apply Abs_abs_str.
  unfold WalkDir. erewrite run_bind by by eapply Lstat_look.
  unfold with_fuel. destruct (walk_fuel w) as [|fuel] eqn:Hfuel; [done|]. cbn [walk_dir].
  set (w1 := set_nodes (<[dst := Dir]> m0) w).
  assert (link_entry (abs_str lit) (abs_str dst) (abs_str lit) w = (Ok tt, w1)) as Hroot.
  { unfold link_entry. rewrite Rel_self. erewrite run_lift by done. cbv beta zeta.
    rewrite decide_True, path_Join_dot by done. apply MkdirAll_dst. }
  erewrite run_bind by exact Hroot. change (IsDir Dir) with true. cbv iota.
  destruct (walk_entries lit src dst m0 Hw0 m0_src0 Hpd Hsd Hds Hlit reach fuel [] w1) as (m' & Hr & Hl & Hfill).
  - by apply walk_spec; [|apply m0_src0|..].
  - apply linking_start.
  - rewrite (right_id_L [] (++)). apply m0_src0.
  - rewrite (right_id_L [] (++)). apply lookup_insert_eq.
  - intros y. cbn [app]. subst w1. rewrite set_nodes_nodes, lookup_insert_ne.
    + apply wf_below_None; [done|apply m0_new].
    + intros He. apply (f_equal length) in He. rewrite length_app in He. cbn in He. lia.
  - intros j [n Hn]. cbn [app] in Hn. rewrite m0_src in Hn. apply walk_fuel_length in Hn.
    rewrite Hfuel, length_app in Hn. lia.
  - exists m'. rewrite !(right_id_L [] (++)) in Hr. subst w1.
    rewrite set_nodes_set_nodes in Hr, Hl. split; [exact Hr|]. split; [apply Hl|].
    intros q. rewrite Hfill, (right_id_L [] (++)).
    destruct (decide (below dst q)) as [|Hq]; [unfold copied; by rewrite m0_src|].
    rewrite set_nodes_nodes, lookup_insert_ne by (intros <-; apply Hq, below_refl). done.
Qed.
End linkTree.

(** A copy made from the directory itself, two levels below one that is there. *)
Lemma linkTree_spec w src p t x :
  calm w → wf_tree (w_nodes w) → w_nodes w !! src = Some Dir → w_nodes w !! p = Some Dir →
  plain_seg t → plain_seg x →
  w_nodes w !! (p ++ [t]) = None ∨ w_nodes w !! (p ++ [t]) = Some Dir →
  w_nodes w !! (p ++ [t; x]) = None → ¬ below src (p ++ [t; x]) → ¬ below (p ++ [t; x]) src →
  ∃ m', linkTree (abs_str src) (abs_str (p ++ [t; x])) w = (Ok tt, set_nodes m' w) ∧ wf_tree m' ∧
    ∀ q, m' !! q = if decide (below (p ++ [t; x]) q)
                   then w_nodes w !! (src ++ drop (length (p ++ [t; x])) q) ≫= copy_node
                   else if decide (q = p ++ [t]) then Some Dir else w_nodes w !! q.
Proof.
  intros Hc Hwf Hsrc Hp Ht Hx Hpt Hnew Hsd Hds.
  destruct (linkTree_through w src src p [t] x) as (m' & Hr & Hw & Hm); try done.
  - by apply Forall_singleton.
  - intros j Hj Hb. destruct Hb as [k Hk]. destruct j as [|y [|]]; naive_solver.
  - by eapply wf_names.
  - by apply look_node.
  - intros w' k follow n Hl Hn Hf. apply look_node; [apply Hl| |done].
    rewrite (lk_rest _ _ _ Hl); [done|]. by apply src_not_dst.
  - exists m'. split; [exact Hr|]. split; [done|]. intros q. rewrite Hm. cbn [mkdirs app].
    case_decide; [done|]. case_decide as Hq; [subst; by rewrite lookup_insert_eq|].
    by rewrite lookup_insert_ne.
Qed.
