(* ===== verification/Promotion.v ===== *)
(** * Promotion of a partial run: correctness of [FinalizeBackup]

    The [latest] link, the tier snapshots and the promotion itself, as
    functional specifications over the node map, and the theorems about
    [FinalizeBackup] of internal/dataplane/snapshot.go. *)
From S2P Require Export LinkTree.
From stdpp Require Import options.
From Stdlib Require Import Ascii.

(** ** The latest link *)

Lemma hourly_tier : "hourly" ∈ tiers.
Proof. apply (bool_decide_unpack _). by vm_compute. Qed.

Lemma abs_str_snoc_app l x s : abs_str (l ++ [x]) +:+ s = abs_str (l ++ [x +:+ s]).
Proof.
  unfold abs_str. rewrite str_app_assoc. f_equal.
  destruct (decide (l = [])) as [->|Hl]; [done|]. rewrite !Join_app by done.
  cbn [strings_Join]. by rewrite !str_app_assoc.
Qed.

Lemma plain_latest : plain_seg "latest" ∧ plain_seg "latest.tmp".
Proof. apply (bool_decide_unpack _). by vm_compute. Qed.

Lemma below_snoc_ne p x y q : x ≠ y → below (p ++ [x]) q → ¬ below (p ++ [y]) q.
Proof.
  intros Hne [k ->] [j Hj]. rewrite <-!(assoc_L (++)) in Hj. apply app_inv_head in Hj.
  by injection Hj as <-.
Qed.

Section latest.
Context (R : fpath).

(** The tree after the link is replaced. *)
Definition relinked (t : string) (m m' : gmap fpath node) : Prop :=
  ∀ q, m' !! q = if decide (q = R ++ ["latest"]) then Some (Symlink t)
                 else if decide (below (R ++ ["latest.tmp"]) q) then None else m !! q.

Lemma below_latest_None w k :
  target R w → k ≠ [] → w_nodes w !! ((R ++ ["latest"]) ++ k) = None.
Proof.
  intros H Hk. destruct (w_nodes w !! (R ++ ["latest"])) as [n|] eqn:Hl.
  - destruct (tg_latest R w H n Hl) as (? & ? & _ & _ & _ & ->).
    by eapply wf_below_nondir; [apply H|..].
  - apply wf_below_None; [apply H|done].
Qed.

(** The node map after the four steps of [replaceLatestSymlink]. *)
Definition relink_map (t : string) (m : gmap fpath node) : gmap fpath node :=
  rename_nodes (R ++ ["latest.tmp"]) (R ++ ["latest"])
    (remove_below (R ++ ["latest"])
      (<[R ++ ["latest.tmp"] := Symlink t]> (remove_below (R ++ ["latest.tmp"]) m))).

Lemma latest_not_below :
  ¬ below (R ++ ["latest"]) (R ++ ["latest.tmp"]) ∧ ¬ below (R ++ ["latest.tmp"]) (R ++ ["latest"]).
Proof. split; (eapply below_snoc_ne; [|apply below_refl]); done. Qed.

Lemma relink_map_spec t w :
  target R w → relinked t (w_nodes w) (relink_map t (w_nodes w)).
Proof.
  intros H q. destruct latest_not_below as [Hlt Htl]. unfold relink_map.
  rewrite lookup_rename_nodes by done.
  destruct (decide (below (R ++ ["latest"]) q)) as [[k ->]|Hq].
  - rewrite drop_app_length, lookup_remove_below.
    rewrite (decide_False (P := below (R ++ ["latest"]) ((R ++ ["latest.tmp"]) ++ k)))
      by (eapply below_snoc_ne; [|apply below_app]; done).
    destruct (decide (k = [])) as [->|Hk].
    + rewrite !(right_id_L [] (++)), decide_True by done. apply lookup_insert_eq.
    + rewrite lookup_insert_ne, lookup_remove_below, decide_True.
      * rewrite decide_False by (intros He; rewrite <-(right_id_L [] (++)) in He; by apply app_inv_head in He).
        rewrite decide_False by (eapply below_snoc_ne; [|apply below_app]; done).
        by rewrite below_latest_None.
      * apply below_app.
      * intros He. rewrite <-(right_id_L [] (++)) in He at 1. by apply app_inv_head in He.
  - rewrite (decide_False (P := q = R ++ ["latest"])) by (intros ->; apply Hq, below_refl).
    destruct (decide (below (R ++ ["latest.tmp"]) q)) as [|Hq']; [done|].
    rewrite lookup_remove_below, decide_False by done.
    rewrite lookup_insert_ne by (intros <-; apply Hq', below_refl).
    by rewrite lookup_remove_below, decide_False.
Qed.

Lemma relinked_other t m m' q :
  relinked t m m' → q ≠ R ++ ["latest"] → ¬ below (R ++ ["latest.tmp"]) q → m' !! q = m !! q.
Proof. intros H H1 H2. by rewrite H, !decide_False. Qed.

Lemma snap_not_tmp tier x k : tier ∈ tiers → ¬ below (R ++ ["latest.tmp"]) (snap_path R tier x ++ k).
Proof.
  intros Ht [j Hj]. unfold snap_path in Hj. rewrite <-!(assoc_L (++)) in Hj. apply app_inv_head in Hj.
  injection Hj as -> _. unfold tiers in Ht. set_solver.
Qed.

Lemma tier_not_tmp tier : tier ∈ tiers → ¬ below (R ++ ["latest.tmp"]) (R ++ [tier]).
Proof.
  intros Ht [j Hj]. rewrite <-!(assoc_L (++)) in Hj. apply app_inv_head in Hj.
  injection Hj as -> _. unfold tiers in Ht. set_solver.
Qed.

Lemma target_relinked x w m' :
  target R w → plain_seg x → ContainsByte x backslash = false → wf_tree m' →
  relinked (snap_name "hourly" x) (w_nodes w) m' → target R (set_nodes m' w).
Proof.
  intros H Hx Hb Hwf Hm. split; rewrite ?set_nodes_nodes.
  - done.
  - apply set_nodes_calm, H.
  - rewrite (relinked_other _ _ _ _ Hm); [apply H| |apply not_below_snoc].
    intros He. apply (f_equal length) in He. rewrite length_app in He. cbn in He. lia.
  - intros tier Ht. rewrite (relinked_other _ _ _ _ Hm);
      [by apply H|by apply tier_not_latest|by apply tier_not_tmp].
  - intros tier y t Ht. rewrite (relinked_other _ _ _ _ Hm);
      [by apply H|apply snap_not_latest|].
    pose proof (snap_not_tmp tier y [] Ht) as Hn. by rewrite (right_id_L [] (++)) in Hn.
  - intros n. rewrite Hm, decide_True by done. intros [= <-]. exists "hourly", x.
    split; [set_solver|]. done.
Qed.

Lemma wf_relink_map t w : target R w → wf_tree (relink_map t (w_nodes w)).
Proof.
  intros H. destruct latest_not_below as [Hlt Htl]. destruct plain_latest as [Hpl Hpt].
  pose proof (tg_wf R w H) as Hwf. pose proof (tg_root R w H) as Hroot. unfold relink_map.
  assert (∀ x, R ++ [x] ≠ []) as Hne by (intros x; by destruct R).
  assert (∀ x, ¬ below (R ++ [x]) R) as Hnb by (intros x; apply not_below_snoc).
  assert (∀ x, R ++ [x] ≠ R) as Hnr by (intros x He; apply (Hnb x); rewrite He; apply below_refl).
  assert (wf_tree (remove_below (R ++ ["latest.tmp"]) (w_nodes w))) as H1
    by by apply wf_remove_below.
  assert (remove_below (R ++ ["latest.tmp"]) (w_nodes w) !! R = Some Dir) as Hr1
    by by rewrite lookup_remove_below, decide_False.
  assert (remove_below (R ++ ["latest.tmp"]) (w_nodes w) !! (R ++ ["latest.tmp"]) = None) as Hn1
    by (rewrite lookup_remove_below, decide_True; [done|apply below_refl]).
  apply wf_rename_nodes; [|done| |..|done|done|done].
  - apply wf_remove_below; [done|]. by apply wf_insert_new.
  - rewrite lookup_remove_below, decide_False by done. rewrite lookup_insert_eq. eauto.
  - rewrite lookup_remove_below, decide_False by done. by rewrite lookup_insert_ne by eauto.
Qed.

Lemma replaceLatestSymlink_spec w x :
  target R w → plain_seg x → ContainsByte x backslash = false →
  w_nodes w !! snap_path R "hourly" x = Some Dir →
  replaceLatestSymlink (abs_str R) (snap_name "hourly" x) w
  = (Ok tt, set_nodes (relink_map (snap_name "hourly" x) (w_nodes w)) w).
Proof.
  intros H Hx Hb Hh. assert ("hourly" ∈ tiers) as Ht by set_solver.
  pose proof (tg_plain R w H) as HR. pose proof (tg_wf R w H) as Hwf.
  pose proof (tg_calm R w H) as Hc. pose proof (tg_root R w H) as Hroot.
  destruct latest_not_below as [Hlt Htl]. destruct plain_latest as [Hpl Hpt].
  assert (∀ y, ¬ below (R ++ [y]) R) as Hnb by (intros y; apply not_below_snoc).
  assert (∀ y, R ++ [y] ≠ R) as Hnr by (intros y He; apply (Hnb y); rewrite He; apply below_refl).
  assert (∀ y, R ++ [y] ≠ []) as Hne by (intros y; by destruct R).
  unfold replaceLatestSymlink. rewrite Normalize_snap by done.
  unfold on_err at 1. erewrite run_bind by reflexivity. cbv zeta.
  assert (Forall plain_seg ["hourly"; x]) as Hp2 by (apply plain_two; [by apply tier_plain|done]).
  pose proof (ensureInside_normalized (abs_str R) R ["hourly"; x] (clean_root_abs_str R HR)
    ltac:(done) Hp2) as Hin.
  change (strings_Join ["hourly"; x] "/") with (snap_name "hourly" x) in Hin. rewrite Hin.
  erewrite run_lift by reflexivity. rewrite path_Join_root_snap by done.
  pose proof (Stat_snap R w "hourly" x H Ht Hx) as Hs. rewrite Hh in Hs.
  erewrite run_bind by exact Hs. change (negb (IsDir Dir)) with false. cbv iota.
  rewrite path_Join_abs_str_1, abs_str_snoc_app by done. change ("latest" +:+ ".tmp") with "latest.tmp".
  erewrite run_try by by apply RemoveAll_child.
  set (m1 := remove_below (R ++ ["latest.tmp"]) (w_nodes w)).
  assert (wf_tree m1) as H1 by by apply wf_remove_below.
  assert (m1 !! R = Some Dir) as Hr1 by by (subst m1; rewrite lookup_remove_below, decide_False).
  assert (m1 !! (R ++ ["latest.tmp"]) = None) as Hn1
    by (subst m1; rewrite lookup_remove_below, decide_True; [done|apply below_refl]).
  erewrite run_bind by (apply Symlink_new; done || by apply set_nodes_calm).
  rewrite set_nodes_set_nodes, set_nodes_nodes.
  set (m2 := <[R ++ ["latest.tmp"] := Symlink (snap_name "hourly" x)]> m1).
  assert (wf_tree m2) as H2 by by apply wf_insert_new.
  assert (m2 !! R = Some Dir) as Hr2 by by (subst m2; rewrite lookup_insert_ne).
  erewrite run_try by (apply RemoveAll_child; done || by apply set_nodes_calm).
  rewrite set_nodes_set_nodes, set_nodes_nodes.
  erewrite Rename_run with (n := Symlink (snap_name "hourly" x));
    rewrite ?set_nodes_nodes, ?set_nodes_set_nodes; try done.
  - by apply wf_remove_below.
  - rewrite lookup_remove_below, decide_False by done. apply lookup_insert_eq.
  - by rewrite lookup_remove_below, decide_False.
  - rewrite lookup_remove_below, decide_True; [done|apply below_refl].
Qed.
End latest.

(** ** Tier snapshots *)

Definition tier_pairs (ts : Time) : list (string * string) :=
  [("daily", format_date ts); ("weekly", format_date (weekStart ts)); ("monthly", format_month ts)].

Lemma plain_format_month t : four_digit_year t → plain_seg (format_month t).
Proof.
  unfold four_digit_year, format_month. intros Hy. destruct (Time_Date t) as [[y m] d]. cbn in Hy.
  unfold format_year. rewrite decide_True by done. apply plain_long.
  - rewrite !length_app_str, !length_pad. cbn [String.length]. lia.
  - rewrite !ContainsByte_app, !ContainsByte_pad by apply non_digit_slash. reflexivity.
Qed.

Lemma tierSnapshotNames_pairs ts :
  four_digit_year ts → four_digit_year (weekStart ts) →
  tierSnapshotNames ts = name_of <$> tier_pairs ts ∧
  Forall (λ ty, ty.1 ∈ tiers ∧ ty.1 ≠ "hourly" ∧ plain_seg ty.2) (tier_pairs ts).
Proof.
  intros Ht Hw. assert ("daily" ∈ tiers ∧ "weekly" ∈ tiers ∧ "monthly" ∈ tiers) as (H1 & H2 & H3)
    by (apply (bool_decide_unpack _); by vm_compute).
  pose proof (plain_format_date ts Ht) as P1. pose proof (plain_format_date _ Hw) as P2.
  pose proof (plain_format_month ts Ht) as P3. split.
  - unfold tierSnapshotNames. rewrite (path_Join_snap "daily" _ H1 P1).
    rewrite (path_Join_snap "weekly" _ H2 P2), (path_Join_snap "monthly" _ H3 P3).
    unfold tier_pairs, name_of. cbn [fmap list_fmap fst snd]. reflexivity.
  - unfold tier_pairs. repeat (apply Forall_cons_2; [split; [assumption|split; [|assumption]]; discriminate|]).
    apply Forall_nil_2.
Qed.

Section tiers.
Context (R src : fpath) (x0 : string).
Context (Hsrc_def : src = snap_path R "hourly" x0).

(** The tier snapshots a promotion creates: those that do not exist yet. *)
Definition fresh (m : gmap fpath node) (l : list (string * string)) : list (string * string) :=
  filter (λ ty, m !! snap_of R ty = None) l.

(** [m'] is [m] with a copy of [src] at every fresh tier snapshot. *)
Record linked (l : list (string * string)) (m m' : gmap fpath node) : Prop := {
  ld_copy : ∀ ty k, ty ∈ fresh m l → m' !! (snap_of R ty ++ k) = m !! (src ++ k) ≫= copy_node;
  ld_rest : ∀ q, (∀ ty, ty ∈ fresh m l → ¬ below (snap_of R ty) q ∧ q ≠ R ++ [ty.1]) →
    m' !! q = m !! q;
  ld_tier : ∀ ty, ty ∈ fresh m l → m' !! (R ++ [ty.1]) = Some Dir
}.

Lemma hourly_not_below tier y k : tier ≠ "hourly" → ¬ below (snap_path R tier y) (src ++ k).
Proof using Hsrc_def.
  intros Hne [j Hj]. subst src. unfold snap_path in Hj. rewrite <-!(assoc_L (++)) in Hj.
  apply app_inv_head in Hj. by injection Hj as <- _.
Qed.

Lemma not_below_hourly tier y : tier ≠ "hourly" → ¬ below src (snap_path R tier y).
Proof using Hsrc_def.
  intros Hne. subst src. by intros [<- _]%below_snap_snap.
Qed.

Lemma tier_not_hourly_path tier k : R ++ [tier] ≠ src ++ k.
Proof using Hsrc_def.
  intros He. apply (f_equal length) in He. subst src. unfold snap_path in He.
  rewrite !length_app in He. cbn in He. lia.
Qed.

(** [m1] is [m] with a copy of [src] at one tier snapshot. *)
Definition tier_step (tier y : string) (m m1 : gmap fpath node) : Prop :=
  ∀ q, m1 !! q = if decide (below (snap_path R tier y) q)
                 then m !! (src ++ drop (length (snap_path R tier y)) q) ≫= copy_node
                 else if decide (q = R ++ [tier]) then Some Dir else m !! q.

(** One tier snapshot that is missing. *)
Lemma linkTree_tier w tier y :
  target R w → w_nodes w !! src = Some Dir → tier ∈ tiers → tier ≠ "hourly" → plain_seg y →
  w_nodes w !! snap_path R tier y = None →
  ∃ m', linkTree (abs_str src) (abs_str (snap_path R tier y)) w = (Ok tt, set_nodes m' w) ∧
    target R (set_nodes m' w) ∧
    tier_step tier y (w_nodes w) m'.
Proof using Hsrc_def.
  intros H Hs Ht Hne Hy Hn. destruct (tier_plain tier Ht) as [Htp _].
  destruct (linkTree_spec w src R tier y (tg_calm R w H) (tg_wf R w H) Hs (tg_root R w H) Htp Hy
    (tg_tier R w H tier Ht) Hn) as (m' & Hr & Hwf & Hm).
  { by apply not_below_hourly. }
  { pose proof (hourly_not_below tier y [] Hne) as Hb. by rewrite (right_id_L [] (++)) in Hb. }
  exists m'. split; [done|]. split; [|done].
  assert (∀ z, ¬ below (snap_path R tier y) (R ++ [z])) as Hbz by (intros z; apply below_snap_tier).
  assert (∀ z, z ≠ tier → m' !! (R ++ [z]) = w_nodes w !! (R ++ [z])) as Hz.
  { intros z Hzt. rewrite Hm, decide_False, decide_False; [done| |apply Hbz].
    intros He%app_inv_head. by injection He. }
  split; rewrite ?set_nodes_nodes; [done|by apply set_nodes_calm, H|..].
  - rewrite Hm, decide_False, decide_False; [apply H| |apply below_snap_root].
    intros He. apply (f_equal length) in He. rewrite length_app in He. cbn in He. lia.
  - intros z Hzt. destruct (decide (z = tier)) as [->|Hzn]; [|rewrite Hz by done; by apply H].
    right. by rewrite Hm, decide_False, decide_True by (done || apply Hbz).
  - intros z v t Hzt. rewrite Hm. destruct (decide (below _ _)) as [Hb|Hb].
    + apply below_snap_snap in Hb as [<- <-].
      rewrite <-(right_id_L [] (++) (snap_path R tier y)) at 2.
      rewrite drop_app_length, (right_id_L [] (++)), Hs. done.
    + rewrite decide_False; [by apply H|]. intros He. apply (f_equal length) in He.
      rewrite !length_app in He. cbn in He. lia.
  - intros n. rewrite Hz by (intros <-; by apply (tier_latest "latest")). apply H.
Qed.

Definition tier_ok (ty : string * string) : Prop := ty.1 ∈ tiers ∧ ty.1 ≠ "hourly" ∧ plain_seg ty.2.

Lemma fresh_cons_None m ty l : m !! snap_of R ty = None → fresh m (ty :: l) = ty :: fresh m l.
Proof. intros Hn. unfold fresh. by rewrite filter_cons_True. Qed.

Lemma fresh_cons_Some m ty l : is_Some (m !! snap_of R ty) → fresh m (ty :: l) = fresh m l.
Proof. intros [n Hn]. unfold fresh. rewrite filter_cons_False; [done|]. by rewrite Hn. Qed.

Lemma fresh_ext m m' l :
  (∀ ty, ty ∈ l → m !! snap_of R ty = m' !! snap_of R ty) → fresh m l = fresh m' l.
Proof.
  intros H. unfold fresh.
  induction l as [|ty l IH]; [done|]. rewrite !filter_cons.
  rewrite (decide_ext (m !! snap_of R ty = None) (m' !! snap_of R ty = None))
    by (by rewrite H by apply list_elem_of_here).
  rewrite IH; [done|]. intros ty' Hty'. by apply H, list_elem_of_further.
Qed.

Lemma elem_of_fresh m l ty : ty ∈ fresh m l → ty ∈ l.
Proof. intros Hty. by apply list_elem_of_filter in Hty as [_ ?]. Qed.

(** What [linkTree_tier] leaves alone. *)
Lemma tier_step_other m m1 tier y q :
  tier_step tier y m m1 →
  ¬ below (snap_path R tier y) q → q ≠ R ++ [tier] → m1 !! q = m !! q.
Proof. intros H H1 H2. by rewrite H, !decide_False. Qed.

(** Adding the first, fresh pair. *)
Lemma linked_cons m m1 m2 tier y l :
  m !! snap_path R tier y = None → tier ≠ "hourly" → tier ∉ l.*1 → Forall tier_ok l →
  tier_step tier y m m1 →
  fresh m1 l = fresh m l → linked l m1 m2 → linked ((tier, y) :: l) m m2.
Proof using Hsrc_def.
  intros Hn Hne Hnin Hok Hm1 Hf [Hc Hr Ht]. rewrite Hf in Hc, Hr, Ht.
  assert (∀ ty, ty ∈ fresh m l → ty.1 ≠ tier) as Hdiff.
  { intros ty Hty <-. apply Hnin, list_elem_of_fmap_2. by eapply elem_of_fresh. }
  assert (∀ ty k, ty ∈ fresh m l → ¬ below (snap_of R ty) (snap_path R tier y ++ k)) as Hsep.
  { intros [t z] k Hty [j Hj]. unfold snap_of, snap_path in Hj. cbn in Hj.
    rewrite <-!(assoc_L (++)) in Hj. apply app_inv_head in Hj. injection Hj as He _.
    by apply (Hdiff (t, z) Hty). }
  assert (∀ k, m1 !! (src ++ k) = m !! (src ++ k)) as Hs.
  { intros k. apply (tier_step_other m m1 tier y); [done|by apply hourly_not_below|].
    apply not_eq_sym, tier_not_hourly_path. }
  split; rewrite fresh_cons_None by done.
  - intros ty k [->|Hty]%elem_of_cons; [|by rewrite Hc, Hs].
    rewrite Hr.
    + unfold snap_of. cbn [fst snd]. rewrite Hm1, decide_True by apply below_app.
      by rewrite drop_app_length.
    + intros ty Hty. split; [by apply Hsep|]. intros He. apply (f_equal length) in He.
      unfold snap_of, snap_path in He. rewrite !length_app in He. cbn in He. lia.
  - intros q Hq. rewrite Hr.
    + destruct (Hq (tier, y) (list_elem_of_here _ _)) as [Hb Hne'].
      by apply (tier_step_other m m1 tier y).
    + intros ty Hty. by apply Hq, list_elem_of_further.
  - intros ty [->|Hty]%elem_of_cons; [|by apply Ht].
    cbn [fst]. rewrite Hr.
    + rewrite Hm1, decide_False by apply below_snap_tier. by rewrite decide_True.
    + intros ty Hty. split; [apply below_snap_tier|]. intros He%app_inv_head.
      injection He as He. by apply (Hdiff ty Hty).
Qed.

Lemma link_tiers_spec l : ∀ w points,
  target R w → w_nodes w !! src = Some Dir → Forall tier_ok l → NoDup l.*1 →
  ∃ m', link_tiers (abs_str R) (abs_str src) (name_of <$> l) points w
      = (Ok (points ++ (name_of <$> fresh (w_nodes w) l), None), set_nodes m' w) ∧
    target R (set_nodes m' w) ∧ linked l (w_nodes w) m'.
Proof using Hsrc_def.
  induction l as [|[tier y] l IH]; intros w points H Hs Hok Hnd.
  { exists (w_nodes w). cbn. rewrite (right_id_L [] (++)), set_nodes_id.
    split; [done|]. split; [done|]. split; [|done|]; by intros ? ? ?%not_elem_of_nil || intros ? ?%not_elem_of_nil. }
  apply Forall_cons in Hok as [(Ht & Hne & Hy) Hok]. apply NoDup_cons in Hnd as [Hnin Hnd].
  cbn [fst snd fmap list_fmap] in Ht, Hne, Hy, Hnin. cbn [fmap list_fmap link_tiers].
  change (name_of (tier, y)) with (snap_name tier y).
  rewrite path_Join_root_snap by (done || by eapply tg_plain).
  pose proof (Stat_snap R w tier y H Ht Hy) as Hst.
  destruct (w_nodes w !! snap_path R tier y) as [n|] eqn:Hn.
  - erewrite run_try by exact Hst. cbv beta iota.
    destruct (IH w points H Hs Hok Hnd) as (m' & Hr & H' & Hl). exists m'.
    rewrite fresh_cons_Some by (exists n; exact Hn). split; [done|]. split; [done|].
    destruct Hl as [Hc Hr' Ht']. split; rewrite fresh_cons_Some by (exists n; exact Hn); done.
  - destruct Hst as (e & Hst & He). erewrite run_try by exact Hst. cbv beta iota. rewrite He.
    destruct (linkTree_tier w tier y H Hs Ht Hne Hy Hn) as (m1 & Hr1 & H1 & Hm1).
    erewrite run_try by exact Hr1. cbv beta iota.
    assert (fresh m1 l = fresh (w_nodes w) l) as Hf.
    { apply fresh_ext. intros [t z] Htz. apply (tier_step_other _ m1 tier y); [done|..].
      - unfold snap_of. cbn [fst snd]. intros [<- _]%below_snap_snap. apply Hnin. by apply (list_elem_of_fmap_2 fst) in Htz.
      - intros Heq. apply (f_equal length) in Heq. unfold snap_of, snap_path in Heq.
        rewrite !length_app in Heq. cbn in Heq. lia. }
    destruct (IH (set_nodes m1 w) (points ++ [snap_name tier y]) H1) as (m2 & Hr2 & H2 & Hl2);
      [|done|done|].
    + rewrite set_nodes_nodes, <-Hs, <-(right_id_L [] (++) src) at 1.
      rewrite <-(right_id_L [] (++) src) at 2.
      apply (tier_step_other _ m1 tier y); [done|by apply hourly_not_below|].
      apply not_eq_sym, tier_not_hourly_path.
    + rewrite set_nodes_nodes, set_nodes_set_nodes in *. exists m2. split; [|split; [done|]].
      * rewrite Hr2, Hf, fresh_cons_None by done. by rewrite <-(assoc_L (++)).
      * by eapply linked_cons.
Qed.
End tiers.

(** ** Finishing a promoted snapshot *)

(** A source that is present, as a normalised path, in a snapshot directory. *)
Definition source_in (m : gmap fpath node) (d : fpath) (s : string) : Prop :=
  ∃ segs n, s = strings_Join segs "/" ∧ segs ≠ [] ∧ Forall plain_seg segs ∧
    ContainsByte s backslash = false ∧ m !! (d ++ segs) = Some n ∧ not_symlink n.

Lemma validateSnapshotSources_spec w d sources :
  calm w → wf_tree (w_nodes w) → Forall plain_seg d → Forall (source_in (w_nodes w) d) sources →
  validateSnapshotSources (abs_str d) sources w = (Ok tt, w).
Proof.
  intros Hc Hwf Hd. unfold validateSnapshotSources.
  induction 1 as [|s sources (segs & n & -> & Hne & Hp & Hb & Hn & Hns) _ IH]; [done|].
  cbn [for_eachM]. erewrite run_bind; [exact IH|].
  rewrite NormalizeRelativePath_normal by done. unfold on_err at 1. erewrite run_bind by reflexivity.
  rewrite path_Join_abs_str by done. erewrite run_bind; [reflexivity|].
  apply run_on_err. apply Stat_node; [done|done|exact Hn|]. intros t ->. by apply Hns.
Qed.

Section promote.
Context (R : fpath) (x : string) (ts : Time).
Context (Hx : plain_seg x) (Hb : ContainsByte x backslash = false).
Context (Hts : four_digit_year ts) (Hws : four_digit_year (weekStart ts)).

Let hourly : fpath := snap_path R "hourly" x.

(** The tree [m1] a promotion makes of a tree [m] with the hourly snapshot in
    place, before retention. *)
Record promoted (m m1 : gmap fpath node) : Prop := {
  pr_latest : m1 !! (R ++ ["latest"]) = Some (Symlink (snap_name "hourly" x));
  pr_copy : ∀ ty k, ty ∈ tier_pairs ts → m !! snap_of R ty = None →
    m1 !! (snap_of R ty ++ k) = m !! (hourly ++ k) ≫= copy_node;
  pr_rest : ∀ q, q ≠ R ++ ["latest"] → ¬ below (R ++ ["latest.tmp"]) q →
    (∀ ty, ty ∈ tier_pairs ts → m !! snap_of R ty = None →
      ¬ below (snap_of R ty) q ∧ q ≠ R ++ [ty.1]) → m1 !! q = m !! q
}.

Definition promotion_points (m : gmap fpath node) : list string :=
  [snap_name "hourly" x; "latest -> " +:+ snap_name "hourly" x]
  ++ (name_of <$> fresh R m (tier_pairs ts)).

Lemma relinked_snap t m m' tier y k :
  relinked R t m m' → tier ∈ tiers → m' !! (snap_path R tier y ++ k) = m !! (snap_path R tier y ++ k).
Proof using.
  intros H Ht. eapply relinked_other; [exact H| |by apply snap_not_tmp].
  intros He. apply (f_equal length) in He. unfold snap_path in He.
  rewrite !length_app in He. cbn in He. lia.
Qed.

Lemma NoDup_tier_pairs : NoDup (tier_pairs ts).*1.
Proof using. cbn. apply (bool_decide_unpack _). by vm_compute. Qed.

Lemma relinked_promoted t m m' m1 :
  relinked R t m m' → t = snap_name "hourly" x → linked R hourly (tier_pairs ts) m' m1 →
  fresh R m' (tier_pairs ts) = fresh R m (tier_pairs ts) → promoted m m1.
Proof using Type*.
  intros Hr -> [Hcp Hrest Htier] Hf. destruct (tierSnapshotNames_pairs ts Hts Hws) as [_ Hok].
  rewrite Hf in Hcp, Hrest, Htier.
  assert (∀ ty, ty ∈ fresh R m (tier_pairs ts) ↔ ty ∈ tier_pairs ts ∧ m !! snap_of R ty = None) as Hfr.
  { intros ty. unfold fresh. rewrite list_elem_of_filter. naive_solver. }
  split.
  - rewrite Hrest; [by rewrite Hr, decide_True|]. intros ty [Hty _]%Hfr.
    split; [apply below_snap_tier|]. apply not_eq_sym, tier_not_latest.
    by eapply Forall_forall in Hok as [? _].
  - intros ty k Hty Hn. rewrite Hcp by (by apply Hfr). unfold hourly.
    by rewrite (relinked_snap (snap_name "hourly" x) m m') by (done || apply hourly_tier).
  - intros q H1 H2 H3. rewrite Hrest by (intros ty [? ?]%Hfr; by apply H3).
    by apply (relinked_other R _ _ _ _ Hr).
Qed.

Lemma finalizePromotedSnapshot_spec w sources policy :
  target R w → w_nodes w !! hourly = Some Dir → Forall (source_in (w_nodes w) hourly) sources →
  ∃ m1, finalizePromotedSnapshot (abs_str R) (snap_name "hourly" x) (abs_str hourly) ts sources
      policy w
    = (Ok (promotion_points (w_nodes w), None), set_nodes (retained R policy m1) w) ∧
    target R (set_nodes m1 w) ∧ promoted (w_nodes w) m1.
Proof using Hx Hb Hts Hws.
  intros H Hh Hsrc. destruct (tierSnapshotNames_pairs ts Hts Hws) as [Hnames Hok].
  unfold finalizePromotedSnapshot.
  erewrite run_try by (apply validateSnapshotSources_spec;
    [apply H|apply H|eapply wf_names; [apply H|exact Hh]|done]). cbv beta iota zeta.
  erewrite run_try by by apply replaceLatestSymlink_spec. cbv beta iota.
  pose proof (relink_map_spec R (snap_name "hourly" x) w H) as Hre.
  set (m' := relink_map R _ _) in *.
  assert (target R (set_nodes m' w)) as H' by (eapply target_relinked; [done..| |exact Hre]; by apply wf_relink_map).
  assert (∀ tier y, tier ∈ tiers → m' !! snap_path R tier y = w_nodes w !! snap_path R tier y) as Hsn.
  { intros tier y Ht. pose proof (relinked_snap _ _ m' tier y [] Hre Ht) as He.
    by rewrite !(right_id_L [] (++)) in He. }
  destruct (link_tiers_spec R hourly x eq_refl (tier_pairs ts) (set_nodes m' w)
    [snap_name "hourly" x; "latest -> " +:+ snap_name "hourly" x] H') as (m1 & Hr & H1 & Hl).
  - rewrite set_nodes_nodes. unfold hourly. rewrite Hsn by apply hourly_tier. exact Hh.
  - done.
  - apply NoDup_tier_pairs.
  - rewrite set_nodes_nodes, set_nodes_set_nodes in *. exists m1.
    assert (fresh R m' (tier_pairs ts) = fresh R (w_nodes w) (tier_pairs ts)) as Hf.
    { apply fresh_ext. intros ty Hty. apply Hsn. by eapply Forall_forall in Hok as [? _]. }
    rewrite Hnames. cbn [app]. erewrite run_bind by exact Hr. cbv beta iota.
    erewrite run_bind by by apply ApplyRetention_spec. rewrite set_nodes_nodes, set_nodes_set_nodes.
    rewrite Hf. split; [done|]. split; [done|]. by eapply relinked_promoted.
Qed.
End promote.

(** ** Moving the partial run *)

Section move.
Context (R : fpath) (x run : string) (w : world).
Context (H : target R w) (Hx : plain_seg x).
Context (Hpart : w_nodes w !! (R ++ [".partial"; run]) = Some Dir).
Context (Hnew : w_nodes w !! snap_path R "hourly" x = None).

Let part : fpath := R ++ [".partial"; run].
Let hourly : fpath := snap_path R "hourly" x.

(** The tree with the hourly tier, and with the partial run moved into it. *)
Definition with_tier : gmap fpath node := <[R ++ ["hourly"] := Dir]> (w_nodes w).
Definition moved : gmap fpath node := rename_nodes part hourly with_tier.

Lemma part_neq_tier k : R ++ ["hourly"] ≠ part ++ k.
Proof using.
  intros He. unfold part in He. rewrite <-(assoc_L (++)) in He. apply app_inv_head in He. done.
Qed.

Lemma part_hourly k : ¬ below part (hourly ++ k) ∧ ¬ below hourly (part ++ k).
Proof using.
  unfold part, hourly, snap_path. split; intros [j Hj]; rewrite <-!(assoc_L (++)) in Hj;
    apply app_inv_head in Hj; done.
Qed.

Lemma part_hourly_0 : ¬ below part hourly ∧ ¬ below hourly part.
Proof using. pose proof (part_hourly []) as Hp. by rewrite !(right_id_L [] (++)) in Hp. Qed.

Lemma with_tier_hourly : with_tier !! (R ++ ["hourly"]) = Some Dir.
Proof using. apply lookup_insert_eq. Qed.

Lemma with_tier_other q : q ≠ R ++ ["hourly"] → with_tier !! q = w_nodes w !! q.
Proof using. intros Hq. by apply lookup_insert_ne. Qed.

Lemma wf_with_tier : wf_tree with_tier.
Proof using H.
  unfold with_tier. destruct (tg_tier R w H "hourly" hourly_tier) as [Hn|Hn].
  - apply wf_insert_new; [apply H|apply H| |done]. by apply (tier_plain "hourly"), hourly_tier.
  - rewrite insert_id by done. apply H.
Qed.

Lemma hourly_snoc : hourly = (R ++ ["hourly"]) ++ [x].
Proof using. apply snap_path_tier. Qed.

Lemma wf_moved : wf_tree moved.
Proof using Type*.
  destruct part_hourly_0 as [H1 H2]. unfold moved. rewrite hourly_snoc in *.
  apply wf_rename_nodes; [apply wf_with_tier| | |apply with_tier_hourly|done|done|done].
  - unfold part. by destruct R.
  - rewrite with_tier_other; [by exists Dir|].
    pose proof (part_neq_tier []) as Hp. rewrite (right_id_L [] (++)) in Hp. by apply not_eq_sym.
Qed.

Lemma moved_hourly k : moved !! (hourly ++ k) = w_nodes w !! (part ++ k).
Proof using.
  destruct part_hourly_0 as [H1 H2]. unfold moved. rewrite lookup_rename_nodes by done.
  rewrite decide_True, drop_app_length by apply below_app.
  apply with_tier_other, not_eq_sym, part_neq_tier.
Qed.

Lemma moved_part k : moved !! (part ++ k) = None.
Proof using.
  destruct part_hourly_0 as [H1 H2]. unfold moved. rewrite lookup_rename_nodes by done.
  rewrite decide_False by apply part_hourly. by rewrite decide_True by apply below_app.
Qed.

Lemma moved_other q :
  ¬ below hourly q → ¬ below part q → q ≠ R ++ ["hourly"] → moved !! q = w_nodes w !! q.
Proof using.
  intros Hh Hp Hq. destruct part_hourly_0 as [H1 H2]. unfold moved.
  rewrite lookup_rename_nodes, !decide_False by done. by apply with_tier_other.
Qed.

Lemma moved_snap tier y k :
  tier ∈ tiers → (tier, y) ≠ ("hourly", x) →
  moved !! (snap_path R tier y ++ k) = w_nodes w !! (snap_path R tier y ++ k).
Proof using Type*.
  intros Ht Hne. apply moved_other.
  - intros [j Hj]. unfold hourly, snap_path in Hj. rewrite <-!(assoc_L (++)) in Hj.
    apply app_inv_head in Hj. injection Hj as -> -> _. done.
  - intros [j Hj]. unfold part, snap_path in Hj. rewrite <-!(assoc_L (++)) in Hj.
    apply app_inv_head in Hj. injection Hj as -> _. unfold tiers in Ht. set_solver.
  - intros He. apply (f_equal length) in He. unfold snap_path in He.
    rewrite !length_app in He. cbn in He. lia.
Qed.

Lemma moved_child z : z ≠ "hourly" → moved !! (R ++ [z]) = w_nodes w !! (R ++ [z]).
Proof using.
  intros Hz. apply moved_other.
  - apply below_snap_tier.
  - intros Hb%below_length. unfold part in Hb. rewrite !length_app in Hb. cbn in Hb. lia.
  - intros He%app_inv_head. by injection He.
Qed.

Lemma moved_tier : moved !! (R ++ ["hourly"]) = Some Dir.
Proof using.
  destruct part_hourly_0 as [H1 H2]. unfold moved. rewrite lookup_rename_nodes by done.
  rewrite !decide_False; [apply with_tier_hourly| |apply below_snap_tier].
  intros Hb%below_length. unfold part in Hb. rewrite !length_app in Hb. cbn in Hb. lia.
Qed.

Lemma target_moved : target R (set_nodes moved w).
Proof using Type*.
  split; rewrite ?set_nodes_nodes.
  - apply wf_moved.
  - apply set_nodes_calm, H.
  - rewrite moved_other; [apply H|apply below_snap_root|..].
    + intros Hb%below_length. unfold part in Hb. rewrite !length_app in Hb. cbn in Hb. lia.
    + intros He. apply (f_equal length) in He. rewrite length_app in He. cbn in He. lia.
  - intros tier Ht. destruct (decide (tier = "hourly")) as [->|Hne]; [right; apply moved_tier|].
    rewrite moved_child by done. by apply H.
  - intros tier y t Ht. pose proof (moved_snap tier y [] Ht) as Hm. pose proof (moved_hourly []) as Hh.
    rewrite !(right_id_L [] (++)) in Hm, Hh. unfold snap_path in Hm.
    destruct (decide ((tier, y) = ("hourly", x))) as [[= -> ->]|Hne].
    + unfold hourly, snap_path, part in Hh. rewrite Hh, (right_id_L [] (++)), Hpart. done.
    + rewrite Hm by done. by apply H.
  - intros n. rewrite moved_child by done. apply H.
Qed.

(** The two calls of the promotion. *)
Lemma promote_calls :
  ∃ w1, MkdirAll (path_Dir (abs_str hourly)) w = (Ok tt, w1) ∧
    Rename (abs_str part) (abs_str hourly) w1 = (Ok tt, set_nodes moved w).
Proof using Type*.
  exists (set_nodes with_tier w). assert (plain_seg "hourly") as Hp by (by apply (tier_plain "hourly"), hourly_tier).
  pose proof (tg_plain R w H) as HR. destruct part_hourly_0 as [H1 H2]. split.
  - rewrite hourly_snoc, path_Dir_abs by (done || (apply Forall_app; split; [done|by apply Forall_singleton])).
    unfold with_tier. destruct (tg_tier R w H "hourly" hourly_tier) as [Hn|Hn].
    + apply MkdirAll_child; [apply H|apply H|apply H|done|done].
    + rewrite insert_id, set_nodes_id by done. by apply MkdirAll_dir; [apply H|apply H|].
  - pose proof (part_neq_tier []) as Hpt. rewrite (right_id_L [] (++)) in Hpt.
    rewrite hourly_snoc in *. erewrite Rename_run with (n := Dir);
      rewrite ?set_nodes_nodes, ?set_nodes_set_nodes.
    + unfold moved. by rewrite hourly_snoc.
    + apply set_nodes_calm, H.
    + apply wf_with_tier.
    + by rewrite with_tier_other.
    + apply with_tier_hourly.
    + done.
    + rewrite <-hourly_snoc, with_tier_other; [done|].
      unfold hourly. intros He. apply (f_equal length) in He. unfold snap_path in He.
      rewrite !length_app in He. cbn in He. lia.
    + done.
Qed.
End move.

(** ** FinalizeBackup *)

(** A request the options checks accept. *)
Record request (R : fpath) (opts : FinalizeOptions) (ts : Time) : Prop := {
  rq_root : fo_TargetRoot opts = abs_str R;
  rq_run : validateRunID (fo_RunID opts) = Ok tt;
  rq_parse : time_Parse layout_snapshot (fo_Timestamp opts) = Some ts;
  rq_name : plain_seg (fo_Timestamp opts) ∧ ContainsByte (fo_Timestamp opts) backslash = false;
  rq_year : four_digit_year ts ∧ four_digit_year (weekStart ts)
}.

Lemma plain_partial : plain_seg ".partial".
Proof. apply (bool_decide_unpack _). by vm_compute. Qed.

Lemma FinalizeBackup_run R opts ts w :
  request R opts ts → Forall plain_seg R →
  FinalizeBackup opts w
  = finalize_run (abs_str R) (abs_str (R ++ [".partial"; fo_RunID opts]))
      (snap_name "hourly" (fo_Timestamp opts))
      (abs_str (snap_path R "hourly" (fo_Timestamp opts))) ts opts w.
Proof.
  intros [Hroot Hrun Hparse [Hx Hb] _] HR.
  pose proof Hrun as (Hrp & _ & _)%validateRunID_Ok. unfold FinalizeBackup.
  rewrite decide_False by (rewrite Hroot; pose proof (plain_seg_nil_app _ Hrp);
    pose proof (plain_seg_nil_app _ Hx); naive_solver).
  rewrite Hrun, Hparse, Hroot. erewrite run_bind by by apply Abs_abs_str. cbv zeta.
  assert (Forall plain_seg [".partial"; fo_RunID opts]) as Hp2
    by (apply plain_two; [apply plain_partial|done]).
  rewrite path_Join_3 by (done || by apply plain_seg_nil_app).
  rewrite (ensureInside_normalized (abs_str R) R) by (done || by apply clean_root_abs_str).
  rewrite path_Join_abs_str by done.
  rewrite path_Join_snap by (done || apply hourly_tier).
  by rewrite path_Join_root_snap by (done || apply hourly_tier).
Qed.

Section finalize.
Context (R : fpath) (opts : FinalizeOptions) (ts : Time) (w : world).
Context (Hrq : request R opts ts) (H : target R w).

Let part : fpath := R ++ [".partial"; fo_RunID opts].
Let hourly : fpath := snap_path R "hourly" (fo_Timestamp opts).

Lemma finalize_new :
  w_nodes w !! part = Some Dir → w_nodes w !! hourly = None →
  Forall (source_in (w_nodes w) part) (fo_Sources opts) →
  ∃ m1, FinalizeBackup opts w
      = (Ok (promotion_points R (fo_Timestamp opts) ts (w_nodes w), None),
         set_nodes (retained R (fo_Retention opts) m1) w) ∧
    target R (set_nodes m1 w) ∧
    promoted R (fo_Timestamp opts) ts (moved R (fo_Timestamp opts) (fo_RunID opts) w) m1.
Proof using Type*.
  intros Hp Hh Hs. destruct Hrq as [_ _ _ [Hx Hb] [Hy Hwk]].
  pose proof (tg_plain R w H) as HR. rewrite (FinalizeBackup_run R opts ts) by done.
  unfold finalize_run. fold part hourly. cbv zeta.
  assert (Forall plain_seg part) as Hpp by (eapply wf_names; [apply H|exact Hp]).
  erewrite run_try by (apply Stat_node; [apply H|apply H|exact Hp|done]). cbv beta iota.
  change (negb (IsDir Dir)) with false. cbv iota.
  erewrite run_try by (by apply validateSnapshotSources_spec; [apply H|apply H|..]). cbv beta iota.
  pose proof (Stat_snap R w "hourly" (fo_Timestamp opts) H hourly_tier Hx) as Hst.
  fold hourly in Hst. rewrite Hh in Hst. destruct Hst as (e & Hst & He).
  erewrite run_try by exact Hst. cbv beta iota. rewrite He. cbn [negb].
  destruct (promote_calls R (fo_Timestamp opts) (fo_RunID opts) w H Hx Hp Hh) as (w1 & Hmk & Hrn).
  fold part hourly in Hmk, Hrn.
  erewrite run_try by exact Hmk. cbv beta iota. erewrite run_try by exact Hrn. cbv beta iota.
  pose proof (target_moved R (fo_Timestamp opts) (fo_RunID opts) w H Hx Hp Hh) as H1.
  set (m := moved R _ _ w) in *.
  assert (∀ k, m !! (hourly ++ k) = w_nodes w !! (part ++ k)) as Hm by apply moved_hourly.
  destruct (finalizePromotedSnapshot_spec R (fo_Timestamp opts) ts Hx Hb Hy Hwk (set_nodes m w)
    (fo_Sources opts) (fo_Retention opts) H1) as (m1 & Hr & Ht & Hpr).
  - rewrite set_nodes_nodes. fold hourly. rewrite <-(right_id_L [] (++) hourly), Hm.
    by rewrite (right_id_L [] (++)).
  - eapply Forall_impl; [exact Hs|]. intros s (segs & n & Hseg & ? & ? & ? & Hn & ?).
    exists segs, n. fold hourly. rewrite set_nodes_nodes, Hm. done.
  - rewrite set_nodes_nodes, set_nodes_set_nodes in *. exists m1. split; [|done].
    fold hourly in Hr. rewrite Hr. do 3 f_equal. unfold promotion_points. do 2 f_equal.
    apply fresh_ext. intros [tier y] Hty.
    destruct (tierSnapshotNames_pairs ts Hy Hwk) as [_ Hok].
    eapply Forall_forall in Hok as (Ht1 & Ht2 & _); [|exact Hty].
    pose proof (moved_snap R (fo_Timestamp opts) (fo_RunID opts) w H Hx Hp Hh tier y [] Ht1) as He'.
    rewrite !(right_id_L [] (++)) in He'. apply He'. cbn in Ht2. congruence.
Qed.
End finalize.

(** The sample run: the partial run [run-9] of [sample_world], which becomes the
    newest hourly snapshot and the first weekly and monthly one. *)
Definition sample_opts : FinalizeOptions :=
  MkFinalizeOptions "/t" "run-9" "2024-05-01T03-00-00Z" ["apps"] (MkRetentionPolicy 2 7 4 12).

Definition sample_ts : Time := 1714532400 * 10 ^ 9.

Lemma sample_request : request ["t"] sample_opts sample_ts.
Proof. split; [by vm_compute..| |]; apply (bool_decide_unpack _); by vm_compute. Qed.

Lemma sample_sources :
  Forall (source_in (w_nodes sample_world) ["t"; ".partial"; "run-9"]) (fo_Sources sample_opts).
Proof.
  apply Forall_singleton. exists ["apps"], Dir. split; [done|]. split; [done|].
  split; [apply (bool_decide_unpack _); by vm_compute|]. split; [by vm_compute|].
  split; [by vm_compute|done].
Qed.

(** Reading the tree a promotion makes. *)
Section promoted_facts.
Context (R : fpath) (x run : string) (ts : Time) (w : world) (m1 : gmap fpath node).
Context (Hy : four_digit_year ts) (Hwk : four_digit_year (weekStart ts)).
Context (H : target R w) (Hx : plain_seg x).
Context (Hp : w_nodes w !! (R ++ [".partial"; run]) = Some Dir).
Context (Hh : w_nodes w !! snap_path R "hourly" x = None).
Context (Hpr : promoted R x ts (moved R x run w) m1).

Lemma tier_pairs_ok tier y : (tier, y) ∈ tier_pairs ts → tier ∈ tiers ∧ tier ≠ "hourly".
Proof using Hy Hwk.
  intros Hin. destruct (tierSnapshotNames_pairs ts Hy Hwk) as [_ Hok].
  eapply Forall_forall in Hok as (? & ? & _); [|exact Hin]. done.
Qed.

Lemma promoted_moved_hourly k :
  moved R x run w !! (R ++ ["hourly"; x] ++ k) = w_nodes w !! (R ++ [".partial"; run] ++ k).
Proof using. rewrite !(assoc_L (++) R). apply moved_hourly. Qed.

Lemma promoted_moved_snap tier y k :
  tier ∈ tiers → (tier, y) ≠ ("hourly", x) →
  moved R x run w !! (R ++ [tier; y] ++ k) = w_nodes w !! (R ++ [tier; y] ++ k).
Proof using H Hx Hp Hh. intros Ht Hne. rewrite !(assoc_L (++) R). by apply moved_snap. Qed.

(** A path below a snapshot that is not one of the fresh copies. *)
Lemma promoted_snap tier y k :
  tier ∈ tiers → (∀ ty, ty ∈ tier_pairs ts → moved R x run w !! snap_of R ty = None → ty ≠ (tier, y)) →
  m1 !! (R ++ [tier; y] ++ k) = moved R x run w !! (R ++ [tier; y] ++ k).
Proof using Hpr.
  intros Ht Hne. rewrite !(assoc_L (++) R). apply (pr_rest _ _ _ _ _ Hpr).
  - intros He. apply (f_equal length) in He. rewrite !length_app in He. cbn in He. lia.
  - by apply (snap_not_tmp R tier y k).
  - intros [t z] Hty Hn. split.
    + intros [j Hj]. unfold snap_of, snap_path in Hj. rewrite <-!(assoc_L (++)) in Hj.
      apply app_inv_head in Hj. injection Hj as -> -> _. by apply (Hne (t, z)).
    + intros He. apply (f_equal length) in He. rewrite !length_app in He. cbn in He. lia.
Qed.

Lemma promoted_hourly k :
  m1 !! (R ++ ["hourly"; x] ++ k) = w_nodes w !! (R ++ [".partial"; run] ++ k).
Proof using Type*.
  rewrite promoted_snap; [apply promoted_moved_hourly|apply hourly_tier|].
  intros [t z] Hty _ [= -> ->]. by apply tier_pairs_ok in Hty as [_ ?].
Qed.

Lemma promoted_part k : m1 !! (R ++ [".partial"; run] ++ k) = None.
Proof using Hpr Hwk Hy.
  rewrite (assoc_L (++) R), (pr_rest _ _ _ _ _ Hpr); [apply moved_part|..].
  - intros He. apply (f_equal length) in He. rewrite !length_app in He. cbn in He. lia.
  - intros [j Hj]. rewrite <-!(assoc_L (++)) in Hj. apply app_inv_head in Hj. done.
  - intros [t z] Hty _. apply tier_pairs_ok in Hty as [Ht _]. split.
    + intros [j Hj]. unfold snap_of, snap_path in Hj. rewrite <-!(assoc_L (++)) in Hj.
      apply app_inv_head in Hj. injection Hj as <- _. unfold tiers in Ht.
      rewrite !elem_of_cons in Ht. destruct Ht as [|[|[|[|Ht]]]]; [done..|by apply not_elem_of_nil in Ht].
    + intros He. apply (f_equal length) in He. rewrite !length_app in He. cbn in He. lia.
Qed.

Lemma promoted_tier tier y k :
  (tier, y) ∈ tier_pairs ts → m1 !! (R ++ [tier; y] ++ k)
  = match w_nodes w !! (R ++ [tier; y]) with
    | None => w_nodes w !! (R ++ [".partial"; run] ++ k) ≫= copy_node
    | Some _ => w_nodes w !! (R ++ [tier; y] ++ k)
    end.
Proof using Type*.
  intros Hty. destruct (tier_pairs_ok tier y Hty) as [Ht Hne].
  assert ((tier, y) ≠ ("hourly", x)) as Hne' by congruence.
  pose proof (promoted_moved_snap tier y [] Ht Hne') as Hm. rewrite !(right_id_L [] (++)) in Hm.
  destruct (w_nodes w !! (R ++ [tier; y])) as [n|] eqn:Hn.
  - rewrite promoted_snap, promoted_moved_snap; [done|done|done|done|].
    intros ty _ Hty' ->. unfold snap_of, snap_path in Hty'. cbn in Hty'. congruence.
  - pose proof (pr_copy _ _ _ _ _ Hpr (tier, y) k Hty Hm) as Hc.
    unfold snap_of, snap_path in Hc. rewrite <-!(assoc_L (++)) in Hc. cbn [fst snd] in Hc.
    rewrite Hc. f_equal. apply promoted_moved_hourly.
Qed.

Lemma promoted_other tier y k :
  tier ∈ tiers → (tier, y) ∉ tier_pairs ts → (tier, y) ≠ ("hourly", x) →
  m1 !! (R ++ [tier; y] ++ k) = w_nodes w !! (R ++ [tier; y] ++ k).
Proof using Type*.
  intros Ht Hty Hne. rewrite promoted_snap; [by apply promoted_moved_snap|done|].
  intros ty Hin _ ->. done.
Qed.
End promoted_facts.

(** C5: FinalizeBackup, when no system call fails, promotes a partial run: the hourly snapshot named after the
    timestamp is the partial run's tree, which is gone from .partial; latest points to it; each
    of the day's, the week's and the month's snapshots that did not exist is a hard-linked copy
    of the same tree, one that did exist is untouched, and so is every other snapshot. Retention,
    as specified for ApplyRetention, is applied to this tree, and the call reports success. *)
Theorem FinalizeBackup_promotes R opts ts w :
  request R opts ts → target R w →
  w_nodes w !! (R ++ [".partial"; fo_RunID opts]) = Some Dir →
  w_nodes w !! (R ++ ["hourly"; fo_Timestamp opts]) = None →
  Forall (source_in (w_nodes w) (R ++ [".partial"; fo_RunID opts])) (fo_Sources opts) →
  ∃ points m1, FinalizeBackup opts w
      = (Ok (points, None), set_nodes (retained R (fo_Retention opts) m1) w) ∧
    target R (set_nodes m1 w) ∧
    (∀ k, m1 !! (R ++ ["hourly"; fo_Timestamp opts] ++ k)
      = w_nodes w !! (R ++ [".partial"; fo_RunID opts] ++ k)) ∧
    (∀ k, m1 !! (R ++ [".partial"; fo_RunID opts] ++ k) = None) ∧
    m1 !! (R ++ ["latest"]) = Some (Symlink (strings_Join ["hourly"; fo_Timestamp opts] "/")) ∧
    (∀ tier y k, (tier, y) ∈ tier_pairs ts → m1 !! (R ++ [tier; y] ++ k)
      = match w_nodes w !! (R ++ [tier; y]) with
        | None => w_nodes w !! (R ++ [".partial"; fo_RunID opts] ++ k) ≫= copy_node
        | Some _ => w_nodes w !! (R ++ [tier; y] ++ k)
        end) ∧
    (∀ tier y k, tier ∈ tiers → (tier, y) ∉ tier_pairs ts → (tier, y) ≠ ("hourly", fo_Timestamp opts) →
      m1 !! (R ++ [tier; y] ++ k) = w_nodes w !! (R ++ [tier; y] ++ k)).
Proof.
  intros Hrq H Hp Hh Hs.
  destruct (finalize_new R opts ts w Hrq H Hp Hh Hs) as (m1 & Hr & H1 & Hpr).
  eexists _, m1. split; [exact Hr|]. split; [done|].
  pose proof (rq_name _ _ _ Hrq) as [Hx _]. pose proof (rq_year _ _ _ Hrq) as [Hy Hwk].
  split; [exact (promoted_hourly R _ _ ts w m1 Hy Hwk H Hx Hp Hh Hpr)|].
  split; [exact (promoted_part R _ _ ts w m1 Hy Hwk Hpr)|]. split; [apply Hpr|].
  split; [exact (promoted_tier R _ _ ts w m1 Hy Hwk H Hx Hp Hh Hpr)|].
  exact (promoted_other R _ _ ts w m1 Hy Hwk H Hx Hp Hh Hpr).
Qed.

Lemma FinalizeBackup_promotes_witness :
  request ["t"] sample_opts sample_ts ∧ target ["t"] sample_world ∧
  ∃ points m1, FinalizeBackup sample_opts sample_world
      = (Ok (points, None), set_nodes (retained ["t"] (fo_Retention sample_opts) m1) sample_world) ∧
    m1 !! (["t"] ++ ["hourly"; "2024-05-01T03-00-00Z"] ++ ["apps"; "g"])
    = w_nodes sample_world !! (["t"] ++ [".partial"; "run-9"] ++ ["apps"; "g"]).
Proof.
  split; [exact sample_request|]. split; [exact sample_target|].
  destruct (FinalizeBackup_promotes ["t"] sample_opts sample_ts sample_world sample_request
    sample_target) as (points & m1 & Hr & _ & Hk & _);
    [by vm_compute|by vm_compute|exact sample_sources|].
  exists points, m1. split; [exact Hr|]. apply (Hk ["apps"; "g"]).
Defined.

(** ** After retention *)

Lemma newest_max keep names x :
  StronglySorted String.le names → NoDup names → x ∈ names → (∀ y, y ∈ names → String.le y x) →
  keep ≠ 0 → x ∈ newest keep names.
Proof.
  intros Hs Hnd Hx Hmax Hk. apply elem_of_newest; [done|]. split; [done|]. intros Hex.
  assert (newest keep names = []) as Hnil.
  { apply elem_of_nil_inv. intros y Hy. pose proof (expired_le_newest keep names x y Hs Hex Hy) as Hle.
    pose proof Hy as [Hyn Hye]%elem_of_newest; [|done].
    assert (x = y) as ->; [|done]. apply (anti_symm String.le); [done|by apply Hmax]. }
  unfold expired in Hex. unfold newest in Hnil.
  destruct (decide (keep < 0)); [by apply not_elem_of_nil in Hex|].
  apply (f_equal length) in Hnil. rewrite length_drop in Hnil. cbn in Hnil.
  assert (length names ≠ 0%nat) by (by destruct names; [apply not_elem_of_nil in Hx|]). lia.
Qed.

Lemma lookup_retained_below R policy m tier x k :
  tier ∈ tiers → x ∉ tier_expired R policy m tier →
  retained R policy m !! (snap_path R tier x ++ k) = m !! (snap_path R tier x ++ k).
Proof.
  intros Ht Hx. unfold retained. rewrite drop_dangling_other.
  - apply lookup_remove_snaps. intros p ([t y] & -> & Hin)%list_elem_of_fmap [j Hj].
    apply elem_of_all_expired in Hin as [_ Hin]. unfold snap_of, snap_path in Hj. cbn [fst snd] in Hj.
    rewrite <-!(assoc_L (++)) in Hj. apply app_inv_head in Hj. by injection Hj as -> -> _.
  - intros He. apply (f_equal length) in He. unfold snap_path in He.
    rewrite !length_app in He. cbn in He. lia.
Qed.

(** The hourly snapshot [latest] points to survives retention when it is the
    newest one and at least one is kept. *)
Lemma retained_newest R policy m x :
  plain_seg x → rp_Hourly policy ≠ 0 → m !! snap_path R "hourly" x = Some Dir →
  (∀ y, m !! snap_path R "hourly" y = Some Dir → String.le y x) →
  m !! (R ++ ["latest"]) = Some (Symlink (snap_name "hourly" x)) →
  (∀ k, retained R policy m !! (snap_path R "hourly" x ++ k) = m !! (snap_path R "hourly" x ++ k)) ∧
  retained R policy m !! (R ++ ["latest"]) = Some (Symlink (snap_name "hourly" x)).
Proof.
  intros Hx Hk Hd Hmax Hl. assert (x ∉ tier_expired R policy m "hourly") as Hne.
  { eapply elem_of_newest; [apply NoDup_dir_names|].
    apply (newest_max _ (dir_names m (R ++ ["hourly"])));
      [apply dir_names_sorted|apply NoDup_dir_names| | |exact Hk].
    - rewrite elem_of_dir_names, <-snap_path_tier. done.
    - intros y. rewrite elem_of_dir_names, <-snap_path_tier. apply Hmax. }
  split; [intros k; by apply lookup_retained_below, Hne; apply hourly_tier|].
  unfold retained, drop_dangling. rewrite lookup_remove_snaps, Hl.
  2:{ intros p ([t y] & -> & _)%list_elem_of_fmap. apply below_snap_tier. }
  rewrite kept_segs_snap by (done || apply hourly_tier). fold (snap_path R "hourly" x).
  pose proof (lookup_retained_below R policy m "hourly" x [] hourly_tier Hne) as Hkeep.
  rewrite !(right_id_L [] (++)) in Hkeep. unfold retained in Hkeep.
  rewrite drop_dangling_other in Hkeep by apply snap_not_latest. rewrite Hkeep, Hd.
  rewrite decide_False by done. rewrite lookup_remove_snaps; [done|].
  intros p ([t y] & -> & _)%list_elem_of_fmap. apply below_snap_tier.
Qed.

(** C6: A successful backup is durable: when the retention policy keeps hourly snapshots and the
    timestamp is not older than an existing hourly snapshot, the tree FinalizeBackup leaves
    behind holds the partial run's whole tree as the new hourly snapshot, with latest pointing
    to it, whatever retention removes. *)
Theorem FinalizeBackup_durable R opts ts w :
  request R opts ts → target R w →
  w_nodes w !! (R ++ [".partial"; fo_RunID opts]) = Some Dir →
  w_nodes w !! (R ++ ["hourly"; fo_Timestamp opts]) = None →
  Forall (source_in (w_nodes w) (R ++ [".partial"; fo_RunID opts])) (fo_Sources opts) →
  rp_Hourly (fo_Retention opts) ≠ 0 →
  (∀ y, w_nodes w !! (R ++ ["hourly"; y]) = Some Dir → String.le y (fo_Timestamp opts)) →
  ∃ points w', FinalizeBackup opts w = (Ok (points, None), w') ∧ target R w' ∧
    (∀ k, w_nodes w' !! (R ++ ["hourly"; fo_Timestamp opts] ++ k)
      = w_nodes w !! (R ++ [".partial"; fo_RunID opts] ++ k)) ∧
    w_nodes w' !! (R ++ ["latest"]) = Some (Symlink (strings_Join ["hourly"; fo_Timestamp opts] "/")) ∧
    w_data w' = w_data w.
Proof.
  intros Hrq H Hp Hh Hs Hk Hmax. pose proof (rq_name _ _ _ Hrq) as [Hx _].
  pose proof (rq_year _ _ _ Hrq) as [Hy Hwk].
  destruct (finalize_new R opts ts w Hrq H Hp Hh Hs) as (m1 & Hr & H1 & Hpr).
  pose proof (promoted_hourly R _ _ ts w m1 Hy Hwk H Hx Hp Hh Hpr) as Hhour.
  destruct (retained_newest R (fo_Retention opts) m1 (fo_Timestamp opts) Hx Hk) as [Hkeep Hlat].
  - specialize (Hhour []). rewrite !(right_id_L [] (++)), Hp in Hhour. exact Hhour.
  - intros y Hyd. destruct (decide (y = fo_Timestamp opts)) as [->|Hne]; [done|]. apply Hmax.
    rewrite <-Hyd. symmetry.
    pose proof (promoted_other R _ _ ts w m1 Hy Hwk H Hx Hp Hh Hpr "hourly" y [] hourly_tier) as Ho.
    rewrite !(right_id_L [] (++)) in Ho. apply Ho; [|congruence].
    intros Hty. by apply (tier_pairs_ok ts Hy Hwk) in Hty as [_ ?].
  - apply Hpr.
  - eexists _, _. split; [exact Hr|]. split.
    { pose proof (target_retained R (fo_Retention opts) (set_nodes m1 w) H1) as Ht.
      by rewrite set_nodes_nodes, set_nodes_set_nodes in Ht. }
    split; [|split; [exact Hlat|done]].
    intros k. rewrite set_nodes_nodes, <-Hhour, !(assoc_L (++) R). apply Hkeep.
Qed.

Lemma FinalizeBackup_durable_witness :
  request ["t"] sample_opts sample_ts ∧ target ["t"] sample_world ∧
  ∃ points w', FinalizeBackup sample_opts sample_world = (Ok (points, None), w') ∧
    w_nodes w' !! (["t"] ++ ["latest"]) = Some (Symlink "hourly/2024-05-01T03-00-00Z").
Proof.
  split; [exact sample_request|]. split; [exact sample_target|].
  destruct (FinalizeBackup_durable ["t"] sample_opts sample_ts sample_world sample_request
    sample_target) as (points & w' & Hr & _ & _ & Hl & _);
    [by vm_compute|by vm_compute|exact sample_sources|done| |].
  - intros y Hy. apply (elem_of_dir_names (w_nodes sample_world) ["t"; "hourly"]) in Hy.
    assert (Forall (λ y, String.le y (fo_Timestamp sample_opts))
      (dir_names (w_nodes sample_world) ["t"; "hourly"])) as Hall
      by (apply (bool_decide_unpack _); by vm_compute).
    by eapply Forall_forall in Hall.
  - exists points, w'. split; [exact Hr|exact Hl].
Defined.

(** ** Retries and failures *)

Lemma Stat_gone w R x y :
  target R w → plain_seg x → plain_seg y →
  w_nodes w !! (R ++ [x]) = None ∨ w_nodes w !! (R ++ [x]) = Some Dir →
  w_nodes w !! (R ++ [x; y]) = None →
  ∃ e, Stat (abs_str (R ++ [x; y])) w = (Err e, w) ∧ errors_is KNotExist e = true.
Proof.
  intros H Hx Hy [Hn|Hd] Hxy.
  - apply (Stat_missing w (tg_calm R w H) (tg_wf R w H) R x [y]); [apply H|by apply plain_two|done].
  - change [x; y] with ([x] ++ [y]) in *. rewrite (assoc_L (++)) in *.
    apply (Stat_missing w (tg_calm R w H) (tg_wf R w H) (R ++ [x]) y []); [done| |done].
    by apply Forall_singleton.
Qed.

(** A retried finalization is idempotent: once the run has been promoted (its partial
    directory is gone and the hourly snapshot is in place with every source), FinalizeBackup
    with the same options succeeds again, keeps every node of the hourly snapshot as it is,
    and leaves latest pointing to it. *)
Theorem FinalizeBackup_retry R opts ts w :
  request R opts ts → target R w →
  w_nodes w !! (R ++ [".partial"]) = None ∨ w_nodes w !! (R ++ [".partial"]) = Some Dir →
  w_nodes w !! (R ++ [".partial"; fo_RunID opts]) = None →
  w_nodes w !! (R ++ ["hourly"; fo_Timestamp opts]) = Some Dir →
  Forall (source_in (w_nodes w) (R ++ ["hourly"; fo_Timestamp opts])) (fo_Sources opts) →
  rp_Hourly (fo_Retention opts) ≠ 0 →
  (∀ y, w_nodes w !! (R ++ ["hourly"; y]) = Some Dir → String.le y (fo_Timestamp opts)) →
  ∃ points w', FinalizeBackup opts w = (Ok (points, None), w') ∧ target R w' ∧
    (∀ k, w_nodes w' !! (R ++ ["hourly"; fo_Timestamp opts] ++ k)
      = w_nodes w !! (R ++ ["hourly"; fo_Timestamp opts] ++ k)) ∧
    w_nodes w' !! (R ++ ["latest"]) = Some (Symlink (strings_Join ["hourly"; fo_Timestamp opts] "/")).
Proof.
  intros Hrq H Hpd Hp Hh Hs Hk Hmax. pose proof Hrq as [_ Hrun _ [Hx Hb] [Hy Hwk]].
  apply validateRunID_Ok in Hrun as (Hrp & _ & _). pose proof (tg_plain R w H) as HR.
  destruct (Stat_gone w R ".partial" (fo_RunID opts) H plain_partial Hrp Hpd Hp) as (e & Hst & He).
  destruct (finalizePromotedSnapshot_spec R (fo_Timestamp opts) ts Hx Hb Hy Hwk w (fo_Sources opts)
    (fo_Retention opts) H Hh Hs) as (m1 & Hr & H1 & Hpr).
  assert (∀ y k, m1 !! (R ++ ["hourly"; y] ++ k) = w_nodes w !! (R ++ ["hourly"; y] ++ k)) as Hhour.
  { intros y k. apply (pr_rest _ _ _ _ _ Hpr).
    - intros He'. apply (f_equal length) in He'. rewrite !length_app in He'. cbn in He'. lia.
    - rewrite (assoc_L (++)). apply (snap_not_tmp R "hourly" y k), hourly_tier.
    - intros [t z] Hty _. apply (tier_pairs_ok ts Hy Hwk) in Hty as [_ Hne]. split.
      + intros [j Hj]. unfold snap_of, snap_path in Hj. rewrite <-!(assoc_L (++)) in Hj.
        apply app_inv_head in Hj. injection Hj as <- _. by apply Hne.
      + intros He'. apply (f_equal length) in He'. rewrite !length_app in He'. cbn in He'. lia. }
  assert (∀ y, m1 !! snap_path R "hourly" y = w_nodes w !! snap_path R "hourly" y) as Hsn.
  { intros y. specialize (Hhour y []). by rewrite !(right_id_L [] (++)) in Hhour. }
  destruct (retained_newest R (fo_Retention opts) m1 (fo_Timestamp opts) Hx Hk) as [Hkeep Hlat].
  { rewrite Hsn. exact Hh. } { intros y. rewrite Hsn. apply Hmax. } { apply Hpr. }
  eexists _, _. split.
  - rewrite (FinalizeBackup_run R opts ts) by done. unfold finalize_run. cbv zeta.
    erewrite run_try by exact Hst. cbv beta iota. rewrite He. erewrite run_bind by exact Hr. done.
  - split; [|split; [|exact Hlat]].
    + pose proof (target_retained R (fo_Retention opts) (set_nodes m1 w) H1) as Ht.
      by rewrite set_nodes_nodes, set_nodes_set_nodes in Ht.
    + intros k. rewrite set_nodes_nodes, <-Hhour, !(assoc_L (++) R). apply Hkeep.
Qed.

(** A retry of a run that was promoted before: the sample world's last hourly snapshot. *)
Definition retry_opts : FinalizeOptions :=
  MkFinalizeOptions "/t" "run-7" "2024-05-01T02-00-00Z" [] (MkRetentionPolicy 2 7 4 12).

Lemma FinalizeBackup_retry_witness :
  request ["t"] retry_opts (1714528800 * 10 ^ 9) ∧ target ["t"] sample_world ∧
  ∃ points w', FinalizeBackup retry_opts sample_world = (Ok (points, None), w') ∧
    w_nodes w' !! (["t"] ++ ["latest"]) = Some (Symlink "hourly/2024-05-01T02-00-00Z").
Proof.
  assert (request ["t"] retry_opts (1714528800 * 10 ^ 9)) as Hrq
    by (split; [by vm_compute..| |]; apply (bool_decide_unpack _); by vm_compute).
  split; [exact Hrq|]. split; [exact sample_target|].
  destruct (FinalizeBackup_retry ["t"] retry_opts (1714528800 * 10 ^ 9) sample_world Hrq
    sample_target) as (points & w' & Hr & _ & _ & Hl);
    [right; by vm_compute|by vm_compute|by vm_compute|by apply Forall_nil|done| |].
  - intros y Hy. apply (elem_of_dir_names (w_nodes sample_world) ["t"; "hourly"]) in Hy.
    assert (Forall (λ y, String.le y (fo_Timestamp retry_opts))
      (dir_names (w_nodes sample_world) ["t"; "hourly"])) as Hall
      by (apply (bool_decide_unpack _); by vm_compute).
    by eapply Forall_forall in Hall.
  - exists points, w'. split; [exact Hr|exact Hl].
Defined.

(** Looking at a path that is missing fails where no symbolic link is in the way. *)
Lemma walk_absent links m d segs :
  Forall plain_seg segs → segs ≠ [] → (∀ k t, m !! (d ++ k) ≠ Some (Symlink t)) →
  wf_tree m → m !! (d ++ segs) = None → ∃ e, walk links m true d segs = Err e.
Proof.
  intros Hp Hne Hns Hwf. revert d Hns. induction Hp as [|s segs (_ & _ & Hs & _) Hp IH]; [done|].
  intros d Hns Hn. rewrite walk_go, decide_False by done.
  destruct (m !! (d ++ [s])) as [[| |t|]|] eqn:Hd; [| | | |eauto].
  - destruct (decide (segs = [])) as [->|Hsegs]; [by rewrite Hd in Hn|].
    apply IH; [done| |by rewrite <-(assoc_L (++))]. intros k t. rewrite <-(assoc_L (++)). apply Hns.
  - destruct (decide (segs = [])) as [->|]; [by rewrite Hd in Hn|]. eauto.
  - by destruct (Hns [s] t).
  - destruct (decide (segs = [])) as [->|]; [by rewrite Hd in Hn|]. eauto.
Qed.

Lemma Stat_absent w d segs :
  calm w → wf_tree (w_nodes w) → w_nodes w !! d = Some Dir → Forall plain_seg segs → segs ≠ [] →
  (∀ k t, w_nodes w !! (d ++ k) ≠ Some (Symlink t)) → w_nodes w !! (d ++ segs) = None →
  ∃ e, Stat (abs_str (d ++ segs)) w = (Err e, w).
Proof.
  intros Hc Hwf Hd Hp Hne Hns Hn. unfold Stat, on_err. rewrite syscall_calm by done.
  rewrite segs_of_abs_str by (apply Forall_app; split; [by eapply wf_names|done]).
  unfold look. rewrite resolve_from_dir by done.
  destruct (walk_absent max_links (w_nodes w) d segs Hp Hne Hns Hwf Hn) as [e ->]. cbn. eauto.
Qed.

(** One source check, failing or followed by the others. *)
Lemma check_fails {A} g h (r : result A) (m : M node) (rest : unit → M unit) w e :
  m w = (Err e, w) →
  ∃ e', ((_ ← on_err g (lift r); _ ← on_err h m; mret tt) ≫= rest) w = (Err e', w).
Proof.
  intros Hm. destruct r as [a|e1]; [|by exists (g e1)]. exists (h e).
  unfold mbind, M_bind, on_err, lift. cbn [map_err]. by rewrite Hm.
Qed.

Lemma check_passes {A} g h (r : result A) (m : M node) (rest : unit → M unit) w n e :
  m w = (Ok n, w) → rest tt w = (Err e, w) →
  ∃ e', ((_ ← on_err g (lift r); _ ← on_err h m; mret tt) ≫= rest) w = (Err e', w).
Proof.
  intros Hm Hr. destruct r as [a|e1]; [|by exists (g e1)]. exists e.
  unfold mbind, M_bind, on_err, lift. cbn [map_err]. rewrite Hm. exact Hr.
Qed.

Lemma validateSnapshotSources_missing w d sources segs :
  calm w → wf_tree (w_nodes w) → w_nodes w !! d = Some Dir →
  (∀ k t, w_nodes w !! (d ++ k) ≠ Some (Symlink t)) →
  Forall plain_seg segs → segs ≠ [] → strings_Join segs "/" ∈ sources →
  w_nodes w !! (d ++ segs) = None →
  ∃ e, validateSnapshotSources (abs_str d) sources w = (Err e, w).
Proof.
  intros Hc Hwf Hd Hns Hp Hne Hin Hn. unfold validateSnapshotSources.
  assert (∀ p, (Stat p w).2 = w) as Hst.
  { intros p. unfold Stat, on_err. by rewrite syscall_calm by done. }
  induction sources as [|s sources IH]; [by apply not_elem_of_nil in Hin|].
  cbn [for_eachM]. destruct (decide (s = strings_Join segs "/")) as [->|Hs].
  - rewrite path_Join_abs_str by (done || by eapply wf_names).
    destruct (Stat_absent w d segs) as [e He]; [done..|]. by eapply check_fails.
  - apply elem_of_cons in Hin as [|Hin]; [done|]. destruct (IH Hin) as [e He].
    pose proof (Hst (path_Join [abs_str d; s])) as H2.
    destruct (Stat (path_Join [abs_str d; s]) w) as [[n|e'] w2] eqn:Hs2; cbn in H2; subst w2.
    + eapply check_passes; [exact Hs2|exact He].
    + by eapply check_fails.
Qed.

(** An incomplete backup is never promoted: when a source the run must contain is missing
    from the partial run, FinalizeBackup fails, reports no restore point, and leaves the volume
    exactly as it was, so the partial run can still be completed and latest is untouched. *)
Theorem FinalizeBackup_missing_source R opts ts w segs :
  request R opts ts → target R w →
  w_nodes w !! (R ++ [".partial"; fo_RunID opts]) = Some Dir →
  (∀ k t, w_nodes w !! ((R ++ [".partial"; fo_RunID opts]) ++ k) ≠ Some (Symlink t)) →
  Forall plain_seg segs → segs ≠ [] → strings_Join segs "/" ∈ fo_Sources opts →
  w_nodes w !! ((R ++ [".partial"; fo_RunID opts]) ++ segs) = None →
  ∃ e, FinalizeBackup opts w = (Ok ([], Some e), w).
Proof.
  intros Hrq H Hp Hns Hps Hne Hin Hn. pose proof (tg_plain R w H) as HR.
  rewrite (FinalizeBackup_run R opts ts) by done. unfold finalize_run. cbv zeta.
  erewrite run_try by (apply Stat_node; [apply H|apply H|exact Hp|done]). cbv beta iota.
  change (negb (IsDir Dir)) with false. cbv iota.
  destruct (validateSnapshotSources_missing w (R ++ [".partial"; fo_RunID opts])
    (fo_Sources opts) segs (tg_calm R w H) (tg_wf R w H) Hp Hns Hps Hne Hin Hn) as [e He].
  erewrite run_try by exact He. exists e. done.
Qed.

Definition incomplete_opts : FinalizeOptions :=
  MkFinalizeOptions "/t" "run-9" "2024-05-01T03-00-00Z" ["apps"; "apps/db"]
    (MkRetentionPolicy 2 7 4 12).

Lemma FinalizeBackup_missing_source_witness :
  request ["t"] incomplete_opts sample_ts ∧ target ["t"] sample_world ∧
  strings_Join ["apps"; "db"] "/" ∈ fo_Sources incomplete_opts ∧
  ∃ e, FinalizeBackup incomplete_opts sample_world = (Ok ([], Some e), sample_world).
Proof.
  assert (request ["t"] incomplete_opts sample_ts) as Hrq
    by (split; [by vm_compute..| |]; apply (bool_decide_unpack _); by vm_compute).
  assert (strings_Join ["apps"; "db"] "/" ∈ fo_Sources incomplete_opts) as Hin
    by (apply (bool_decide_unpack _); by vm_compute).
  split; [exact Hrq|]. split; [exact sample_target|]. split; [exact Hin|].
  apply (FinalizeBackup_missing_source ["t"] incomplete_opts sample_ts sample_world ["apps"; "db"]
    Hrq sample_target); [by vm_compute| |apply (bool_decide_unpack _); by vm_compute|done|exact Hin|by vm_compute].
  intros k t Hk.
  assert (map_Forall (λ q n, ["t"; ".partial"; "run-9"] `prefix_of` q → not_symlink n)
    (w_nodes sample_world)) as Hall by (apply (bool_decide_unpack _); by vm_compute).
  exact (Hall _ _ Hk (below_app _ k)).
Defined.

(** ** An interrupted copy *)

(** The sample world with one failing call: the hard link of the first file of
    the weekly copy. *)
Definition faulty_world : world :=
  sample_world <| w_faults :=
    replicate 27 None ++ [Some (MkFault (ErrSys KIO "input/output error") [])] |>.

(** The first attempt failed, the second one succeeded, and the weekly snapshot
    misses a path of the hourly one. *)
Definition copy_lost (x : string) (q : fpath) (first second : result (partial (list string)) * world)
    : Prop :=
  ∃ points1 e points2, first.1 = Ok (points1, Some e) ∧ second.1 = Ok (points2, None) ∧
    w_nodes second.2 !! ["t"; "weekly"; "2024-04-29"] = Some Dir ∧
    is_Some (w_nodes second.2 !! (["t"; "hourly"; x] ++ q)) ∧
    w_nodes second.2 !! (["t"; "weekly"; "2024-04-29"] ++ q) = None.

Definition copy_lost_check (x : string) (q : fpath)
    (first second : result (partial (list string)) * world) : bool :=
  match first.1, second.1 with
  | Ok (_, Some _), Ok (_, None) =>
      bool_decide (w_nodes second.2 !! ["t"; "weekly"; "2024-04-29"] = Some Dir) &&
      bool_decide (is_Some (w_nodes second.2 !! (["t"; "hourly"; x] ++ q))) &&
      bool_decide (w_nodes second.2 !! (["t"; "weekly"; "2024-04-29"] ++ q) = None)
  | _, _ => false
  end.

Lemma copy_lost_check_sound x q first second :
  copy_lost_check x q first second = true → copy_lost x q first second.
Proof.
  unfold copy_lost_check, copy_lost. destruct first as [[[p1 [e|]]|] w1], second as [[[p2 [|]]|] w2];
    try done. cbn [fst snd]. rewrite !andb_true_iff, !bool_decide_eq_true. intros [[H1 H2] H3].
  by exists p1, e, p2.
Qed.

Lemma two_runs (P : result (partial (list string)) * world → result (partial (list string)) * world → Prop)
    (f : M (partial (list string))) (g : world → world) w :
  P (f w) (f (g (f w).2)) → ∃ r1 w1 r2 w2, f w = (r1, w1) ∧ f (g w1) = (r2, w2) ∧ P (r1, w1) (r2, w2).
Proof.
  intros H. destruct (f w) as [r1 w1] eqn:E1. cbn [snd] in H.
  destruct (f (g w1)) as [r2 w2] eqn:E2. by exists r1, w1, r2, w2.
Qed.

(** A tier copy that is interrupted is not detected later: there is a run in which one failing
    hard link makes FinalizeBackup report an error, the retry finds the weekly directory that the
    failed attempt left behind and reports success, and the weekly snapshot lacks a file the
    hourly snapshot has. *)
Theorem FinalizeBackup_interrupted_copy :
  ∃ opts w w1 w2 points1 points2 e q,
    FinalizeBackup opts w = (Ok (points1, Some e), w1) ∧
    FinalizeBackup opts (w1 <| w_faults := [] |>) = (Ok (points2, None), w2) ∧
    w_nodes w2 !! (["t"; "weekly"; "2024-04-29"]) = Some Dir ∧
    is_Some (w_nodes w2 !! (["t"; "hourly"; fo_Timestamp opts] ++ q)) ∧
    w_nodes w2 !! (["t"; "weekly"; "2024-04-29"] ++ q) = None.
Proof.
  destruct (two_runs (λ a b, copy_lost_check (fo_Timestamp sample_opts) ["apps"; "g"] a b = true)
    (FinalizeBackup sample_opts) (λ w, w <| w_faults := [] |>) faulty_world)
    as (r1 & w1 & r2 & w2 & E1 & E2 & H); [by vm_compute|].
  apply copy_lost_check_sound in H as (p1 & e & p2 & Hr1 & Hr2 & H1 & H2 & H3).
  cbn [fst snd] in *. subst r1 r2.
  exists sample_opts, faulty_world, w1, w2, p1, p2, e, ["apps"; "g"].
  exact (conj E1 (conj E2 (conj H1 (conj H2 H3)))).
Qed.

(** ** The week *)

(** WeekStart is the Monday of the week: for every time it is a Monday at midnight, and it lies
    at most six days and less than seven days before the time. *)
Theorem weekStart_monday ts :
  Weekday (weekStart ts) = 1 ∧ weekStart ts `mod` day_ns = 0 ∧
  weekStart ts ≤ ts < weekStart ts + 7 * day_ns.
Proof.
  unfold weekStart. destruct (Time_Date ts) as [[y m] d] eqn:Hd.
  apply Time_Date_spec in Hd as [Hd _]. rewrite AddDays_spec. unfold Weekday, time_Date.
  rewrite Hd. set (q := ts `div` day_ns). rewrite (Z.div_mul q day_ns) by done.
  assert (day_ns > 0) as Hpos by done. pose proof (Z.div_mod ts day_ns) as Hdm.
  pose proof (Z.mod_pos_bound ts day_ns). pose proof (Z.mod_pos_bound ((q + 4) `mod` 7 + 6) 7).
  set (o := ((q + 4) `mod` 7 + 6) `mod` 7) in *.
  replace (q * day_ns + - o * day_ns) with ((q - o) * day_ns) by lia.
  rewrite Z.div_mul, Z.mod_mul by done. split; [|split; [done|nia]].
  subst o. rewrite Zplus_mod_idemp_l.
  rewrite <-(Zplus_mod_idemp_l (q - _) 4 7), <-(Zminus_mod_idemp_r q), Z.mod_mod by done.
  rewrite Zminus_mod_idemp_r, Zplus_mod_idemp_l.
  replace (q - (q + 4 + 6) + 4) with (-6) by lia. done.
Qed.
