(* ===== verification/Lock.v ===== *)
(** * The target lock (internal/dataplane/snapshot.go)

    [AcquireTargetLock] and [Release] as programs over the file system, the
    text of the lock file, and the interleavings of several processes that take
    and release the lock, one system call at a time. *)
From S2P Require Export LinkTree.
From stdpp Require Import options.
From Stdlib Require Import Ascii.

Record TargetLock := MkTargetLock { tl_path : string; tl_runID : string }.

(** What the lock records about its owner besides the run: the clock, the host
    and the process. *)
Record lock_env := MkLockEnv { le_now : Time; le_hostname : string; le_pid : Z }.

Definition lock_data (env : lock_env) (runID : string) : string :=
  "runID=" +:+ runID +:+ newline +:+ "createdAt=" +:+ format_rfc3339 (le_now env) +:+ newline +:+
  "hostname=" +:+ le_hostname env +:+ newline +:+ "pid=" +:+ Itoa (le_pid env) +:+ newline.

Definition newline_char : ascii := ascii_of_nat 10.

Definition lockDataMatchesRunID (data runID : string) : bool :=
  existsb (λ line, bool_decide (line = "runID=" +:+ runID)) (Split data newline_char).

Definition lock_name : string := ".krm-run.lock".

Definition AcquireTargetLock (env : lock_env) (root runID : string) : M TargetLock :=
  _ ← lift (validateRunID runID);
  root ← Abs root;
  _ ← MkdirAll root;
  let path := path_Join [root; lock_name] in
  file ← try (OpenExcl path);
  match file with
  | Err e =>
      if errors_is KExist e then
        data ← try (ReadFile path);
        match data with
        | Ok data => throw (ErrNew ("target is locked: " +:+ TrimSpace data))
        | Err _ => throw e
        end
      else throw e
  | Ok ino =>
      r ← try (WriteFile ino (lock_data env runID));
      match r with
      | Err e => _ ← try (Remove path); throw e
      | Ok _ => mret (MkTargetLock path runID)
      end
  end.

(** A nil lock releases without effect. *)
Definition Release (l : option TargetLock) : M unit :=
  match l with
  | None => mret tt
  | Some l =>
      data ← try (ReadFile (tl_path l));
      match data with
      | Err e => if errors_is KNotExist e then mret tt else throw e
      | Ok data =>
          if negb (lockDataMatchesRunID data (tl_runID l))
          then throw (ErrNew ("lock " +:+ tl_path l +:+ " is no longer owned by run " +:+ tl_runID l))
          else Remove (tl_path l)
      end
  end.

(** ** The text of the lock *)

Definition no_newline (s : string) : Prop := ContainsByte s newline_char = false.

Lemma Split_lines l :
  Forall no_newline l → Split (foldr (λ x s, x +:+ newline +:+ s) "" l) newline_char = l ++ [""].
Proof.
  induction 1 as [|x l Hx Hl IH]; [done|]. cbn [foldr app].
  change (newline +:+ ?s) with (String newline_char s). rewrite Split_app by done. by rewrite IH.
Qed.

Lemma lock_data_lines env runID :
  lock_data env runID = foldr (λ x s, x +:+ newline +:+ s) ""
    ["runID=" +:+ runID; "createdAt=" +:+ format_rfc3339 (le_now env);
     "hostname=" +:+ le_hostname env; "pid=" +:+ Itoa (le_pid env)].
Proof. cbn [foldr]. unfold lock_data. by rewrite !str_app_assoc. Qed.

Lemma pretty_N_char_digit x c : non_digit c → pretty.pretty_N_char x ≠ c.
Proof.
  assert (bool_decide (48 ≤ nat_of_ascii (pretty.pretty_N_char x) ≤ 57)%nat = true) as Hr%bool_decide_eq_true
    by (unfold pretty.pretty_N_char; by repeat case_match).
  unfold non_digit. intros Hc <-. lia.
Qed.

Lemma ContainsByte_pretty_go x s c :
  non_digit c → ContainsByte s c = false → ContainsByte (pretty.pretty_N_go x s) c = false.
Proof.
  intros Hc. revert s. induction (N.lt_wf_0 x) as [x _ IH]; intros s Hs.
  destruct (decide (x = 0)%N) as [->|Hx]; [by rewrite pretty.pretty_N_go_0|].
  rewrite pretty.pretty_N_go_step by lia. apply IH; [apply N.div_lt; lia|]. cbn. rewrite Hs.
  rewrite orb_false_r. apply bool_decide_false. intros He.
  by apply (pretty_N_char_digit (x `mod` 10) c Hc).
Qed.

Lemma ContainsByte_Itoa z c : non_digit c → c ≠ "-"%char → ContainsByte (Itoa z) c = false.
Proof.
  intros Hc Hne. assert (∀ n : N, ContainsByte (pretty.pretty n) c = false) as HN.
  { intros n. unfold pretty.pretty, pretty.pretty_N. destruct (decide (n = 0)%N).
    - cbn. rewrite orb_false_r. apply bool_decide_false. intros <-.
      by apply (pretty_N_char_digit 0 "0"%char Hc).
    - by apply ContainsByte_pretty_go. }
  unfold Itoa, pretty.pretty, pretty.pretty_Z. destruct z as [|p|p].
  - apply (HN 0%N).
  - apply (HN (N.pos p)).
  - rewrite ContainsByte_app. cbn [ContainsByte]. rewrite bool_decide_false by naive_solver.
    apply (HN (N.pos p)).
Qed.

Lemma rfc3339_no_newline t : four_digit_year t → no_newline (format_rfc3339 t).
Proof.
  intros Ht. assert (non_digit newline_char) as Hn by (left; apply Nat.ltb_lt; reflexivity).
  unfold no_newline, format_rfc3339, format_clock. cbv zeta.
  by rewrite !ContainsByte_app, ContainsByte_format_date, !ContainsByte_pad by done.
Qed.

Lemma lock_owner_lines env runID r :
  validateRunID runID = Ok tt → four_digit_year (le_now env) → no_newline (le_hostname env) →
  lockDataMatchesRunID (lock_data env runID) r = true ↔ r = runID.
Proof.
  intros Hrun Ht%rfc3339_no_newline Hh.
  assert (no_newline (Itoa (le_pid env))) as Hp
    by (apply ContainsByte_Itoa; [left; apply Nat.ltb_lt; reflexivity|done]).
  apply validateRunID_Ok in Hrun as (_ & _ & Ha).
  assert (no_newline runID) as Hr.
  { unfold no_newline. cbn in Ha. rewrite !orb_false_iff in Ha. apply Ha. }
  unfold lockDataMatchesRunID. rewrite lock_data_lines, Split_lines.
  - cbn [app existsb]. rewrite !orb_true_iff, !bool_decide_eq_true. split.
    + intros [He|[He|[He|[He|[He|]]]]]; try done.
      by apply (inj (String.app "runID=")) in He.
    + intros ->. by left.
  - unfold no_newline in *. repeat (apply Forall_cons_2; [by rewrite ContainsByte_app|]). apply Forall_nil_2.
Qed.

Lemma lock_owner_matches env runID :
  validateRunID runID = Ok tt → four_digit_year (le_now env) → no_newline (le_hostname env) →
  lockDataMatchesRunID (lock_data env runID) runID = true.
Proof. intros. by apply lock_owner_lines. Qed.

(** The owner recorded in a lock file is read back exactly: a lock written for one run matches
    that run id and no other, whatever the process, the time of a four-digit year, and the host, as
    long as the host name contains no line break. *)
Theorem lock_owner_roundtrip env runID r :
  validateRunID runID = Ok tt → four_digit_year (le_now env) → no_newline (le_hostname env) →
  lockDataMatchesRunID (lock_data env runID) r = true ↔ r = runID.
Proof. apply lock_owner_lines. Qed.

Definition sample_env : lock_env := MkLockEnv (1714532400 * 10 ^ 9) "agent-0" 7.

Lemma lock_owner_roundtrip_witness :
  validateRunID "run-9" = Ok tt ∧
  (lockDataMatchesRunID (lock_data sample_env "run-9") "run-8" = true ↔ "run-8" = "run-9").
Proof.
  split; [reflexivity|]. apply lock_owner_roundtrip;
    [reflexivity|apply (bool_decide_unpack _); by vm_compute|reflexivity].
Defined.

(** ** The calls on the lock file *)

Lemma plain_lock : plain_seg lock_name.
Proof. apply (bool_decide_unpack _). by vm_compute. Qed.

(** A volume whose root exists, in which no call fails. *)
Record volume (R : fpath) (w : world) : Prop := {
  vo_wf : wf_tree (w_nodes w);
  vo_calm : calm w;
  vo_root : w_nodes w !! R = Some Dir
}.

Section calls.
Context (R : fpath).
Local Notation p := (R ++ [lock_name]).

Definition create_file (q : fpath) (w : world) : world :=
  set_nodes (<[q := File (w_next_ino w)]> (w_nodes w)) w
    <| w_data ::= <[w_next_ino w := ""]> |> <| w_next_ino ::= S |>.

Lemma OpenExcl_free w :
  volume R w → w_nodes w !! p = None →
  OpenExcl (abs_str p) w = (Ok (w_next_ino w), create_file p w).
Proof using.
  intros [Hwf Hc Hr] Hn. unfold OpenExcl, on_err. rewrite syscall_calm by done.
  rewrite (segs_of_child w Hwf) by (done || apply plain_lock).
  rewrite create_node_new by (done || apply plain_lock). done.
Qed.

Lemma OpenExcl_busy w n :
  volume R w → w_nodes w !! p = Some n →
  ∃ e, OpenExcl (abs_str p) w = (Err e, w) ∧ errors_is KExist e = true.
Proof using.
  intros [Hwf Hc Hr] Hn. unfold OpenExcl, on_err. rewrite syscall_calm by done.
  rewrite (segs_of_child w Hwf) by (done || apply plain_lock). unfold create_node.
  destruct plain_lock as (_ & _ & Hd & _). rewrite resolve_parent_dir by done.
  rewrite decide_True by eauto. cbn. eauto.
Qed.

Lemma ReadFile_file w i :
  volume R w → w_nodes w !! p = Some (File i) →
  ReadFile (abs_str p) w = (Ok (default "" (w_data w !! i)), w).
Proof using.
  intros [Hwf Hc Hr] Hn. unfold ReadFile, on_err. rewrite syscall_calm by done.
  rewrite (segs_of_child w Hwf) by (done || apply plain_lock).
  by rewrite (look_node w true p (File i)).
Qed.

Lemma volume_create w : volume R w → w_nodes w !! p = None → volume R (create_file p w).
Proof using.
  intros [Hwf Hc Hr] Hn. split; cbn.
  - apply wf_insert_new; done || apply plain_lock.
  - done.
  - rewrite lookup_insert_ne; [done|]. intros He. apply (not_below_snoc R lock_name).
    rewrite He. apply below_refl.
Qed.

Lemma volume_delete w i :
  volume R w → w_nodes w !! p = Some (File i) → volume R (set_nodes (delete p (w_nodes w)) w).
Proof using.
  intros [Hwf Hc Hr] Hn. split; rewrite ?set_nodes_nodes.
  - by eapply wf_delete.
  - done.
  - rewrite lookup_delete_ne; [done|]. intros He. apply (not_below_snoc R lock_name).
    rewrite He. apply below_refl.
Qed.

Lemma volume_write w i d : volume R w → volume R (w <| w_data ::= <[i := d]> |>).
Proof using. intros [Hwf Hc Hr]. done. Qed.
End calls.

(** ** Interleaved processes

    Every process runs [AcquireTargetLock] and then [Release], again and again;
    a step is one system call on the lock file, and a process may die at any
    point.  [MkdirAll] of the root has no effect once the root exists. *)
Inductive pc :=
  | Idle
  | Opened (runID : string) (ino : nat)
  | Holding (l : TargetLock)
  | Releasing (l : TargetLock).

Record system := MkSystem { sy_world : world; sy_procs : gmap nat pc }.

Definition lock_path (R : fpath) : string := path_Join [abs_str R; lock_name].

Inductive step (R : fpath) (env : nat → lock_env) : system → system → Prop :=
  | step_open i runID ino w w' ps :
      ps !! i = Some Idle → validateRunID runID = Ok tt →
      OpenExcl (lock_path R) w = (Ok ino, w') →
      step R env (MkSystem w ps) (MkSystem w' (<[i := Opened runID ino]> ps))
  | step_busy i runID e w w' ps :
      ps !! i = Some Idle → validateRunID runID = Ok tt →
      OpenExcl (lock_path R) w = (Err e, w') →
      step R env (MkSystem w ps) (MkSystem w' ps)
  | step_write i runID ino w w' ps :
      ps !! i = Some (Opened runID ino) →
      WriteFile ino (lock_data (env i) runID) w = (Ok tt, w') →
      step R env (MkSystem w ps)
        (MkSystem w' (<[i := Holding (MkTargetLock (lock_path R) runID)]> ps))
  | step_check i l data w w' ps :
      ps !! i = Some (Holding l) → ReadFile (tl_path l) w = (Ok data, w') →
      lockDataMatchesRunID data (tl_runID l) = true →
      step R env (MkSystem w ps) (MkSystem w' (<[i := Releasing l]> ps))
  | step_refused i l data w w' ps :
      ps !! i = Some (Holding l) → ReadFile (tl_path l) w = (Ok data, w') →
      lockDataMatchesRunID data (tl_runID l) = false →
      step R env (MkSystem w ps) (MkSystem w' (<[i := Idle]> ps))
  | step_remove i l w w' ps :
      ps !! i = Some (Releasing l) → Remove (tl_path l) w = (Ok tt, w') →
      step R env (MkSystem w ps) (MkSystem w' (<[i := Idle]> ps))
  | step_die i w ps :
      step R env (MkSystem w ps) (MkSystem w (delete i ps)).

(** The process is between the creation of the lock file and its removal. *)
Definition inside (s : pc) : Prop := s ≠ Idle.

(** The lock invariant: whoever is inside is alone, the lock file exists and,
    once written, names that process's run. *)
Record lock_inv (R : fpath) (env : nat → lock_env) (s : system) : Prop := {
  li_volume : volume R (sy_world s);
  li_alone : ∀ i j a b, sy_procs s !! i = Some a → sy_procs s !! j = Some b →
    inside a → inside b → i = j;
  li_file : ∀ i a, sy_procs s !! i = Some a → inside a → ∃ ino,
    w_nodes (sy_world s) !! (R ++ [lock_name]) = Some (File ino) ∧
    match a with
    | Idle => False
    | Opened runID ino' => ino' = ino ∧ validateRunID runID = Ok tt
    | Holding l | Releasing l => l = MkTargetLock (lock_path R) (tl_runID l) ∧
        validateRunID (tl_runID l) = Ok tt ∧
        w_data (sy_world s) !! ino = Some (lock_data (env i) (tl_runID l))
    end
}.

Lemma lock_path_abs R w : volume R w → lock_path R = abs_str (R ++ [lock_name]).
Proof.
  intros [Hwf _ Hr]. unfold lock_path. apply path_Join_abs_str_1; [by eapply wf_names|apply plain_lock].
Qed.

(** Replacing the state of the process that is alone inside. *)
Lemma alone_insert (ps : gmap nat pc) i a a' :
  (∀ i j a b, ps !! i = Some a → ps !! j = Some b → inside a → inside b → i = j) →
  ps !! i = Some a → inside a →
  (∀ j k b c, <[i := a']> ps !! j = Some b → <[i := a']> ps !! k = Some c →
    inside b → inside c → j = k).
Proof.
  intros Hal Hi Ha j k b c. rewrite !lookup_insert_Some.
  intros [[<- _]|[Hj Hb]] [[<- _]|[Hk Hc]] Hib Hic; [done| | |by eapply Hal].
  - by apply (Hal i k a c).
  - by apply (Hal j i b a).
Qed.

Lemma not_inside_Idle : ¬ inside Idle.
Proof. by intros H. Qed.

(** What the file holds for the process that is inside. *)
Definition owns (R : fpath) (env : nat → lock_env) (i : nat) (a : pc) (w : world) : Prop :=
  ∃ ino, w_nodes w !! (R ++ [lock_name]) = Some (File ino) ∧
    match a with
    | Idle => False
    | Opened runID ino' => ino' = ino ∧ validateRunID runID = Ok tt
    | Holding l | Releasing l => l = MkTargetLock (lock_path R) (tl_runID l) ∧
        validateRunID (tl_runID l) = Ok tt ∧
        w_data w !! ino = Some (lock_data (env i) (tl_runID l))
    end.

(** The process inside moves on. *)
Lemma inv_update R env w ps i a a' w' :
  lock_inv R env (MkSystem w ps) → ps !! i = Some a → inside a → volume R w' →
  (inside a' → owns R env i a' w') → lock_inv R env (MkSystem w' (<[i := a']> ps)).
Proof.
  intros [_ Hal _] Hi Ha Hv Hown. split; cbn [sy_world sy_procs]; [done|by eapply alone_insert|].
  intros j b. rewrite lookup_insert_Some. intros [[<- <-]|[Hne Hj]] Hb; [by apply Hown|].
  by destruct Hne; eapply Hal.
Qed.

Lemma inv_open R env i runID ino w w' ps :
  lock_inv R env (MkSystem w ps) → ps !! i = Some Idle → validateRunID runID = Ok tt →
  OpenExcl (lock_path R) w = (Ok ino, w') →
  lock_inv R env (MkSystem w' (<[i := Opened runID ino]> ps)).
Proof.
  intros [Hv Hal Hf] Hi Hrun Hop. cbn [sy_world sy_procs] in *. rewrite (lock_path_abs R w Hv) in Hop.
  destruct (w_nodes w !! (R ++ [lock_name])) as [n|] eqn:Hn.
  { destruct (OpenExcl_busy R w n Hv Hn) as (e & He & _). congruence. }
  rewrite OpenExcl_free in Hop by done. injection Hop as <- <-.
  assert (∀ j b, ps !! j = Some b → ¬ inside b) as Hout.
  { intros j b Hj Hb. destruct (Hf j b Hj Hb) as (ino' & Hn' & _). congruence. }
  split; cbn [sy_world sy_procs].
  - by apply volume_create.
  - intros j k b c. rewrite !lookup_insert_Some.
    intros [[<- _]|[_ Hj]] [[<- _]|[_ Hk]] Hb Hc; [done|..]; exfalso; by eapply Hout.
  - intros j b. rewrite lookup_insert_Some. intros [[<- <-]|[_ Hj]] Hb; [|exfalso; by eapply Hout].
    eexists. split; [apply lookup_insert_eq|done].
Qed.

Lemma inv_busy R env e w w' ps :
  lock_inv R env (MkSystem w ps) → OpenExcl (lock_path R) w = (Err e, w') →
  lock_inv R env (MkSystem w' ps) ∧ w' = w.
Proof.
  intros H Hop. pose proof (li_volume _ _ _ H) as Hv. cbn in Hv. rewrite (lock_path_abs R w Hv) in Hop.
  destruct (w_nodes w !! (R ++ [lock_name])) as [n|] eqn:Hn.
  - destruct (OpenExcl_busy R w n Hv Hn) as (e' & He & _). rewrite He in Hop. by injection Hop as <- <-.
  - rewrite OpenExcl_free in Hop by done. discriminate.
Qed.

Lemma inv_write R env i runID ino w w' ps :
  lock_inv R env (MkSystem w ps) → ps !! i = Some (Opened runID ino) →
  WriteFile ino (lock_data (env i) runID) w = (Ok tt, w') →
  lock_inv R env (MkSystem w' (<[i := Holding (MkTargetLock (lock_path R) runID)]> ps)).
Proof.
  intros H Hi Hwr. pose proof (li_volume _ _ _ H) as Hv. cbn in Hv.
  destruct (li_file _ _ _ H i _ Hi ltac:(done)) as (ino' & Hn & -> & Hrun). cbn in Hn.
  unfold WriteFile in Hwr. rewrite syscall_calm in Hwr by apply Hv. injection Hwr as <-.
  eapply inv_update; [exact H|exact Hi|done|by apply volume_write|].
  intros _. exists ino'. split; [exact Hn|]. cbn. split; [done|]. split; [done|]. apply lookup_insert_eq.
Qed.

(** What a process that holds the lock reads: its own record. *)
Lemma read_own R env i l w ps :
  lock_inv R env (MkSystem w ps) → ps !! i = Some (Holding l) →
  ReadFile (tl_path l) w = (Ok (lock_data (env i) (tl_runID l)), w).
Proof.
  intros H Hi. pose proof (li_volume _ _ _ H) as Hv. cbn in Hv.
  destruct (li_file _ _ _ H i _ Hi ltac:(done)) as (ino & Hn & -> & Hrun & Hd). cbn in *.
  rewrite (lock_path_abs R w Hv), (ReadFile_file R w ino) by done. by rewrite Hd.
Qed.

Lemma inv_check R env i l data w w' ps :
  lock_inv R env (MkSystem w ps) → ps !! i = Some (Holding l) →
  ReadFile (tl_path l) w = (Ok data, w') →
  lock_inv R env (MkSystem w' (<[i := Releasing l]> ps)) ∧
  lock_inv R env (MkSystem w' (<[i := Idle]> ps)).
Proof.
  intros H Hi Hrd. rewrite (read_own R env i l w ps) in Hrd by done. injection Hrd as <- <-.
  pose proof (li_file _ _ _ H i _ Hi ltac:(done)) as Hown.
  split; (eapply inv_update; [exact H|exact Hi|done|apply (li_volume _ _ _ H)|]).
  - intros _. exact Hown.
  - intros Hin. by apply not_inside_Idle in Hin.
Qed.

Lemma inv_remove R env i l w w' ps :
  lock_inv R env (MkSystem w ps) → ps !! i = Some (Releasing l) →
  Remove (tl_path l) w = (Ok tt, w') →
  lock_inv R env (MkSystem w' (<[i := Idle]> ps)).
Proof.
  intros H Hi Hrm. pose proof (li_volume _ _ _ H) as Hv. cbn in Hv.
  destruct (li_file _ _ _ H i _ Hi ltac:(done)) as (ino & Hn & Hl & _). cbn in Hn.
  rewrite Hl in Hrm. cbn [tl_path] in Hrm. rewrite (lock_path_abs R w Hv) in Hrm.
  rewrite (Remove_node w (vo_calm R w Hv) (vo_wf R w Hv) _ (File ino) Hn) in Hrm by done.
  injection Hrm as <-. eapply inv_update; [exact H|exact Hi|done|by eapply volume_delete|].
  intros Hin. by apply not_inside_Idle in Hin.
Qed.

Lemma inv_die R env i w ps :
  lock_inv R env (MkSystem w ps) → lock_inv R env (MkSystem w (delete i ps)).
Proof.
  intros [Hv Hal Hf]. split; cbn [sy_world sy_procs] in *; [done|..].
  - intros j k b c [_ Hj]%lookup_delete_Some [_ Hk]%lookup_delete_Some. by eapply Hal.
  - intros j b [_ Hj]%lookup_delete_Some. by apply Hf.
Qed.

Lemma step_inv R env s s' : lock_inv R env s → step R env s s' → lock_inv R env s'.
Proof.
  intros H Hst. destruct Hst.
  - by eapply inv_open.
  - by eapply inv_busy.
  - by eapply inv_write.
  - by eapply inv_check.
  - by eapply inv_check.
  - by eapply inv_remove.
  - by apply inv_die.
Qed.

Lemma steps_inv R env s s' : rtc (step R env) s s' → lock_inv R env s → lock_inv R env s'.
Proof. induction 1; eauto using step_inv. Qed.

(** C25: The target lock is exclusive: from a volume with no lock file and any number of idle
    processes, however their system calls interleave and whichever processes die, at most one
    process is between taking the lock and giving it back, and while there is one the lock file
    exists; a process that completed AcquireTargetLock finds its own run in it, so its Release is
    never refused. *)
Theorem lock_exclusive R env w ps s :
  volume R w → w_nodes w !! (R ++ [lock_name]) = None → (∀ i a, ps !! i = Some a → a = Idle) →
  rtc (step R env) (MkSystem w ps) s →
  (∀ i j a b, sy_procs s !! i = Some a → sy_procs s !! j = Some b → a ≠ Idle → b ≠ Idle → i = j) ∧
  (∀ i a, sy_procs s !! i = Some a → a ≠ Idle →
    is_Some (w_nodes (sy_world s) !! (R ++ [lock_name]))) ∧
  (∀ i l, sy_procs s !! i = Some (Holding l) → four_digit_year (le_now (env i)) →
    no_newline (le_hostname (env i)) →
    ∃ data, ReadFile (tl_path l) (sy_world s) = (Ok data, sy_world s) ∧
      lockDataMatchesRunID data (tl_runID l) = true).
Proof.
  intros Hv Hn Hidle Hst. apply steps_inv in Hst as H.
  - split; [apply H|]. split.
    + intros i a Hi Ha. destruct (li_file _ _ _ H i a Hi Ha) as (ino & Hf & _). eauto.
    + intros i l Hi Hy Hh. destruct s as [w' ps']. eexists. split; [by eapply read_own|].
      destruct (li_file _ _ _ H i _ Hi ltac:(done)) as (ino & _ & _ & Hrun & _).
      by apply lock_owner_matches.
  - split; cbn; [done|..].
    + intros i j a b Hi _ Ha. by apply Hidle in Hi.
    + intros i a Hi Ha. by apply Hidle in Hi.
Qed.

Lemma lock_exclusive_witness :
  volume ["t"] sample_world ∧ w_nodes sample_world !! (["t"] ++ [lock_name]) = None ∧
  ∃ s, sy_procs s !! 1%nat = Some (Opened "run-9" 2) ∧
    (∀ i j a b, sy_procs s !! i = Some a → sy_procs s !! j = Some b → a ≠ Idle → b ≠ Idle → i = j).
Proof.
  assert (volume ["t"] sample_world) as Hv by (split; apply sample_target).
  assert (w_nodes sample_world !! (["t"] ++ [lock_name]) = None) as Hn by by vm_compute.
  split; [exact Hv|]. split; [exact Hn|].
  set (ps := ({[1%nat := Idle; 2%nat := Idle]} : gmap nat pc)).
  exists (MkSystem (create_file (["t"] ++ [lock_name]) sample_world)
    (<[1%nat := Opened "run-9" 2]> ps)).
  split; [reflexivity|].
  apply (lock_exclusive ["t"] (λ _, sample_env) sample_world ps); [exact Hv|exact Hn| |].
  - intros i a. unfold ps. rewrite lookup_insert_Some, lookup_singleton_Some. naive_solver.
  - apply rtc_once. apply step_open; [reflexivity|reflexivity|].
    rewrite (lock_path_abs ["t"] sample_world Hv). by rewrite OpenExcl_free.
Defined.

(** ** The two functions *)

Lemma acquire_prefix {A} R runID w (k : string → M A) :
  volume R w → validateRunID runID = Ok tt →
  (_ ← lift (validateRunID runID); root ← Abs (abs_str R); _ ← MkdirAll root; k root) w
  = k (abs_str R) w.
Proof.
  intros [Hwf Hc Hr] Hrun. erewrite run_lift by exact Hrun.
  erewrite run_bind by (apply Abs_abs_str; by eapply wf_names).
  erewrite run_bind by by apply MkdirAll_dir. done.
Qed.

Lemma acquire_busy R env runID w i data :
  volume R w → validateRunID runID = Ok tt → w_nodes w !! (R ++ [lock_name]) = Some (File i) →
  w_data w !! i = Some data →
  AcquireTargetLock env (abs_str R) runID w
  = (Err (ErrNew ("target is locked: " +:+ TrimSpace data)), w).
Proof.
  intros Hv Hrun Hn Hd. unfold AcquireTargetLock. rewrite acquire_prefix by done.
  change (path_Join [abs_str R; lock_name]) with (lock_path R). rewrite (lock_path_abs R w Hv).
  destruct (OpenExcl_busy R w _ Hv Hn) as (e & He & Hk).
  erewrite run_try by exact He. cbv beta iota. rewrite Hk.
  erewrite run_try by by apply ReadFile_file. by rewrite Hd.
Qed.

Lemma acquire_free R env runID w :
  volume R w → validateRunID runID = Ok tt → w_nodes w !! (R ++ [lock_name]) = None →
  AcquireTargetLock env (abs_str R) runID w
  = (Ok (MkTargetLock (lock_path R) runID),
     (create_file (R ++ [lock_name]) w) <| w_data ::= <[w_next_ino w := lock_data env runID]> |>).
Proof.
  intros Hv Hrun Hn. unfold AcquireTargetLock. rewrite acquire_prefix by done.
  change (path_Join [abs_str R; lock_name]) with (lock_path R). rewrite (lock_path_abs R w Hv).
  erewrite run_try by by apply OpenExcl_free. cbv beta iota.
  erewrite run_try by (unfold WriteFile; rewrite syscall_calm by apply Hv; reflexivity). done.
Qed.

(** AcquireTargetLock and Release are inverse: on a volume without a lock the acquisition
    succeeds, while the lock is held every further acquisition is refused with the owner's
    record and changes nothing, and Release leaves exactly the tree from before. *)
Theorem lock_acquire_release R env runID w :
  volume R w → w_nodes w !! (R ++ [lock_name]) = None → validateRunID runID = Ok tt →
  four_digit_year (le_now env) → no_newline (le_hostname env) →
  ∃ l w1 w2, AcquireTargetLock env (abs_str R) runID w = (Ok l, w1) ∧
    (∀ env' runID', validateRunID runID' = Ok tt →
      AcquireTargetLock env' (abs_str R) runID' w1
      = (Err (ErrNew ("target is locked: " +:+ TrimSpace (lock_data env runID))), w1)) ∧
    Release (Some l) w1 = (Ok tt, w2) ∧ w_nodes w2 = w_nodes w.
Proof.
  intros Hv Hn Hrun Hy Hh. eexists _, _, _. split; [by apply acquire_free|].
  set (w1 := _ <| w_data ::= _ |>).
  assert (volume R w1) as Hv1 by by apply volume_write, volume_create.
  assert (w_nodes w1 !! (R ++ [lock_name]) = Some (File (w_next_ino w))) as Hn1 by apply lookup_insert_eq.
  assert (w_data w1 !! w_next_ino w = Some (lock_data env runID)) as Hd1 by apply lookup_insert_eq.
  split; [intros env' runID' Hrun'; by eapply acquire_busy|].
  unfold Release. cbn [tl_path tl_runID]. rewrite (lock_path_abs R w1 Hv1). split.
  - erewrite run_try by by apply ReadFile_file. cbv beta iota. rewrite Hd1. cbn [default].
    cbn [from_option id]. rewrite lock_owner_matches by done. cbn [negb].
    apply (Remove_node w1 (vo_calm R w1 Hv1) (vo_wf R w1 Hv1) _ (File (w_next_ino w)) Hn1). done.
  - rewrite set_nodes_nodes. apply delete_insert_id, Hn.
Qed.

Lemma lock_acquire_release_witness :
  volume ["t"] sample_world ∧ validateRunID "run-9" = Ok tt ∧
  ∃ l w1 w2, AcquireTargetLock sample_env "/t" "run-9" sample_world = (Ok l, w1) ∧
    Release (Some l) w1 = (Ok tt, w2) ∧ w_nodes w2 = w_nodes sample_world.
Proof.
  assert (volume ["t"] sample_world) as Hv by (split; apply sample_target).
  split; [exact Hv|]. split; [reflexivity|].
  destruct (lock_acquire_release ["t"] sample_env "run-9" sample_world Hv) as
    (l & w1 & w2 & Ha & _ & Hr & Hn);
    [by vm_compute|reflexivity|apply (bool_decide_unpack _); by vm_compute|reflexivity|].
  exists l, w1, w2. split; [exact Ha|]. split; [exact Hr|exact Hn].
Defined.
