(* ===== verification/Kube.v ===== *)
(** * Kubernetes objects (k8s.io/api, as the controllers use it)

    The parts of leases, jobs, services, secrets, claims, volume snapshots and
    cron jobs that the controllers read or write, the kinds of object they
    store, and the library functions they rely on as parameters: quantities
    (apimachinery resource), unstructured objects (apimachinery unstructured).  A custom resource
    of an external kind is a JSON value. *)
From S2P Require Export Naming.
From stdpp Require Import options.

(** ** Pods *)

(** [corev1.ContainerPort] and [corev1.ServicePort]. *)
Record ContainerPort := MkContainerPort {
  cp_Name : string;
  cp_Port : Z
}.

#[export] Instance ContainerPort_eta : Eta ContainerPort := λ r,
  {| cp_Name := cp_Name r; cp_Port := cp_Port r |}.

#[export] Instance ContainerPort_eq_dec : EqDecision ContainerPort.
Proof. solve_decision. Defined.

#[export] Instance ContainerPort_inhabited : Inhabited ContainerPort := populate
  (MkContainerPort "" 0).

Record VolumeMount := MkVolumeMount {
  vm_Name : string;
  vm_MountPath : string;
  vm_ReadOnly : bool
}.

#[export] Instance VolumeMount_eta : Eta VolumeMount := λ r,
  {| vm_Name := vm_Name r; vm_MountPath := vm_MountPath r; vm_ReadOnly := vm_ReadOnly r |}.

#[export] Instance VolumeMount_eq_dec : EqDecision VolumeMount.
Proof. solve_decision. Defined.

#[export] Instance VolumeMount_inhabited : Inhabited VolumeMount := populate
  (MkVolumeMount "" "" false).

Record Container := MkContainer {
  c_Name : string;
  c_Image : string;
  c_Command : list string;
  c_Args : list string;
  c_Ports : list ContainerPort;
  c_Resources : Opaque;
  c_VolumeMounts : list VolumeMount
}.

#[export] Instance Container_eta : Eta Container := λ r,
  {| c_Name := c_Name r; c_Image := c_Image r; c_Command := c_Command r; c_Args := c_Args r;
     c_Ports := c_Ports r; c_Resources := c_Resources r; c_VolumeMounts := c_VolumeMounts r
     |}.

#[export] Instance Container_eq_dec : EqDecision Container.
Proof. solve_decision. Defined.

#[export] Instance Container_inhabited : Inhabited Container := populate
  (MkContainer "" "" [] [] [] "" []).

(** A [resource.Quantity], by its canonical text. *)
Definition Quantity := string.

(** [corev1.VolumeSource]: the one field that is set. *)
Inductive VolumeSource :=
  | VolumePVC (ClaimName : string) (ReadOnly : bool)
  | VolumeEmptyDir (Medium : string) (SizeLimit : option Quantity)
  | VolumeSecret (SecretName : string).

#[export] Instance VolumeSource_eq_dec : EqDecision VolumeSource.
Proof. solve_decision. Defined.

Record Volume := MkVolume {
  v_Name : string;
  v_Source : VolumeSource
}.

#[export] Instance Volume_eta : Eta Volume := λ r,
  {| v_Name := v_Name r; v_Source := v_Source r |}.

#[export] Instance Volume_eq_dec : EqDecision Volume.
Proof. solve_decision. Defined.

#[export] Instance Volume_inhabited : Inhabited Volume := populate
  (MkVolume "" (VolumeSecret "")).

Record PodSpec := MkPodSpec {
  ps_RestartPolicy : string;
  ps_InitContainers : list Container;
  ps_Containers : list Container;
  ps_Volumes : list Volume;
  ps_NodeSelector : gmap string string;
  ps_Affinity : Opaque;
  ps_Tolerations : Opaque;
  ps_TopologySpreadConstraints : Opaque;
  ps_SchedulerName : string;
  ps_PriorityClassName : string;
  ps_RuntimeClassName : option string;
  ps_ImagePullSecrets : list string;
  ps_SecurityContext : Opaque
}.

#[export] Instance PodSpec_eta : Eta PodSpec := λ r,
  {| ps_RestartPolicy := ps_RestartPolicy r; ps_InitContainers := ps_InitContainers r;
     ps_Containers := ps_Containers r; ps_Volumes := ps_Volumes r; ps_NodeSelector :=
     ps_NodeSelector r; ps_Affinity := ps_Affinity r; ps_Tolerations := ps_Tolerations r;
     ps_TopologySpreadConstraints := ps_TopologySpreadConstraints r; ps_SchedulerName :=
     ps_SchedulerName r; ps_PriorityClassName := ps_PriorityClassName r; ps_RuntimeClassName
     := ps_RuntimeClassName r; ps_ImagePullSecrets := ps_ImagePullSecrets r;
     ps_SecurityContext := ps_SecurityContext r |}.

#[export] Instance PodSpec_eq_dec : EqDecision PodSpec.
Proof. solve_decision. Defined.

#[export] Instance PodSpec_inhabited : Inhabited PodSpec := populate
  (MkPodSpec "" [] [] [] ∅ "" "" "" "" "" None [] "").

(** ** Jobs, services, leases *)

Record JobCondition := MkJobCondition {
  jc_Type : string;
  jc_Status : string;
  jc_Reason : string;
  jc_Message : string
}.

#[export] Instance JobCondition_eta : Eta JobCondition := λ r,
  {| jc_Type := jc_Type r; jc_Status := jc_Status r; jc_Reason := jc_Reason r; jc_Message :=
     jc_Message r |}.

#[export] Instance JobCondition_eq_dec : EqDecision JobCondition.
Proof. solve_decision. Defined.

#[export] Instance JobCondition_inhabited : Inhabited JobCondition := populate
  (MkJobCondition "" "" "" "").

Record JobSpec := MkJobSpec {
  js_BackoffLimit : option Z;
  js_ActiveDeadlineSeconds : option Z;
  js_Suspend : option bool;
  js_TemplateLabels : gmap string string;
  js_Template : PodSpec
}.

#[export] Instance JobSpec_eta : Eta JobSpec := λ r,
  {| js_BackoffLimit := js_BackoffLimit r; js_ActiveDeadlineSeconds :=
     js_ActiveDeadlineSeconds r; js_Suspend := js_Suspend r; js_TemplateLabels :=
     js_TemplateLabels r; js_Template := js_Template r |}.

#[export] Instance JobSpec_eq_dec : EqDecision JobSpec.
Proof. solve_decision. Defined.

#[export] Instance JobSpec_inhabited : Inhabited JobSpec := populate
  (MkJobSpec None None None ∅ inhabitant).

(** A [batchv1.Job]; of its status the conditions. *)
Record Job := MkJob {
  j_Meta : ObjectMeta;
  j_Spec : JobSpec;
  j_Conditions : list JobCondition
}.

#[export] Instance Job_eta : Eta Job := λ r,
  {| j_Meta := j_Meta r; j_Spec := j_Spec r; j_Conditions := j_Conditions r |}.

#[export] Instance Job_eq_dec : EqDecision Job.
Proof. solve_decision. Defined.

#[export] Instance Job_inhabited : Inhabited Job := populate
  (MkJob inhabitant inhabitant []).

(** A [corev1.Service]. *)
Record Service_ := MkService_ {
  svc_Meta : ObjectMeta;
  svc_Type : string;
  svc_Selector : gmap string string;
  svc_Ports : list ContainerPort
}.

#[export] Instance Service__eta : Eta Service_ := λ r,
  {| svc_Meta := svc_Meta r; svc_Type := svc_Type r; svc_Selector := svc_Selector r;
     svc_Ports := svc_Ports r |}.

#[export] Instance Service__eq_dec : EqDecision Service_.
Proof. solve_decision. Defined.

#[export] Instance Service__inhabited : Inhabited Service_ := populate
  (MkService_ inhabitant "" ∅ []).

(** A [coordinationv1.Lease]. *)
Record Lease := MkLease {
  l_Meta : ObjectMeta;
  l_HolderIdentity : option string;
  l_LeaseDurationSeconds : option Z;
  l_AcquireTime : option Time;
  l_RenewTime : option Time;
  l_LeaseTransitions : option Z
}.

#[export] Instance Lease_eta : Eta Lease := λ r,
  {| l_Meta := l_Meta r; l_HolderIdentity := l_HolderIdentity r; l_LeaseDurationSeconds :=
     l_LeaseDurationSeconds r; l_AcquireTime := l_AcquireTime r; l_RenewTime := l_RenewTime
     r; l_LeaseTransitions := l_LeaseTransitions r |}.

#[export] Instance Lease_eq_dec : EqDecision Lease.
Proof. solve_decision. Defined.

#[export] Instance Lease_inhabited : Inhabited Lease := populate
  (MkLease inhabitant None None None None None).

(** A [corev1.Secret]; its byte strings are strings. *)
Record Secret := MkSecret {
  sec_Meta : ObjectMeta;
  sec_Type : string;
  sec_Data : gmap string string
}.

#[export] Instance Secret_eta : Eta Secret := λ r,
  {| sec_Meta := sec_Meta r; sec_Type := sec_Type r; sec_Data := sec_Data r |}.

#[export] Instance Secret_eq_dec : EqDecision Secret.
Proof. solve_decision. Defined.

#[export] Instance Secret_inhabited : Inhabited Secret := populate
  (MkSecret inhabitant "" ∅).

Record CronJob := MkCronJob {
  cj_Meta : ObjectMeta
}.

#[export] Instance CronJob_eta : Eta CronJob := λ r,
  {| cj_Meta := cj_Meta r |}.

#[export] Instance CronJob_eq_dec : EqDecision CronJob.
Proof. solve_decision. Defined.

#[export] Instance CronJob_inhabited : Inhabited CronJob := populate
  (MkCronJob inhabitant).

(** ** Claims *)

Record TypedLocalObjectReference := MkTypedLocalObjectReference {
  ds_APIGroup : option string;
  ds_Kind : string;
  ds_Name : string
}.

#[export] Instance TypedLocalObjectReference_eta : Eta TypedLocalObjectReference := λ r,
  {| ds_APIGroup := ds_APIGroup r; ds_Kind := ds_Kind r; ds_Name := ds_Name r |}.

#[export] Instance TypedLocalObjectReference_eq_dec : EqDecision TypedLocalObjectReference.
Proof. solve_decision. Defined.

#[export] Instance TypedLocalObjectReference_inhabited : Inhabited TypedLocalObjectReference := populate
  (MkTypedLocalObjectReference None "" "").

Record PersistentVolumeClaim := MkPersistentVolumeClaim {
  pvc_Meta : ObjectMeta;
  pvc_AccessModes : list string;
  pvc_StorageClassName : option string;
  pvc_VolumeMode : option string;
  pvc_Requests : gmap string Quantity;
  pvc_DataSource : option TypedLocalObjectReference;
  pvc_Phase : string
}.

#[export] Instance PersistentVolumeClaim_eta : Eta PersistentVolumeClaim := λ r,
  {| pvc_Meta := pvc_Meta r; pvc_AccessModes := pvc_AccessModes r; pvc_StorageClassName :=
     pvc_StorageClassName r; pvc_VolumeMode := pvc_VolumeMode r; pvc_Requests :=
     pvc_Requests r; pvc_DataSource := pvc_DataSource r; pvc_Phase := pvc_Phase r |}.

#[export] Instance PersistentVolumeClaim_eq_dec : EqDecision PersistentVolumeClaim.
Proof. solve_decision. Defined.

#[export] Instance PersistentVolumeClaim_inhabited : Inhabited PersistentVolumeClaim := populate
  (MkPersistentVolumeClaim inhabitant [] None None ∅ None "").

(** ** Unstructured objects *)

(** A JSON value; an object is a list of fields with distinct names. *)
Inductive json :=
  | JNull
  | JBool (b : bool)
  | JNumber (text : string)
  | JString (s : string)
  | JArray (l : list json)
  | JObject (fields : list (string * json)).

(** [m[key]] of a [map[string]interface{}]. *)
Definition json_field (key : string) (fields : list (string * json)) : option json :=
  match list_find (λ f, f.1 = key) fields with Some (_, (_, v)) => Some v | None => None end.

(** [v.(string)] and [v.(map[string]interface{})] *)
Definition as_string (v : option json) : option string :=
  match v with Some (JString s) => Some s | _ => None end.
Definition as_object (v : json) : option (list (string * json)) :=
  match v with JObject f => Some f | _ => None end.

(** An unstructured [VolumeSnapshot]: its metadata and its other fields. *)
Record VolumeSnapshot := MkVolumeSnapshot {
  vs_Meta : ObjectMeta;
  vs_Object : list (string * json)
}.

#[export] Instance VolumeSnapshot_eta : Eta VolumeSnapshot := λ r,
  {| vs_Meta := vs_Meta r; vs_Object := vs_Object r |}.

#[export] Instance VolumeSnapshot_inhabited : Inhabited VolumeSnapshot := populate
  (MkVolumeSnapshot inhabitant []).

(** The helpers of package unstructured the code calls on an object's fields: a
    value, or nothing when the path is absent, or an error when a value on the
    path has another type. *)
Class Unstructured := {
  NestedBool : list (string * json) → list string → result (option bool);
  NestedString : list (string * json) → list string → result (option string);
  NestedMap : list (string * json) → list string → result (option (list (string * json)));
  NestedSlice : list (string * json) → list string → result (option (list json))
}.

(** [resource.ParseQuantity], [Quantity.IsZero] and [Quantity.Value]. *)
Class Quantities := {
  ParseQuantity : string → result Quantity;
  Quantity_IsZero : Quantity → bool;
  Quantity_Value : Quantity → Z
}.

(** ** Kinds *)

Inductive kind :=
  | KBackupJob | KRestoreJob | KRsyncMachine | KBackupSource
  | KLease | KJob | KService | KSecret | KPVC | KVolumeSnapshot | KCronJob.

#[export] Instance kind_eq_dec : EqDecision kind.
Proof. solve_decision. Defined.

Definition object (k : kind) : Set :=
  match k with
  | KBackupJob => BackupJob
  | KRestoreJob => RestoreJob
  | KRsyncMachine => RsyncMachine
  | KBackupSource => BackupSource
  | KLease => Lease
  | KJob => Job
  | KService => Service_
  | KSecret => Secret
  | KPVC => PersistentVolumeClaim
  | KVolumeSnapshot => VolumeSnapshot
  | KCronJob => CronJob
  end.

Definition meta_of (k : kind) : object k → ObjectMeta :=
  match k with
  | KBackupJob => bj_Meta
  | KRestoreJob => rj_Meta
  | KRsyncMachine => m_Meta
  | KBackupSource => s_Meta
  | KLease => l_Meta
  | KJob => j_Meta
  | KService => svc_Meta
  | KSecret => sec_Meta
  | KPVC => pvc_Meta
  | KVolumeSnapshot => vs_Meta
  | KCronJob => cj_Meta
  end.

(** The object with other metadata. *)
Definition set_meta (k : kind) : ObjectMeta → object k → object k :=
  match k with
  | KBackupJob => λ m o, o <| bj_Meta := m |>
  | KRestoreJob => λ m o, o <| rj_Meta := m |>
  | KRsyncMachine => λ m o, o <| m_Meta := m |>
  | KBackupSource => λ m o, o <| s_Meta := m |>
  | KLease => λ m o, o <| l_Meta := m |>
  | KJob => λ m o, o <| j_Meta := m |>
  | KService => λ m o, o <| svc_Meta := m |>
  | KSecret => λ m o, o <| sec_Meta := m |>
  | KPVC => λ m o, o <| pvc_Meta := m |>
  | KVolumeSnapshot => λ m o, o <| vs_Meta := m |>
  | KCronJob => λ m o, o <| cj_Meta := m |>
  end.

Definition ref_of (m : ObjectMeta) : NamespacedName :=
  MkNamespacedName (om_Namespace m) (om_Name m).

(** The group, version and kind the scheme registers. *)
Definition gvk (k : kind) : string * string :=
  match k with
  | KBackupJob => ("krm.chirino.github.io/v1alpha1", "BackupJob")
  | KRestoreJob => ("krm.chirino.github.io/v1alpha1", "RestoreJob")
  | KRsyncMachine => ("krm.chirino.github.io/v1alpha1", "RsyncMachine")
  | KBackupSource => ("krm.chirino.github.io/v1alpha1", "BackupSource")
  | KLease => ("coordination.k8s.io/v1", "Lease")
  | KJob => ("batch/v1", "Job")
  | KService => ("v1", "Service")
  | KSecret => ("v1", "Secret")
  | KPVC => ("v1", "PersistentVolumeClaim")
  | KVolumeSnapshot => ("snapshot.storage.k8s.io/v1", "VolumeSnapshot")
  | KCronJob => ("batch/v1", "CronJob")
  end.

Lemma meta_set_meta k m (o : object k) : meta_of k (set_meta k m o) = m.
Proof. by destruct k. Qed.
