(* ===== verification/Identity.v ===== *)
(** * Identities of data-plane peers (internal/tlsutil/identity.go, certs.go)

    The SPIFFE identity a run's certificate carries, its URI, and the files of
    a certificate bundle. *)
From S2P Require Export GoStrings.
From stdpp Require Import options.
From Stdlib Require Import Ascii.

Definition TrustDomain : string := "spiffe://krm".
Definition RoleSource : string := "source".
Definition RoleTarget : string := "target".

Record Identity := MkIdentity {
  id_RunNamespace : string;
  id_RunName : string;
  id_Role : string;
  id_Namespace : string;
  id_Name : string
}.

#[export] Instance Identity_eq_dec : EqDecision Identity.
Proof. solve_decision. Defined.

Definition SourceIdentity (runNamespace runName sourceNamespace sourceName : string) : Identity :=
  MkIdentity runNamespace runName RoleSource sourceNamespace sourceName.

Definition TargetIdentity (runNamespace runName targetNamespace targetName : string) : Identity :=
  MkIdentity runNamespace runName RoleTarget targetNamespace targetName.

(** [url.PathEscape] *)
Definition path_safe (c : ascii) : bool :=
  let n := nat_of_ascii c in
  ((97 <=? n)%nat && (n <=? 122)%nat) || ((65 <=? n)%nat && (n <=? 90)%nat) ||
  ((48 <=? n)%nat && (n <=? 57)%nat) || ContainsByte "-_.~$&+:=@" c.

Definition upper_hex (n : nat) : ascii :=
  ascii_of_nat (if decide (n < 10)%nat then 48 + n else 55 + n).

Fixpoint PathEscape (s : string) : string :=
  match s with
  | "" => ""
  | String c s =>
      if path_safe c then String c (PathEscape s)
      else String "%" (String (upper_hex (nat_of_ascii c / 16))
             (String (upper_hex (nat_of_ascii c mod 16)) (PathEscape s)))
  end.

Definition URI (i : Identity) : string :=
  TrustDomain +:+ "/run/" +:+ PathEscape (id_RunNamespace i) +:+ "/" +:+ PathEscape (id_RunName i) +:+
  "/" +:+ id_Role i +:+ "/" +:+ PathEscape (id_Namespace i) +:+ "/" +:+ PathEscape (id_Name i).

(** A certificate authority, by its PEM text. *)
Definition CA := string.

Record Bundle := MkBundle {
  b_CACertPEM : string;
  b_CAKeyPEM : string;
  b_CertPEM : string;
  b_KeyPEM : string
}.

Definition SecretCAFile : string := "ca.crt".
Definition SecretCertFile : string := "tls.crt".
Definition SecretKeyFile : string := "tls.key".
Definition SecretCAKeyFile : string := "ca.key".
Definition SecretControlCAFile : string := "control-ca.crt".

Definition SecretData (b : Bundle) : gmap string string :=
  let data := list_to_map [(SecretCAFile, b_CACertPEM b); (SecretCertFile, b_CertPEM b);
                           (SecretKeyFile, b_KeyPEM b)] in
  if decide (b_CAKeyPEM b ≠ "") then <[SecretCAKeyFile := b_CAKeyPEM b]> data else data.
