(* ===== verification/Program.v ===== *)
(** * Programs that talk to the API server

    A reconciler is a program that issues requests and goes on with their
    answers.  The API server, the clock, the control service, the certificate
    authority and the metrics are the program's environment: a run of a
    program is a history of requests with the answers the environment chose, and
    nothing is assumed of an answer but what a theorem says it does.

    [prog] is the type of programs, [io] of programs that may fail, and [act S]
    of programs that may fail and change an object of type [S] which their caller
    shares with them through a pointer.  [safe] says of a program that every request
    it issues, whatever it was answered before, is one the rule [P] allows
    after that history, and what it ends with. *)
From S2P Require Export Kube Identity Control.
From stdpp Require Import options.

(** ** Requests *)

Inductive request : Set → Type :=
  | Get (k : kind) (ref : NamespacedName) : request (result (object k))
  | List_ (k : kind) (namespace : option string) (labels : gmap string string) :
      request (result (list (object k)))
  | Create (k : kind) (o : object k) : request (result (object k))
  | Update (k : kind) (o : object k) : request (result (object k))
  | UpdateStatus (k : kind) (o : object k) : request (result (object k))
  | Delete (k : kind) (o : object k) (background : bool) : request (result unit)
  | Now : request Time
  | VolumeSnapshotAvailable : request bool
  | EnqueueTarget (key : RunKey) (command : TargetCommand) : request (result bool)
  | Eventf (k : kind) (about : NamespacedName) (eventType reason message : string) : request unit
  | RecordRunPhase (runKind runKey oldPhase newPhase : string) : request unit
  | RecordGeneratedJobStatus (runKind role jobKey status : string) : request unit
  | NewRunCA (runNamespace runName : string) (ttl : Z) : request (result CA)
  | NewCA (commonName : string) (ttl : Z) : request (result CA)
  | Mint (ca : CA) (identity : Identity) (ttl : Z) : request (result Bundle).

Inductive prog (A : Type) : Type :=
  | Ret (a : A)
  | Call (R : Set) (c : request R) (k : R → prog A).
Arguments Ret {A} a.
Arguments Call {A R} c k.

Fixpoint prog_bind {A B} (f : A → prog B) (p : prog A) : prog B :=
  match p with
  | Ret a => f a
  | Call c k => Call c (λ r, prog_bind f (k r))
  end.

#[export] Instance prog_mret : MRet prog := @Ret.
#[export] Instance prog_mbind : MBind prog := @prog_bind.

Definition call {R : Set} (c : request R) : prog R := Call c Ret.

(** ** Programs that fail, and programs with an object *)

Definition io (A : Type) : Type := prog (result A).

#[export] Instance io_mret : MRet io := λ A a, Ret (Ok a).
#[export] Instance io_mbind : MBind io := λ A B f m,
  prog_bind (λ r, match r with Ok a => f a | Err e => Ret (Err e) end) m.

Definition io_throw {A} (e : goerr) : io A := Ret (Err e).
Definition io_try {A} (m : io A) : io (result A) := prog_bind (λ r, Ret (Ok r)) m.
Definition io_on_err {A} (f : goerr → goerr) (m : io A) : io A := prog_bind (λ r, Ret (map_err f r)) m.
Definition io_lift {A} (m : result A) : io A := Ret m.
(** A request that cannot fail. *)
Definition ask {R : Set} (c : request R) : io R := Call c (λ r, Ret (Ok r)).
(** A request that can. *)
Definition req {R : Set} (c : request (result R)) : io R := Call c Ret.

Definition act (S A : Type) : Type := S → prog (result A * S).

#[export] Instance act_mret {S} : MRet (act S) := λ A a s, Ret (Ok a, s).
#[export] Instance act_mbind {S} : MBind (act S) := λ A B f m s,
  prog_bind (λ rs, match rs.1 with Ok a => f a rs.2 | Err e => Ret (Err e, rs.2) end) (m s).

Section Act.
Context {S : Type}.

Definition throw {A} (e : goerr) : act S A := λ s, Ret (Err e, s).
Definition get_obj : act S S := λ s, Ret (Ok s, s).
Definition put_obj (s : S) : act S unit := λ _, Ret (Ok tt, s).
Definition modify (f : S → S) : act S unit := λ s, Ret (Ok tt, f s).
(** A result in hand, whose error is returned. *)
Definition raise {A} (m : result A) : act S A := λ s, Ret (m, s).
(** The error of [m] as a value; the object keeps what [m] did to it. *)
Definition try {A} (m : act S A) : act S (result A) := λ s, prog_bind (λ rs, Ret (Ok rs.1, rs.2)) (m s).
Definition on_err {A} (f : goerr → goerr) (m : act S A) : act S A := λ s,
  prog_bind (λ rs, Ret (map_err f rs.1, rs.2)) (m s).
(** A program that does not see the object. *)
Definition lift {A} (m : io A) : act S A := λ s, prog_bind (λ r, Ret (r, s)) m.
End Act.

(** A program on an object of its own. *)
Definition run_on {T A} (t : T) (m : act T A) : io (A * T) :=
  prog_bind (λ rs, Ret (match rs.1 with Ok a => Ok (a, rs.2) | Err e => Err e end)) (m t).

(** ** Requests that write their answer back

    The client decodes the answer to a write into the object it was given. *)
Definition write_back {S : Set} (c : S → request (result S)) : act S unit := λ s,
  Call (c s) (λ r, Ret (match r with Ok s' => (Ok tt, s') | Err e => (Err e, s) end)).

(** [if err := ...; err != nil && !apierrors.IsNotFound(err)] *)
Definition ignore_notfound {S} (m : act S unit) : act S unit := λ s,
  prog_bind (λ rs, Ret (match rs.1 with
    | Ok _ => (Ok tt, rs.2)
    | Err e => (if errors_is KNotFound e then Ok tt else Err e, rs.2)
    end)) (m s).

Definition io_ignore_notfound (m : io unit) : io unit :=
  prog_bind (λ r, Ret (match r with
    | Ok _ => Ok tt
    | Err e => if errors_is KNotFound e then Ok tt else Err e
    end)) m.

(** Loops that stop at the first error. *)
Fixpoint io_for_each {A} (f : A → io unit) (xs : list A) : io unit :=
  match xs with
  | [] => mret tt
  | x :: xs => _ ← f x; io_for_each f xs
  end.

Fixpoint act_for_each {S A} (f : A → act S unit) (xs : list A) : act S unit :=
  match xs with
  | [] => mret tt
  | x :: xs => _ ← f x; act_for_each f xs
  end.

Fixpoint act_fold {S A B} (f : B → A → act S B) (b : B) (xs : list A) : act S B :=
  match xs with
  | [] => mret b
  | x :: xs => b ← f b x; act_fold f b xs
  end.

(** ** Runs *)

(** A request and its answer. *)
Inductive event : Type :=
  | Ev {R : Set} (c : request R) (answer : R).

Inductive runs {A} : prog A → list event → A → Prop :=
  | runs_ret a : runs (Ret a) [] a
  | runs_call {R : Set} (c : request R) k r tr a :
      runs (k r) tr a → runs (Call c k) (Ev c r :: tr) a.

(** The run against an environment that answers by the history so far, latest
    event first. *)
Definition environment := ∀ R : Set, list event → request R → R.

Fixpoint exec {A} (env : environment) (p : prog A) (h : list event) : list event * A :=
  match p with
  | Ret a => ([], a)
  | @Call _ R c k =>
      let r := env R h c in
      let '(tr, a) := exec env (k r) (Ev c r :: h) in (Ev c r :: tr, a)
  end.

Lemma exec_runs {A} (env : environment) (p : prog A) h : runs p (exec env p h).1 (exec env p h).2.
Proof.
  revert h. induction p as [a|R c k IH]; intros h; cbn; [constructor|].
  destruct (exec env (k _) _) as [tr a] eqn:H. cbn. constructor.
  specialize (IH (env R h c) (Ev c (env R h c) :: h)). by rewrite H in IH.
Qed.

(** Every program ends, whatever it is answered: with each environment it has a run. *)
Lemma runs_total {A} (env : environment) (p : prog A) : ∃ tr a, runs p tr a.
Proof. eexists _, _. apply (exec_runs env p []). Qed.
