(* ===== verification/Safety.v ===== *)
(** * A logic for programs

    What a program does in every environment, proved along its text: [safe] for
    rules that look at the history, [only] for the requests a program can issue at all.  The rules
    for the program constructors and for loops are stated once here; the reconcilers' proofs apply
    them. *)
From S2P Require Export Program.
From stdpp Require Import options.

(** What a request may look like after a history, latest event first. *)
Definition rule := list event → ∀ R : Set, request R → Prop.
(** What a request may look like whatever went before. *)
Definition shape := ∀ R : Set, request R → Prop.
(** What the environment is relied on to answer. *)
Definition promise := ∀ R : Set, request R → R → Prop.

Definition no_promise : promise := λ R c r, True.

Definition kept (A : promise) (e : event) : Prop := match e with Ev c r => A _ c r end.
Definition shaped (F : shape) (e : event) : Prop := match e with Ev c r => F _ c end.

Section Safe.
Context (A : promise) (P : rule).

Fixpoint safe {X} (p : prog X) (h : list event) (Q : X → list event → Prop) : Prop :=
  match p with
  | Ret a => Q a h
  | Call c k => P h _ c ∧ ∀ r, A _ c r → safe (k r) (Ev c r :: h) Q
  end.

Lemma safe_mono {X} (p : prog X) h (Q Q' : X → list event → Prop) :
  safe p h Q → (∀ a h', Q a h' → Q' a h') → safe p h Q'.
Proof.
  intros Hp HQ. revert h Hp. induction p as [a|R c k IH]; intros h; cbn; [auto|].
  intros [Hc Hk]. split; [done|]. eauto.
Qed.

Lemma safe_bind {X Y} (p : prog X) (f : X → prog Y) h Q :
  safe p h (λ a h', safe (f a) h' Q) → safe (prog_bind f p) h Q.
Proof.
  revert h. induction p as [a|R c k IH]; intros h; cbn; [done|].
  intros [Hc Hk]. split; [done|]. eauto.
Qed.

(** The history only grows. *)
Lemma safe_grows {X} (p : prog X) h Q :
  safe p h Q → safe p h (λ a h', Q a h' ∧ ∃ l, h' = l ++ h ∧ Forall (kept A) l).
Proof.
  revert h. induction p as [a|R c k IH]; intros h; cbn.
  { intros HQ. split; [done|]. exists []. by split. }
  intros [Hc Hk]. split; [done|]. intros r Hr. eapply safe_mono; [by apply IH, Hk|].
  intros a h' [HQ (l & -> & Hl)]. split; [done|]. exists (l ++ [Ev c r]).
  rewrite <-(assoc_L (++)). split; [done|]. apply Forall_app. split; [done|]. by constructor.
Qed.

Lemma io_safe_bind {X Y} (m : io X) (f : X → io Y) h Q :
  safe m h (λ r h', match r with Ok a => safe (f a) h' Q | Err e => Q (Err e) h' end) →
  safe (m ≫= f) h Q.
Proof. intros H. apply safe_bind. eapply safe_mono; [exact H|]. by intros []. Qed.

Lemma act_safe_bind {S X Y} (m : act S X) (f : X → act S Y) s h Q :
  safe (m s) h (λ rs h', match rs.1 with
                         | Ok a => safe (f a rs.2) h' Q | Err e => Q (Err e, rs.2) h' end) →
  safe ((m ≫= f) s) h Q.
Proof. intros H. apply safe_bind. eapply safe_mono; [exact H|]. by intros [[] ?]. Qed.

Lemma io_safe_try {X} (m : io X) h Q : safe m h (λ r h', Q (Ok r) h') → safe (io_try m) h Q.
Proof. intros H. apply safe_bind. exact H. Qed.

Lemma io_safe_on_err {X} f (m : io X) h Q :
  safe m h (λ r h', Q (map_err f r) h') → safe (io_on_err f m) h Q.
Proof. intros H. apply safe_bind. exact H. Qed.

Lemma safe_for_each {X} (f : X → io unit) xs h :
  (∀ x h', x ∈ xs → (∃ l, h' = l ++ h) → safe (f x) h' (λ _ _, True)) →
  safe (io_for_each f xs) h (λ _ _, True).
Proof.
  revert h. induction xs as [|x xs IH]; intros h Hf; [done|]. apply io_safe_bind.
  eapply safe_mono; [apply safe_grows, Hf; [left|by exists []]|].
  intros [[]|e] h' [_ (l & -> & _)]; [|done]. apply IH. intros y h' Hy [l' ->]. apply Hf; [by right|].
  exists (l' ++ l). by rewrite (assoc_L (++)).
Qed.

Lemma act_safe_try {S X} (m : act S X) s h Q :
  safe (m s) h (λ rs h', Q (Ok rs.1, rs.2) h') → safe (try m s) h Q.
Proof. intros H. apply (safe_bind (m s)). exact H. Qed.

Lemma act_safe_on_err {S X} f (m : act S X) s h Q :
  safe (m s) h (λ rs h', Q (map_err f rs.1, rs.2) h') → safe (on_err f m s) h Q.
Proof. intros H. apply (safe_bind (m s)). exact H. Qed.

Lemma act_safe_lift {S X} (m : io X) (s : S) h Q :
  safe m h (λ r h', Q (r, s) h') → safe (lift m s) h Q.
Proof. intros H. apply (safe_bind m). exact H. Qed.

Lemma safe_run_on {T X} (t : T) (m : act T X) h Q :
  safe (m t) h (λ rs h', Q (match rs.1 with Ok a => Ok (a, rs.2) | Err e => Err e end) h') →
  safe (run_on t m) h Q.
Proof. intros H. apply (safe_bind (m t)). exact H. Qed.

(** What [safe] says of a run: every event of its trace was allowed by the rule
    after the events before it. *)
Lemma safe_runs {X} (p : prog X) h Q tr a :
  safe p h Q → runs p tr a → Forall (kept A) tr →
  Q a (rev tr ++ h) ∧
  ∀ i e, tr !! i = Some e → match e with Ev c r => P (rev (take i tr) ++ h) _ c end.
Proof.
  intros Hs Hr. revert h Hs. induction Hr as [a|R c k r tr a Hr IH]; intros h; cbn.
  { intros HQ _. by split. }
  intros [Hc Hk] [Hkept Hall]%Forall_cons_1. destruct (IH _ (Hk r Hkept) Hall) as [HQ HP].
  rewrite <-(assoc_L (++)). split; [done|]. intros [|i] e; cbn; [by intros [= <-]|].
  intros He. rewrite <-(assoc_L (++)). by apply HP.
Qed.
End Safe.

(** Rules with weaker demands are kept by the same programs. *)
Lemma safe_rule A (P P' : rule) {X} (p : prog X) h Q :
  (∀ h R (c : request R), P h R c → P' h R c) → safe A P p h Q → safe A P' p h Q.
Proof.
  intros HP. revert h. induction p as [a|R c k IH]; intros h; cbn; [done|].
  intros [Hc Hk]. split; [auto|]. eauto.
Qed.

(** Two rules a program keeps, with what was shown of it under each. *)
Lemma safe_and A (P1 P2 : rule) {X} (p : prog X) h Q1 Q2 :
  safe A P1 p h Q1 → safe A P2 p h Q2 →
  safe A (λ h R c, P1 h R c ∧ P2 h R c) p h (λ a h', Q1 a h' ∧ Q2 a h').
Proof.
  revert h. induction p as [a|R c k IH]; intros h; cbn; [done|]. intros [H1 K1] [H2 K2]. split; [done|]. auto.
Qed.

(** A rule that is stronger while a fact lasts that events do not undo. *)
Lemma safe_kept (I : list event → Prop) A (P P' : rule) {X} (p : prog X) h Q :
  (∀ e h, I h → I (e :: h)) → (∀ h R (c : request R), I h → P h R c → P' h R c) → I h →
  safe A P p h Q → safe A P' p h Q.
Proof.
  intros HI HP. revert h. induction p as [a|R c k IH]; intros h Hh; cbn; [done|].
  intros [Hc Hk]. split; [auto|]. eauto.
Qed.

(** ** Histories *)

Definition grew (h h' : list event) : Prop := ∃ l, h' = l ++ h.

#[export] Instance grew_refl : Reflexive grew.
Proof. intros h. by exists []. Qed.
#[export] Instance grew_trans : Transitive grew.
Proof. intros h1 h2 h3 [l ->] [l' ->]. exists (l' ++ l). by rewrite (assoc_L (++)). Qed.

Lemma grew_cons e h : grew h (e :: h).
Proof. by exists [e]. Qed.
Lemma grew_app l h : grew h (l ++ h).
Proof. by exists l. Qed.
#[export] Hint Resolve grew_cons grew_app : krm.

Lemma grew_Exists (P : event → Prop) h h' : grew h h' → Exists P h → Exists P h'.
Proof. intros [l ->] H. apply Exists_app. by right. Qed.

(** A program that is safe is also run: the history gained its trace. *)
Lemma safe_ran A P {X} (p : prog X) h Q :
  safe A P p h Q → safe A P p h (λ a h', Q a h' ∧ ∃ tr, runs p tr a ∧ h' = rev tr ++ h).
Proof.
  revert h. induction p as [a|R c k IH]; intros h; cbn.
  { intros HQ. split; [done|]. exists []. split; [constructor|done]. }
  intros [Hc Hk]. split; [done|]. intros r Hr. eapply safe_mono; [by apply IH, Hk|].
  cbn. intros a h' [HQ (tr & Htr & ->)]. split; [done|]. exists (Ev c r :: tr).
  split; [by constructor|]. cbn. by rewrite <-(assoc_L (++)).
Qed.

(** Of a program nothing is known of, all that is left is that it was run. *)
Lemma safe_any A {X} (p : prog X) h :
  safe A (λ _ _ _, True) p h (λ a h', ∃ tr, runs p tr a ∧ h' = rev tr ++ h).
Proof.
  assert (safe A (λ _ _ _, True) p h (λ _ _, True)) as Hs.
  { revert h. induction p; intros h; cbn; auto. }
  eapply safe_mono; [exact (safe_ran _ _ _ _ _ Hs)|]. by intros a h' [_ H].
Qed.

(** The program was run with this result, all of it after [h0]. *)
Definition did_after {X} (p : prog X) (a : X) (h0 h : list event) : Prop :=
  ∃ h1 tr h', h = h1 ++ rev tr ++ h' ∧ grew h0 h' ∧ runs p tr a.

Definition did {X} (p : prog X) (a : X) (h : list event) : Prop := did_after p a [] h.

Lemma did_after_grew {X} (p : prog X) a h0 h h' : grew h h' → did_after p a h0 h → did_after p a h0 h'.
Proof.
  intros [l ->] (h1 & tr & h2 & -> & H). exists (l ++ h1), tr, h2. by rewrite (assoc_L (++)).
Qed.

Lemma did_after_within {X} (p : prog X) a h0 h1 h h' :
  did_after p a h1 h → grew h0 h1 → grew h h' → did_after p a h0 h'.
Proof.
  intros (h2 & tr & h3 & -> & H3 & H) H0 [l ->]. exists (l ++ h2), tr, h3. rewrite (assoc_L (++)).
  split_and!; [done|by etrans|done].
Qed.

Lemma did_grew {X} (p : prog X) a h h' : grew h h' → did p a h → did p a h'.
Proof. apply did_after_grew. Qed.

Lemma did_of {X} (p : prog X) a h0 h h' : did_after p a h0 h → grew h h' → did p a h'.
Proof. intros Hd Hh. eapply did_after_within; [exact Hd|by exists h0; rewrite app_nil_r|done]. Qed.

Lemma did_after_intro {X} (p : prog X) a tr h0 h : runs p tr a → grew h0 h → did_after p a h0 (rev tr ++ h).
Proof. intros Hr Hh. by exists [], tr, h. Qed.

Lemma did_intro {X} (p : prog X) a tr h : runs p tr a → did p a (rev tr ++ h).
Proof. intros Hr. apply did_after_intro; [done|]. exists h. by rewrite app_nil_r. Qed.

(** A run, by the program's first request. *)
Lemma runs_inv {X} (p : prog X) tr a :
  runs p tr a → match p with
                | Ret b => tr = [] ∧ a = b
                | Call c k => ∃ r tr', tr = Ev c r :: tr' ∧ runs (k r) tr' a
                end.
Proof. intros []; eauto. Qed.

Lemma did_req {R : Set} (c : request (result R)) x h0 h : did_after (req c) x h0 h → Ev c x ∈ h.
Proof.
  intros (h1 & tr & h' & -> & _ & (r & tr' & -> & [-> ->]%runs_inv)%runs_inv). set_solver.
Qed.

(** The program was run with this result after [h0], and nothing was done since. *)
Definition did_just {X} (p : prog X) (a : X) (h0 h : list event) : Prop :=
  ∃ tr h', h = rev tr ++ h' ∧ grew h0 h' ∧ runs p tr a.

Lemma did_just_after {X} (p : prog X) a h0 h : did_just p a h0 h → did_after p a h0 h.
Proof. intros (tr & h' & -> & Hh & Hr). by exists [], tr, h'. Qed.

(** The event came after the history [h0]. *)
Definition since (h0 h : list event) (e : event) : Prop := ∃ l, h = l ++ h0 ∧ e ∈ l.

Lemma since_elem h0 h e : since h0 h e → e ∈ h.
Proof. intros (l & -> & He). apply elem_of_app. by left. Qed.

Lemma since_last h0 h e : grew h0 h → since h0 (e :: h) e.
Proof. intros [l ->]. exists (e :: l). split; [done|left]. Qed.

Lemma since_grew h0 h h' e : grew h h' → since h0 h e → since h0 h' e.
Proof.
  intros [l ->] (k & -> & He). exists (l ++ k). rewrite (assoc_L (++)). split; [done|]. apply elem_of_app. by right.
Qed.

Lemma since_weaken h0 h1 h e : grew h0 h1 → since h1 h e → since h0 h e.
Proof.
  intros [l ->] (k & -> & He). exists (k ++ l). rewrite (assoc_L (++)). split; [done|]. apply elem_of_app. by left.
Qed.

(** What a program was shown to end with holds where it ended. *)
Lemma did_ends A P {X} (p : prog X) a h0 h (Q : X → list event → Prop) :
  (∀ h1, safe A P p h1 Q) → (∀ R (c : request R) x, A R c x) → did_after p a h0 h →
  ∃ h1, grew h0 h1 ∧ grew h1 h ∧ Q a h1.
Proof.
  intros Hp HA (h2 & tr & h' & -> & Hh & Hr). exists (rev tr ++ h'). split_and!.
  - etrans; [exact Hh|apply grew_app].
  - by exists h2.
  - eapply safe_runs in Hr as [HQ _]; [exact HQ|by apply Hp|]. apply Forall_forall. intros [] _. apply HA.
Qed.

(** In some run, the program issues the request after this history. *)
Definition issues {X} (p : prog X) (h : list event) {R : Set} (c : request R) : Prop :=
  ∃ tr a i ans, runs p tr a ∧ tr !! i = Some (Ev c ans) ∧ h = rev (take i tr).

Lemma safe_issues P {X} (p : prog X) Q h {R : Set} (c : request R) :
  safe no_promise P p [] Q → issues p h c → P h R c.
Proof.
  intros Hs (tr & a & i & ans & Hr & Hi & ->). eapply safe_runs in Hs as [_ HP]; [|exact Hr|].
  - specialize (HP _ _ Hi). by rewrite app_nil_r in HP.
  - apply Forall_forall. by intros [].
Qed.

Lemma exec_issues {X} (p : prog X) env i {R : Set} (c : request R) ans :
  (exec env p []).1 !! i = Some (Ev c ans) → issues p (rev (take i (exec env p []).1)) c.
Proof. intros Hi. do 4 eexists. split_and!; [apply (exec_runs env p [])|exact Hi|done]. Qed.

(** The event is in the history. *)
Lemma elem_of_grew (e : event) h h' : grew h h' → e ∈ h → e ∈ h'.
Proof. intros [l ->] H. apply elem_of_app. by right. Qed.

(** ** Footprints *)

Section Only.
Context (F : shape).

Fixpoint only {X} (p : prog X) : Prop :=
  match p with
  | Ret _ => True
  | Call c k => F _ c ∧ ∀ r, only (k r)
  end.

Lemma only_bind {X Y} (p : prog X) (f : X → prog Y) :
  only p → (∀ a, only (f a)) → only (prog_bind f p).
Proof. intros Hp Hf. induction p as [a|R c k IH]; cbn in *; [auto|]. naive_solver. Qed.

Lemma io_only_bind {X Y} (m : io X) (f : X → io Y) :
  only m → (∀ a, only (f a)) → only (m ≫= f).
Proof. intros Hm Hf. apply only_bind; [done|]. intros []; [apply Hf|done]. Qed.

Lemma act_only_bind {S X Y} (m : act S X) (f : X → act S Y) s :
  only (m s) → (∀ a s', only (f a s')) → only ((m ≫= f) s).
Proof. intros Hm Hf. apply only_bind; [done|]. intros [[] ?]; [apply Hf|done]. Qed.

Lemma io_only_try {X} (m : io X) : only m → only (io_try m).
Proof. intros H. by apply only_bind. Qed.
Lemma io_only_on_err {X} f (m : io X) : only m → only (io_on_err f m).
Proof. intros H. by apply only_bind. Qed.
Lemma act_only_try {S X} (m : act S X) s : only (m s) → only (try m s).
Proof. intros H. by apply only_bind. Qed.
Lemma act_only_on_err {S X} f (m : act S X) s : only (m s) → only (on_err f m s).
Proof. intros H. by apply only_bind. Qed.
Lemma act_only_lift {S X} (m : io X) (s : S) : only m → only (lift m s).
Proof. intros H. by apply only_bind. Qed.
Lemma only_run_on {T X} (t : T) (m : act T X) : only (m t) → only (run_on t m).
Proof. intros H. by apply only_bind. Qed.
Lemma only_ignore_notfound {S} (m : act S unit) s : only (m s) → only (ignore_notfound m s).
Proof. intros H. by apply only_bind. Qed.
Lemma io_only_ignore_notfound (m : io unit) : only m → only (io_ignore_notfound m).
Proof. intros H. by apply only_bind. Qed.
Lemma only_ask {R : Set} (c : request R) : F _ c → only (ask c).
Proof. by split. Qed.
Lemma only_req {R : Set} (c : request (result R)) : F _ c → only (req c).
Proof. by split. Qed.
Lemma only_write_back {S : Set} (c : S → request (result S)) s : F _ (c s) → only (write_back c s).
Proof. by split. Qed.

Lemma io_only_for_each {X} (f : X → io unit) xs : (∀ x, only (f x)) → only (io_for_each f xs).
Proof. intros Hf. induction xs; [done|]. apply io_only_bind; auto. Qed.
Lemma act_only_for_each {S X} (f : X → act S unit) xs s :
  (∀ x s', only (f x s')) → only (act_for_each f xs s).
Proof. intros Hf. revert s. induction xs; intros s; [done|]. apply act_only_bind; auto. Qed.
Lemma act_only_fold {S X Y} (f : Y → X → act S Y) b xs s :
  (∀ b x s', only (f b x s')) → only (act_fold f b xs s).
Proof. intros Hf. revert b s. induction xs; intros b s; [done|]. apply act_only_bind; auto. Qed.

(** A program with a footprint the rule allows is safe, and its run is what the history gained. *)
Lemma only_ran A (P : rule) {X} (p : prog X) h :
  only p → (∀ h R (c : request R), F R c → P h R c) →
  safe A P p h (λ a h', ∃ tr, runs p tr a ∧ h' = rev tr ++ h).
Proof.
  intros Hp HP. revert h Hp. induction p as [a|R c k IH]; intros h; cbn.
  { intros _. exists []. split; [constructor|done]. }
  intros [Hc Hk]. split; [auto|]. intros r Hr. eapply safe_mono; [by apply IH|].
  cbn. intros a h' (tr & Htr & ->). exists (Ev c r :: tr). split; [by constructor|].
  cbn. by rewrite <-(assoc_L (++)).
Qed.

(** A program with a footprint the rule allows is safe, and only adds such events. *)
Lemma only_safe A (P : rule) {X} (p : prog X) h :
  only p → (∀ h R (c : request R), F R c → P h R c) →
  safe A P p h (λ a h', ∃ l, h' = l ++ h ∧ Forall (shaped F) l ∧ Forall (kept A) l).
Proof.
  intros Hp HP. revert h Hp. induction p as [a|R c k IH]; intros h; cbn.
  { intros _. by exists []. }
  intros [Hc Hk]. split; [auto|]. intros r Hr. eapply safe_mono; [by apply IH|].
  cbn. intros a h' (l & -> & Hl & Hl'). exists (l ++ [Ev c r]).
  rewrite <-(assoc_L (++)). split; [done|]. rewrite !Forall_app. by repeat constructor.
Qed.
End Only.

(** A program with a footprint a rule allows keeps that rule, with all else that was shown of it. *)
Lemma safe_only (F : shape) A (P P' : rule) {X} (p : prog X) h Q :
  only F p → (∀ h R (c : request R), F R c → P' h R c) → safe A P p h Q → safe A P' p h Q.
Proof.
  intros Hp HP. revert h Hp. induction p as [a|R c k IH]; intros h; cbn; [done|].
  intros [Hc Ho] [_ Hk]. split; [auto|]. eauto.
Qed.

Lemma only_mono (F F' : shape) {X} (p : prog X) :
  only F p → (∀ R (c : request R), F R c → F' R c) → only F' p.
Proof. intros Hp HF. induction p as [a|R c k IH]; cbn in *; naive_solver. Qed.

(** The footprints of the operations that are done. *)
Create HintDb footprint.

(** Walks along a program's text for its footprint; what is left are its requests. *)
Ltac only_step :=
  lazymatch goal with
  | |- only _ (Ret _) => exact I
  | |- only _ (mret _) => exact I
  | |- only _ (mret _ _) => exact I
  | |- only _ (throw _ _) => exact I
  | |- only _ (io_throw _) => exact I
  | |- only _ (io_lift _) => exact I
  | |- only _ (raise _ _) => exact I
  | |- only _ (get_obj _) => exact I
  | |- only _ (put_obj _ _) => exact I
  | |- only _ (modify _ _) => exact I
  | |- only _ (match ?x with _ => _ end) => destruct x
  | |- only _ (match ?x with _ => _ end _) => destruct x
  | |- only _ (let '_ := ?x in _) => destruct x
  | |- only _ _ => solve [auto with footprint nocore] || (first
      [ apply io_only_bind | apply act_only_bind | apply io_only_try | apply io_only_on_err
      | apply act_only_try | apply act_only_on_err | apply act_only_lift | apply only_run_on
      | apply only_ignore_notfound | apply io_only_ignore_notfound | apply only_ask | apply only_req
      | apply only_write_back | apply io_only_for_each | apply act_only_for_each
      | apply act_only_fold ])
  | |- ∀ _, _ => intros ?
  end.
Ltac solve_only := intros; repeat only_step; try done.
