(* ===== verification/Builders.v ===== *)
(** * Generated objects (internal/controller/builders.go, credentials.go)

    The Jobs, Services and Secrets the controllers create for a run: the
    target server, the source senders, the restore writer, their arguments,
    volumes, labels and names. *)
From S2P Require Export Kube RunSet Program.
From stdpp Require Import options.
From Stdlib Require Import Ascii.

(** ** Constants *)

Definition DefaultImage : string := "ghcr.io/chirino/kube-rsync-machine:latest".
Definition TLSMountPath : string := "/var/run/kube-rsync-machine/tls".
Definition ControlGRPCNamespace : string := "kube-rsync-machine-operator".
Definition ControlGRPCService : string := "kube-rsync-machine-controller-manager".
Definition RsyncPort : Z := 873.
Definition DefaultJobBackoffLimit : Z := 0.
Definition DefaultJobDeadline : Z := 3 * 60 * 60.

Definition AnnotationTestTargetEmptyDirSizeLimit : string :=
  "krm.chirino.github.io/test-target-empty-dir-size-limit".
Definition AnnotationTestTargetSeedSnapshotBytes : string :=
  "krm.chirino.github.io/test-target-seed-snapshot-bytes".
Definition AnnotationTestSourceBackoffLimit : string :=
  "krm.chirino.github.io/test-source-backoff-limit".
Definition AnnotationTestRecoveryMinAvailable : string :=
  "krm.chirino.github.io/test-recovery-min-available".

Definition RestartPolicyNever : string := "Never".
Definition StorageMediumMemory : string := "Memory".
Definition ServiceTypeClusterIP : string := "ClusterIP".
Definition SecretTypeTLS : string := "kubernetes.io/tls".

(** [m[key]] of a Go map: the empty string when it is absent. *)
Definition map_get (m : gmap string string) (key : string) : string := default "" (m !! key).

(** ** Scheduling *)

(** [&corev1.PodSecurityContext{RunAsUser: 0, RunAsGroup: 0}], serialised. *)
Definition root_security_context : Opaque :=
  "{" +:+ dquote +:+ "runAsUser" +:+ dquote +:+ ":0," +:+ dquote +:+ "runAsGroup" +:+ dquote +:+ ":0}".

Definition dataPlanePodSecurityContext (target : RsyncMachine) : Opaque :=
  if decide (ms_SecurityContext (m_Spec target) ≠ "") then ms_SecurityContext (m_Spec target)
  else root_security_context.

Definition restoreWriterPodSecurityContext (restore : RestoreJob) : Opaque :=
  if decide (rs_SecurityContext (rj_Spec restore) ≠ "") then rs_SecurityContext (rj_Spec restore)
  else root_security_context.

Definition sourceSenderPodSecurityContext (source : BackupSource) : Opaque :=
  if decide (ss_SecurityContext (s_Spec source) ≠ "") then ss_SecurityContext (s_Spec source)
  else root_security_context.

Definition targetPodSpec (target : RsyncMachine) (spec : PodSpec) : PodSpec :=
  let t := m_Spec target in
  MkPodSpec (ps_RestartPolicy spec) (ps_InitContainers spec) (ps_Containers spec) (ps_Volumes spec)
    (ms_NodeSelector t) (ms_Affinity t) (ms_Tolerations t) (ms_TopologySpreadConstraints t)
    (ms_SchedulerName t) (ms_PriorityClassName t) (ms_RuntimeClassName t) (ms_ImagePullSecrets t)
    (dataPlanePodSecurityContext target).

Definition restoreWriterPodSpec (restore : RestoreJob) (spec : PodSpec) : PodSpec :=
  let t := rj_Spec restore in
  MkPodSpec (ps_RestartPolicy spec) (ps_InitContainers spec) (ps_Containers spec) (ps_Volumes spec)
    (rs_NodeSelector t) (rs_Affinity t) (rs_Tolerations t) (rs_TopologySpreadConstraints t)
    (rs_SchedulerName t) (rs_PriorityClassName t) (rs_RuntimeClassName t) (rs_ImagePullSecrets t)
    (restoreWriterPodSecurityContext restore).

Definition sourceSenderPodSpec (source : BackupSource) (spec : PodSpec) : PodSpec :=
  let t := s_Spec source in
  MkPodSpec (ps_RestartPolicy spec) (ps_InitContainers spec) (ps_Containers spec) (ps_Volumes spec)
    (ss_NodeSelector t) (ss_Affinity t) (ss_Tolerations t) (ss_TopologySpreadConstraints t)
    (ss_SchedulerName t) (ss_PriorityClassName t) (ss_RuntimeClassName t) (ss_ImagePullSecrets t)
    (sourceSenderPodSecurityContext source).

(** A pod spec with nothing but its containers and volumes. *)
Definition pod (init containers : list Container) (volumes : list Volume) : PodSpec :=
  MkPodSpec RestartPolicyNever init containers volumes ∅ "" "" "" "" "" None [] "".

Definition machineImage (target : RsyncMachine) (fallback : string) : string :=
  if decide (ms_Image (m_Spec target) ≠ "") then ms_Image (m_Spec target)
  else if decide (fallback ≠ "") then fallback
  else DefaultImage.

Definition applyMachineResources (target : RsyncMachine) (containers : list Container) :
    list Container :=
  (λ c, c <| c_Resources := ms_Resources (m_Spec target) |>) <$> containers.

(** ** Arguments *)

Record DataPlaneControlOptions := MkDataPlaneControlOptions {
  dp_GRPCEndpoint : string;
  dp_GRPCNamespace : string
}.

Definition DefaultDataPlaneControlOptions (namespace : string) : DataPlaneControlOptions :=
  let namespace := if decide (namespace = "") then ControlGRPCNamespace else namespace in
  MkDataPlaneControlOptions (ControlGRPCService +:+ "." +:+ namespace +:+ ".svc:8083") namespace.

Definition withDefaults (o : DataPlaneControlOptions) : DataPlaneControlOptions :=
  let ns := if decide (dp_GRPCNamespace o = "") then ControlGRPCNamespace else dp_GRPCNamespace o in
  let ep := if decide (dp_GRPCEndpoint o = "")
            then dp_GRPCEndpoint (DefaultDataPlaneControlOptions ns) else dp_GRPCEndpoint o in
  MkDataPlaneControlOptions ep ns.

Definition appendControlGRPCArgs (args : list string) (opts : DataPlaneControlOptions) : list string :=
  let opts := withDefaults opts in
  args ++ ["--control-grpc-endpoint"; dp_GRPCEndpoint opts;
           "--control-grpc-namespace"; dp_GRPCNamespace opts].

Definition appendRetentionArgs (args : list string) (retention : RetentionPolicy) : list string :=
  let flag name keep := if decide (keep > 0) then [name; Itoa keep] else [] in
  args ++ flag "--retention-hourly" (rp_Hourly retention)
    ++ flag "--retention-daily" (rp_Daily retention)
    ++ flag "--retention-weekly" (rp_Weekly retention)
    ++ flag "--retention-monthly" (rp_Monthly retention).

Definition appendRsyncArgs (args : list string) (options : RsyncOptions) : list string :=
  args ++ (if DeleteOrDefault options then ["--delete"] else [])
    ++ (if OneFileSystemOrDefault options then ["--one-file-system"] else []).

(** ** Parts of a job *)

Definition tls_mount : VolumeMount := MkVolumeMount "tls" TLSMountPath true.
Definition target_mount (readOnly : bool) : VolumeMount :=
  MkVolumeMount "target" DefaultRsyncMachineMountPath readOnly.

Definition rsync_port : ContainerPort := MkContainerPort "rsync" RsyncPort.

Definition tls_volume (secret : string) : Volume := MkVolume "tls" (VolumeSecret secret).

(** An object's metadata as a builder sets it. *)
Definition new_meta (namespace name : string) (labels : gmap string string) : ObjectMeta :=
  MkObjectMeta namespace name "" "" 0 labels ∅ [] [] zero_time None.

Definition new_job (namespace name : string) (labels : gmap string string) (backoff : Z)
    (spec : PodSpec) : Job :=
  MkJob (new_meta namespace name labels)
    (MkJobSpec (Some backoff) (Some DefaultJobDeadline) None labels spec) [].

Section Builders.
Context `{Quantities}.

(** ** The target server of a backup *)

(** [path.Dir] *)
Fixpoint drop_to_slash (s : string) : string :=
  match s with
  | "" => ""
  | String c s' => if decide (c = slash) then s else drop_to_slash s'
  end.
Definition path_Dir (p : string) : string := Clean (String.rev (drop_to_slash (String.rev p))).

(** [strconv.ParseInt(value, 10, bits)] *)
Definition ParseInt (bits : Z) (value : string) : option Z :=
  z ← Atoi value; if decide (- 2 ^ (bits - 1) ≤ z < 2 ^ (bits - 1)) then Some z else None.

Definition targetInitContainers (target : RsyncMachine) (image : string) : result (list Container) :=
  let value := map_get (om_Annotations (m_Meta target)) AnnotationTestTargetSeedSnapshotBytes in
  let invalid := ErrNew ("invalid " +:+ AnnotationTestTargetSeedSnapshotBytes +:+ " annotation " +:+
                         Quote value) in
  if decide (value = "") then Ok []
  else match ParseInt 64 value with
  | None => Err invalid
  | Some bytes =>
      if decide (bytes < 0) then Err invalid
      else if decide (bytes = 0) then Ok []
      else
        let seedPath := DefaultRsyncMachineMountPath +:+ "/hourly/2000-01-01T00-00-00Z/seed.bin" in
        let command := "mkdir -p " +:+ Quote (path_Dir seedPath) +:+ " && head -c " +:+ Itoa bytes +:+
                       " /dev/zero > " +:+ Quote seedPath in
        Ok (applyMachineResources target
              [MkContainer "seed-old-snapshot" image ["/bin/sh"; "-c"; command] [] [] ""
                 [target_mount false]])
  end.

(** [--source namespace/name=destination] *)
Definition source_arg (target : RsyncMachine) (source : ResolvedSource) : list string :=
  let destination :=
    if is_mirror target && bool_decide (rsrc_EffectiveDestinationPath source = "") then "."
    else rsrc_EffectiveDestinationPath source in
  ["--source"; om_Namespace (s_Meta (rsrc_Source source)) +:+ "/" +:+
               om_Name (s_Meta (rsrc_Source source)) +:+ "=" +:+ destination].

Definition serve_target_args (run : BackupJob) (target : RsyncMachine) (runSet : TargetRunSet)
    (timestamp : string) (controlOptions : DataPlaneControlOptions) : list string :=
  let args :=
    ["serve-target"; "--target"; DefaultRsyncMachineMountPath; "--run-id"; RunID run;
     "--tls-dir"; TLSMountPath; "--run-namespace"; om_Namespace (bj_Meta run);
     "--run-name"; om_Name (bj_Meta run); "--target-namespace"; om_Namespace (m_Meta target);
     "--target-name"; om_Name (m_Meta target)] in
  let args := appendControlGRPCArgs args controlOptions in
  let args := if bool_decide (timestamp ≠ "") && negb (is_mirror target)
              then args ++ ["--timestamp"; timestamp] else args in
  let args := if is_mirror target then args ++ ["--strategy"; "mirror"]
              else appendRetentionArgs args (trs_Retention runSet) in
  args ++ (trs_Sources runSet ≫= source_arg target).

Definition target_volume (target : RsyncMachine) : result VolumeSource :=
  let limit := map_get (om_Annotations (m_Meta target)) AnnotationTestTargetEmptyDirSizeLimit in
  if decide (limit ≠ "") then
    match ParseQuantity limit with
    | Err e => Err (wrap ("invalid " +:+ AnnotationTestTargetEmptyDirSizeLimit +:+ " annotation: ") e)
    | Ok quantity => Ok (VolumeEmptyDir StorageMediumMemory (Some quantity))
    end
  else Ok (VolumePVC (ms_PVCName (m_Spec target)) false).

Definition BuildServeTargetJobWithControl (run : BackupJob) (target : RsyncMachine)
    (runSet : TargetRunSet) (image timestamp : string) (controlOptions : DataPlaneControlOptions) :
    result Job :=
  let image := machineImage target image in
  let args := serve_target_args run target runSet timestamp controlOptions in
  let labels := runLabels run runKindBackup RoleTargetServer in
  targetVolumeSource ← target_volume target;
  initContainers ← targetInitContainers target image;
  let ns := om_Namespace (m_Meta target) in
  Ok (new_job ns (GeneratedJobName "target" (om_Name (bj_Meta run))) labels DefaultJobBackoffLimit
        (targetPodSpec target (pod initContainers
           (applyMachineResources target
              [MkContainer "serve-target" image [] args [rsync_port] "" [target_mount false; tls_mount]])
           [MkVolume "target" targetVolumeSource;
            tls_volume (GeneratedTLSSecretName (RunID run) RoleTargetServer ns
                          (om_Name (m_Meta target)))]))).

Definition BuildServeTargetJob (run : BackupJob) (target : RsyncMachine) (runSet : TargetRunSet)
    (image timestamp : string) : result Job :=
  BuildServeTargetJobWithControl run target runSet image timestamp (MkDataPlaneControlOptions "" "").

Definition new_service (namespace name : string) (labels : gmap string string) : Service_ :=
  MkService_ (new_meta namespace name labels) ServiceTypeClusterIP labels [rsync_port].

Definition BuildTargetService (run : BackupJob) (target : RsyncMachine) : Service_ :=
  new_service (om_Namespace (m_Meta target)) (GeneratedServiceName "target" (om_Name (bj_Meta run)))
    (runLabels run runKindBackup RoleTargetServer).

Definition TargetServiceEndpoint (run : BackupJob) (target : RsyncMachine) : string :=
  GeneratedServiceName "target" (om_Name (bj_Meta run)) +:+ "." +:+ om_Namespace (m_Meta target) +:+
  ".svc:" +:+ Itoa RsyncPort.

Definition RestoreTargetServiceEndpoint (restore : RestoreJob) (target : RsyncMachine) : string :=
  GeneratedServiceName "restore-target" (om_Name (rj_Meta restore)) +:+ "." +:+
  om_Namespace (m_Meta target) +:+ ".svc:" +:+ Itoa RsyncPort.

(** ** The sender of a source *)

Record SourceJobOptions := MkSourceJobOptions {
  sjo_TargetPath : string;
  sjo_ClaimName : string
}.

Definition source_backoff (source : BackupSource) : result Z :=
  let value := map_get (om_Annotations (s_Meta source)) AnnotationTestSourceBackoffLimit in
  let invalid := ErrNew ("invalid " +:+ AnnotationTestSourceBackoffLimit +:+ " annotation " +:+
                         Quote value) in
  if decide (value = "") then Ok DefaultJobBackoffLimit
  else match ParseInt 32 value with
  | None => Err invalid
  | Some parsed => if decide (parsed < 0) then Err invalid else Ok parsed
  end.

Definition send_source_args (run : BackupJob) (source : BackupSource) (target : RsyncMachine)
    (targetPath : string) (controlOptions : DataPlaneControlOptions) : list string :=
  let args :=
    ["send-source";
     "--source"; path_Join ["/source"; TrimPrefix (SourcePathOrDefault (s_Spec source)) "/"];
     "--target"; targetPath; "--target-endpoint"; TargetServiceEndpoint run target;
     "--tls-dir"; TLSMountPath; "--run-namespace"; om_Namespace (bj_Meta run);
     "--run-name"; om_Name (bj_Meta run); "--source-namespace"; om_Namespace (s_Meta source);
     "--source-name"; om_Name (s_Meta source); "--target-namespace"; om_Namespace (m_Meta target);
     "--target-name"; om_Name (m_Meta target)] in
  appendRsyncArgs (appendControlGRPCArgs args controlOptions) (ss_Rsync (s_Spec source)).

Definition source_labels (labels : gmap string string) (source : BackupSource) : gmap string string :=
  <[LabelSource := labelValue [om_Namespace (s_Meta source); om_Name (s_Meta source)]]> labels.

Definition BuildSendSourceJobWithControl (run : BackupJob) (source : BackupSource)
    (target : RsyncMachine) (opts : SourceJobOptions) (image : string)
    (controlOptions : DataPlaneControlOptions) : result Job :=
  let image := machineImage target image in
  targetPath ← (if decide (sjo_TargetPath opts = "")
                then TransferDestinationPath target (RunID run) source
                else Ok (sjo_TargetPath opts));
  let claimName := if decide (sjo_ClaimName opts = "") then ss_PVC (s_Spec source)
                   else sjo_ClaimName opts in
  let labels := source_labels (runLabels run runKindBackup RoleSourceSender) source in
  let args := send_source_args run source target targetPath controlOptions in
  backoffLimit ← source_backoff source;
  let ns := om_Namespace (s_Meta source) in
  Ok (new_job ns (GeneratedJobName ("source-" +:+ om_Name (s_Meta source)) (om_Name (bj_Meta run)))
        labels backoffLimit
        (sourceSenderPodSpec source (pod []
           [MkContainer "send-source" image [] args [] (ss_Resources (s_Spec source))
              [MkVolumeMount "source" "/source" true; tls_mount]]
           [MkVolume "source" (VolumePVC claimName true);
            tls_volume (GeneratedTLSSecretName (RunID run) RoleSourceSender ns
                          (om_Name (s_Meta source)))]))).

Definition BuildSendSourceJob (run : BackupJob) (source : BackupSource) (target : RsyncMachine)
    (opts : SourceJobOptions) (image : string) : result Job :=
  BuildSendSourceJobWithControl run source target opts image (MkDataPlaneControlOptions "" "").

(** ** Restores *)

(** The snapshot a restore reads, and the directory of the source in it. *)
Definition restore_snapshot (restore : RestoreJob) (target : RsyncMachine) : string :=
  let snapshot := if decide (rjs_RestoredSnapshot (rj_Status restore) = "")
                  then SnapshotOrDefault (rj_Spec restore)
                  else rjs_RestoredSnapshot (rj_Status restore) in
  if is_mirror target && bool_decide (snapshot = DefaultSnapshot) then DefaultMirrorSnapshot
  else snapshot.

Definition restore_source (target : RsyncMachine) (effectivePath : string) : string :=
  if is_mirror target && bool_decide (effectivePath = "") then "." else effectivePath.

Definition restore_run_ref (restore : RestoreJob) : NamespacedName :=
  MkNamespacedName (om_Namespace (rj_Meta restore)) (om_Name (rj_Meta restore)).

Definition BuildRestoreTargetJobWithControl (restore : RestoreJob) (source : BackupSource)
    (target : RsyncMachine) (image : string) (controlOptions : DataPlaneControlOptions) :
    result Job :=
  let image := machineImage target image in
  effectivePath ← EffectiveDestinationPathForStrategy target source;
  let snapshot := restore_snapshot restore target in
  let restoreSource := restore_source target effectivePath in
  let labels := runLabelsForRef (restore_run_ref restore) runKindRestore RoleTargetServer in
  let ns := om_Namespace (m_Meta target) in
  let args := appendControlGRPCArgs
    ["serve-target"; "--target"; DefaultRsyncMachineMountPath; "--tls-dir"; TLSMountPath;
     "--run-namespace"; om_Namespace (rj_Meta restore); "--run-name"; om_Name (rj_Meta restore);
     "--target-namespace"; ns; "--target-name"; om_Name (m_Meta target);
     "--restore-snapshot"; snapshot; "--restore-source"; restoreSource;
     "--restore-writer"; om_Namespace (s_Meta source) +:+ "/" +:+ om_Name (s_Meta source)]
    controlOptions in
  Ok (new_job ns (GeneratedJobName "restore-target" (om_Name (rj_Meta restore))) labels
        DefaultJobBackoffLimit
        (targetPodSpec target (pod []
           (applyMachineResources target
              [MkContainer "serve-target" image [] args [rsync_port] "" [target_mount true; tls_mount]])
           [MkVolume "target" (VolumePVC (ms_PVCName (m_Spec target)) true);
            tls_volume (GeneratedTLSSecretName (RunIDForRef (restore_run_ref restore)) RoleTargetServer
                          ns (om_Name (m_Meta target)))]))).

Definition BuildRestoreTargetJob (restore : RestoreJob) (source : BackupSource) (target : RsyncMachine)
    (image : string) : result Job :=
  BuildRestoreTargetJobWithControl restore source target image (MkDataPlaneControlOptions "" "").

Definition BuildRestoreTargetService (restore : RestoreJob) (target : RsyncMachine) : Service_ :=
  new_service (om_Namespace (m_Meta target))
    (GeneratedServiceName "restore-target" (om_Name (rj_Meta restore)))
    (runLabelsForRef (restore_run_ref restore) runKindRestore RoleTargetServer).

Definition BuildRestoreJobWithControl (restore : RestoreJob) (source : BackupSource)
    (target : RsyncMachine) (image : string) (controlOptions : DataPlaneControlOptions) :
    result Job :=
  let image := machineImage target image in
  let destination := rov_Destination (rs_Overrides (rj_Spec restore)) in
  let destinationNamespace := if decide (rd_Namespace destination = "")
                              then om_Namespace (rj_Meta restore) else rd_Namespace destination in
  let destinationPVC := if decide (rd_PVCName destination = "")
                        then ss_PVC (s_Spec source) else rd_PVCName destination in
  let destinationPath := if decide (rd_Path destination = "")
                         then SourcePathOrDefault (s_Spec source) else rd_Path destination in
  effectivePath ← EffectiveDestinationPathForStrategy target source;
  let snapshot := restore_snapshot restore target in
  let snapshotSource := restore_source target effectivePath in
  let labels := source_labels
    (runLabelsForRef (restore_run_ref restore) runKindRestore RoleRestoreWriter) source in
  let args := appendControlGRPCArgs
    ["restore"; "--snapshot"; snapshot; "--snapshot-source"; snapshotSource;
     "--target-endpoint"; RestoreTargetServiceEndpoint restore target;
     "--destination"; path_Join ["/restore"; TrimPrefix destinationPath "/"];
     "--tls-dir"; TLSMountPath; "--run-namespace"; om_Namespace (rj_Meta restore);
     "--run-name"; om_Name (rj_Meta restore); "--source-namespace"; om_Namespace (s_Meta source);
     "--source-name"; om_Name (s_Meta source); "--target-namespace"; om_Namespace (m_Meta target);
     "--target-name"; om_Name (m_Meta target)] controlOptions in
  let overrides := rov_Rsync (rs_Overrides (rj_Spec restore)) in
  let rsync := if HasOverrides overrides then overrides else ss_Rsync (s_Spec source) in
  let args := appendRsyncArgs args rsync in
  Ok (new_job destinationNamespace (GeneratedJobName "restore" (om_Name (rj_Meta restore))) labels
        DefaultJobBackoffLimit
        (restoreWriterPodSpec restore (pod []
           [MkContainer "restore" image [] args [] (rs_Resources (rj_Spec restore))
              [MkVolumeMount "destination" "/restore" false; tls_mount]]
           [MkVolume "destination" (VolumePVC destinationPVC false);
            tls_volume (GeneratedTLSSecretName (RunIDForRef (restore_run_ref restore))
                          RoleRestoreWriter (om_Namespace (s_Meta source)) (om_Name (s_Meta source)))]))).

Definition BuildRestoreJob (restore : RestoreJob) (source : BackupSource) (target : RsyncMachine)
    (image : string) : result Job :=
  BuildRestoreJobWithControl restore source target image (MkDataPlaneControlOptions "" "").
End Builders.
