(* ===== verification/Credentials.v ===== *)
(** * Run credentials (internal/controller/credentials.go, builders.go)

    The certificates of a run's peers: who gets one, the identity it carries,
    and the Secret it is stored in. *)
From S2P Require Export Builders Safety.
From stdpp Require Import options.

(** Nanoseconds of [2 * time.Hour]. *)
Definition DefaultRunCertificateTTL : Z := 2 * 3600 * 10 ^ 9.

Definition ControlCAFile : string := SecretControlCAFile.

Record CredentialSecret := MkCredentialSecret {
  cred_Namespace : string;
  cred_Name : string;
  cred_Identity : Identity;
  cred_Labels : gmap string string;
  cred_Bundle : Bundle;
  cred_ExtraData : gmap string string
}.

(** [credentialExtraData]; the bytes are empty when there are none. *)
Definition credentialExtraData (controlCAPEM : string) : gmap string string :=
  if decide (controlCAPEM = "") then ∅ else {[ControlCAFile := controlCAPEM]}.

Definition BuildTLSSecret (namespace name : string) (labels : gmap string string) (bundle : Bundle) :
    Secret :=
  MkSecret (new_meta namespace name (labels ∪ {[LabelName := AppName; LabelRole := RoleTLSSecret]}))
    SecretTypeTLS (SecretData bundle).

(** [CredentialSecret.Secret] *)
Definition CredentialSecret_Secret (c : CredentialSecret) : Secret :=
  let secret := BuildTLSSecret (cred_Namespace c) (cred_Name c) (cred_Labels c) (cred_Bundle c) in
  secret <| sec_Data ::= λ data, cred_ExtraData c ∪ data |>.

(** The certificate authority of a run: the signer, or a new one. *)
Definition run_ca (namespace name : string) (ttl : Z) (signer : option CA) : io CA :=
  match signer with
  | Some ca => mret ca
  | None => req (NewRunCA namespace name ttl)
  end.

Definition with_ttl (ttl : Z) : Z := if decide (ttl = 0) then DefaultRunCertificateTTL else ttl.

Fixpoint source_credentials (run : BackupJob) (sources : list BackupSource) (ttl : Z) (ca : CA)
    (controlCAPEM : string) : io (list CredentialSecret) :=
  match sources with
  | [] => mret []
  | source :: sources =>
      let ns := om_Namespace (s_Meta source) in
      let name := om_Name (s_Meta source) in
      let identity := SourceIdentity (om_Namespace (bj_Meta run)) (om_Name (bj_Meta run)) ns name in
      bundle ← io_on_err (wrap ("mint source certificate " +:+ ns +:+ "/" +:+ name +:+ ": "))
                 (req (Mint ca identity ttl));
      let credential :=
        MkCredentialSecret ns (GeneratedTLSSecretName (RunID run) RoleSourceSender ns name) identity
          (source_labels (runLabels run runKindBackup RoleSourceSender) source) bundle
          (credentialExtraData controlCAPEM) in
      rest ← source_credentials run sources ttl ca controlCAPEM;
      mret (credential :: rest)
  end.

Definition buildBackupJobCredentialSecrets (run : BackupJob) (target : RsyncMachine)
    (sources : list BackupSource) (ttl : Z) (signer : option CA) (controlCAPEM : string) :
    io (list CredentialSecret) :=
  let ttl := with_ttl ttl in
  let rns := om_Namespace (bj_Meta run) in
  let rname := om_Name (bj_Meta run) in
  let ns := om_Namespace (m_Meta target) in
  let name := om_Name (m_Meta target) in
  ca ← run_ca rns rname ttl signer;
  let targetIdentity := TargetIdentity rns rname ns name in
  targetBundle ← io_on_err (wrap "mint target certificate: ") (req (Mint ca targetIdentity ttl));
  let credential :=
    MkCredentialSecret ns (GeneratedTLSSecretName (RunID run) RoleTargetServer ns name) targetIdentity
      (runLabels run runKindBackup RoleTargetServer) targetBundle (credentialExtraData controlCAPEM) in
  rest ← source_credentials run sources ttl ca controlCAPEM;
  mret (credential :: rest).

Definition BuildBackupJobCredentialSecretsWithSigner := buildBackupJobCredentialSecrets.

Definition BuildBackupJobCredentialSecrets (run : BackupJob) (target : RsyncMachine)
    (sources : list BackupSource) (ttl : Z) (controlCAPEM : string) : io (list CredentialSecret) :=
  buildBackupJobCredentialSecrets run target sources ttl None controlCAPEM.

Definition buildRestoreJobCredentialSecrets (restore : RestoreJob) (target : RsyncMachine)
    (source : BackupSource) (destinationNamespace : string) (ttl : Z) (signer : option CA)
    (controlCAPEM : string) : io (list CredentialSecret) :=
  let ttl := with_ttl ttl in
  let rns := om_Namespace (rj_Meta restore) in
  let rname := om_Name (rj_Meta restore) in
  let destinationNamespace := if decide (destinationNamespace = "") then rns else destinationNamespace in
  ca ← run_ca rns rname ttl signer;
  let runRef := restore_run_ref restore in
  let runID := RunIDForRef runRef in
  let tns := om_Namespace (m_Meta target) in
  let tname := om_Name (m_Meta target) in
  let sns := om_Namespace (s_Meta source) in
  let sname := om_Name (s_Meta source) in
  let targetIdentity := TargetIdentity rns rname tns tname in
  targetBundle ← io_on_err (wrap "mint restore target certificate: ") (req (Mint ca targetIdentity ttl));
  let writerIdentity := SourceIdentity rns rname sns sname in
  writerBundle ← io_on_err (wrap "mint restore writer certificate: ") (req (Mint ca writerIdentity ttl));
  mret [MkCredentialSecret tns (GeneratedTLSSecretName runID RoleTargetServer tns tname) targetIdentity
          (runLabelsForRef runRef runKindRestore RoleTargetServer) targetBundle
          (credentialExtraData controlCAPEM);
        MkCredentialSecret destinationNamespace
          (GeneratedTLSSecretName runID RoleRestoreWriter sns sname) writerIdentity
          (source_labels (runLabelsForRef runRef runKindRestore RoleRestoreWriter) source)
          writerBundle (credentialExtraData controlCAPEM)].

Definition BuildRestoreJobCredentialSecretsWithSigner := buildRestoreJobCredentialSecrets.

Definition BuildRestoreJobCredentialSecrets (restore : RestoreJob) (target : RsyncMachine)
    (source : BackupSource) (destinationNamespace : string) (ttl : Z) (controlCAPEM : string) :
    io (list CredentialSecret) :=
  buildRestoreJobCredentialSecrets restore target source destinationNamespace ttl None controlCAPEM.
