(* ===== verification/Capture.v ===== *)
(** * Capturing sources (internal/snapshot/helpers.go)

    Whether a source is copied directly or from a volume snapshot, the
    snapshot and the temporary claim that are created for it, and what the status of
    a snapshot means. *)
From S2P Require Export Builders.
From stdpp Require Import options.

Definition SnapshotAPIGroup : string := "snapshot.storage.k8s.io".
Definition VolumeSnapshotKind : string := "VolumeSnapshot".

Record CaptureDecision := MkCaptureDecision {
  cd_Requested : string;
  cd_Method : string;
  cd_Supported : bool;
  cd_Fallback : bool;
  cd_Reason : string
}.

Definition DecideCaptureMode (consistency : ConsistencyOptions) (snapshotDiscovered : bool) :
    CaptureDecision :=
  let requested := CaptureOrDefault consistency in
  if decide (requested = CaptureModeVolumeSnapshot) then
    if snapshotDiscovered
    then MkCaptureDecision requested CaptureModeVolumeSnapshot true false "VolumeSnapshotDiscovered"
    else MkCaptureDecision requested CaptureModeVolumeSnapshot false false
           "VolumeSnapshotAPINotDiscovered"
  else if decide (requested = CaptureModeAuto) then
    if snapshotDiscovered
    then MkCaptureDecision requested CaptureModeVolumeSnapshot true false "VolumeSnapshotDiscovered"
    else MkCaptureDecision requested CaptureModeDirect true true "VolumeSnapshotAPINotDiscovered"
  else MkCaptureDecision CaptureModeDirect CaptureModeDirect true false "DirectCaptureRequested".

(** [sourceObjectMeta] *)
Definition sourceObjectMeta (run : BackupJob) (source : BackupSource) (role name : string) :
    ObjectMeta :=
  new_meta (om_Namespace (s_Meta source)) name (snapshot_Labels (run_ref run) (source_ref source) role).

Definition BuildVolumeSnapshot (run : BackupJob) (source : BackupSource) : VolumeSnapshot :=
  let class := co_VolumeSnapshotClassName (ss_Consistency (s_Spec source)) in
  let spec :=
    ("source", JObject [("persistentVolumeClaimName", JString (ss_PVC (s_Spec source)))]) ::
    (if decide (class ≠ "") then [("volumeSnapshotClassName", JString class)] else []) in
  MkVolumeSnapshot
    (sourceObjectMeta run source RoleSourceVolumeSnapshot
       (GeneratedVolumeSnapshotName (run_ref run) (source_ref source)))
    [("spec", JObject spec)].

Definition ResourceStorage : string := "storage".

Section Capture.
Context `{Quantities, Unstructured}.

Definition BuildTemporaryPVCFromSnapshot (run : BackupJob) (source : BackupSource)
    (sourcePVC : PersistentVolumeClaim) (restoreSize : option Quantity) : PersistentVolumeClaim :=
  let requests : gmap string Quantity :=
    match pvc_Requests sourcePVC !! ResourceStorage with
    | Some storage => {[ResourceStorage := storage]}
    | None => ∅
    end in
  let requests := match restoreSize with
    | Some size => if Quantity_IsZero size then requests else <[ResourceStorage := size]> requests
    | None => requests
    end in
  MkPersistentVolumeClaim
    (sourceObjectMeta run source RoleSourceSnapshotPVC
       (GeneratedTemporaryPVCName (run_ref run) (source_ref source)))
    (pvc_AccessModes sourcePVC) (pvc_StorageClassName sourcePVC) (pvc_VolumeMode sourcePVC) requests
    (Some (MkTypedLocalObjectReference (Some SnapshotAPIGroup) VolumeSnapshotKind
             (GeneratedVolumeSnapshotName (run_ref run) (source_ref source)))) "".

(** ** The status of a snapshot *)

Definition VolumeSnapshotReady (snapshot : VolumeSnapshot) : bool :=
  match NestedBool (vs_Object snapshot) ["status"; "readyToUse"] with
  | Ok (Some ready) => ready
  | _ => false
  end.

Definition VolumeSnapshotRestoreSize (snapshot : VolumeSnapshot) : option Quantity :=
  match NestedString (vs_Object snapshot) ["status"; "restoreSize"] with
  | Ok (Some value) => if decide (value = "") then None else result_to_option (ParseQuantity value)
  | _ => None
  end.

Definition VolumeSnapshotCreationTime (snapshot : VolumeSnapshot) : option Time :=
  match NestedString (vs_Object snapshot) ["status"; "creationTime"] with
  | Ok (Some value) => if decide (value = "") then None else time_Parse layout_rfc3339 value
  | _ => None
  end.

Record VolumeSnapshotFailureStatus := MkVolumeSnapshotFailureStatus {
  vf_Reason : string;
  vf_Message : string;
  vf_Time : option Time
}.

(** [if s, ok := m[key].(string); ok && s != ""] *)
Definition nonempty_field (key : string) (fields : list (string * json)) : option string :=
  s ← as_string (json_field key fields); if decide (s = "") then None else Some s.

Definition failure_of (default_reason : string) (fields : list (string * json)) (time : option Time) :
    VolumeSnapshotFailureStatus :=
  let reason := default default_reason (nonempty_field "reason" fields) in
  let message := default "" (as_string (json_field "message" fields)) in
  MkVolumeSnapshotFailureStatus reason (if decide (message = "") then reason else message) time.

(** [conditionObj["type"] != "Ready" || conditionObj["status"] != "False"] *)
Definition not_ready_condition (condition : json) : option (list (string * json)) :=
  fields ← as_object condition;
  if decide (as_string (json_field "type" fields) = Some "Ready" ∧
             as_string (json_field "status" fields) = Some "False")
  then Some fields else None.

Fixpoint first_not_ready (conditions : list json) : option VolumeSnapshotFailureStatus :=
  match conditions with
  | [] => None
  | condition :: conditions =>
      match not_ready_condition condition with
      | Some fields => Some (failure_of "VolumeSnapshotNotReady" fields None)
      | None => first_not_ready conditions
      end
  end.

Definition VolumeSnapshotFailure (snapshot : VolumeSnapshot) : option VolumeSnapshotFailureStatus :=
  match NestedMap (vs_Object snapshot) ["status"; "error"] with
  | Ok (Some errObj) =>
      Some (failure_of "VolumeSnapshotError" errObj
              (value ← nonempty_field "time" errObj; time_Parse layout_rfc3339 value))
  | _ =>
      match NestedSlice (vs_Object snapshot) ["status"; "conditions"] with
      | Ok (Some conditions) => first_not_ready conditions
      | _ => None
      end
  end.
End Capture.
