(* ===== verification/Resources.v ===== *)
(** * Generated resources (internal/controller/reconcilers.go)

    How the reconcilers create the objects of a run, give them owners, reuse
    objects that exist already, and delete them again; and the status of a
    generated Job. *)
From S2P Require Export Credentials Capture Events Safety.
From stdpp Require Import options.

(** ** Libraries the reconcilers call *)

(** controller-runtime's helpers: the owner references of an object after
    [ctrl.SetControllerReference(owner, object, scheme)], and the finalizers. *)
Class ControllerUtil := {
  SetControllerReference : kind → ObjectMeta → ObjectMeta → result (list OwnerReference);
  ContainsFinalizer : ObjectMeta → string → bool;
  AddFinalizer : ObjectMeta → string → ObjectMeta;
  RemoveFinalizer : ObjectMeta → string → ObjectMeta
}.

(** The identity a certificate carries and whether a bundle proves one at a
    time (package tlsutil over crypto/x509). *)
Class TLSChecks := {
  BundleIdentity : Bundle → result Identity;
  VerifyIdentity : Bundle → Identity → Time → result unit
}.

(** ** Runs and generated Jobs *)

Definition isTerminalPhase (phase : string) : bool :=
  bool_decide (phase = RunPhaseSucceeded ∨ phase = RunPhaseFailed ∨ phase = RunPhaseCanceled).

Definition JobComplete : string := "Complete".
Definition JobFailed : string := "Failed".

Definition jobComplete (job : Job) : bool :=
  existsb (λ c, bool_decide (jc_Type c = JobComplete ∧ jc_Status c = ConditionTrue)) (j_Conditions job).

Definition jobFailed (job : Job) : bool :=
  existsb (λ c, bool_decide (jc_Type c = JobFailed ∧ jc_Status c = ConditionTrue)) (j_Conditions job).

Definition JobStatusActive : string := "active".
Definition JobStatusComplete : string := "complete".
Definition JobStatusFailed : string := "failed".
Definition JobStatusSuspended : string := "suspended".

Definition generatedJobStatus (job : Job) : string :=
  if jobComplete job then JobStatusComplete
  else if jobFailed job then JobStatusFailed
  else if default false (js_Suspend (j_Spec job)) then JobStatusSuspended
  else JobStatusActive.

Definition namespacedKey (namespace name : string) : string :=
  nn_String (MkNamespacedName namespace name).

Definition meta_key (m : ObjectMeta) : string := namespacedKey (om_Namespace m) (om_Name m).

(** The role label of a job. *)
Definition job_role (job : Job) : string := map_get (om_Labels (j_Meta job)) LabelRole.

(** ["ns/name"] *)
Definition slash_name (m : ObjectMeta) : string := om_Namespace m +:+ "/" +:+ om_Name m.

Section Resources.
Context `{!ControllerUtil, !TLSChecks}.

(** ** Owner references *)

(** [setControllerReferenceIfSameNamespace]; [scheme] says that there is one. *)
Definition setControllerReferenceIfSameNamespace (scheme : bool) (ok : kind) (owner : ObjectMeta)
    (object : ObjectMeta) : result ObjectMeta :=
  if negb scheme || bool_decide (om_Namespace owner ≠ om_Namespace object) then Ok object
  else owners ← SetControllerReference ok owner object; Ok (object <| om_OwnerReferences := owners |>).

Definition ownerReferenceFor (ok : kind) (owner : ObjectMeta) : OwnerReference :=
  MkOwnerReference (gvk ok).1 (gvk ok).2 (om_Name owner) (om_UID owner) None None.

Definition same_owner (a b : OwnerReference) : Prop :=
  ow_APIVersion a = ow_APIVersion b ∧ ow_Kind a = ow_Kind b ∧ ow_Name a = ow_Name b.
#[export] Instance same_owner_dec a b : Decision (same_owner a b).
Proof. unfold same_owner. apply _. Defined.

(** What is left of the slice that was passed, whose array may have been
    written, and the slice that is returned. *)
Definition appendOwnerReference (owners : list OwnerReference) (owner : OwnerReference) :
    list OwnerReference * list OwnerReference :=
  match list_find (λ o, same_owner o owner) owners with
  | Some (i, _) => (<[i := owner]> owners, <[i := owner]> owners)
  | None => (owners, owners ++ [owner])
  end.

Definition setOwnerReferenceIfSameNamespace (scheme : bool) (ok : kind) (owner : ObjectMeta)
    (object : ObjectMeta) : ObjectMeta :=
  if negb scheme || bool_decide (om_Namespace owner ≠ om_Namespace object) then object
  else object <| om_OwnerReferences :=
         (appendOwnerReference (om_OwnerReferences object) (ownerReferenceFor ok owner)).2 |>.

(** The loop over the desired owners: the owners so far and whether one changed. *)
Definition merge_owner (oc : list OwnerReference * bool) (owner : OwnerReference) :
    list OwnerReference * bool :=
  let '(owners, changed) := oc in
  let '(owners, next) := appendOwnerReference owners owner in
  (next, changed || bool_decide (length next ≠ length owners)
         || existsb (λ p : OwnerReference * OwnerReference, bool_decide (p.1 ≠ p.2)) (zip owners next)).

Definition reconcileExistingOwnerReferences (k : kind) (existing desired : object k) : io unit :=
  let wanted := om_OwnerReferences (meta_of k desired) in
  if bool_decide (wanted = []) then mret tt
  else
    let '(owners, changed) := foldl merge_owner (om_OwnerReferences (meta_of k existing), false) wanted in
    if negb changed then mret tt
    else
      _ ← req (Update k (set_meta k ((meta_of k existing) <| om_OwnerReferences := owners |>) existing));
      mret tt.

(** ** Creating what is missing *)

(** Creates an object unless the API server has one of its name; [check] is run
    on one it has. *)
Definition create_if_missing (k : kind) (o : object k) (get_err create_err : goerr → goerr)
    (check : object k → io unit) : io unit :=
  found ← io_try (req (Get k (ref_of (meta_of k o))));
  match found with
  | Ok existing => check existing
  | Err e =>
      if errors_is KNotFound e then _ ← io_on_err create_err (req (Create k o)); mret tt
      else io_throw (get_err e)
  end.

Definition object_error (verb noun : string) (m : ObjectMeta) (e : goerr) : goerr :=
  wrap (verb +:+ " " +:+ noun +:+ " " +:+ slash_name m +:+ ": ") e.

Definition owners_error (noun : string) (m : ObjectMeta) (e : goerr) : goerr :=
  wrap ("update " +:+ noun +:+ " " +:+ slash_name m +:+ " owner references: ") e.

Definition createJobIfMissing (job : Job) : io unit :=
  create_if_missing KJob job (object_error "get" "job" (j_Meta job))
    (object_error "create" "job" (j_Meta job))
    (λ existing, io_on_err (owners_error "job" (j_Meta job))
                   (reconcileExistingOwnerReferences KJob existing job)).

Definition createServiceIfMissing (service : Service_) : io unit :=
  create_if_missing KService service id id
    (λ existing, io_on_err (owners_error "service" (svc_Meta service))
                   (reconcileExistingOwnerReferences KService existing service)).

Definition createPersistentVolumeClaimIfMissing (pvc : PersistentVolumeClaim) : io unit :=
  create_if_missing KPVC pvc id id
    (λ existing, io_on_err (owners_error "persistent volume claim" (pvc_Meta pvc))
                   (reconcileExistingOwnerReferences KPVC existing pvc)).

Definition createVolumeSnapshotIfMissing (snapshot : VolumeSnapshot) : io unit :=
  create_if_missing KVolumeSnapshot snapshot id id
    (λ existing, io_on_err (owners_error "volume snapshot" (vs_Meta snapshot))
                   (reconcileExistingOwnerReferences KVolumeSnapshot existing snapshot)).

(** The bundle a Secret holds. *)
Definition secret_bundle (s : Secret) : Bundle :=
  MkBundle (map_get (sec_Data s) SecretCAFile) "" (map_get (sec_Data s) SecretCertFile)
    (map_get (sec_Data s) SecretKeyFile).

(** The labels of the desired Secret are a Go map, visited in any order. *)
Definition check_labels (existing : gmap string string) (desired : list (string * string)) : result unit :=
  for_each (λ kv : string * string,
    if decide (map_get existing kv.1 = kv.2) then Ok tt
    else Err (ErrNew ("label " +:+ kv.1 +:+ "=" +:+ Quote kv.2 +:+ " is required"))) desired.

Definition validateExistingGeneratedSecret (existing desired : Secret) : io unit :=
  _ ← io_lift (check_labels (om_Labels (sec_Meta existing))
                 (map_to_list (om_Labels (sec_Meta desired))));
  if decide (sec_Type existing ≠ SecretTypeTLS)
  then io_throw (ErrNew ("type must be " +:+ SecretTypeTLS))
  else
    expectedIdentity ← io_lift (map_err (wrap "desired credential identity: ")
                                 (BundleIdentity (secret_bundle desired)));
    if decide (map_get (sec_Data existing) SecretCAFile ≠ map_get (sec_Data desired) SecretCAFile)
    then io_throw (ErrNew (SecretCAFile +:+ " does not match the expected CA"))
    else
      now ← ask Now;
      io_lift (VerifyIdentity (secret_bundle existing) expectedIdentity now).

Definition createSecretIfMissing (secret : Secret) : io unit :=
  create_if_missing KSecret secret (object_error "get" "secret" (sec_Meta secret))
    (object_error "create" "secret" (sec_Meta secret))
    (λ existing,
       _ ← io_on_err (wrap ("existing secret " +:+ slash_name (sec_Meta secret) +:+
                            " cannot be reused: ")) (validateExistingGeneratedSecret existing secret);
       io_on_err (owners_error "secret" (sec_Meta secret))
         (reconcileExistingOwnerReferences KSecret existing secret)).

Definition getVolumeSnapshot (namespace name : string) : io VolumeSnapshot :=
  req (Get KVolumeSnapshot (MkNamespacedName namespace name)).

(** Creates an object with a run or a machine as its controller. *)
Definition create_owned (k : kind) (scheme : bool) (ok : kind) (owner : ObjectMeta)
    (owner_noun noun : string) (create : object k → io unit) (o : object k) : io unit :=
  m ← io_lift (map_err (wrap ("set " +:+ owner_noun +:+ " owner reference on " +:+ noun +:+ " " +:+
                              slash_name (meta_of k o) +:+ ": "))
                (setControllerReferenceIfSameNamespace scheme ok owner (meta_of k o)));
  create (set_meta k m o).

(** ** Deleting a run's resources *)

Definition deleteWithBackgroundPropagation (k : kind) (o : object k) : io unit := req (Delete k o true).
Definition deleteJobWithBackgroundPropagation (job : Job) : io unit :=
  deleteWithBackgroundPropagation KJob job.

(** Lists the objects of a kind that carry the labels and deletes each. *)
Definition delete_labeled (k : kind) (delete : object k → io unit) (labels : gmap string string) :
    io unit :=
  items ← req (List_ k None labels);
  io_for_each (λ o, io_ignore_notfound (delete o)) items.

Definition deleteLabeledRunJobs := delete_labeled KJob deleteJobWithBackgroundPropagation.
Definition deleteLabeledRunPersistentVolumeClaims := delete_labeled KPVC (λ o, req (Delete KPVC o false)).
Definition deleteLabeledRunSecrets := delete_labeled KSecret (λ o, req (Delete KSecret o false)).
Definition deleteLabeledRunServices := delete_labeled KService (λ o, req (Delete KService o false)).
Definition deleteLabeledRunVolumeSnapshots :=
  delete_labeled KVolumeSnapshot (λ o, req (Delete KVolumeSnapshot o false)).

(** [client.MatchingLabels] of a run. *)
Definition run_selector (run : ObjectMeta) (runKind : string) : gmap string string :=
  list_to_map [(LabelRunNamespace, om_Namespace run); (LabelRunKind, runKind);
               (LabelRun, om_Name run)].

Definition cleanup_error (runKind noun : string) (e : goerr) : goerr :=
  wrap ("cleanup " +:+ runKind +:+ " run " +:+ noun +:+ ": ") e.

Definition cleanupRunResources (run : ObjectMeta) (runKind : string) (snapshotAvailable : bool) : io unit :=
  let labels := run_selector run runKind in
  _ ← io_on_err (cleanup_error runKind "jobs") (deleteLabeledRunJobs labels);
  _ ← io_on_err (cleanup_error runKind "persistent volume claims")
        (deleteLabeledRunPersistentVolumeClaims labels);
  _ ← io_on_err (cleanup_error runKind "secrets") (deleteLabeledRunSecrets labels);
  _ ← io_on_err (cleanup_error runKind "services") (deleteLabeledRunServices labels);
  if snapshotAvailable then
    io_on_err (cleanup_error runKind "volume snapshots") (deleteLabeledRunVolumeSnapshots labels)
  else mret tt.

(** The run is the caller's object, whose finalizer goes when its resources are gone. *)
Definition cleanupRunResourcesAndRemoveFinalizer (k : kind) (runKind finalizer : string)
    (snapshotAvailable : bool) : act (object k) unit :=
  run ← get_obj;
  if negb (ContainsFinalizer (meta_of k run) finalizer) then mret tt
  else
    _ ← lift (cleanupRunResources (meta_of k run) runKind snapshotAvailable);
    _ ← modify (λ run, set_meta k (RemoveFinalizer (meta_of k run) finalizer) run);
    on_err (wrap ("remove " +:+ runKind +:+ " run finalizer: "))
      (ignore_notfound (write_back (Update k))).

Definition cleanupBackupJobSnapshotResources (run : ObjectMeta) (snapshotAvailable : bool) : io unit :=
  let labels := run_selector run runKindBackup in
  _ ← io_on_err (wrap "cleanup backup job snapshot persistent volume claims: ")
        (deleteLabeledRunPersistentVolumeClaims labels);
  if snapshotAvailable then
    io_on_err (wrap "cleanup backup job volume snapshots: ") (deleteLabeledRunVolumeSnapshots labels)
  else mret tt.

Definition cleanupBackupJobTargetServices (run : ObjectMeta) : io unit :=
  io_on_err (wrap "cleanup backup job target services: ")
    (deleteLabeledRunServices (<[LabelRole := RoleTargetServer]> (run_selector run runKindBackup))).

Definition cleanupRunCredentialSecrets (run : ObjectMeta) (runKind : string) : io unit :=
  deleteLabeledRunSecrets (run_selector run runKind).
End Resources.
