(* ===== verification/Transfers.v ===== *)
(** * Transfer status and history (internal/controller/reconcilers.go)

    The part of the BackupJob reconciler that works on a run's status alone: the
    status of its transfers, the commands it was sent, and which of a
    machine's completed runs the run history keeps. *)
From S2P Require Export Resources.
From stdpp Require Import options.

(** ** Conditions and reasons *)

Definition ConditionValid : string := "Valid".
Definition ConditionReady : string := "Ready".
Definition ConditionTargetOverlap : string := "TargetOverlap".
Definition ConditionReplaced : string := "Replaced".
Definition ConditionMergedIntoRun : string := "MergedIntoRun".

Definition ReasonInvalidSpec : string := "InvalidSpec".
Definition ReasonResolvedReferences : string := "ResolvedReferences".
Definition ReasonMissingReference : string := "MissingReference".
Definition ReasonTargetNotReady : string := "TargetNotReady".
Definition ReasonNoTargetOverlap : string := "NoTargetOverlap".
Definition ReasonActiveRunForTarget : string := "ActiveRunForTarget".
Definition ReasonActiveRestore : string := "ActiveRestoreForTarget".
Definition ReasonReplaceUnsupported : string := "ReplaceUnsupported".
Definition ReasonReconcileError : string := "ReconcileError".
Definition ReasonRunStarted : string := "RunStarted".
Definition ReasonReplacedByRun : string := "ReplacedByRun".
Definition ReasonMergedIntoRun : string := "MergedIntoRun".

(** ** A run's phase and conditions *)

Definition phase_of (run : BackupJob) : string := bjs_Phase (bj_Status run).

Definition set_status (f : BackupJobStatus → BackupJobStatus) (run : BackupJob) : BackupJob :=
  run <| bj_Status ::= f |>.

Definition set_phase (phase : string) : BackupJob → BackupJob :=
  set_status (λ st, st <| bjs_Phase := phase |>).

(** [setCondition(&run.Status.Conditions, ..., run.Generation)] *)
Definition set_cond (ty status reason message : string) : act BackupJob bool :=
  now ← lift (ask Now);
  run ← get_obj;
  let '(run, changed) := set_job_condition now ty status reason message (run, false) in
  _ ← put_obj run;
  mret changed.

(** ** Transfers *)

Definition transferPhaseTerminal (phase : string) : bool :=
  bool_decide (phase = TransferPhaseSucceeded ∨ phase = TransferPhaseFailed).

(** The phase is the one field with a rule of its own. *)
Definition merge_phase (phase : string) (tc : TransferStatus * bool) : TransferStatus * bool :=
  let '(existing, changed) := tc in
  if bool_decide (phase ≠ "") && bool_decide (ts_Phase existing ≠ phase)
     && (bool_decide (phase = TransferPhaseFailed) || negb (transferPhaseTerminal (ts_Phase existing)))
  then (existing <| ts_Phase := phase |>, true) else (existing, changed).

Definition mergeBackupJobTransferStatus (existing update : TransferStatus) : TransferStatus * bool :=
  let tc := merge_phase (ts_Phase update) (existing, false) in
  let tc := assign ts_Message (nonempty (ts_Message update)) (ts_Message update) tc in
  let tc := assign ts_ExitCode (nonzero (ts_ExitCode update)) (ts_ExitCode update) tc in
  let tc := assign ts_CaptureMethod (nonempty (ts_CaptureMethod update)) (ts_CaptureMethod update) tc in
  let tc := assign ts_VolumeSnapshotName (nonempty (ts_VolumeSnapshotName update))
              (ts_VolumeSnapshotName update) tc in
  assign ts_CaptureTime (bool_decide (ts_CaptureTime update ≠ None)) (ts_CaptureTime update) tc.

(** [changed = setCondition(...) || changed] *)
Definition or_cond (changed : bool) (ty status reason message : string) : act BackupJob bool :=
  ch ← set_cond ty status reason message; mret (ch || changed).

Definition setTransferStatusConditions (status : TransferStatus) : act BackupJob bool :=
  let message := if decide (ts_Message status = "") then "Source transfer " +:+ ts_Phase status
                 else ts_Message status in
  let of_snapshot := bool_decide (ts_CaptureMethod status = CaptureModeVolumeSnapshot) in
  if decide (ts_Phase status = TransferPhasePreparing) then
    changed ← (if of_snapshot
               then or_cond false ConditionSnapshotCapture ConditionUnknown ReasonSnapshotPreparing message
               else mret false);
    or_cond changed ConditionTransport ConditionUnknown ReasonTransportRunning message
  else if decide (ts_Phase status = TransferPhaseSucceeded) then
    changed ← or_cond false ConditionTransport ConditionTrue ReasonTransportComplete message;
    if of_snapshot
    then or_cond changed ConditionSnapshotCapture ConditionTrue ReasonSnapshotReady
           "VolumeSnapshot capture is ready"
    else mret changed
  else if decide (ts_Phase status = TransferPhaseFailed) then
    let reason := if of_snapshot then ReasonSnapshotFailed else ReasonTransportFailed in
    let conditionType := if of_snapshot then ConditionSnapshotCapture else ConditionTransport in
    changed ← or_cond false conditionType ConditionFalse reason message;
    or_cond changed ConditionFailed ConditionTrue ReasonRunFailed message
  else if decide (ts_Phase status = TransferPhaseSkipped) then
    or_cond false ConditionSnapshotCapture ConditionFalse ReasonSnapshotSkipped message
  else mret false.

Definition source_id_of (source : BackupSource) : string := slash_name (s_Meta source).

Definition transfers_of (run : BackupJob) : list TransferStatus := bjs_Transfers (bj_Status run).

Definition set_transfers (ts : list TransferStatus) : BackupJob → BackupJob :=
  set_status (λ st, st <| bjs_Transfers := ts |>).

Definition upsertBackupJobTransfer (source : BackupSource) (status : TransferStatus) : act BackupJob bool :=
  let status := status <| ts_Source := source_id_of source |> in
  run ← get_obj;
  match list_find (λ t, ts_Source t = source_id_of source) (transfers_of run) with
  | Some (i, t) =>
      let '(t, changed) := mergeBackupJobTransferStatus t status in
      _ ← modify (set_transfers (<[i := t]> (transfers_of run)));
      ch ← setTransferStatusConditions status;
      mret (ch || changed)
  | None =>
      _ ← modify (set_transfers (transfers_of run ++ [status]));
      _ ← setTransferStatusConditions status;
      mret true
  end.

(** A transfer status with the fields the reconciler sets. *)
Definition transfer_update (phase message captureMethod snapshotName : string)
    (captureTime : option Time) : TransferStatus :=
  (inhabitant : TransferStatus) <| ts_Phase := phase |> <| ts_Message := message |>
    <| ts_CaptureMethod := captureMethod |> <| ts_VolumeSnapshotName := snapshotName |>
    <| ts_CaptureTime := captureTime |>.

(** The sum is taken in [uint64]. *)
Definition backupJobBytesTransferred (transfers : list TransferStatus) : Z :=
  foldl (λ total t,
    if decide (ts_Phase t = TransferPhaseSucceeded ∧ ts_BytesTransferred t > 0)
    then wrap_u64 (total + ts_BytesTransferred t) else total) 0 transfers.

Definition backupTransferOutOfSpace (t : TransferStatus) : bool :=
  let message := ToLower (ts_Message t) in
  Contains message "no space left on device" || Contains message "enospc"
  || Contains message "disk full" || bool_decide (ts_ExitCode t = 11) || bool_decide (ts_ExitCode t = 12).

Definition hasRecoveredTransferRetry (transfers : list TransferStatus) : bool :=
  existsb (λ t, bool_decide (ts_Phase t = TransferPhasePreparing)
                && Contains (ToLower (ts_Message t)) "retrying after target space recovery") transfers.

Definition resourceTimedOut (created : Time) (timeout : Z) (now : Time) : bool :=
  if decide (timeout ≤ 0) then false
  else if IsZero created then false
  else bool_decide (timeout ≤ now - created).

(** ** Commands *)

Definition backupRunFinalizeCommandSent (run : BackupJob) : bool :=
  match bjs_LastCommand (bj_Status run) with
  | Some c => bool_decide (cs_Type c = TargetCommandFinalizeBackupJob ∧ cs_SentAt c ≠ None)
  | None => false
  end.

Definition last_sent (run : BackupJob) : Time :=
  default zero_time (c ← bjs_LastCommand (bj_Status run); cs_SentAt c).

Definition backupRunFinalizeSnapshotPath (run : BackupJob) : string :=
  if backupRunFinalizeCommandSent run then "hourly/" +:+ format_snapshot (last_sent run) else "".

Definition backupRunSnapshotPathForStrategy (target : RsyncMachine) (run : BackupJob) : string :=
  if is_mirror target then DefaultMirrorSnapshot else backupRunFinalizeSnapshotPath run.

(** ** Run history *)

Definition backupRunHistoryTime (run : BackupJob) : Time :=
  default (om_CreationTimestamp (bj_Meta run)) (bjs_CompletedAt (bj_Status run)).

Definition run_key (run : BackupJob) : string := meta_key (bj_Meta run).

(** Later runs first, and of runs of one time the greater key. *)
Definition history_le (a b : BackupJob) : Prop :=
  backupRunHistoryTime b < backupRunHistoryTime a ∨
  (backupRunHistoryTime a = backupRunHistoryTime b ∧ String.le (run_key b) (run_key a)).
#[export] Instance history_le_dec : RelDecision history_le.
Proof. intros a b. unfold history_le. apply _. Defined.

Definition pruneBackupJobHistoryCandidates (runs : list BackupJob) (keep : Z) : list BackupJob :=
  drop (Z.to_nat keep) (sort_by history_le runs).

(** [addBackupJobHistoryPruneCandidates] *)
Definition addBackupJobHistoryPruneCandidates (candidates : gmap string BackupJob)
    (runs : list BackupJob) : gmap string BackupJob :=
  foldl (λ m run, <[run_key run := run]> m) candidates runs.

(** The runs of the machine's history that have ended. *)
Definition in_history (machineRef : NamespacedName) (candidate : BackupJob) : bool :=
  bool_decide (TriggerOrDefault (bj_Spec candidate) = BackupJobTriggerScheduled)
  && isTerminalPhase (phase_of candidate)
  && match ResolveObjectReference (bs_MachineRef (bj_Spec candidate)) (om_Namespace (bj_Meta candidate)) with
     | Ok ref => bool_decide (ref = machineRef)
     | Err _ => false
     end.

Definition history_candidates (history : RunHistory) (completed : list BackupJob) :
    gmap string BackupJob :=
  let successful := filter (λ r, phase_of r = RunPhaseSucceeded) completed in
  let failed := filter (λ r, phase_of r = RunPhaseFailed ∨ phase_of r = RunPhaseCanceled) completed in
  let prune runs keep m := addBackupJobHistoryPruneCandidates m (pruneBackupJobHistoryCandidates runs keep) in
  if HasCountLimit history then
    let m := prune completed (rh_Count history) ∅ in
    let m := if decide (rh_Successful history > 0) then prune successful (rh_Successful history) m else m in
    if decide (rh_Failed history > 0) then prune failed (rh_Failed history) m else m
  else prune failed (FailedOrDefault history) (prune successful (SuccessfulOrDefault history) ∅).
