(* ===== verification/Guard.v ===== *)
(** * The guard of a target (internal/controller/reconcilers.go)

    The lease that lets one BackupJob at a time change a target: how a run
    takes it, whom it blocks, when it is taken over, and how it is released;
    and the runs that would use the target at the same time. *)
From S2P Require Export Transfers.
From stdpp Require Import options.

(** ** The reconciler *)

(** Its configuration: [bjr_Scheme], [bjr_Control], [bjr_SnapshotCapabilities] and
    [bjr_Recorder] say that the field is not nil. *)
Record BackupJobReconciler := MkBackupJobReconciler {
  bjr_Scheme : bool;
  bjr_Image : string;
  bjr_ControlGRPCNamespace : string;
  bjr_ControlGRPCEndpoint : string;
  bjr_Control : bool;
  bjr_SnapshotCapabilities : bool;
  bjr_ControlGRPCCA : string;
  bjr_ControlGRPCSigner : option CA;
  bjr_Recorder : bool
}.

Definition EventTypeNormal : string := "Normal".
Definition EventTypeWarning : string := "Warning".

Definition targetGuardLeaseDurationSeconds : Z := 86400.

Section Guard.
Context `{!ControllerUtil, !TLSChecks}.
Context (r : BackupJobReconciler).

Definition snapshot_available : io bool :=
  if bjr_SnapshotCapabilities r then ask VolumeSnapshotAvailable else mret false.

Definition recordRunEvent (eventType reason message : string) : act BackupJob unit :=
  run ← get_obj;
  if bjr_Recorder r then lift (ask (Eventf KBackupJob (run_ref run) eventType reason message)) else mret tt.

(** [r.Metrics.RecordRunPhase(..., oldPhase, run.Status.Phase)] *)
Definition record_phase (oldPhase : string) : act BackupJob unit :=
  run ← get_obj;
  lift (ask (RecordRunPhase RunKindBackup (run_key run) oldPhase (phase_of run))).

Definition update_status : act BackupJob unit := write_back (UpdateStatus KBackupJob).

(** ** Runs of a target *)

(** The machine of a run, if it names one that exists. *)
Definition machineRefForBackupJob (run : BackupJob) : io (option NamespacedName) :=
  match ResolveObjectReference (bs_MachineRef (bj_Spec run)) (om_Namespace (bj_Meta run)) with
  | Err _ => mret None
  | Ok machineRef =>
      found ← io_try (req (Get KRsyncMachine machineRef));
      match found with
      | Ok _ => mret (Some machineRef)
      | Err e => if errors_is KNotFound e then mret None else io_throw e
      end
  end.

Definition run_name (run : BackupJob) : string := slash_name (bj_Meta run).
Definition machine_name (target : RsyncMachine) : string := slash_name (m_Meta target).

Definition cancelBackupJobMergedInto (canonical : NamespacedName) : act BackupJob unit :=
  run ← get_obj;
  let oldPhase := phase_of run in
  now ← lift (ask Now);
  _ ← modify (set_status (λ st, st <| bjs_Phase := RunPhaseCanceled |> <| bjs_CompletedAt := Some now |>
        <| bjs_MergedInto := Some (MkObjectReference (nn_Namespace canonical) (nn_Name canonical)) |>
        <| bjs_Conditions := [] |>));
  _ ← set_cond ConditionMergedIntoRun ConditionTrue ReasonMergedIntoRun
        ("BackupJob " +:+ run_name run +:+ " was merged into BackupJob " +:+ nn_String canonical);
  _ ← on_err (wrap ("cancel merged backup job " +:+ run_name run +:+ ": "))
        (ignore_notfound update_status);
  record_phase oldPhase.

Definition cancelBackupJobForReplacement (replacement : BackupJob) : act BackupJob unit :=
  active ← get_obj;
  let oldPhase := phase_of active in
  now ← lift (ask Now);
  _ ← modify (set_status (λ st, st <| bjs_Phase := RunPhaseCanceled |> <| bjs_CompletedAt := Some now |>
        <| bjs_Conditions := [] |>));
  _ ← set_cond ConditionReplaced ConditionTrue ReasonReplacedByRun
        ("BackupJob " +:+ run_name active +:+ " was replaced by BackupJob " +:+ run_name replacement);
  _ ← on_err (wrap ("cancel active backup job " +:+ run_name active +:+ " for replacement: "))
        (ignore_notfound update_status);
  snapshotAvailable ← lift snapshot_available;
  active ← get_obj;
  cleaned ← try (lift (cleanupRunResources (bj_Meta active) runKindBackup snapshotAvailable));
  match cleaned with
  | Err e =>
      _ ← recordRunEvent EventTypeWarning "CleanupFailed"
            ("Cleanup after replacement failed: " +:+ error_text e);
      throw (wrap ("cleanup replaced backup job " +:+ run_name active +:+ ": ") e)
  | Ok _ => record_phase oldPhase
  end.

(** ** Pending runs of one target *)

(** The pending runs of the machine, in the order of the list. *)
Fixpoint pending_runs (machineRef : NamespacedName) (candidates : list BackupJob) : io (list BackupJob) :=
  match candidates with
  | [] => mret []
  | candidate :: candidates =>
      if isTerminalPhase (phase_of candidate)
         || bool_decide (phase_of candidate ≠ "" ∧ phase_of candidate ≠ RunPhasePending)
      then pending_runs machineRef candidates
      else
        ref ← machineRefForBackupJob candidate;
        rest ← pending_runs machineRef candidates;
        mret (if decide (ref = Some machineRef) then candidate :: rest else rest)
  end.

(** Earlier runs first, and of runs of one time the smaller key. *)
Definition pending_le (a b : BackupJob) : Prop :=
  om_CreationTimestamp (bj_Meta a) < om_CreationTimestamp (bj_Meta b) ∨
  (om_CreationTimestamp (bj_Meta a) = om_CreationTimestamp (bj_Meta b) ∧ String.le (run_key a) (run_key b)).
#[export] Instance pending_le_dec : RelDecision pending_le.
Proof. intros a b. unfold pending_le. apply _. Defined.

(** The run that stands for the pending runs of the target, and whether it is this one. *)
Definition coalescePendingBackupJobsForTarget (run : BackupJob) (target : RsyncMachine) :
    io (NamespacedName * bool) :=
  runs ← io_on_err (wrap "list pending backup jobs: ") (req (List_ KBackupJob None ∅));
  pending ← pending_runs (machine_ref target) runs;
  if decide (length pending ≤ 1)%nat then mret (run_ref run, true)
  else
    match sort_by pending_le pending with
    | [] => mret (run_ref run, true)
    | first :: duplicates =>
        let canonical := run_ref first in
        if decide (canonical = run_ref run) then
          _ ← io_for_each (λ duplicate,
                _ ← run_on duplicate (cancelBackupJobMergedInto canonical); mret tt) duplicates;
          mret (canonical, true)
        else mret (canonical, false)
    end.

(** ** Active runs of one target *)

Fixpoint first_active_run (run : BackupJob) (machineRef : NamespacedName)
    (candidates : list BackupJob) : io (option BackupJob) :=
  match candidates with
  | [] => mret None
  | candidate :: candidates =>
      if decide (run_ref candidate = run_ref run) then first_active_run run machineRef candidates
      else if negb (ActiveRunBlocksTargetMutation (phase_of candidate))
      then first_active_run run machineRef candidates
      else
        match ResolveObjectReference (bs_MachineRef (bj_Spec candidate)) (om_Namespace (bj_Meta candidate)) with
        | Err _ => first_active_run run machineRef candidates
        | Ok candidateMachineRef =>
            found ← io_try (req (Get KRsyncMachine candidateMachineRef));
            match found with
            | Err e => if errors_is KNotFound e then first_active_run run machineRef candidates else io_throw e
            | Ok _ => if decide (candidateMachineRef = machineRef) then mret (Some candidate)
                      else first_active_run run machineRef candidates
            end
        end
  end.

Definition findActiveBackupJobForTarget (run : BackupJob) (target : RsyncMachine) : io (option BackupJob) :=
  runs ← io_on_err (wrap "list backup jobs: ") (req (List_ KBackupJob None ∅));
  first_active_run run (machine_ref target) runs.

(** [machineRefForRestoreJobWithClient]: the machine a restore reads from, if it may. *)
Definition machineRefForRestoreJob (run : RestoreJob) : io (option NamespacedName) :=
  match ResolveObjectReference (rs_SourceRef (rj_Spec run)) (om_Namespace (rj_Meta run)) with
  | Err _ => mret None
  | Ok sourceRef =>
      found ← io_try (req (Get KBackupSource sourceRef));
      match found with
      | Err e => if errors_is KNotFound e then mret None else io_throw e
      | Ok source =>
          match ResolveObjectReference (ss_MachineRef (s_Spec source)) (om_Namespace (s_Meta source)) with
          | Err _ => mret None
          | Ok machineRef =>
              found ← io_try (req (Get KRsyncMachine machineRef));
              match found with
              | Err e => if errors_is KNotFound e then mret None else io_throw e
              | Ok machine =>
                  let destinationNamespace := rd_Namespace (rov_Destination (rs_Overrides (rj_Spec run))) in
                  if negb (SourceNamespaceAllowed machine (om_Namespace (s_Meta source)))
                     || negb (RestoreNamespaceAllowed machine (om_Namespace (rj_Meta run)))
                  then mret None
                  else if decide (destinationNamespace ≠ "" ∧
                                  destinationNamespace ≠ om_Namespace (rj_Meta run)) then mret None
                  else mret (Some machineRef)
              end
          end
      end
  end.

Fixpoint first_active_restore (machineRef : NamespacedName) (restores : list RestoreJob) :
    io (option RestoreJob) :=
  match restores with
  | [] => mret None
  | restore :: restores =>
      if isTerminalPhase (rjs_Phase (rj_Status restore)) then first_active_restore machineRef restores
      else
        ref ← machineRefForRestoreJob restore;
        if decide (ref = Some machineRef) then mret (Some restore)
        else first_active_restore machineRef restores
  end.

Definition findActiveRestoreJobForTarget (target : RsyncMachine) : io (option RestoreJob) :=
  restores ← io_on_err (wrap "list restore jobs: ") (req (List_ KRestoreJob None ∅));
  first_active_restore (machine_ref target) restores.

(** ** The lease *)

Definition backupRunGuardHolder (run : BackupJob) : string := nn_String (run_ref run).

Definition parseBackupJobGuardHolder (holder : string) : option NamespacedName :=
  match Split holder slash with
  | [ns; name] => if decide (ns = "" ∨ name = "") then None else Some (MkNamespacedName ns name)
  | _ => None
  end.

Definition targetGuardLeaseLabels (run : BackupJob) (target : NamespacedName) : gmap string string :=
  <[labelTargetName := nn_Name target]> (<[labelTargetNamespace := nn_Namespace target]>
    (runLabels run runKindBackup targetGuardRole)).

Definition targetGuardLeaseAnnotations (target : NamespacedName) : gmap string string :=
  {["krm.chirino.github.io/target" := nn_String target]}.

Definition claimTargetGuardLease (lease : Lease) (run : BackupJob) (target : NamespacedName)
    (holder : string) (now : Time) (previousHolder : string) : Lease :=
  let lease :=
    if decide (previousHolder ≠ holder) then
      lease <| l_LeaseTransitions := Some (match l_LeaseTransitions lease with
                                           | Some n => wrap_i32 (n + 1) | None => 0 end) |>
            <| l_AcquireTime := Some now |>
    else lease in
  lease <| l_Meta ::= λ m, m <| om_Labels := targetGuardLeaseLabels run target |>
                             <| om_Annotations := targetGuardLeaseAnnotations target |> |>
        <| l_HolderIdentity := Some holder |>
        <| l_LeaseDurationSeconds := Some targetGuardLeaseDurationSeconds |>
        <| l_RenewTime := Some now |>.

(** The lease of a target nobody held. *)
Definition new_guard_lease (run : BackupJob) (machineRef leaseRef : NamespacedName) (now : Time) : Lease :=
  MkLease ((new_meta (nn_Namespace leaseRef) (nn_Name leaseRef) (targetGuardLeaseLabels run machineRef))
             <| om_Annotations := targetGuardLeaseAnnotations machineRef |>)
    (Some (backupRunGuardHolder run)) (Some targetGuardLeaseDurationSeconds) (Some now) (Some now) (Some 0).

(** The run a holder names, if it still uses the target: [Some (run, active)]. *)
Definition activeGuardHolder (holder : string) (target : NamespacedName) : io (option BackupJob) :=
  match parseBackupJobGuardHolder holder with
  | None => mret None
  | Some holderRef =>
      found ← io_try (req (Get KBackupJob holderRef));
      match found with
      | Err e =>
          if errors_is KNotFound e then mret None
          else io_throw (wrap ("read target guard holder " +:+ nn_String holderRef +:+ ": ") e)
      | Ok run =>
          if negb (ActiveRunBlocksTargetMutation (phase_of run)) then mret None
          else
            holderTarget ← io_on_err (wrap ("resolve target guard holder " +:+ nn_String holderRef +:+
                                            " target: ")) (machineRefForBackupJob run);
            match holderTarget with
            | Some t => if decide (t ≠ target) then mret None else mret (Some run)
            | None => mret (Some run)
            end
      end
  end.

(** One attempt: [None] means that another writer was faster. *)
Definition guard_attempt (run : BackupJob) (machineRef leaseRef : NamespacedName) (replace : bool) :
    io (option (option BackupJob * bool)) :=
  let holder := backupRunGuardHolder run in
  now ← ask Now;
  found ← io_try (req (Get KLease leaseRef));
  match found with
  | Err e =>
      if negb (errors_is KNotFound e)
      then io_throw (wrap ("get target guard lease " +:+ nn_String leaseRef +:+ ": ") e)
      else
        created ← io_try (req (Create KLease (new_guard_lease run machineRef leaseRef now)));
        match created with
        | Ok _ => mret (Some (None, true))
        | Err e =>
            if errors_is KAlreadyExists e then mret None
            else io_throw (wrap ("create target guard lease " +:+ nn_String leaseRef +:+ ": ") e)
        end
  | Ok lease =>
      let existingHolder := default "" (l_HolderIdentity lease) in
      let claim (failure : string) : io (option (option BackupJob * bool)) :=
        updated ← io_try (req (Update KLease
                     (claimTargetGuardLease lease run machineRef holder now existingHolder)));
        match updated with
        | Ok _ => mret (Some (None, true))
        | Err e => if errors_is KConflict e then mret None else io_throw (wrap failure e)
        end in
      if decide (existingHolder = "" ∨ existingHolder = holder)
      then claim ("update target guard lease " +:+ nn_String leaseRef +:+ ": ")
      else
        let steal := "steal target guard lease " +:+ nn_String leaseRef +:+ " from " +:+
                     Quote existingHolder +:+ ": " in
        active ← activeGuardHolder existingHolder machineRef;
        match active with
        | Some blocking =>
            if negb replace then mret (Some (Some blocking, false))
            else
              _ ← run_on blocking (cancelBackupJobForReplacement run);
              claim steal
        | None => claim steal
        end
  end.

Fixpoint guard_attempts (n : nat) (run : BackupJob) (machineRef leaseRef : NamespacedName)
    (replace : bool) : io (option BackupJob * bool) :=
  match n with
  | O => io_throw (ErrNew ("target guard lease " +:+ nn_String leaseRef +:+ " changed too frequently"))
  | S n =>
      outcome ← guard_attempt run machineRef leaseRef replace;
      match outcome with
      | Some result => mret result
      | None => guard_attempts n run machineRef leaseRef replace
      end
  end.

(** The run that blocks this one, or nothing and whether the lease is this run's. *)
Definition acquireTargetGuard (run : BackupJob) (target : RsyncMachine) (replace : bool) :
    io (option BackupJob * bool) :=
  let machineRef := machine_ref target in
  guard_attempts 3 run machineRef (TargetGuardLeaseRef machineRef) replace.

Definition releaseTargetGuardsForRun (run : BackupJob) : io unit :=
  leases ← io_on_err (wrap ("list target guard leases for BackupJob " +:+ run_name run +:+ ": "))
             (req (List_ KLease None (<[LabelRole := targetGuardRole]>
                                        (run_selector (bj_Meta run) runKindBackup))));
  io_for_each (λ lease,
    if decide (l_HolderIdentity lease ≠ None ∧ l_HolderIdentity lease ≠ Some (backupRunGuardHolder run))
    then mret tt
    else io_on_err (wrap ("delete target guard lease " +:+ slash_name (l_Meta lease) +:+ ": "))
           (io_ignore_notfound (req (Delete KLease lease false)))) leases.

(** ** The status of a run that waits or fails *)

Definition hold (ty status reason condition_message event_message error : string) : act BackupJob unit :=
  run ← get_obj;
  let oldPhase := phase_of run in
  _ ← modify (set_status (λ st, st <| bjs_Phase := RunPhasePending |> <| bjs_Conditions := [] |>));
  _ ← set_cond ty status reason condition_message;
  _ ← on_err (wrap error) (ignore_notfound update_status);
  _ ← recordRunEvent EventTypeWarning reason event_message;
  record_phase oldPhase.

Definition holdBackupJobForTarget (target : RsyncMachine) : act BackupJob unit :=
  let message := "RsyncMachine " +:+ machine_name target +:+ " is not ready" in
  hold ConditionTargetReady ConditionFalse ReasonTargetNotReady message message
    "hold backup job for target readiness: ".

Definition holdBackupJobForOverlap (target : RsyncMachine) (blocking : BackupJob)
    (machine : RsyncMachine) : act BackupJob unit :=
  let reason :=
    if decide (ConcurrencyPolicyOrDefault (m_Spec machine) = ConcurrencyPolicyReplace)
    then ReasonReplaceUnsupported else ReasonActiveRunForTarget in
  let message := "RsyncMachine " +:+ machine_name target +:+ " is already used by BackupJob " +:+
                 run_name blocking in
  hold ConditionTargetOverlap ConditionTrue reason message message
    "hold backup job for target overlap: ".

Definition holdBackupJobForRestore (target : RsyncMachine) (restore : RestoreJob) : act BackupJob unit :=
  let message := "RsyncMachine " +:+ machine_name target +:+ " is being restored by RestoreJob " +:+
                 slash_name (rj_Meta restore) in
  hold ConditionTargetOverlap ConditionTrue ReasonActiveRestore
    (message +:+ "; waiting for restore to complete") message "hold backup job for active restore: ".

(** Marks the run failed, gives its targets back, and returns the cause. *)
Definition failBackupJob {A} (cause : goerr) : act BackupJob A :=
  run ← get_obj;
  let oldPhase := phase_of run in
  now ← lift (ask Now);
  transition ← lift (ask Now);
  _ ← modify (set_status (λ st, st <| bjs_Phase := RunPhaseFailed |> <| bjs_CompletedAt := Some now |>
        <| bjs_Conditions := [MkCondition ConditionFailed ConditionTrue (om_Generation (bj_Meta run))
                                transition ReasonReconcileError (error_text cause)] |>));
  _ ← on_err (λ e, ErrWrap "" cause ("; additionally failed to update status: " +:+ error_text e))
        (ignore_notfound update_status);
  run ← get_obj;
  _ ← on_err (λ e, ErrWrap "" cause ("; additionally failed to release target guard: " +:+ error_text e))
        (lift (releaseTargetGuardsForRun run));
  _ ← recordRunEvent EventTypeWarning ReasonRunFailed ("BackupJob failed: " +:+ error_text cause);
  _ ← record_phase oldPhase;
  throw cause.

(** [if err != nil { return ..., r.failBackupJob(ctx, run, err) }] *)
Definition or_fail {A} (m : act BackupJob A) : act BackupJob A :=
  outcome ← try m;
  match outcome with Ok a => mret a | Err e => failBackupJob e end.
End Guard.
