(* ===== verification/BackupRun.v ===== *)
(** * The BackupJob reconciler (internal/controller/reconcilers.go)

    [Reconcile] and the handlers it is made of: starting a run on its target,
    capturing and sending its sources, finalizing it, recovering space, and pruning the history of
    its machine. *)
From S2P Require Export Guard.
From stdpp Require Import options.

Definition BackupJobFinalizer : string := "backupjob.krm.chirino.github.io/finalizer".

(** Durations in nanoseconds. *)
Definition Second : Z := 10 ^ 9.
Definition snapshotReadyRequeueAfter : Z := 15 * Second.
Definition snapshotReadyTimeout : Z := 600 * Second.
Definition temporaryPVCBindRequeueAfter : Z := 15 * Second.
Definition temporaryPVCBindingTimeout : Z := 300 * Second.
Definition targetRecoveryMinAvailableBytes : Z := 64 * 1024 * 1024.

Definition sourceSnapshotUnsupported : string := "SourceSnapshotUnsupported".
Definition sourceSnapshotFailed : string := "SourceSnapshotFailed".
Definition sourceSnapshotTimedOut : string := "SourceSnapshotTimedOut".
Definition sourceSnapshotPVCBindTimedOut : string := "SourceSnapshotPVCBindTimedOut".
Definition sourceSnapshotFallbackToDirect : string := "SourceSnapshotFallbackToDirect".

Definition ClaimBound : string := "Bound".

(** [ctrl.Result] of a reconcile that succeeds: its [RequeueAfter], 0 for none; [Requeue] is never set. *)
Definition ctrl_Result := Z.
Definition no_requeue : ctrl_Result := 0.

(** [!o.DeletionTimestamp.IsZero()] *)
Definition deleting (m : ObjectMeta) : bool :=
  match om_DeletionTimestamp m with Some t => negb (IsZero t) | None => false end.

(** The values of the map from names to sources. *)
Definition sources_by_ref (sources : list BackupSource) : list BackupSource :=
  (map_to_list (foldl (λ m s, <[source_ref s := s]> m) (∅ : gmap NamespacedName BackupSource) sources)).*2.

(** [TargetRunSet{}] *)
Definition zero_run_set : TargetRunSet :=
  MkTargetRunSet (MkNamespacedName "" "") [] [] (MkRetentionPolicy 0 0 0 0).

(** How the scan of a run's Jobs ends. *)
Record job_scan := MkJobScan {
  sc_failed : bool;
  sc_targetComplete : bool;
  sc_sourceJobs : nat;
  sc_sourceJobsComplete : bool;
  sc_statusChanged : bool
}.

#[export] Instance job_scan_eta : Eta job_scan := λ s,
  {| sc_failed := sc_failed s; sc_targetComplete := sc_targetComplete s; sc_sourceJobs :=
     sc_sourceJobs s; sc_sourceJobsComplete := sc_sourceJobsComplete s; sc_statusChanged :=
     sc_statusChanged s |}.

(** What a step of the reconciler decides: to return, or the run's phase and
    whether the status of its transfers changed. *)
Inductive decision :=
  | Return (result : ctrl_Result)
  | Move (phase : string) (statusChanged : bool).

Section BackupRun.
Context `{!Quantities, !Unstructured, !ControllerUtil, !TLSChecks}.
Context (r : BackupJobReconciler).

Definition dataPlaneControlOptions : DataPlaneControlOptions :=
  let namespace := if decide (bjr_ControlGRPCNamespace r = "") then ControlGRPCNamespace
                   else bjr_ControlGRPCNamespace r in
  let endpoint := if decide (bjr_ControlGRPCEndpoint r = "")
                  then dp_GRPCEndpoint (DefaultDataPlaneControlOptions namespace)
                  else bjr_ControlGRPCEndpoint r in
  MkDataPlaneControlOptions endpoint namespace.

(** ** Resolving a run *)

Definition resolveBackupJob (run : BackupJob) : io (TargetRunSet * RsyncMachine * RsyncMachine) :=
  machineRef ← io_lift (map_err (wrap "resolve machine: ")
    (ResolveObjectReference (bs_MachineRef (bj_Spec run)) (om_Namespace (bj_Meta run))));
  found ← io_try (req (Get KRsyncMachine machineRef));
  match found with
  | Err e =>
      if errors_is KNotFound e then mret (zero_run_set, inhabitant, inhabitant) else io_throw e
  | Ok target =>
      sourceList ← io_on_err (wrap "list backup sources: ") (req (List_ KBackupSource None ∅));
      let sources := sources_by_ref sourceList in
      runSet ← io_lift (CalculateTargetRunSet target sources sources sources);
      mret (runSet, target, target)
  end.

(** ** Creating the objects of a run *)

Definition backup_job_owner (k : kind) (noun : string) (create : object k → io unit) (o : object k) :
    act BackupJob unit :=
  run ← get_obj;
  lift (create_owned k (bjr_Scheme r) KBackupJob (bj_Meta run) "backup job" noun create o).

Definition createBackupJobJobIfMissing : Job → act BackupJob unit :=
  backup_job_owner KJob "job" createJobIfMissing.
Definition createBackupJobSecretIfMissing : Secret → act BackupJob unit :=
  backup_job_owner KSecret "secret" createSecretIfMissing.
Definition createBackupJobServiceIfMissing : Service_ → act BackupJob unit :=
  backup_job_owner KService "service" createServiceIfMissing.

(** The Job of a sender belongs to the run and to the source. *)
Definition createSourceJobIfMissing (source : BackupSource) : Job → act BackupJob unit :=
  backup_job_owner KJob "job" (λ job,
    createJobIfMissing (job <| j_Meta ::=
      setOwnerReferenceIfSameNamespace (bjr_Scheme r) KBackupSource (s_Meta source) |>)).

Definition ensureBackupJobCredentials (target : RsyncMachine) (runSet : TargetRunSet) :
    act BackupJob unit :=
  run ← get_obj;
  let sources := rsrc_Source <$> trs_Sources runSet in
  credentials ← lift (BuildBackupJobCredentialSecretsWithSigner run target sources
                        DefaultRunCertificateTTL (bjr_ControlGRPCSigner r) (bjr_ControlGRPCCA r));
  act_for_each (λ c, createBackupJobSecretIfMissing (CredentialSecret_Secret c)) credentials.

(** ** Capturing a source *)

(** [statusChanged = upsertBackupJobTransfer(...) || statusChanged] *)
Definition note (source : BackupSource) (update : TransferStatus) (statusChanged : bool) :
    act BackupJob bool :=
  ch ← upsertBackupJobTransfer source update; mret (ch || statusChanged).

(** A snapshot that will not come: an [Auto] source is copied directly, any other fails the run. *)
Definition give_up_snapshot (auto : bool) (source : BackupSource) (snapshotName : string)
    (captureTime : option Time) (message error : string) (statusChanged : bool) :
    act BackupJob (option ctrl_Result * SourceJobOptions * bool) :=
  if auto then
    ch ← note source (transfer_update TransferPhaseSkipped
           (message +:+ "; falling back to direct PVC copy") CaptureModeDirect snapshotName captureTime)
           statusChanged;
    mret (None, MkSourceJobOptions "" "", ch)
  else
    _ ← note source (transfer_update TransferPhaseFailed message CaptureModeVolumeSnapshot snapshotName
          captureTime) statusChanged;
    throw (ErrNew ("source " +:+ source_id_of source +:+ " " +:+ error)).

(** A snapshot to wait for. *)
Definition await_snapshot (source : BackupSource) (snapshotName : string) (captureTime : option Time)
    (message : string) (after : ctrl_Result) (statusChanged : bool) :
    act BackupJob (option ctrl_Result * SourceJobOptions * bool) :=
  ch ← note source (transfer_update TransferPhasePreparing message CaptureModeVolumeSnapshot snapshotName
         captureTime) statusChanged;
  mret (Some after, MkSourceJobOptions "" "", ch).

(** A source whose snapshot is ready: the claim made from it. *)
Definition capture_claim (auto : bool) (source : BackupSource) (snapshotName : string)
    (captureTime : option Time) (observed : VolumeSnapshot) (statusChanged : bool) :
    act BackupJob (option ctrl_Result * SourceJobOptions * bool) :=
  run ← get_obj;
  let ns := om_Namespace (s_Meta source) in
  sourcePVC ← lift (req (Get KPVC (MkNamespacedName ns (ss_PVC (s_Spec source)))));
  let temporaryPVC := BuildTemporaryPVCFromSnapshot run source sourcePVC
                        (VolumeSnapshotRestoreSize observed) in
  let temporaryPVC := temporaryPVC <| pvc_Meta ::=
        setOwnerReferenceIfSameNamespace (bjr_Scheme r) KBackupSource (s_Meta source) |> in
  _ ← lift (createPersistentVolumeClaimIfMissing temporaryPVC);
  observedPVC ← lift (req (Get KPVC (ref_of (pvc_Meta temporaryPVC))));
  if decide (pvc_Phase observedPVC ≠ ClaimBound) then
    now ← lift (ask Now);
    if resourceTimedOut (om_CreationTimestamp (pvc_Meta observedPVC)) temporaryPVCBindingTimeout now
    then give_up_snapshot auto source snapshotName captureTime
           (sourceSnapshotPVCBindTimedOut +:+ " after 5m0s")
           "temporary snapshot PVC binding timed out after 5m0s" statusChanged
    else await_snapshot source snapshotName captureTime "Waiting for temporary snapshot PVC to bind"
           temporaryPVCBindRequeueAfter statusChanged
  else
    ch ← note source (transfer_update TransferPhasePreparing "Using ready VolumeSnapshot temporary PVC"
           CaptureModeVolumeSnapshot snapshotName captureTime) statusChanged;
    mret (None, MkSourceJobOptions "" (om_Name (pvc_Meta temporaryPVC)), ch).

Definition capture_snapshot (auto : bool) (source : BackupSource) (statusChanged : bool) :
    act BackupJob (option ctrl_Result * SourceJobOptions * bool) :=
  run ← get_obj;
  let volumeSnapshot := (BuildVolumeSnapshot run source) <| vs_Meta ::=
        setOwnerReferenceIfSameNamespace (bjr_Scheme r) KBackupSource (s_Meta source) |> in
  let name := om_Name (vs_Meta volumeSnapshot) in
  _ ← lift (createVolumeSnapshotIfMissing volumeSnapshot);
  observed ← lift (getVolumeSnapshot (om_Namespace (vs_Meta volumeSnapshot)) name);
  let captureTime := VolumeSnapshotCreationTime observed in
  match VolumeSnapshotFailure observed with
  | Some failure =>
      give_up_snapshot auto source name captureTime
        (sourceSnapshotFailed +:+ ": " +:+ vf_Message failure)
        ("snapshot failed: " +:+ vf_Message failure) statusChanged
  | None =>
      if negb (VolumeSnapshotReady observed) then
        now ← lift (ask Now);
        if resourceTimedOut (om_CreationTimestamp (vs_Meta observed)) snapshotReadyTimeout now
        then give_up_snapshot auto source name captureTime (sourceSnapshotTimedOut +:+ " after 10m0s")
               "snapshot readiness timed out after 10m0s" statusChanged
        else await_snapshot source name captureTime "Waiting for VolumeSnapshot to become ready"
               snapshotReadyRequeueAfter statusChanged
      else capture_claim auto source name captureTime observed statusChanged
  end.

(** One source: to wait for its capture, or how its sender will read it. *)
Definition prepare_source (snapshotAvailable : bool) (source : BackupSource) (statusChanged : bool) :
    act BackupJob (option ctrl_Result * SourceJobOptions * bool) :=
  let decision := DecideCaptureMode (ss_Consistency (s_Spec source)) snapshotAvailable in
  if negb (cd_Supported decision) then
    _ ← note source (transfer_update TransferPhaseFailed
          (sourceSnapshotUnsupported +:+ ": " +:+ cd_Reason decision) (cd_Method decision) "" None)
          statusChanged;
    throw (ErrNew ("source " +:+ source_id_of source +:+ " snapshot capture unsupported: " +:+
                   cd_Reason decision))
  else
    statusChanged ← (if cd_Fallback decision
      then note source (transfer_update TransferPhasePreparing
             (sourceSnapshotFallbackToDirect +:+ ": " +:+ cd_Reason decision) CaptureModeDirect "" None)
             statusChanged
      else mret statusChanged);
    if decide (cd_Method decision = CaptureModeVolumeSnapshot)
    then capture_snapshot (bool_decide (cd_Requested decision = CaptureModeAuto)) source statusChanged
    else mret (None, MkSourceJobOptions "" "", statusChanged).

Definition preparedSourceJob : Type := BackupSource * SourceJobOptions.

Fixpoint prepare_sources (snapshotAvailable : bool) (sources : list ResolvedSource)
    (prepared : list preparedSourceJob) (statusChanged : bool) :
    act BackupJob (option ctrl_Result * list preparedSourceJob * bool) :=
  match sources with
  | [] => mret (None, prepared, statusChanged)
  | source :: sources =>
      outcome ← prepare_source snapshotAvailable (rsrc_Source source) statusChanged;
      match outcome with
      | (Some after, _, statusChanged) => mret (Some after, prepared, statusChanged)
      | (None, opts, statusChanged) =>
          prepare_sources snapshotAvailable sources (prepared ++ [(rsrc_Source source, opts)]) statusChanged
      end
  end.

(** The sender of a source that is prepared. *)
Definition start_source (target : RsyncMachine) (statusChanged : bool) (p : preparedSourceJob) :
    act BackupJob bool :=
  let '(source, opts) := p in
  statusChanged ← (if decide (sjo_ClaimName opts = "")
    then note source (transfer_update TransferPhasePreparing "" CaptureModeDirect "" None) statusChanged
    else mret statusChanged);
  run ← get_obj;
  job ← raise (BuildSendSourceJobWithControl run source target opts (bjr_Image r) dataPlaneControlOptions);
  _ ← createSourceJobIfMissing source job;
  mret statusChanged.

Definition createSourceJobs (target : RsyncMachine) (runSet : TargetRunSet) :
    act BackupJob (ctrl_Result * bool) :=
  snapshotAvailable ← lift (snapshot_available r);
  outcome ← prepare_sources snapshotAvailable (trs_Sources runSet) [] false;
  match outcome with
  | (Some after, _, statusChanged) => mret (after, statusChanged)
  | (None, prepared, statusChanged) =>
      statusChanged ← act_fold (start_source target) statusChanged prepared;
      mret (no_requeue, statusChanged)
  end.

(** ** The Jobs of a run *)

Definition source_job_of (run : BackupJob) (job : Job) (source : ResolvedSource) : bool :=
  bool_decide (om_Namespace (s_Meta (rsrc_Source source)) = om_Namespace (j_Meta job) ∧
               GeneratedJobName ("source-" +:+ om_Name (s_Meta (rsrc_Source source)))
                 (om_Name (bj_Meta run)) = om_Name (j_Meta job)).

Definition find_source (run : BackupJob) (job : Job) (sources : list ResolvedSource) :
    option ResolvedSource :=
  snd <$> list_find (λ s, source_job_of run job s = true) sources.

(** The loop over the transfers: [None] when the transfer succeeded before. *)
Fixpoint transfer_capture (sourceID captureMethod : string) (transfers : list TransferStatus) :
    option string :=
  match transfers with
  | [] => Some captureMethod
  | t :: transfers =>
      if decide (ts_Source t = sourceID ∧ ts_Phase t = TransferPhaseSucceeded) then None
      else transfer_capture sourceID
             (if decide (ts_Source t = sourceID ∧ ts_CaptureMethod t ≠ "")
              then ts_CaptureMethod t else captureMethod) transfers
  end.

Definition markSourceJobSucceeded (job : Job) : act BackupJob bool :=
  run ← get_obj;
  resolved ← lift (resolveBackupJob run);
  match find_source run job (trs_Sources resolved.1.1) with
  | None => mret false
  | Some source =>
      let s := rsrc_Source source in
      let sourceID := source_id_of s in
      match transfer_capture sourceID (CaptureOrDefault (ss_Consistency (s_Spec s))) (transfers_of run) with
      | None => mret false
      | Some captureMethod =>
          changed ← upsertBackupJobTransfer s (transfer_update TransferPhaseSucceeded
                      ("Source " +:+ sourceID +:+ " completed") captureMethod "" None);
          _ ← (if (changed : bool)
               then recordRunEvent r EventTypeNormal "SourceCompleted"
                      ("Source " +:+ sourceID +:+ " completed for BackupJob " +:+ run_name run)
               else mret tt);
          mret changed
      end
  end.

(** ** Commands to the target *)

Definition run_control_key (run : BackupJob) : RunKey :=
  MkRunKey (om_Namespace (bj_Meta run)) (om_Name (bj_Meta run)) RunKindBackup.

Definition last_command_is (run : BackupJob) (id : string) : bool :=
  match bjs_LastCommand (bj_Status run) with Some c => bool_decide (cs_ID c = id) | None => false end.

Definition expected_source (retention : RetentionPolicy) (source : ResolvedSource) : ExpectedSource :=
  let path := rsrc_EffectiveDestinationPath source in
  MkExpectedSource (om_Namespace (s_Meta (rsrc_Source source))) (om_Name (s_Meta (rsrc_Source source)))
    (if RetentionPolicy_Empty retention && bool_decide (path = "") then "." else path).

Definition mark_sent (command : TargetCommand) (sentAt : Time) : act BackupJob unit :=
  modify (λ run, (MarkFinalizeCommandSent run command sentAt).1).

Definition enqueueFinalizeCommand : act BackupJob unit :=
  run ← get_obj;
  resolved ← lift (resolveBackupJob run);
  let runSet := resolved.1.1 in
  let sources := expected_source (trs_Retention runSet) <$> trs_Sources runSet in
  let commandID := "finalize-" +:+ dnsLabel (om_Name (bj_Meta run)) in
  now ← lift (ask Now);
  let sentAt := if last_command_is run commandID && backupRunFinalizeCommandSent run
                then last_sent run else now in
  let command := NewFinalizeBackupJobCommand commandID
    (MkFinalizeBackupJob (format_snapshot sentAt) sources (backupJobBytesTransferred (transfers_of run))) in
  enqueued ← lift (req (EnqueueTarget (run_control_key run) command));
  if negb enqueued && last_command_is run commandID then mret tt else mark_sent command sentAt.

Definition sourceAndTargetForBackupJob (run : BackupJob) (job : Job) :
    io (option (BackupSource * RsyncMachine)) :=
  resolved ← resolveBackupJob run;
  mret ((λ s, (rsrc_Source s, resolved.1.2)) <$> find_source run job (trs_Sources resolved.1.1)).

Definition recoveryMinAvailableBytes (target : RsyncMachine) : result Z :=
  let value := map_get (om_Annotations (m_Meta target)) AnnotationTestRecoveryMinAvailable in
  if decide (value = "") then Ok targetRecoveryMinAvailableBytes
  else
    quantity ← map_err (wrap ("invalid " +:+ AnnotationTestRecoveryMinAvailable +:+ " annotation: "))
                 (ParseQuantity value);
    if decide (Quantity_Value quantity ≤ 0)
    then Err (ErrNew ("invalid " +:+ AnnotationTestRecoveryMinAvailable +:+ " annotation " +:+ Quote value))
    else Ok (wrap_u64 (Quantity_Value quantity)).

(** [job.CreationTimestamp.After(acknowledgedAt)] *)
Definition created_after (job : Job) (t : Time) : bool :=
  bool_decide (t < om_CreationTimestamp (j_Meta job)).

Definition retry_conditions : act BackupJob unit :=
  _ ← set_cond ConditionFailed ConditionFalse ReasonRunStarted
        "BackupJob recovered target space and is retrying";
  _ ← set_cond ConditionTransport ConditionUnknown ReasonTransportRunning
        "Retrying source transfer after target space recovery";
  mret tt.

Definition retry_transfer (t : TransferStatus) : TransferStatus :=
  t <| ts_Phase := TransferPhasePreparing |> <| ts_Message := "Retrying after target space recovery" |>
    <| ts_ExitCode := 0 |>.

(** The space was recovered: the failed sender goes and the run goes on. *)
Definition retry_source (job : Job) (transferIndex : nat) : act BackupJob ctrl_Result :=
  _ ← on_err (wrap "delete failed source job after target recovery: ")
        (lift (io_ignore_notfound (deleteJobWithBackgroundPropagation job)));
  _ ← modify (set_status (λ st, st <| bjs_Phase := RunPhaseRunning |> <| bjs_CompletedAt := None |>
                                   <| bjs_Transfers ::= alter retry_transfer transferIndex |>));
  _ ← retry_conditions;
  _ ← on_err (wrap "update backup job recovery retry status: ") (ignore_notfound update_status);
  mret Second.

(** Asks the target for space. *)
Definition request_space (source : BackupSource) (target : RsyncMachine) (commandID : string) :
    act BackupJob ctrl_Result :=
  minAvailableBytes ← raise (recoveryMinAvailableBytes target);
  let command := NewRecoverSpaceCommand commandID
    (MkRecoverSpace (om_Namespace (s_Meta source)) (om_Name (s_Meta source)) "TargetOutOfSpace"
       minAvailableBytes []) in
  run ← get_obj;
  enqueued ← lift (req (EnqueueTarget (run_control_key run) command));
  if enqueued || negb (last_command_is run commandID) then
    sentAt ← lift (ask Now);
    _ ← mark_sent command sentAt;
    _ ← set_cond ConditionTransport ConditionUnknown ReasonTransportRunning
          "Waiting for target space recovery";
    _ ← on_err (wrap "update backup job recovery command status: ") (ignore_notfound update_status);
    mret (5 * Second)
  else mret (5 * Second).

(** [None]: the failure is not one of space, the run fails. *)
Definition reconcileRecoverableSourceJobFailure (job : Job) : act BackupJob (option ctrl_Result) :=
  if negb (bjr_Control r) then mret None
  else
    run ← get_obj;
    found ← lift (sourceAndTargetForBackupJob run job);
    match found with
    | None => mret None
    | Some (source, target) =>
        match list_find (λ t, ts_Source t = source_id_of source) (transfers_of run) with
        | None => mret None
        | Some (transferIndex, transfer) =>
            if negb (backupTransferOutOfSpace transfer) then mret None
            else
              let commandID := "recover-space-" +:+
                    dnsLabel (om_Namespace (s_Meta source) +:+ "-" +:+ om_Name (s_Meta source)) in
              match bjs_LastCommand (bj_Status run) with
              | Some c =>
                  if decide (cs_ID c = commandID ∧ cs_Type c = TargetCommandRecoverSpace) then
                    match cs_AcknowledgedAt c with
                    | None => mret (Some (5 * Second))
                    | Some acknowledgedAt =>
                        if created_after job acknowledgedAt then mret None
                        else after ← retry_source job transferIndex; mret (Some after)
                    end
                  else after ← request_space source target commandID; mret (Some after)
              | None => after ← request_space source target commandID; mret (Some after)
              end
        end
    end.

Definition resumeRecoveredBackupJob : act BackupJob bool :=
  run ← get_obj;
  match bjs_LastCommand (bj_Status run) with
  | None => mret false
  | Some c =>
      if decide (cs_Type c ≠ TargetCommandRecoverSpace ∨ cs_AcknowledgedAt c = None ∨
                 hasRecoveredTransferRetry (transfers_of run) = false)
      then mret false
      else
        _ ← modify (set_status (λ st, st <| bjs_Phase := RunPhaseRunning |> <| bjs_CompletedAt := None |>));
        _ ← retry_conditions;
        _ ← on_err (wrap "resume backup job after target recovery: ") (ignore_notfound update_status);
        mret true
  end.

(** ** The history of a machine *)

Definition ensureScheduledBackupJobOwnerReference : act BackupJob bool :=
  run ← get_obj;
  if deleting (bj_Meta run)
     || bool_decide (TriggerOrDefault (bj_Spec run) ≠ BackupJobTriggerScheduled) then mret false
  else
    match ResolveObjectReference (bs_MachineRef (bj_Spec run)) (om_Namespace (bj_Meta run)) with
    | Err _ => mret false
    | Ok machineRef =>
        if decide (nn_Namespace machineRef ≠ om_Namespace (bj_Meta run)) then mret false
        else if existsb (λ owner, bool_decide (ow_APIVersion owner = (gvk KRsyncMachine).1 ∧
                  ow_Kind owner = "RsyncMachine" ∧ ow_Name owner = nn_Name machineRef))
                  (om_OwnerReferences (bj_Meta run)) then mret false
        else
          found ← try (lift (req (Get KRsyncMachine machineRef)));
          match found with
          | Err e => if errors_is KNotFound e then mret false else throw e
          | Ok machine =>
              if negb (bjr_Scheme r) then mret false
              else
                owners ← raise (map_err (wrap "set scheduled backup job owner reference: ")
                           (SetControllerReference KRsyncMachine (m_Meta machine) (bj_Meta run)));
                _ ← modify (λ run, run <| bj_Meta ::= λ m, m <| om_OwnerReferences := owners |> |>);
                _ ← on_err (wrap "update scheduled backup job owner reference: ")
                      (write_back (Update KBackupJob));
                mret true
          end
    end.

Definition prune_run (snapshotAvailable : bool) (candidate : BackupJob) : io unit :=
  outcome ← io_on_err (wrap ("cleanup pruned backup job " +:+ run_name candidate +:+ ": "))
    (run_on candidate
       (cleanupRunResourcesAndRemoveFinalizer KBackupJob runKindBackup BackupJobFinalizer snapshotAvailable));
  io_on_err (wrap ("delete pruned backup job " +:+ run_name outcome.2 +:+ ": "))
    (io_ignore_notfound (req (Delete KBackupJob outcome.2 false))).

Definition pruneBackupJobHistory (run : BackupJob) : io unit :=
  match ResolveObjectReference (bs_MachineRef (bj_Spec run)) (om_Namespace (bj_Meta run)) with
  | Err _ => mret tt
  | Ok machineRef =>
      found ← io_try (req (Get KRsyncMachine machineRef));
      match found with
      | Err e => if errors_is KNotFound e then mret tt else io_throw e
      | Ok machine =>
          runs ← io_on_err (wrap "list backup jobs for history pruning: ") (req (List_ KBackupJob None ∅));
          let completed := filter (λ c, in_history machineRef c = true) runs in
          let candidates := history_candidates (ms_RunHistory (m_Spec machine)) completed in
          snapshotAvailable ← snapshot_available r;
          io_for_each (prune_run snapshotAvailable) (map_to_list candidates).*2
      end
  end.

(** ** The status of the Jobs *)

(** The loop over the Jobs of a run: the first failed Job ends it. *)
Fixpoint scan_jobs (jobs : list Job) (s : job_scan) : act BackupJob (ctrl_Result + job_scan) :=
  match jobs with
  | [] => mret (inr s)
  | job :: jobs =>
      _ ← lift (ask (RecordGeneratedJobStatus RunKindBackup (job_role job) (meta_key (j_Meta job))
                       (generatedJobStatus job)));
      if jobFailed job then
        handled ← (if decide (job_role job = RoleSourceSender)
                   then or_fail r (reconcileRecoverableSourceJobFailure job) else mret None);
        mret (match handled with
              | Some after => inl after
              | None => inr (s <| sc_failed := true |>)
              end)
      else if decide (job_role job = RoleTargetServer)
      then scan_jobs jobs (s <| sc_targetComplete := sc_targetComplete s || jobComplete job |>)
      else if decide (job_role job = RoleSourceSender) then
        let s := s <| sc_sourceJobs ::= S |> in
        if jobComplete job then
          changed ← or_fail r (markSourceJobSucceeded job);
          scan_jobs jobs (s <| sc_statusChanged := changed || sc_statusChanged s |>)
        else scan_jobs jobs (s <| sc_sourceJobsComplete := false |>)
      else scan_jobs jobs s
  end.

Definition write_source_status : act BackupJob unit :=
  on_err (wrap "update backup job source status: ") (ignore_notfound update_status).

(** Creates the source Jobs: to wait for a capture, or running. *)
Definition run_sources (target : RsyncMachine) (runSet : TargetRunSet) : act BackupJob decision :=
  outcome ← or_fail r (createSourceJobs target runSet);
  let '(sourceResult, changed) := outcome in
  if decide (sourceResult > 0) then
    _ ← (if (changed : bool) then write_source_status else mret tt);
    mret (Return sourceResult)
  else mret (Move RunPhaseRunning changed).

Definition request_finalize (statusChanged : bool) : act BackupJob decision :=
  _ ← or_fail r enqueueFinalizeCommand;
  mret (Move RunPhaseFinalizing statusChanged).

Definition record_snapshot_path (target : RsyncMachine) : act BackupJob unit :=
  modify (λ run, if decide (bjs_SnapshotPath (bj_Status run) = "")
                 then set_status (λ st, st <| bjs_SnapshotPath := backupRunSnapshotPathForStrategy target run |>) run
                 else run).

(** The run's set and target, when the sources of the set may not all have their Job yet. *)
Definition with_run_set (s : job_scan) (all_started : RsyncMachine → act BackupJob decision) :
    act BackupJob decision :=
  run ← get_obj;
  resolved ← or_fail r (lift (resolveBackupJob run));
  let '(runSet, target, _) := resolved in
  if decide (sc_sourceJobs s < length (trs_Sources runSet))%nat then run_sources target runSet
  else all_started target.

(** The phase that follows from the Jobs. *)
Definition next_phase (s : job_scan) : act BackupJob decision :=
  let sources_done := bool_decide (0 < sc_sourceJobs s)%nat && sc_sourceJobsComplete s in
  if sc_failed s then mret (Move RunPhaseFailed (sc_statusChanged s))
  else if sources_done && sc_targetComplete s && bjr_Control r then
    with_run_set s (λ target,
      run ← get_obj;
      if backupRunFinalizeCommandSent run then
        _ ← record_snapshot_path target;
        mret (Move RunPhaseSucceeded (sc_statusChanged s))
      else request_finalize (sc_statusChanged s))
  else if sources_done && bjr_Control r then
    with_run_set s (λ _, request_finalize (sc_statusChanged s))
  else if sources_done && sc_targetComplete s then
    with_run_set s (λ _, mret (Move RunPhaseSucceeded (sc_statusChanged s)))
  else if bool_decide (0 < sc_sourceJobs s)%nat then mret (Move RunPhaseRunning (sc_statusChanged s))
  else
    run ← get_obj;
    if sc_targetComplete s || bool_decide (bjs_TargetPhase (bj_Status run) = "Ready") then
      resolved ← or_fail r (lift (resolveBackupJob run));
      let '(runSet, target, _) := resolved in
      run_sources target runSet
    else mret (Move RunPhasePreparing (sc_statusChanged s)).

Definition completion_conditions (phase : string) : act BackupJob unit :=
  if decide (phase = RunPhaseSucceeded) then
    _ ← set_cond ConditionFailed ConditionFalse ReasonRunSucceeded "BackupJob completed successfully";
    _ ← set_cond ConditionTransport ConditionTrue ReasonTransportComplete "All source transfers completed";
    mret tt
  else if decide (phase = RunPhaseFailed) then
    _ ← set_cond ConditionFailed ConditionTrue ReasonRunFailed "A generated backup Job failed";
    _ ← set_cond ConditionTransport ConditionFalse ReasonTransportFailed "A generated backup Job failed";
    mret tt
  else mret tt.

Definition completion_event (phase : string) : act BackupJob unit :=
  if decide (phase = RunPhaseSucceeded)
  then recordRunEvent r EventTypeNormal ReasonRunSucceeded "BackupJob completed successfully"
  else if decide (phase = RunPhaseFailed)
  then recordRunEvent r EventTypeWarning ReasonRunFailed "BackupJob failed because a generated Job failed"
  else mret tt.

(** Writes the phase the Jobs led to and, when it is a last one, cleans up. *)
Definition apply_phase (phase : string) (statusChanged : bool) : act BackupJob ctrl_Result :=
  run ← get_obj;
  let oldPhase := phase_of run in
  if decide (phase = oldPhase) then
    _ ← (if statusChanged then write_source_status else mret tt);
    mret (if isTerminalPhase phase then no_requeue else 5 * Second)
  else
    _ ← modify (set_phase phase);
    _ ← (if decide (phase = RunPhaseSucceeded ∨ phase = RunPhaseFailed)
         then now ← lift (ask Now); modify (set_status (λ st, st <| bjs_CompletedAt := Some now |>))
         else mret tt);
    _ ← completion_conditions phase;
    _ ← on_err (wrap "update backup job job-derived status: ") (ignore_notfound update_status);
    _ ← completion_event phase;
    _ ← record_phase oldPhase;
    run ← get_obj;
    if isTerminalPhase (phase_of run) then
      _ ← lift (releaseTargetGuardsForRun run);
      _ ← lift (cleanupRunCredentialSecrets (bj_Meta run) runKindBackup);
      _ ← lift (cleanupBackupJobTargetServices (bj_Meta run));
      _ ← lift (pruneBackupJobHistory run);
      mret no_requeue
    else mret (5 * Second).

Definition reconcile_terminal_jobs : act BackupJob ctrl_Result :=
  run ← get_obj;
  resumed ← (if decide (phase_of run = RunPhaseFailed) then resumeRecoveredBackupJob else mret false);
  if (resumed : bool) then mret Second
  else
    snapshotAvailable ← lift (snapshot_available r);
    run ← get_obj;
    _ ← lift (cleanupBackupJobSnapshotResources (bj_Meta run) snapshotAvailable);
    _ ← lift (cleanupBackupJobTargetServices (bj_Meta run));
    _ ← lift (cleanupRunCredentialSecrets (bj_Meta run) runKindBackup);
    mret no_requeue.

Definition first_scan : job_scan := MkJobScan false false 0 true false.

Definition reconcileBackupJobJobStatus : act BackupJob ctrl_Result :=
  run ← get_obj;
  if isTerminalPhase (phase_of run) then reconcile_terminal_jobs
  else
    jobs ← on_err (wrap "list backup job jobs: ")
             (lift (req (List_ KJob None (run_selector (bj_Meta run) runKindBackup))));
    if decide (jobs = []) then mret no_requeue
    else
      scanned ← scan_jobs jobs first_scan;
      match scanned with
      | inl after => mret after
      | inr s =>
          decision ← next_phase s;
          match decision with
          | Return after => mret after
          | Move phase statusChanged => apply_phase phase statusChanged
          end
      end.

(** ** Reconcile *)

(** The run has the target's guard: its credentials, its Job and its Service are created, and it starts. *)
Definition start_run (runSet : TargetRunSet) (target : RsyncMachine) : act BackupJob ctrl_Result :=
  _ ← or_fail r (ensureBackupJobCredentials target runSet);
  now ← lift (ask Now);
  run ← get_obj;
  targetJob ← or_fail r (raise (BuildServeTargetJobWithControl run target runSet (bjr_Image r)
                                  (format_snapshot now) dataPlaneControlOptions));
  _ ← createBackupJobJobIfMissing targetJob;
  run ← get_obj;
  _ ← createBackupJobServiceIfMissing (BuildTargetService run target);
  run ← get_obj;
  let oldPhase := phase_of run in
  _ ← modify (set_status (λ st, st <| bjs_IncludedMachines := trs_Machines runSet |>
                                   <| bjs_Phase := RunPhasePreparing |>));
  _ ← (if decide (bjs_StartedAt (bj_Status run) = None)
       then now ← lift (ask Now); modify (set_status (λ st, st <| bjs_StartedAt := Some now |>))
       else mret tt);
  _ ← modify (set_status (λ st, st <| bjs_Conditions := [] |>));
  _ ← set_cond ConditionValid ConditionTrue ReasonResolvedReferences
        "BackupJob references resolved successfully";
  _ ← set_cond ConditionTargetReady ConditionTrue ReasonTargetReady
        ("RsyncMachine " +:+ machine_name target +:+ " is ready");
  _ ← set_cond ConditionTargetOverlap ConditionFalse ReasonNoTargetOverlap
        "No active BackupJob is mutating the target";
  _ ← set_cond ConditionFailed ConditionFalse ReasonRunStarted "BackupJob started";
  written ← try update_status;
  match written with
  | Err e =>
      if errors_is KNotFound e then mret no_requeue
      else throw (wrap "set backup job preparing phase: " e)
  | Ok _ =>
      _ ← recordRunEvent r EventTypeNormal ReasonRunStarted
            ("BackupJob started for RsyncMachine " +:+ machine_name target);
      _ ← record_phase oldPhase;
      mret no_requeue
  end.

(** The run is the one pending run of a ready target: it waits for the runs that
    use the target, replaces them, or takes the guard and starts. *)
Definition admit_run (runSet : TargetRunSet) (target machine : RsyncMachine) : act BackupJob ctrl_Result :=
  let replace := bool_decide (ConcurrencyPolicyOrDefault (m_Spec machine) = ConcurrencyPolicyReplace) in
  let wait := 30 * Second in
  run ← get_obj;
  active ← or_fail r (lift (findActiveBackupJobForTarget run target));
  proceed ← match active with
    | None => mret true
    | Some blocking =>
        if replace then
          _ ← or_fail r (lift (run_on blocking (cancelBackupJobForReplacement r run)));
          mret true
        else _ ← holdBackupJobForOverlap r target blocking machine; mret false
    end;
  if negb proceed then mret wait
  else
    restoring ← or_fail r (lift (findActiveRestoreJobForTarget target));
    match restoring with
    | Some restore => _ ← holdBackupJobForRestore r target restore; mret wait
    | None =>
        guarded ← or_fail r (lift (acquireTargetGuard r run target replace));
        match guarded with
        | (_, true) => start_run runSet target
        | (Some blocking, false) => _ ← holdBackupJobForOverlap r target blocking machine; mret wait
        | (None, false) => mret wait (* not an answer of [acquireTargetGuard] *)
        end
    end.

Definition reconcile_pending : act BackupJob ctrl_Result :=
  run ← get_obj;
  resolved ← or_fail r (lift (resolveBackupJob run));
  let '(runSet, target, machine) := resolved in
  coalesced ← or_fail r (lift (coalescePendingBackupJobsForTarget run target));
  let '(canonical, ok) := coalesced in
  if negb ok then _ ← cancelBackupJobMergedInto canonical; mret no_requeue
  else if negb (TargetReady target) then _ ← holdBackupJobForTarget r target; mret no_requeue
  else admit_run runSet target machine.

(** A run that is being deleted. *)
Definition reconcile_deleted : act BackupJob ctrl_Result :=
  snapshotAvailable ← lift (snapshot_available r);
  run ← get_obj;
  _ ← lift (releaseTargetGuardsForRun run);
  _ ← cleanupRunResourcesAndRemoveFinalizer KBackupJob runKindBackup BackupJobFinalizer snapshotAvailable;
  mret no_requeue.

(** A run that has ended. *)
Definition reconcile_ended : act BackupJob ctrl_Result :=
  run ← get_obj;
  resumed ← (if decide (phase_of run = RunPhaseFailed) then resumeRecoveredBackupJob else mret false);
  if (resumed : bool) then mret Second
  else
    snapshotAvailable ← lift (snapshot_available r);
    run ← get_obj;
    _ ← lift (releaseTargetGuardsForRun run);
    _ ← lift (cleanupBackupJobSnapshotResources (bj_Meta run) snapshotAvailable);
    _ ← lift (cleanupBackupJobTargetServices (bj_Meta run));
    _ ← lift (pruneBackupJobHistory run);
    mret no_requeue.

(** [Reconcile] once the run is read. *)
Definition reconcile_run : act BackupJob ctrl_Result :=
  owned ← ensureScheduledBackupJobOwnerReference;
  if (owned : bool) then mret no_requeue
  else
    run ← get_obj;
    if deleting (bj_Meta run) then reconcile_deleted
    else if isTerminalPhase (phase_of run) then reconcile_ended
    else if negb (ContainsFinalizer (bj_Meta run) BackupJobFinalizer) then
      _ ← modify (λ run, run <| bj_Meta ::= λ m, AddFinalizer m BackupJobFinalizer |>);
      _ ← on_err (wrap "add backup job finalizer: ") (write_back (Update KBackupJob));
      mret no_requeue
    else if decide (phase_of run ≠ "" ∧ phase_of run ≠ RunPhasePending)
    then reconcileBackupJobJobStatus
    else reconcile_pending.

Definition BackupJob_Reconcile (ref : NamespacedName) : io ctrl_Result :=
  found ← io_try (req (Get KBackupJob ref));
  match found with
  | Err e => if errors_is KNotFound e then mret no_requeue else io_throw e
  | Ok run => outcome ← run_on run reconcile_run; mret outcome.1
  end.

(** ** Requests for reconciles *)

(** The runs of a machine; a list that fails gives none. *)
Definition runs_of_machine (machineRef : NamespacedName) : io (list NamespacedName) :=
  runs ← io_try (req (List_ KBackupJob None ∅));
  match runs with
  | Err _ => mret []
  | Ok runs => mret (omap (λ run,
      match ResolveObjectReference (bs_MachineRef (bj_Spec run)) (om_Namespace (bj_Meta run)) with
      | Ok ref => if decide (ref = machineRef) then Some (run_ref run) else None
      | Err _ => None
      end) runs)
  end.

Definition backupJobsForMachine (machine : RsyncMachine) : io (list NamespacedName) :=
  runs_of_machine (machine_ref machine).

Definition backupJobsForSourceMachine (source : BackupSource) : io (list NamespacedName) :=
  match ResolveObjectReference (ss_MachineRef (s_Spec source)) (om_Namespace (s_Meta source)) with
  | Err _ => mret []
  | Ok machineRef => runs_of_machine machineRef
  end.
End BackupRun.
