(* ===== verification/RestoreRun.v ===== *)
(** * The RestoreJob reconciler (internal/controller/reconcilers.go)

    Resolving the snapshot a restore reads, waiting for the backups of its
    machine, creating its Jobs, and following their status. *)
From S2P Require Export BackupRun.
From stdpp Require Import options.
From Stdlib Require Import Ascii.

Definition RestoreJobFinalizer : string := "restorejob.krm.chirino.github.io/finalizer".

(** Its configuration, as of the BackupJob reconciler. *)
Record RestoreJobReconciler := MkRestoreJobReconciler {
  rjr_Scheme : bool;
  rjr_Image : string;
  rjr_ControlGRPCNamespace : string;
  rjr_ControlGRPCEndpoint : string;
  rjr_ControlGRPCCA : string;
  rjr_ControlGRPCSigner : option CA;
  rjr_Recorder : bool
}.

(** ** The snapshot to restore *)

Definition cleanSnapshotPath (value : string) : result string :=
  if decide (value = "") then Err (ErrNew "snapshot path is required")
  else if IsAbs value then Err (ErrNew ("snapshot path " +:+ Quote value +:+ " must be relative"))
  else if ContainsByte value "\"%char then
    Err (ErrNew ("snapshot path " +:+ Quote value +:+ " must use '/' separators"))
  else if bool_decide (".." ∈ Split value slash) then
    Err (ErrNew ("snapshot path " +:+ Quote value +:+ " must not contain '..'"))
  else
    let cleaned := Clean value in
    if decide (cleaned = ".")
    then Err (ErrNew ("snapshot path " +:+ Quote value +:+ " must name a directory"))
    else Ok cleaned.

Definition snapshot_missing (snapshot : string) (target : RsyncMachine) : goerr :=
  ErrNew ("snapshot " +:+ Quote snapshot +:+ " is not present in RsyncMachine " +:+
          machine_name target +:+ " restore points").

Definition resolveRestoreSnapshot (requested : string) (target : RsyncMachine) : result string :=
  let points := mst_RestorePoints (m_Status target) in
  if is_mirror target then
    if decide (requested = "" ∨ requested = DefaultSnapshot ∨ requested = DefaultMirrorSnapshot)
    then Ok DefaultMirrorSnapshot
    else Err (ErrNew ("mirror RsyncMachine " +:+ machine_name target +:+ " only supports snapshot " +:+
                      Quote DefaultMirrorSnapshot))
  else
    let requested := if decide (requested = "") then DefaultSnapshot else requested in
    if decide (requested ≠ DefaultSnapshot) then
      normalized ← cleanSnapshotPath requested;
      if decide (points = []) then Ok normalized
      else if existsb (λ p, bool_decide (rpt_Snapshot p = normalized)) points then Ok normalized
      else Err (snapshot_missing normalized target)
    else
      match list_find (λ p, rpt_Snapshot p = DefaultSnapshot) points with
      | Some (_, point) =>
          if decide (rpt_ResolvesTo point = "") then
            Err (ErrNew ("snapshot " +:+ Quote requested +:+ " in RsyncMachine " +:+ machine_name target +:+
                         " does not resolve to an immutable snapshot"))
          else map_err (wrap ("invalid resolved snapshot " +:+ Quote (rpt_ResolvesTo point) +:+ ": "))
                 (cleanSnapshotPath (rpt_ResolvesTo point))
      | None => Err (snapshot_missing requested target)
      end.

(** ** A restore's phase and conditions *)

Definition restore_phase (run : RestoreJob) : string := rjs_Phase (rj_Status run).

Definition set_restore_status (f : RestoreJobStatus → RestoreJobStatus) (run : RestoreJob) : RestoreJob :=
  run <| rj_Status ::= f |>.

Definition set_restore_cond (ty status reason message : string) : act RestoreJob unit :=
  now ← lift (ask Now);
  modify (λ run, set_restore_status (λ st, st <| rjs_Conditions :=
    (setCondition now (rjs_Conditions st) ty status reason message (om_Generation (rj_Meta run))).1 |>) run).

Definition restore_key (run : RestoreJob) : string := meta_key (rj_Meta run).
Definition restore_name (run : RestoreJob) : string := slash_name (rj_Meta run).

(** What the first failed Job of a restore says. *)
Fixpoint failed_condition (prefix : string) (conditions : list JobCondition) : option string :=
  match conditions with
  | [] => None
  | c :: conditions =>
      if decide (jc_Type c = JobFailed ∧ jc_Status c = ConditionTrue) then
        if decide (jc_Message c ≠ "") then Some (prefix +:+ ": " +:+ jc_Message c)
        else if decide (jc_Reason c ≠ "") then Some (prefix +:+ ": " +:+ jc_Reason c)
        else failed_condition prefix conditions
      else failed_condition prefix conditions
  end.

Fixpoint restoreJobFailureMessage (jobs : list Job) : string :=
  match jobs with
  | [] => "restore Job failed"
  | job :: jobs =>
      if negb (jobFailed job) then restoreJobFailureMessage jobs
      else
        let role := if decide (job_role job = "") then "restore" else job_role job in
        let prefix := role +:+ " Job " +:+ slash_name (j_Meta job) +:+ " failed" in
        default prefix (failed_condition prefix (j_Conditions job))
  end.

Section RestoreRun.
Context `{!Quantities, !ControllerUtil, !TLSChecks}.
Context (r : RestoreJobReconciler).

Definition restore_dataPlaneControlOptions : DataPlaneControlOptions :=
  let namespace := if decide (rjr_ControlGRPCNamespace r = "") then ControlGRPCNamespace
                   else rjr_ControlGRPCNamespace r in
  let endpoint := if decide (rjr_ControlGRPCEndpoint r = "")
                  then dp_GRPCEndpoint (DefaultDataPlaneControlOptions namespace)
                  else rjr_ControlGRPCEndpoint r in
  MkDataPlaneControlOptions endpoint namespace.

Definition restore_recordRunEvent (eventType reason message : string) : act RestoreJob unit :=
  run ← get_obj;
  if rjr_Recorder r then lift (ask (Eventf KRestoreJob (restore_run_ref run) eventType reason message))
  else mret tt.

Definition record_restore_phase (oldPhase : string) : act RestoreJob unit :=
  run ← get_obj;
  lift (ask (RecordRunPhase RunKindRestore (restore_key run) oldPhase (restore_phase run))).

Definition update_restore_status : act RestoreJob unit := write_back (UpdateStatus KRestoreJob).

Definition failRestoreJob {A} (cause : goerr) : act RestoreJob A :=
  run ← get_obj;
  let oldPhase := restore_phase run in
  now ← lift (ask Now);
  transition ← lift (ask Now);
  _ ← modify (set_restore_status (λ st, st <| rjs_Phase := RunPhaseFailed |>
        <| rjs_Message := error_text cause |> <| rjs_CompletedAt := Some now |>
        <| rjs_Conditions := [MkCondition ConditionFailed ConditionTrue (om_Generation (rj_Meta run))
                                transition ReasonReconcileError (error_text cause)] |>));
  _ ← on_err (λ e, ErrWrap "" cause ("; additionally failed to update status: " +:+ error_text e))
        (ignore_notfound update_restore_status);
  _ ← restore_recordRunEvent EventTypeWarning ReasonRunFailed ("RestoreJob failed: " +:+ error_text cause);
  _ ← record_restore_phase oldPhase;
  throw cause.

Definition or_fail_restore {A} (m : act RestoreJob A) : act RestoreJob A :=
  outcome ← try m;
  match outcome with Ok a => mret a | Err e => failRestoreJob e end.

Definition hold_restore (ty status reason condition_message event_message error : string) :
    act RestoreJob unit :=
  run ← get_obj;
  let oldPhase := restore_phase run in
  _ ← modify (set_restore_status (λ st, st <| rjs_Phase := RunPhasePending |> <| rjs_Conditions := [] |>));
  _ ← set_restore_cond ty status reason condition_message;
  _ ← on_err (wrap error) (ignore_notfound update_restore_status);
  _ ← restore_recordRunEvent EventTypeWarning reason event_message;
  record_restore_phase oldPhase.

Definition holdRestoreJobForTarget (target : RsyncMachine) : act RestoreJob unit :=
  let message := "RsyncMachine " +:+ machine_name target +:+ " is not ready" in
  hold_restore ConditionTargetReady ConditionFalse ReasonTargetNotReady message message
    "hold restore job for target readiness: ".

Definition holdRestoreJobForBackup (target : RsyncMachine) (backup : BackupJob) : act RestoreJob unit :=
  let message := "RsyncMachine " +:+ machine_name target +:+ " is being mutated by BackupJob " +:+
                 run_name backup in
  hold_restore ConditionTargetOverlap ConditionTrue ReasonActiveRunForTarget
    (message +:+ "; waiting for backup to complete") message "hold restore job for active backup: ".

(** ** Backups of the machine *)

(** [restoreActiveBackupGuardHolder] and [machineRefForBackupJobWithClient] repeat
    the functions of the BackupJob reconciler. *)
Definition restoreActiveBackupGuardHolder : string → NamespacedName → io (option BackupJob) :=
  activeGuardHolder.
Definition machineRefForBackupJobWithClient : BackupJob → io (option NamespacedName) :=
  machineRefForBackupJob.

Fixpoint first_mutating_backup (machineRef : NamespacedName) (candidates : list BackupJob) :
    io (option BackupJob) :=
  match candidates with
  | [] => mret None
  | candidate :: candidates =>
      if negb (ActiveRunBlocksTargetMutation (phase_of candidate))
      then first_mutating_backup machineRef candidates
      else
        ref ← machineRefForBackupJobWithClient candidate;
        if decide (ref = Some machineRef) then mret (Some candidate)
        else first_mutating_backup machineRef candidates
  end.

Definition restore_findActiveBackupJobForTarget (target : RsyncMachine) : io (option BackupJob) :=
  let machineRef := machine_ref target in
  let leaseRef := TargetGuardLeaseRef machineRef in
  found ← io_try (req (Get KLease leaseRef));
  holding ← match found with
    | Err e =>
        if errors_is KNotFound e then mret None
        else io_throw (wrap ("get target guard lease " +:+ nn_String leaseRef +:+ ": ") e)
    | Ok lease =>
        match l_HolderIdentity lease with
        | Some holder => if decide (holder = "") then mret None
                         else restoreActiveBackupGuardHolder holder machineRef
        | None => mret None
        end
    end;
  match holding with
  | Some blocking => mret (Some blocking)
  | None =>
      runs ← io_on_err (wrap "list backup jobs: ") (req (List_ KBackupJob None ∅));
      first_mutating_backup machineRef runs
  end.

(** ** Creating the objects of a restore *)

Definition create_for_machine (k : kind) (noun : string) (create : object k → io unit)
    (target : RsyncMachine) (o : object k) : io unit :=
  create_owned k (rjr_Scheme r) KRsyncMachine (m_Meta target) "rsync machine"
    ("restore target " +:+ noun) create o.

Definition create_for_restore (k : kind) (noun : string) (create : object k → io unit)
    (o : object k) : act RestoreJob unit :=
  run ← get_obj;
  lift (create_owned k (rjr_Scheme r) KRestoreJob (rj_Meta run) "restore job"
          ("restore writer " +:+ noun) create o).

Definition createRestoreTargetSecretIfMissing := create_for_machine KSecret "secret" createSecretIfMissing.
Definition createRestoreTargetJobIfMissing := create_for_machine KJob "job" createJobIfMissing.
Definition createRestoreTargetServiceIfMissing := create_for_machine KService "service" createServiceIfMissing.
Definition createRestoreWriterSecretIfMissing := create_for_restore KSecret "secret" createSecretIfMissing.
Definition createRestoreWriterJobIfMissing := create_for_restore KJob "job" createJobIfMissing.

Definition restore_credential (target : RsyncMachine) (credential : CredentialSecret) :
    act RestoreJob unit :=
  let secret := CredentialSecret_Secret credential in
  if decide (map_get (cred_Labels credential) LabelRole = RoleTargetServer)
  then lift (createRestoreTargetSecretIfMissing target secret)
  else createRestoreWriterSecretIfMissing secret.

(** The restore may start: its snapshot is resolved and its objects are created. *)
Definition start_restore (source : BackupSource) (target : RsyncMachine) : act RestoreJob ctrl_Result :=
  run ← get_obj;
  restoredSnapshot ← or_fail_restore
    (raise (resolveRestoreSnapshot (SnapshotOrDefault (rj_Spec run)) target));
  _ ← modify (set_restore_status (λ st, st <| rjs_RestoredSnapshot := restoredSnapshot |>));
  run ← get_obj;
  let overrides := rd_Namespace (rov_Destination (rs_Overrides (rj_Spec run))) in
  let destinationNamespace := if decide (overrides = "") then om_Namespace (rj_Meta run) else overrides in
  credentials ← or_fail_restore (lift (BuildRestoreJobCredentialSecretsWithSigner run target source
    destinationNamespace DefaultRunCertificateTTL (rjr_ControlGRPCSigner r) (rjr_ControlGRPCCA r)));
  _ ← act_for_each (restore_credential target) credentials;
  targetJob ← or_fail_restore (raise (BuildRestoreTargetJobWithControl run source target (rjr_Image r)
                                        restore_dataPlaneControlOptions));
  _ ← lift (createRestoreTargetJobIfMissing target targetJob);
  _ ← lift (createRestoreTargetServiceIfMissing target (BuildRestoreTargetService run target));
  job ← or_fail_restore (raise (BuildRestoreJobWithControl run source target (rjr_Image r)
                                  restore_dataPlaneControlOptions));
  _ ← createRestoreWriterJobIfMissing job;
  let oldPhase := restore_phase run in
  _ ← modify (set_restore_status (λ st, st <| rjs_Phase := RunPhasePreparing |> <| rjs_Conditions := [] |>));
  _ ← (if decide (rjs_StartedAt (rj_Status run) = None)
       then now ← lift (ask Now); modify (set_restore_status (λ st, st <| rjs_StartedAt := Some now |>))
       else mret tt);
  _ ← set_restore_cond ConditionValid ConditionTrue ReasonResolvedReferences
        "RestoreJob references resolved successfully";
  _ ← set_restore_cond ConditionTargetReady ConditionTrue ReasonTargetReady
        ("RsyncMachine " +:+ machine_name target +:+ " is ready");
  _ ← set_restore_cond ConditionFailed ConditionFalse ReasonRunStarted "RestoreJob started";
  written ← try update_restore_status;
  match written with
  | Err e =>
      if errors_is KNotFound e then mret no_requeue
      else throw (wrap "set restore job preparing phase: " e)
  | Ok _ =>
      _ ← restore_recordRunEvent EventTypeNormal ReasonRunStarted
            ("RestoreJob started for RsyncMachine " +:+ machine_name target);
      _ ← record_restore_phase oldPhase;
      mret no_requeue
  end.

(** Whether the machine lets the restore read it and where it may write. *)
Definition restore_refused (run : RestoreJob) (source : BackupSource) (target : RsyncMachine)
    (machineRef : NamespacedName) : option goerr :=
  let sourceNamespace := om_Namespace (s_Meta source) in
  let namespace := om_Namespace (rj_Meta run) in
  let destinationNamespace := rd_Namespace (rov_Destination (rs_Overrides (rj_Spec run))) in
  if negb (SourceNamespaceAllowed target sourceNamespace) then
    Some (ErrNew ("BackupSource namespace " +:+ sourceNamespace +:+
                  " is not allowed to attach to RsyncMachine " +:+ nn_String machineRef))
  else if negb (RestoreNamespaceAllowed target namespace) then
    Some (ErrNew ("RestoreJob namespace " +:+ namespace +:+
                  " is not allowed to restore from RsyncMachine " +:+ nn_String machineRef))
  else if decide (destinationNamespace ≠ "" ∧ destinationNamespace ≠ namespace) then
    Some (ErrNew ("RestoreJob destination namespace " +:+ destinationNamespace +:+
                  " must match RestoreJob namespace " +:+ namespace))
  else None.

Definition admit_restore (source : BackupSource) (machineRef : NamespacedName) (target : RsyncMachine) :
    act RestoreJob ctrl_Result :=
  run ← get_obj;
  match restore_refused run source target machineRef with
  | Some e => failRestoreJob e
  | None =>
      if negb (TargetReady target) then _ ← holdRestoreJobForTarget target; mret no_requeue
      else
        active ← or_fail_restore (lift (restore_findActiveBackupJobForTarget target));
        match active with
        | Some blocking => _ ← holdRestoreJobForBackup target blocking; mret (30 * Second)
        | None => start_restore source target
        end
  end.

Definition reconcile_pending_restore : act RestoreJob ctrl_Result :=
  run ← get_obj;
  sourceRef ← or_fail_restore (raise (map_err (wrap "resolve source: ")
    (ResolveObjectReference (rs_SourceRef (rj_Spec run)) (om_Namespace (rj_Meta run)))));
  found ← try (lift (req (Get KBackupSource sourceRef)));
  match found with
  | Err e => if errors_is KNotFound e then mret no_requeue else throw e
  | Ok source =>
      machineRef ← or_fail_restore (raise (map_err (wrap "resolve source machine: ")
        (ResolveObjectReference (ss_MachineRef (s_Spec source)) (om_Namespace (s_Meta source)))));
      found ← try (lift (req (Get KRsyncMachine machineRef)));
      match found with
      | Err e => if errors_is KNotFound e then mret no_requeue else throw e
      | Ok target => admit_restore source machineRef target
      end
  end.

(** ** The status of the Jobs *)

(** The loop over the Jobs: [None] at the first that failed, else whether all are complete. *)
Fixpoint scan_restore_jobs (jobs : list Job) (allComplete : bool) : io (option bool) :=
  match jobs with
  | [] => mret (Some allComplete)
  | job :: jobs =>
      _ ← ask (RecordGeneratedJobStatus RunKindRestore (job_role job) (meta_key (j_Meta job))
                 (generatedJobStatus job));
      if jobFailed job then mret None
      else scan_restore_jobs jobs (allComplete && jobComplete job)
  end.

Definition restore_completion (phase : string) (jobs : list Job) : act RestoreJob unit :=
  _ ← modify (set_restore_status (λ st, st <| rjs_Phase := phase |>));
  if decide (phase = RunPhaseSucceeded) then
    now ← lift (ask Now);
    _ ← modify (set_restore_status (λ st, st <| rjs_CompletedAt := Some now |>));
    _ ← set_restore_cond ConditionFailed ConditionFalse ReasonRunSucceeded
          "RestoreJob completed successfully";
    set_restore_cond ConditionTransport ConditionTrue ReasonTransportComplete "Restore writer completed"
  else if decide (phase = RunPhaseFailed) then
    now ← lift (ask Now);
    _ ← modify (set_restore_status (λ st, st <| rjs_CompletedAt := Some now |>
                  <| rjs_Message := restoreJobFailureMessage jobs |>));
    _ ← set_restore_cond ConditionFailed ConditionTrue ReasonRunFailed "A generated restore Job failed";
    set_restore_cond ConditionTransport ConditionFalse ReasonTransportFailed
      "A generated restore Job failed"
  else mret tt.

Definition reconcileRestoreJobJobStatus : act RestoreJob unit :=
  run ← get_obj;
  if isTerminalPhase (restore_phase run)
  then lift (cleanupRunCredentialSecrets (rj_Meta run) runKindRestore)
  else
    jobs ← on_err (wrap "list restore job jobs: ")
             (lift (req (List_ KJob None (run_selector (rj_Meta run) runKindRestore))));
    if decide (jobs = []) then mret tt
    else
      let oldPhase := restore_phase run in
      scanned ← lift (scan_restore_jobs jobs true);
      let phase := match scanned with
        | None => RunPhaseFailed
        | Some true => RunPhaseSucceeded
        | Some false => RunPhaseRunning
        end in
      _ ← (if decide (phase = RunPhaseSucceeded ∧ rjs_RestoredSnapshot (rj_Status run) = "")
           then modify (λ run, set_restore_status
                  (λ st, st <| rjs_RestoredSnapshot := SnapshotOrDefault (rj_Spec run) |>) run)
           else mret tt);
      if decide (phase = oldPhase) then mret tt
      else
        _ ← restore_completion phase jobs;
        _ ← on_err (wrap "update restore job job-derived status: ")
              (ignore_notfound update_restore_status);
        _ ← (if decide (phase = RunPhaseSucceeded)
             then restore_recordRunEvent EventTypeNormal ReasonRunSucceeded
                    "RestoreJob completed successfully"
             else if decide (phase = RunPhaseFailed)
             then restore_recordRunEvent EventTypeWarning ReasonRunFailed
                    "RestoreJob failed because a generated Job failed"
             else mret tt);
        _ ← record_restore_phase oldPhase;
        run ← get_obj;
        if isTerminalPhase (restore_phase run)
        then lift (cleanupRunCredentialSecrets (rj_Meta run) runKindRestore)
        else mret tt.

(** ** Reconcile *)

Definition reconcile_restore : act RestoreJob ctrl_Result :=
  run ← get_obj;
  if deleting (rj_Meta run) then
    _ ← cleanupRunResourcesAndRemoveFinalizer KRestoreJob runKindRestore RestoreJobFinalizer false;
    mret no_requeue
  else if negb (isTerminalPhase (restore_phase run))
          && negb (ContainsFinalizer (rj_Meta run) RestoreJobFinalizer) then
    _ ← modify (λ run, run <| rj_Meta ::= λ m, AddFinalizer m RestoreJobFinalizer |>);
    _ ← on_err (wrap "add restore job finalizer: ") (write_back (Update KRestoreJob));
    mret no_requeue
  else if decide (restore_phase run ≠ "" ∧ restore_phase run ≠ RunPhasePending)
  then _ ← reconcileRestoreJobJobStatus; mret no_requeue
  else reconcile_pending_restore.

Definition RestoreJob_Reconcile (ref : NamespacedName) : io ctrl_Result :=
  found ← io_try (req (Get KRestoreJob ref));
  match found with
  | Err e => if errors_is KNotFound e then mret no_requeue else io_throw e
  | Ok run => outcome ← run_on run reconcile_restore; mret outcome.1
  end.

(** ** Requests for reconciles *)

(** The restores of a machine; one whose machine cannot be read is left out. *)
Fixpoint restores_of_machine (machineRef : NamespacedName) (restores : list RestoreJob) :
    io (list NamespacedName) :=
  match restores with
  | [] => mret []
  | restore :: restores =>
      ref ← io_try (machineRefForRestoreJob restore);
      rest ← restores_of_machine machineRef restores;
      mret (if decide (ref = Ok (Some machineRef)) then restore_run_ref restore :: rest else rest)
  end.

Definition restoreJobsForMachine (machine : RsyncMachine) : io (list NamespacedName) :=
  restores ← io_try (req (List_ KRestoreJob None ∅));
  match restores with
  | Err _ => mret []
  | Ok restores => restores_of_machine (machine_ref machine) restores
  end.

Definition restoreJobsForSource (source : BackupSource) : io (list NamespacedName) :=
  restores ← io_try (req (List_ KRestoreJob None ∅));
  match restores with
  | Err _ => mret []
  | Ok restores => mret (omap (λ restore,
      match ResolveObjectReference (rs_SourceRef (rj_Spec restore)) (om_Namespace (rj_Meta restore)) with
      | Ok ref => if decide (ref = source_ref source) then Some (restore_run_ref restore) else None
      | Err _ => None
      end) restores)
  end.
End RestoreRun.
