(* ===== verification/Machine.v ===== *)
(** * The RsyncMachine and BackupSource reconcilers (internal/controller/reconcilers.go)

    Whether a machine and a source are valid and ready, when a machine's
    schedule is due, the BackupJobs it creates, and the requests that changes
    of other objects cause.  The cron library is a parameter. *)
From S2P Require Export BackupRun.
From stdpp Require Import options.

Definition RsyncMachineFinalizer : string := "rsyncmachine.krm.chirino.github.io/finalizer".
Definition ownedResourceReconcileAfter : Z := 600 * Second.
Definition scheduleLookback : Z := 24 * 3600 * Second.

(** [cron.ParseStandard] and [Schedule.Next] (github.com/robfig/cron). *)
Class Cron := {
  Schedule : Type;
  ParseStandard : string → result Schedule;
  Schedule_Next : Schedule → Time → Time
}.

(** ** Due times *)

Section Due.
Context `{!Cron}.

(** The loop of [nextDueSchedule]. *)
Fixpoint due_loop (n : nat) (schedule : Schedule) (now cursor last : Time) : Time * bool :=
  match n with
  | O => (last, negb (IsZero last))
  | S n =>
      let next := Schedule_Next schedule cursor in
      if decide (now < next) then (last, negb (IsZero last)) else due_loop n schedule now next next
  end.

Definition nextDueSchedule (schedule : Schedule) (machine : RsyncMachine) (now : Time) : Time * bool :=
  match mst_LastScheduledAt (m_Status machine) with
  | Some last =>
      let next := Schedule_Next schedule last in (next, negb (bool_decide (now < next)))
  | None =>
      let start := om_CreationTimestamp (m_Meta machine) in
      let start := if IsZero start || bool_decide (start < now - scheduleLookback)
                   then now - scheduleLookback else start in
      due_loop (Z.to_nat 10000) schedule now (start - Second) zero_time
  end.

Definition requeueAfter (now next : Time) : Z :=
  if IsZero next then ownedResourceReconcileAfter
  else
    let delay := next - now in
    if decide (delay ≤ 0) then Second
    else if decide (ownedResourceReconcileAfter < delay) then ownedResourceReconcileAfter
    else delay.
End Due.

Section Machine.
Context `{!ControllerUtil, !Cron}.
(** [r.Scheme != nil] *)
Context (scheme : bool).

(** ** Conditions *)

(** [changed = setCondition(&target.Status.Conditions, ...) || changed] *)
Definition set_machine_cond (ty status reason message : string) (changed : bool) : act RsyncMachine bool :=
  now ← lift (ask Now);
  target ← get_obj;
  let '(cs, ch) := setCondition now (mst_Conditions (m_Status target)) ty status reason message
                     (om_Generation (m_Meta target)) in
  _ ← put_obj (target <| m_Status ::= λ st, st <| mst_Conditions := cs |> |>);
  mret (ch || changed).

Definition update_machine_status : act RsyncMachine unit := write_back (UpdateStatus KRsyncMachine).

(** The first source of the machine whose destination is invalid, and whether it has one at all. *)
Fixpoint check_sources (machine : RsyncMachine) (found : bool) (sources : list BackupSource) :
    (string * string * string) + bool :=
  match sources with
  | [] => inr found
  | source :: sources =>
      let skip := check_sources machine found sources in
      match ResolveObjectReference (ss_MachineRef (s_Spec source)) (om_Namespace (s_Meta source)) with
      | Err _ => skip
      | Ok ref =>
          if decide (ref ≠ machine_ref machine) then skip
          else if negb (SourceNamespaceAllowed machine (om_Namespace (s_Meta source))) then skip
          else match EffectiveDestinationPathForStrategy machine source with
               | Err e => inl (ConditionFalse, ReasonInvalidSpec, "BackupSource " +:+
                               nn_String (source_ref source) +:+ " has invalid destinationPath: " +:+
                               error_text e)
               | Ok _ => check_sources machine true sources
               end
      end
  end.

(** Status, reason and message of the condition [Valid]. *)
Definition source_verdict (machine : RsyncMachine) (sourceList : list BackupSource) :
    string * string * string :=
  match check_sources machine false sourceList with
  | inl verdict => verdict
  | inr false => (ConditionFalse, ReasonInvalidSpec,
                  "at least one BackupSource must reference this RsyncMachine")
  | inr true =>
      match DetectMirrorDestinationPathOverlaps machine (sources_by_ref sourceList) with
      | Err e => (ConditionFalse, ReasonInvalidSpec, error_text e)
      | Ok (o :: _) => (ConditionFalse, ReasonInvalidSpec, "mirror target path overlap at " +:+
                        Quote (do_Path o) +:+ " with delete enabled for sources " +:+
                        namespacedNameList (do_Sources o))
      | Ok [] => (ConditionTrue, ReasonResolvedReferences, "RsyncMachine references resolved successfully")
      end
  end.

Definition validateRsyncMachineSources (machine : RsyncMachine) : io (string * string * string) :=
  let strategy := ms_Strategy (m_Spec machine) in
  if decide (TypeOrDefault strategy ∉ [BackupStrategySnapshot; BackupStrategyMirror]) then
    mret (ConditionFalse, ReasonInvalidSpec,
          "spec.strategy.type " +:+ Quote (bst_Type strategy) +:+ " is not supported")
  else if is_mirror machine && negb (RetentionPolicy_Empty (ms_Retention (m_Spec machine))) then
    mret (ConditionFalse, ReasonInvalidSpec,
          "spec.retention must be empty when spec.strategy.type is Mirror")
  else
    sourceList ← io_try (req (List_ KBackupSource None ∅));
    match sourceList with
    | Err e => mret (ConditionUnknown, ReasonMissingReference,
                     "BackupSources could not be listed: " +:+ error_text e)
    | Ok sourceList => mret (source_verdict machine sourceList)
    end.

(** ** Objects of the machine *)

Definition deleteGeneratedCronJob (target : RsyncMachine) : io unit :=
  found ← io_try (req (Get KCronJob (MkNamespacedName (om_Namespace (m_Meta target))
                                       (GeneratedCronJobName (om_Name (m_Meta target))))));
  match found with
  | Err e => if errors_is KNotFound e then mret tt else io_throw e
  | Ok cronJob => io_ignore_notfound (deleteWithBackgroundPropagation KCronJob cronJob)
  end.

Definition scheduled_run_of (machineRef : NamespacedName) (run : BackupJob) : bool :=
  bool_decide (TriggerOrDefault (bj_Spec run) = BackupJobTriggerScheduled)
  && match ResolveObjectReference (bs_MachineRef (bj_Spec run)) (om_Namespace (bj_Meta run)) with
     | Ok ref => bool_decide (ref = machineRef)
     | Err _ => false
     end.

Definition deleteScheduledBackupJobsForMachine (target : RsyncMachine) : io unit :=
  runs ← io_on_err (wrap "list scheduled backup jobs for rsync machine deletion: ")
           (req (List_ KBackupJob None ∅));
  io_for_each (λ run,
    if negb (scheduled_run_of (machine_ref target) run) then mret tt
    else io_on_err (wrap ("delete scheduled backup job " +:+ slash_name (bj_Meta run) +:+ ": "))
           (io_ignore_notfound (req (Delete KBackupJob run false)))) runs.

Definition scheduled_run (target : RsyncMachine) (scheduledAt : Time) : BackupJob :=
  let ns := om_Namespace (m_Meta target) in
  let name := om_Name (m_Meta target) in
  MkBackupJob
    ((new_meta ns (GeneratedScheduledBackupJobName name scheduledAt)
        (list_to_map [(LabelName, AppName); (LabelMachine, name); (LabelRole, RoleMachineTrigger)]))
     <| om_Annotations := {["krm.chirino.github.io/scheduled-at" := format_rfc3339 scheduledAt]} |>)
    (MkBackupJobSpec (MkObjectReference ns name) BackupJobTriggerScheduled) inhabitant.

Definition createScheduledBackupJob (target : RsyncMachine) (scheduledAt : Time) : io unit :=
  let run := scheduled_run target scheduledAt in
  run ← (if scheme then
           owners ← io_lift (map_err (wrap "set scheduled backup job owner reference: ")
                      (SetControllerReference KRsyncMachine (m_Meta target) (bj_Meta run)));
           mret (run <| bj_Meta ::= λ m, m <| om_OwnerReferences := owners |> |>)
         else mret run);
  created ← io_try (req (Create KBackupJob run));
  match created with
  | Ok _ => mret tt
  | Err e => if errors_is KAlreadyExists e then mret tt
             else io_throw (wrap "create scheduled backup job: " e)
  end.

(** ** Reconcile *)

Definition reconcileSchedule (now : Time) : act RsyncMachine ctrl_Result :=
  target ← get_obj;
  match ParseStandard (ms_Schedule (m_Spec target)) with
  | Err e =>
      changed ← set_machine_cond ConditionValid ConditionFalse ReasonInvalidSpec
                  ("spec.schedule is invalid: " +:+ error_text e) false;
      _ ← (if (changed : bool)
           then on_err (wrap "update invalid schedule condition: ") (ignore_notfound update_machine_status)
           else mret tt);
      mret ownedResourceReconcileAfter
  | Ok schedule =>
      let '(scheduledAt, due) := nextDueSchedule schedule target now in
      if negb due then mret (requeueAfter now (Schedule_Next schedule now))
      else
        _ ← lift (createScheduledBackupJob target scheduledAt);
        _ ← modify (λ target, target <| m_Status ::= λ st, st <| mst_LastScheduledAt := Some scheduledAt |> |>);
        _ ← on_err (wrap "update rsync machine last scheduled time: ")
              (ignore_notfound update_machine_status);
        mret (requeueAfter now (Schedule_Next schedule scheduledAt))
  end.

Definition reconcile_deleted_machine : act RsyncMachine ctrl_Result :=
  target ← get_obj;
  _ ← lift (deleteScheduledBackupJobsForMachine target);
  _ ← lift (deleteGeneratedCronJob target);
  if ContainsFinalizer (m_Meta target) RsyncMachineFinalizer then
    _ ← modify (λ t, t <| m_Meta ::= λ m, RemoveFinalizer m RsyncMachineFinalizer |>);
    _ ← on_err (wrap "remove rsync machine finalizer: ")
          (ignore_notfound (write_back (Update KRsyncMachine)));
    mret no_requeue
  else mret no_requeue.

(** A mirror has no restore points. *)
Definition forget_restore_points : act RsyncMachine bool :=
  target ← get_obj;
  let st := m_Status target in
  if is_mirror target && bool_decide (mst_RestorePoints st ≠ [] ∨ mst_RestorePointCount st ≠ 0) then
    now ← lift (ask Now);
    _ ← put_obj (target <| m_Status := st <| mst_RestorePoints := [] |> <| mst_RestorePointCount := 0 |>
                                          <| mst_RestorePointsUpdatedAt := Some now |> |>);
    mret true
  else mret false.

Definition both_conds (status1 status2 reason1 reason2 message1 message2 : string) (changed : bool) :
    act RsyncMachine bool :=
  changed ← set_machine_cond ConditionValid status1 reason1 message1 changed;
  set_machine_cond ConditionReady status2 reason2 message2 changed.

Definition reconcile_conditions (changed : bool) : act RsyncMachine bool :=
  target ← get_obj;
  let pvcName := ms_PVCName (m_Spec target) in
  if decide (pvcName = "") then
    both_conds ConditionFalse ConditionFalse ReasonInvalidSpec ReasonInvalidSpec "spec.pvcName is required"
      "RsyncMachine PVC is not configured" changed
  else
    let ref := MkNamespacedName (om_Namespace (m_Meta target)) pvcName in
    found ← try (lift (req (Get KPVC ref)));
    match found with
    | Err e =>
        if errors_is KNotFound e then
          let message := "PersistentVolumeClaim " +:+ nn_String ref +:+ " was not found" in
          both_conds ConditionFalse ConditionFalse ReasonMissingReference ReasonMissingReference message
            message changed
        else
          set_machine_cond ConditionValid ConditionUnknown ReasonMissingReference
            ("PersistentVolumeClaim " +:+ nn_String ref +:+ " could not be read: " +:+ error_text e) changed
    | Ok _ =>
        verdict ← lift (validateRsyncMachineSources target);
        let '(valid, reason, message) := verdict in
        if decide (valid ≠ ConditionTrue)
        then both_conds valid ConditionFalse reason reason message message changed
        else both_conds ConditionTrue ConditionTrue ReasonResolvedReferences ReasonResolvedReferences
               ("PersistentVolumeClaim " +:+ nn_String ref +:+ " and sources are available")
               "RsyncMachine is ready" changed
    end.

Definition reconcile_machine : act RsyncMachine ctrl_Result :=
  target ← get_obj;
  if deleting (m_Meta target) then reconcile_deleted_machine
  else if negb (ContainsFinalizer (m_Meta target) RsyncMachineFinalizer) then
    _ ← modify (λ t, t <| m_Meta ::= λ m, AddFinalizer m RsyncMachineFinalizer |>);
    _ ← on_err (wrap "add rsync machine finalizer: ") (write_back (Update KRsyncMachine));
    mret no_requeue
  else
    changed ← forget_restore_points;
    changed ← reconcile_conditions changed;
    _ ← (if (changed : bool)
         then on_err (wrap "update rsync machine conditions: ") (ignore_notfound update_machine_status)
         else mret tt);
    target ← get_obj;
    _ ← lift (deleteGeneratedCronJob target);
    if decide (ms_Schedule (m_Spec target) = "") then mret ownedResourceReconcileAfter
    else now ← lift (ask Now); reconcileSchedule now.

Definition RsyncMachine_Reconcile (ref : NamespacedName) : io ctrl_Result :=
  found ← io_try (req (Get KRsyncMachine ref));
  match found with
  | Err e => if errors_is KNotFound e then mret no_requeue else io_throw e
  | Ok target => outcome ← run_on target reconcile_machine; mret outcome.1
  end.

(** [RsyncMachineScheduler.run]: reconciles every machine with a schedule, whatever becomes of it. *)
Definition scheduler_run : io unit :=
  machines ← io_try (req (List_ KRsyncMachine None ∅));
  match machines with
  | Err _ => mret tt
  | Ok machines =>
      io_for_each (λ machine,
        if bool_decide (ms_Schedule (m_Spec machine) = "") || deleting (m_Meta machine) then mret tt
        else _ ← io_try (RsyncMachine_Reconcile (machine_ref machine)); mret tt) machines
  end.

(** ** Requests for reconciles *)

Definition machineForSource (source : BackupSource) : list NamespacedName :=
  match ResolveObjectReference (ss_MachineRef (s_Spec source)) (om_Namespace (s_Meta source)) with
  | Err _ => []
  | Ok ref => [ref]
  end.

Definition machinesForPVC (pvc : PersistentVolumeClaim) : io (list NamespacedName) :=
  machines ← io_try (req (List_ KRsyncMachine (Some (om_Namespace (pvc_Meta pvc))) ∅));
  match machines with
  | Err _ => mret []
  | Ok machines => mret (omap (λ m,
      if decide (ms_PVCName (m_Spec m) = om_Name (pvc_Meta pvc)) then Some (machine_ref m) else None) machines)
  end.

(** ** Sources *)

(** [changed = setCondition(&source.Status.Conditions, ...) || changed] *)
Definition set_source_cond (ty status reason message : string) (changed : bool) : act BackupSource bool :=
  now ← lift (ask Now);
  source ← get_obj;
  let '(cs, ch) := setCondition now (sst_Conditions (s_Status source)) ty status reason message
                     (om_Generation (s_Meta source)) in
  _ ← put_obj (source <| s_Status ::= λ st, st <| sst_Conditions := cs |> |>);
  mret (ch || changed).

Definition both_source_conds (status reason message1 message2 : string) : act BackupSource bool :=
  changed ← set_source_cond ConditionValid status reason message1 false;
  set_source_cond ConditionReady status reason message2 changed.

(** An object the source refers to that could not be read. *)
Definition missing_reference (what : string) (ref : NamespacedName) (e : goerr) : act BackupSource bool :=
  if errors_is KNotFound e then
    let message := what +:+ " " +:+ nn_String ref +:+ " was not found" in
    both_source_conds ConditionFalse ReasonMissingReference message message
  else
    set_source_cond ConditionValid ConditionUnknown ReasonMissingReference
      (what +:+ " " +:+ nn_String ref +:+ " could not be read: " +:+ error_text e) false.

Definition source_conditions : act BackupSource bool :=
  source ← get_obj;
  let ns := om_Namespace (s_Meta source) in
  let invalid := both_source_conds ConditionFalse ReasonInvalidSpec in
  if decide (ss_PVC (s_Spec source) = "")
  then invalid "spec.pvc is required" "BackupSource PVC is not configured"
  else match ResolveObjectReference (ss_MachineRef (s_Spec source)) ns with
  | Err e => invalid ("machineRef is invalid: " +:+ error_text e) "BackupSource machine is not configured"
  | Ok machineRef =>
      match EffectiveDestinationPath source with
      | Err e => invalid ("destinationPath is invalid: " +:+ error_text e)
                   "BackupSource destinationPath is invalid"
      | Ok _ =>
          found ← try (lift (req (Get KRsyncMachine machineRef)));
          match found with
          | Err e => missing_reference "RsyncMachine" machineRef e
          | Ok machine =>
              if negb (SourceNamespaceAllowed machine ns)
              then invalid ("BackupSource namespace " +:+ ns +:+
                            " is not allowed to attach to RsyncMachine " +:+ nn_String machineRef)
                     "BackupSource namespace is not allowed by the referenced RsyncMachine"
              else
                let ref := MkNamespacedName ns (ss_PVC (s_Spec source)) in
                found ← try (lift (req (Get KPVC ref)));
                match found with
                | Err e => missing_reference "PersistentVolumeClaim" ref e
                | Ok _ =>
                    both_source_conds ConditionTrue ReasonResolvedReferences
                      ("RsyncMachine " +:+ nn_String machineRef +:+ " and PersistentVolumeClaim " +:+
                       nn_String ref +:+ " are available") "BackupSource is ready"
                end
          end
      end
  end.

Definition reconcile_source : act BackupSource unit :=
  changed ← source_conditions;
  if (changed : bool)
  then on_err (wrap "update backup source conditions: ")
         (ignore_notfound (write_back (UpdateStatus KBackupSource)))
  else mret tt.

Definition BackupSource_Reconcile (ref : NamespacedName) : io ctrl_Result :=
  found ← io_try (req (Get KBackupSource ref));
  match found with
  | Err e => if errors_is KNotFound e then mret no_requeue else io_throw e
  | Ok source => _ ← run_on source reconcile_source; mret no_requeue
  end.

Definition sourcesForMachine (machine : RsyncMachine) : io (list NamespacedName) :=
  sources ← io_try (req (List_ KBackupSource None ∅));
  match sources with
  | Err _ => mret []
  | Ok sources => mret (omap (λ s,
      match ResolveObjectReference (ss_MachineRef (s_Spec s)) (om_Namespace (s_Meta s)) with
      | Ok ref => if decide (ref = machine_ref machine) then Some (source_ref s) else None
      | Err _ => None
      end) sources)
  end.

Definition sourcesForPVC (pvc : PersistentVolumeClaim) : io (list NamespacedName) :=
  sources ← io_try (req (List_ KBackupSource (Some (om_Namespace (pvc_Meta pvc))) ∅));
  match sources with
  | Err _ => mret []
  | Ok sources => mret (omap (λ s,
      if decide (ss_PVC (s_Spec s) = om_Name (pvc_Meta pvc)) then Some (source_ref s) else None) sources)
  end.
End Machine.
