(* ===== verification/Writes.v ===== *)
(** * Status writes of the BackupJob reconciler

    The part of the reconciler that only reads, creates and deletes: programs
    that write no BackupJob's status, and operations on the run that leave alone
    what its life is decided by.  The laws of the reconciler are rules on its status writes
    ([on_status]); here they are reduced to the few operations that do write. *)
From S2P Require Export BackupRun RestoreRun.
From stdpp Require Import options.

(** A rule on the writes of a BackupJob's status. *)
Definition on_status (W : list event → BackupJob → Prop) : rule := λ h R c,
  match c with
  | UpdateStatus k o => match k return object k → Prop with KBackupJob => W h | _ => λ _, True end o
  | _ => True
  end.

Definition no_status_write : shape := λ R c,
  match c with UpdateStatus KBackupJob _ => False | _ => True end.

Lemma no_write_allowed W h R (c : request R) : no_status_write R c → on_status W h R c.
Proof. destruct c as [| | | |k o| | | | | | | | | |]; try done. by destruct k. Qed.

(** Leaves every lease as it is. *)
Definition no_lease_change : shape := λ R c,
  match c with
  | Create KLease _ | Update KLease _ | UpdateStatus KLease _ | Delete KLease _ _ => False
  | _ => True
  end.

(** Only events that leave every lease as it is, since [h0]. *)
Definition leases_kept (h0 h : list event) : Prop := ∃ l, h = l ++ h0 ∧ Forall (shaped no_lease_change) l.

#[export] Instance leases_kept_refl : Reflexive leases_kept.
Proof. intros h. by exists []. Qed.
#[export] Instance leases_kept_trans : Transitive leases_kept.
Proof.
  intros h1 h2 h3 (l & -> & H1) (k & -> & H2). exists (k ++ l). rewrite (assoc_L (++)). split; [done|].
  by apply Forall_app.
Qed.

(** What a run is: everything but its transfers, its conditions and the records of
    its progress. *)
Definition same_run (s s' : BackupJob) : Prop :=
  bj_Meta s' = bj_Meta s ∧ bj_Spec s' = bj_Spec s ∧ phase_of s' = phase_of s ∧
  bjs_LastCommand (bj_Status s') = bjs_LastCommand (bj_Status s) ∧
  bjs_MergedInto (bj_Status s') = bjs_MergedInto (bj_Status s) ∧
  bjs_CompletedAt (bj_Status s') = bjs_CompletedAt (bj_Status s).

#[export] Instance same_run_refl : Reflexive same_run.
Proof. by repeat split. Qed.
#[export] Instance same_run_trans : Transitive same_run.
Proof. intros a b c (? & ? & ? & ? & ? & ?) (? & ? & ? & ? & ? & ?). repeat split; congruence. Qed.

Lemma same_run_meta s s' : same_run s s' → bj_Meta s' = bj_Meta s.
Proof. by intros (H & _). Qed.

Lemma same_run_phase s s' : same_run s s' → phase_of s' = phase_of s.
Proof. by intros (_ & _ & H & _). Qed.

Lemma same_run_ref s s' : same_run s s' → run_ref s' = run_ref s.
Proof. intros (H & _). unfold run_ref. by rewrite H. Qed.

(** Every result of a program is one of these. *)
Fixpoint ends {X} (Q : X → Prop) (p : prog X) : Prop :=
  match p with
  | Ret a => Q a
  | Call c k => ∀ r, ends Q (k r)
  end.

Lemma ends_bind {X Y} (Q : Y → Prop) (p : prog X) (f : X → prog Y) :
  ends (λ a, ends Q (f a)) p → ends Q (prog_bind f p).
Proof. induction p as [a|R c k IH]; cbn; auto. Qed.

Lemma ends_mono {X} (Q Q' : X → Prop) (p : prog X) : ends Q p → (∀ a, Q a → Q' a) → ends Q' p.
Proof. intros Hp HQ. induction p as [a|R c k IH]; cbn in *; auto. Qed.

Lemma ends_runs {X} (Q : X → Prop) (p : prog X) tr a : ends Q p → runs p tr a → Q a.
Proof. intros Hp Hr. induction Hr; cbn in *; auto. Qed.

(** An operation on the run that writes no status and leaves the run the same. *)
Definition calm {X} (m : act BackupJob X) : Prop :=
  ∀ s, only no_status_write (m s) ∧ ends (λ rs, same_run s rs.2) (m s).

Lemma calm_bind {X Y} (m : act BackupJob X) (f : X → act BackupJob Y) :
  calm m → (∀ a, calm (f a)) → calm (m ≫= f).
Proof.
  intros Hm Hf s. destruct (Hm s) as [Ho He]. split.
  - apply act_only_bind; [done|]. intros a s'. apply Hf.
  - apply ends_bind. eapply ends_mono; [exact He|]. intros [[a|e] s'] Hs; [|done]. cbn in *.
    eapply ends_mono; [apply Hf|]. intros rs Hrs. by etrans.
Qed.

Lemma calm_ret {X} (a : X) : calm (mret a).
Proof. by split. Qed.
Lemma calm_throw {X} e : calm (throw (A := X) e).
Proof. by split. Qed.
Lemma calm_raise {X} (x : result X) : calm (raise x).
Proof. by split. Qed.
Lemma calm_get : calm get_obj.
Proof. by split. Qed.
Lemma calm_modify f : (∀ s, same_run s (f s)) → calm (modify f).
Proof. intros H. split; [done|]. apply H. Qed.

Lemma calm_lift {X} (m : io X) : only no_status_write m → calm (lift m).
Proof.
  intros Hm s. split; [by apply act_only_lift|]. apply ends_bind.
  clear Hm. induction m as [a|R c k IH]; cbn; [done|auto].
Qed.

Lemma calm_try {X} (m : act BackupJob X) : calm m → calm (try m).
Proof.
  intros Hm s. destruct (Hm s) as [Ho He]. split; [by apply act_only_try|]. apply ends_bind.
  by eapply ends_mono.
Qed.

Lemma calm_on_err {X} f (m : act BackupJob X) : calm m → calm (on_err f m).
Proof.
  intros Hm s. destruct (Hm s) as [Ho He]. split; [by apply act_only_on_err|]. apply ends_bind.
  by eapply ends_mono.
Qed.

Lemma calm_for_each {X} (f : X → act BackupJob unit) xs : (∀ x, calm (f x)) → calm (act_for_each f xs).
Proof. intros Hf. induction xs; [apply calm_ret|]. by apply calm_bind. Qed.

Lemma calm_fold {X Y} (f : Y → X → act BackupJob Y) b xs : (∀ b x, calm (f b x)) → calm (act_fold f b xs).
Proof. intros Hf. revert b. induction xs; intros b; [apply calm_ret|]. by apply calm_bind. Qed.

(** What a calm operation does under a rule on status writes. *)
Lemma calm_safe A W {X} (m : act BackupJob X) s h :
  calm m → safe A (on_status W) (m s) h (λ rs h',
    (∃ tr, runs (m s) tr rs ∧ h' = rev tr ++ h) ∧ same_run s rs.2).
Proof.
  intros Hm. destruct (Hm s) as [Ho He]. eapply safe_mono.
  { eapply only_ran; [exact Ho|]. apply no_write_allowed. }
  intros rs h' Hran. split; [done|]. destruct Hran as (tr & Hr & _). by eapply (ends_runs _ _ _ _ He).
Qed.

Lemma quiet_safe A W {X} (p : prog X) h :
  only no_status_write p →
  safe A (on_status W) p h (λ a h', ∃ tr, runs p tr a ∧ h' = rev tr ++ h).
Proof. intros Hp. eapply only_ran; [exact Hp|]. apply no_write_allowed. Qed.

(** ** Programs that write no status *)

Create HintDb calm.

Ltac solve_quiet := solve_only; try exact I.

Section Quiet.
Context `{!Quantities, !Unstructured, !ControllerUtil, !TLSChecks}.
Notation quiet := (only no_status_write).

Lemma reconcileExistingOwnerReferences_quiet k existing desired :
  quiet (reconcileExistingOwnerReferences k existing desired).
Proof. unfold reconcileExistingOwnerReferences. cbn zeta. solve_quiet. Qed.

Lemma create_if_missing_quiet k o ge ce check :
  (∀ x, quiet (check x)) → quiet (create_if_missing k o ge ce check).
Proof. intros Hc. unfold create_if_missing. solve_quiet. Qed.

Hint Resolve reconcileExistingOwnerReferences_quiet : footprint.

Lemma createJobIfMissing_quiet job : quiet (createJobIfMissing job).
Proof. apply create_if_missing_quiet. solve_quiet. Qed.
Lemma createServiceIfMissing_quiet service : quiet (createServiceIfMissing service).
Proof. apply create_if_missing_quiet. solve_quiet. Qed.
Lemma createPersistentVolumeClaimIfMissing_quiet pvc : quiet (createPersistentVolumeClaimIfMissing pvc).
Proof. apply create_if_missing_quiet. solve_quiet. Qed.
Lemma createVolumeSnapshotIfMissing_quiet vs : quiet (createVolumeSnapshotIfMissing vs).
Proof. apply create_if_missing_quiet. solve_quiet. Qed.
Lemma createSecretIfMissing_quiet secret : quiet (createSecretIfMissing secret).
Proof. apply create_if_missing_quiet. unfold validateExistingGeneratedSecret. solve_quiet. Qed.

Hint Resolve createJobIfMissing_quiet createServiceIfMissing_quiet
  createPersistentVolumeClaimIfMissing_quiet createVolumeSnapshotIfMissing_quiet
  createSecretIfMissing_quiet : footprint.

Lemma create_owned_quiet k scheme ok owner n1 n2 create o :
  (∀ x, quiet (create x)) → quiet (create_owned k scheme ok owner n1 n2 create o).
Proof. intros Hc. unfold create_owned. solve_quiet. Qed.

Lemma delete_labeled_quiet k delete labels :
  (∀ o, quiet (delete o)) → quiet (delete_labeled k delete labels).
Proof. intros Hd. unfold delete_labeled. solve_quiet. Qed.

Lemma deleteLabeledRunJobs_quiet labels : quiet (deleteLabeledRunJobs labels).
Proof. apply delete_labeled_quiet. by split. Qed.
Lemma deleteLabeledRunPersistentVolumeClaims_quiet labels :
  quiet (deleteLabeledRunPersistentVolumeClaims labels).
Proof. apply delete_labeled_quiet. by split. Qed.
Lemma deleteLabeledRunSecrets_quiet labels : quiet (deleteLabeledRunSecrets labels).
Proof. apply delete_labeled_quiet. by split. Qed.
Lemma deleteLabeledRunServices_quiet labels : quiet (deleteLabeledRunServices labels).
Proof. apply delete_labeled_quiet. by split. Qed.
Lemma deleteLabeledRunVolumeSnapshots_quiet labels : quiet (deleteLabeledRunVolumeSnapshots labels).
Proof. apply delete_labeled_quiet. by split. Qed.

Hint Resolve deleteLabeledRunJobs_quiet deleteLabeledRunPersistentVolumeClaims_quiet
  deleteLabeledRunSecrets_quiet deleteLabeledRunServices_quiet
  deleteLabeledRunVolumeSnapshots_quiet : footprint.

Lemma cleanupRunResources_quiet run kind available : quiet (cleanupRunResources run kind available).
Proof. unfold cleanupRunResources. cbn zeta. solve_quiet. Qed.
Lemma cleanupBackupJobSnapshotResources_quiet run available :
  quiet (cleanupBackupJobSnapshotResources run available).
Proof. unfold cleanupBackupJobSnapshotResources. cbn zeta. solve_quiet. Qed.
Lemma cleanupBackupJobTargetServices_quiet run : quiet (cleanupBackupJobTargetServices run).
Proof. unfold cleanupBackupJobTargetServices. solve_quiet. Qed.
Lemma cleanupRunCredentialSecrets_quiet run kind : quiet (cleanupRunCredentialSecrets run kind).
Proof. unfold cleanupRunCredentialSecrets. solve_quiet. Qed.

Lemma cleanupRunResourcesAndRemoveFinalizer_quiet k kind finalizer available s :
  quiet (cleanupRunResourcesAndRemoveFinalizer k kind finalizer available s).
Proof.
  unfold cleanupRunResourcesAndRemoveFinalizer. pose proof cleanupRunResources_quiet. solve_quiet.
Qed.
End Quiet.

#[export] Hint Resolve reconcileExistingOwnerReferences_quiet createJobIfMissing_quiet
  createServiceIfMissing_quiet createPersistentVolumeClaimIfMissing_quiet
  createVolumeSnapshotIfMissing_quiet createSecretIfMissing_quiet create_owned_quiet
  deleteLabeledRunJobs_quiet deleteLabeledRunPersistentVolumeClaims_quiet deleteLabeledRunSecrets_quiet
  deleteLabeledRunServices_quiet deleteLabeledRunVolumeSnapshots_quiet cleanupRunResources_quiet
  cleanupBackupJobSnapshotResources_quiet cleanupBackupJobTargetServices_quiet
  cleanupRunCredentialSecrets_quiet cleanupRunResourcesAndRemoveFinalizer_quiet : footprint.

Section QuietRuns.
Context `{!Quantities, !Unstructured, !ControllerUtil, !TLSChecks}.
Context (r : BackupJobReconciler).
Notation quiet := (only no_status_write).

Lemma snapshot_available_quiet : quiet (snapshot_available r).
Proof. unfold snapshot_available. solve_quiet. Qed.

Lemma machineRefForBackupJob_quiet run : quiet (machineRefForBackupJob run).
Proof. unfold machineRefForBackupJob. solve_quiet. Qed.

Lemma machineRefForRestoreJob_quiet run : quiet (machineRefForRestoreJob run).
Proof. unfold machineRefForRestoreJob. cbn zeta. solve_quiet. Qed.

Hint Resolve snapshot_available_quiet machineRefForBackupJob_quiet machineRefForRestoreJob_quiet : footprint.

Lemma pending_runs_quiet ref runs : quiet (pending_runs ref runs).
Proof. induction runs; cbn [pending_runs]; solve_quiet. Qed.

Lemma first_active_run_quiet run ref runs : quiet (first_active_run run ref runs).
Proof. induction runs; cbn [first_active_run]; solve_quiet. Qed.

Lemma findActiveBackupJobForTarget_quiet run target : quiet (findActiveBackupJobForTarget run target).
Proof. unfold findActiveBackupJobForTarget. pose proof first_active_run_quiet. solve_quiet. Qed.

Lemma first_active_restore_quiet ref restores : quiet (first_active_restore ref restores).
Proof. induction restores; cbn [first_active_restore]; solve_quiet. Qed.

Lemma findActiveRestoreJobForTarget_quiet target : quiet (findActiveRestoreJobForTarget target).
Proof. unfold findActiveRestoreJobForTarget. pose proof first_active_restore_quiet. solve_quiet. Qed.

Lemma activeGuardHolder_quiet holder target : quiet (activeGuardHolder holder target).
Proof. unfold activeGuardHolder. solve_quiet. Qed.

Lemma releaseTargetGuardsForRun_quiet run : quiet (releaseTargetGuardsForRun run).
Proof. unfold releaseTargetGuardsForRun. solve_quiet. Qed.

Lemma resolveBackupJob_quiet run : quiet (resolveBackupJob run).
Proof. unfold resolveBackupJob. cbn zeta. solve_quiet. Qed.

Lemma source_credentials_quiet run sources ttl ca pem : quiet (source_credentials run sources ttl ca pem).
Proof. induction sources; cbn [source_credentials]; cbn zeta; solve_quiet. Qed.

Lemma buildBackupJobCredentialSecrets_quiet run target sources ttl signer pem :
  quiet (buildBackupJobCredentialSecrets run target sources ttl signer pem).
Proof.
  unfold buildBackupJobCredentialSecrets, run_ca. cbn zeta. pose proof source_credentials_quiet. solve_quiet.
Qed.

Lemma sourceAndTargetForBackupJob_quiet run job : quiet (sourceAndTargetForBackupJob run job).
Proof. unfold sourceAndTargetForBackupJob. pose proof resolveBackupJob_quiet. solve_quiet. Qed.

Lemma prune_run_quiet available candidate : quiet (prune_run available candidate).
Proof. unfold prune_run. solve_quiet. Qed.

Lemma pruneBackupJobHistory_quiet run : quiet (pruneBackupJobHistory r run).
Proof. unfold pruneBackupJobHistory. cbn zeta. pose proof prune_run_quiet. solve_quiet. Qed.
End QuietRuns.

#[export] Hint Resolve snapshot_available_quiet machineRefForBackupJob_quiet machineRefForRestoreJob_quiet
  pending_runs_quiet findActiveBackupJobForTarget_quiet findActiveRestoreJobForTarget_quiet
  activeGuardHolder_quiet releaseTargetGuardsForRun_quiet resolveBackupJob_quiet
  buildBackupJobCredentialSecrets_quiet sourceAndTargetForBackupJob_quiet
  pruneBackupJobHistory_quiet : footprint.

(** ** Calm operations *)

#[export] Hint Resolve calm_ret calm_throw calm_raise calm_get : calm.

Ltac calm_step :=
  lazymatch goal with
  | |- ∀ _, _ => intros ?
  | |- calm (match ?x with _ => _ end) => destruct x
  | |- calm (let '_ := ?x in _) => destruct x
  | |- calm _ => solve [auto with calm nocore] || (first
      [ apply calm_bind | apply calm_try | apply calm_on_err | apply calm_lift | apply calm_for_each
      | apply calm_fold | apply calm_modify ])
  | |- only _ _ => solve [solve_quiet]
  end.
Ltac solve_calm := intros; repeat calm_step; try done.

Section Calm.
Context `{!Quantities, !Unstructured, !ControllerUtil, !TLSChecks}.
Context (r : BackupJobReconciler).

Lemma set_cond_calm ty status reason message : calm (set_cond ty status reason message).
Proof.
  intros s. unfold set_cond, set_job_condition.
  split; [split; [done|]|]; intros now; cbn -[setCondition];
    unfold mbind, act_mbind; cbn -[setCondition]; destruct (setCondition _ _ _ _ _ _ _) as [cs ch];
    by repeat split.
Qed.
Hint Resolve set_cond_calm : calm.

Lemma recordRunEvent_calm ty reason message : calm (recordRunEvent r ty reason message).
Proof. unfold recordRunEvent. solve_calm. Qed.
Lemma record_phase_calm old : calm (record_phase old).
Proof. unfold record_phase. solve_calm. Qed.

Lemma setTransferStatusConditions_calm status : calm (setTransferStatusConditions status).
Proof. unfold setTransferStatusConditions, or_cond. cbn zeta. solve_calm. Qed.
Hint Resolve setTransferStatusConditions_calm recordRunEvent_calm record_phase_calm : calm.

Lemma upsertBackupJobTransfer_calm source status : calm (upsertBackupJobTransfer source status).
Proof. unfold upsertBackupJobTransfer. cbn zeta. solve_calm. Qed.
Hint Resolve upsertBackupJobTransfer_calm : calm.

Lemma backup_job_owner_calm k noun create o :
  (∀ x, only no_status_write (create x)) → calm (backup_job_owner r k noun create o).
Proof. intros. unfold backup_job_owner. solve_calm. Qed.

Lemma createBackupJobJobIfMissing_calm job : calm (createBackupJobJobIfMissing r job).
Proof. unfold createBackupJobJobIfMissing. apply backup_job_owner_calm. solve_quiet. Qed.
Lemma createBackupJobSecretIfMissing_calm secret : calm (createBackupJobSecretIfMissing r secret).
Proof. unfold createBackupJobSecretIfMissing. apply backup_job_owner_calm. solve_quiet. Qed.
Lemma createBackupJobServiceIfMissing_calm service : calm (createBackupJobServiceIfMissing r service).
Proof. unfold createBackupJobServiceIfMissing. apply backup_job_owner_calm. solve_quiet. Qed.
Lemma createSourceJobIfMissing_calm source job : calm (createSourceJobIfMissing r source job).
Proof. unfold createSourceJobIfMissing. apply backup_job_owner_calm. solve_quiet. Qed.
Hint Resolve createBackupJobJobIfMissing_calm createBackupJobSecretIfMissing_calm
  createBackupJobServiceIfMissing_calm createSourceJobIfMissing_calm : calm.

Lemma ensureBackupJobCredentials_calm target runSet : calm (ensureBackupJobCredentials r target runSet).
Proof. unfold ensureBackupJobCredentials, BuildBackupJobCredentialSecretsWithSigner. cbn zeta. solve_calm. Qed.

Lemma note_calm source update changed : calm (note source update changed).
Proof. unfold note. solve_calm. Qed.
Hint Resolve note_calm : calm.

Lemma prepare_source_calm available source changed : calm (prepare_source r available source changed).
Proof.
  unfold prepare_source, capture_snapshot, capture_claim, give_up_snapshot, await_snapshot, getVolumeSnapshot.
  cbn zeta. solve_calm.
Qed.
Hint Resolve prepare_source_calm : calm.

Lemma prepare_sources_calm available sources prepared changed :
  calm (prepare_sources r available sources prepared changed).
Proof.
  revert prepared changed. induction sources as [|source sources IH]; intros prepared changed;
    cbn [prepare_sources]; solve_calm.
Qed.
Hint Resolve prepare_sources_calm : calm.

Lemma createSourceJobs_calm target runSet : calm (createSourceJobs r target runSet).
Proof. unfold createSourceJobs, start_source. solve_calm. Qed.

Lemma markSourceJobSucceeded_calm job : calm (markSourceJobSucceeded r job).
Proof. unfold markSourceJobSucceeded. cbn zeta. solve_calm. Qed.

Lemma record_snapshot_path_calm target : calm (record_snapshot_path target).
Proof. unfold record_snapshot_path. solve_calm. case_decide; by repeat split. Qed.

Lemma completion_conditions_calm phase : calm (completion_conditions phase).
Proof. unfold completion_conditions. solve_calm. Qed.
Lemma completion_event_calm phase : calm (completion_event r phase).
Proof. unfold completion_event. solve_calm. Qed.
Lemma retry_conditions_calm : calm retry_conditions.
Proof. unfold retry_conditions. solve_calm. Qed.
End Calm.

#[export] Hint Resolve set_cond_calm setTransferStatusConditions_calm recordRunEvent_calm
  record_phase_calm upsertBackupJobTransfer_calm createBackupJobJobIfMissing_calm
  createBackupJobSecretIfMissing_calm createBackupJobServiceIfMissing_calm
  createSourceJobIfMissing_calm ensureBackupJobCredentials_calm note_calm createSourceJobs_calm
  markSourceJobSucceeded_calm record_snapshot_path_calm completion_conditions_calm
  completion_event_calm retry_conditions_calm : calm.
