(* ===== verification/Steps.v ===== *)
(** * Walking along the BackupJob reconciler

    [does W m s h Q E]: run on [s] after the history [h], the operation [m] keeps the
    rule [W] on status writes, a result satisfies [Q], and [E] holds when it fails.  The
    rules follow the text of a handler; what an operation only reads, creates or deletes
    is passed over by one rule, which keeps the record ([did]) that it was run. *)
From S2P Require Export Writes.
From stdpp Require Import options.

Definition does (W : list event → BackupJob → Prop) {X} (m : act BackupJob X) (s : BackupJob) (h : list event)
    (Q : X → BackupJob → list event → Prop) (E : BackupJob → list event → Prop) : Prop :=
  safe no_promise (on_status W) (m s) h (λ rs h',
    match rs.1 with Ok a => Q a rs.2 h' | Err _ => E rs.2 h' end).

Section Does.
Context (W : list event → BackupJob → Prop).
Implicit Types (E : BackupJob → list event → Prop).

Lemma does_bind {X Y} (m : act BackupJob X) (f : X → act BackupJob Y) s h Q E :
  does W m s h (λ a s' h', does W (f a) s' h' Q E) E → does W (m ≫= f) s h Q E.
Proof.
  intros H. apply act_safe_bind. eapply safe_mono; [exact H|]. by intros [[] ?].
Qed.

Lemma does_mono {X} (m : act BackupJob X) s h (Q Q' : X → BackupJob → list event → Prop) E E' :
  does W m s h Q E → (∀ a s' h', Q a s' h' → Q' a s' h') → (∀ s' h', E s' h' → E' s' h') →
  does W m s h Q' E'.
Proof. intros H HQ HE. eapply safe_mono; [exact H|]. intros [[] ?]; cbn; eauto. Qed.

Lemma does_grows {X} (m : act BackupJob X) s h (Q : X → BackupJob → list event → Prop) E :
  does W m s h Q E → does W m s h (λ a s' h', Q a s' h' ∧ grew h h') E.
Proof.
  intros H. eapply safe_mono; [by eapply safe_grows, H|]. intros [[a|e] s'] h' [HQ (l & -> & _)]; [|done].
  split; [done|apply grew_app].
Qed.

Lemma does_ret {X} (a : X) s h (Q : X → BackupJob → list event → Prop) E :
  Q a s h → does W (mret a) s h Q E.
Proof. done. Qed.

Lemma does_throw {X} e s h (Q : X → BackupJob → list event → Prop) E :
  E s h → does W (throw e) s h Q E.
Proof. done. Qed.

Lemma does_raise {X} (x : result X) s h (Q : X → BackupJob → list event → Prop) E :
  (∀ a, x = Ok a → Q a s h) → E s h → does W (raise x) s h Q E.
Proof. intros H HE. unfold does. destruct x; cbn; auto. Qed.

Lemma does_get s h (Q : BackupJob → BackupJob → list event → Prop) E : Q s s h → does W get_obj s h Q E.
Proof. done. Qed.

Lemma does_modify f s h (Q : unit → BackupJob → list event → Prop) E :
  Q tt (f s) h → does W (modify f) s h Q E.
Proof. done. Qed.

Lemma does_on_err {X} f (m : act BackupJob X) s h Q E :
  does W m s h Q E → does W (on_err f m) s h Q E.
Proof.
  intros H. apply act_safe_on_err. eapply safe_mono; [exact H|]. by intros [[] ?].
Qed.

Lemma does_ignore_notfound (m : act BackupJob unit) s h (Q : unit → BackupJob → list event → Prop) E :
  does W m s h Q E → (∀ s' h', E s' h' → Q tt s' h') →
  does W (ignore_notfound m) s h Q E.
Proof.
  intros H HE. apply (safe_bind _ _ (m s)). eapply safe_mono; [exact H|].
  intros [[[]|e] ?]; cbn; [done|]. destruct (errors_is _ _); auto.
Qed.

Lemma does_try {X} (m : act BackupJob X) s h (Q : result X → BackupJob → list event → Prop) E :
  does W m s h (λ a s' h', Q (Ok a) s' h') (λ s' h', ∀ e, Q (Err e) s' h') →
  does W (try m) s h Q E.
Proof.
  intros H. apply act_safe_try. eapply safe_mono; [exact H|]. intros [[] ?]; cbn; auto.
Qed.

(** An operation that is calm. *)
Lemma does_calm {X} (m : act BackupJob X) s h (Q : X → BackupJob → list event → Prop) E :
  calm m →
  (∀ a s' h', same_run s s' → grew h h' → did_after (m s) (Ok a, s') h h' → Q a s' h') →
  (∀ s' h', same_run s s' → grew h h' → E s' h') →
  does W m s h Q E.
Proof.
  intros Hm HQ HE. eapply safe_mono; [by apply calm_safe|].
  intros [[a|e] s'] h' [(tr & Hr & ->) Hs]; cbn in *.
  - apply HQ; [done|apply grew_app|]. by apply did_after_intro.
  - apply HE; [done|apply grew_app].
Qed.

(** A program that does not see the run, of which more is known. *)
Lemma does_lift_just {X} (m : io X) s h (Q : X → BackupJob → list event → Prop) E :
  safe no_promise (on_status W) m h (λ r h',
    match r with
    | Ok a => grew h h' → did_just m (Ok a) h h' → Q a s h'
    | Err _ => grew h h' → E s h'
    end) →
  does W (lift m) s h Q E.
Proof.
  intros H. apply act_safe_lift. eapply safe_mono; [by apply safe_ran|].
  intros [a|e] h'; cbn; intros [HQ (tr & Hr & ->)]; apply HQ; try apply grew_app. by exists tr, h.
Qed.

Lemma does_lift {X} (m : io X) s h (Q : X → BackupJob → list event → Prop) E :
  safe no_promise (on_status W) m h (λ r h',
    match r with
    | Ok a => grew h h' → did_after m (Ok a) h h' → Q a s h'
    | Err _ => grew h h' → E s h'
    end) →
  does W (lift m) s h Q E.
Proof.
  intros H. apply does_lift_just. eapply safe_mono; [exact H|].
  intros [a|e] h' HQ Hh; [|by apply HQ]. intros Hd. by apply HQ, did_just_after.
Qed.

Lemma does_quiet {X} (m : io X) s h (Q : X → BackupJob → list event → Prop) E :
  only no_status_write m →
  (∀ a h', grew h h' → did_after m (Ok a) h h' → Q a s h') →
  (∀ h', grew h h' → E s h') →
  does W (lift m) s h Q E.
Proof.
  intros Hm HQ HE. apply does_lift. eapply safe_mono; [by apply quiet_safe|].
  intros [a|e] h' _; auto.
Qed.

Lemma does_update s h (Q : unit → BackupJob → list event → Prop) E :
  W h s →
  (∀ s' h', grew h h' → Q tt s' h') →
  (∀ h', grew h h' → E s h') →
  does W update_status s h Q E.
Proof.
  intros HW HQ HE. split; [done|]. intros [s'|e] _; [apply HQ|apply HE]; apply grew_cons.
Qed.

(** A write of the run that is not one of its status. *)
Lemma does_write_run s h (Q : unit → BackupJob → list event → Prop) E :
  (∀ s' h', grew h h' → Q tt s' h') →
  (∀ h', grew h h' → E s h') →
  does W (write_back (Update KBackupJob)) s h Q E.
Proof.
  intros HQ HE. split; [done|]. intros [s'|e] _; [apply HQ|apply HE]; apply grew_cons.
Qed.

(** An operation that writes no status and leaves the leases. *)
Definition sober : shape := λ R c, no_status_write R c ∧ no_lease_change R c.

Lemma does_sober {X} (m : act BackupJob X) s h (Q : X → BackupJob → list event → Prop) E :
  only sober (m s) →
  (∀ a s' h', leases_kept h h' → Q a s' h') → (∀ s' h', leases_kept h h' → E s' h') →
  does W m s h Q E.
Proof.
  intros Hm HQ HE. eapply safe_mono.
  { eapply (only_safe sober); [exact Hm|]. intros h' R c [Hc _]. by apply no_write_allowed. }
  assert (∀ l, Forall (shaped sober) l → leases_kept h (l ++ h)) as Hl.
  { intros l Hl. exists l. split; [done|]. eapply Forall_impl; [exact Hl|]. by intros [] []. }
  intros [[a|e] s'] h' (l & -> & Hf & _); cbn; [apply HQ|apply HE]; by apply Hl.
Qed.

(** An operation that writes no status, whatever else it does to the run. *)
Lemma does_only {X} (m : act BackupJob X) s h :
  only no_status_write (m s) → does W m s h (λ _ _ _, True) (λ _ _, True).
Proof.
  intros Hm. eapply safe_mono; [by apply quiet_safe|]. by intros [[] ?].
Qed.
End Does.

(** The programs of the reconciler are opaque to the rules above. *)
Ltac step :=
  cbv beta zeta;
  lazymatch goal with
  | |- does _ (_ ≫= _) _ _ _ _ => apply does_bind
  | |- does _ get_obj _ _ _ _ => apply does_get
  | |- does _ (modify _) _ _ _ _ => apply does_modify
  | |- does _ (mret _) _ _ _ _ => apply does_ret
  | |- does _ (throw _) _ _ _ _ => apply does_throw
  | |- does _ (on_err _ _) _ _ _ _ => apply does_on_err
  | |- does _ (if decide ?P then _ else _) _ _ _ _ => destruct (decide P)
  | |- does _ (if ?b then _ else _) _ _ _ _ => destruct b eqn:?
  | |- does _ (match ?x with _ => _ end) _ _ _ _ => destruct x eqn:?
  end.

(** Passes over an operation that is calm, for whatever it gives. *)
Ltac pass := cbv beta zeta; first
  [ apply does_calm; [solve [auto with calm nocore]|intros ????? ?|intros ????]
  | apply does_quiet; [solve [solve_quiet]|intros ????|intros ??] ].
