(* ===== verification/Lifecycle.v ===== *)
(** * The life of a BackupJob

    [status_write] says which writes of a BackupJob's status a reconcile may issue, after
    what it learned and did before: on the run it reconciles, and on a run it merges or
    replaces.  [reconcile_writes] shows that every status write of [BackupJob_Reconcile],
    in every environment, is one of these; the laws of a run's phases follow from it. *)
From S2P Require Export Steps.
From stdpp Require Import options.

(** ** What a reconcile can know *)

Definition pending (run : BackupJob) : Prop := phase_of run = "" ∨ phase_of run = RunPhasePending.

Definition working (run : BackupJob) : Prop :=
  isTerminalPhase (phase_of run) = false ∧ phase_of run ≠ "" ∧ phase_of run ≠ RunPhasePending.

(** The run was in an answer of the API server. *)
Definition was_read (b : BackupJob) (h : list event) : Prop :=
  (∃ ref, Ev (Get KBackupJob ref) (Ok b) ∈ h) ∨
  (∃ ns labels bs, Ev (List_ KBackupJob ns labels) (Ok bs) ∈ h ∧ b ∈ bs).

Definition is_source (j : Job) : Prop := job_role j = RoleSourceSender.
Definition is_target (j : Job) : Prop := job_role j = RoleTargetServer.
#[export] Instance is_source_dec j : Decision (is_source j).
Proof. unfold is_source. apply _. Defined.
#[export] Instance is_target_dec j : Decision (is_target j).
Proof. unfold is_target. apply _. Defined.

Definition none_failed (jobs : list Job) : Prop := Forall (λ j, jobFailed j = false) jobs.
Definition sources_done (jobs : list Job) : Prop :=
  Exists is_source jobs ∧ Forall (λ j, is_source j → jobComplete j = true) jobs.
Definition target_done (jobs : list Job) : Prop := Exists (λ j, is_target j ∧ jobComplete j = true) jobs.

(** The run is to be tried again: the target made space, and a transfer waits for it. *)
Definition recovered (run : BackupJob) : Prop :=
  ∃ c, bjs_LastCommand (bj_Status run) = Some c ∧ cs_Type c = TargetCommandRecoverSpace ∧
       cs_AcknowledgedAt c ≠ None ∧ hasRecoveredTransferRetry (transfers_of run) = true.

(** The target answered that it made space, and the Job is one from before. *)
Definition space_made (run : BackupJob) (job : Job) : Prop :=
  ∃ c t, bjs_LastCommand (bj_Status run) = Some c ∧ cs_Type c = TargetCommandRecoverSpace ∧
         cs_AcknowledgedAt c = Some t ∧ created_after job t = false.

Section Lifecycle.
Context `{!Quantities, !Unstructured, !ControllerUtil, !TLSChecks}.
Context (r : BackupJobReconciler).

(** The reconciler knows the sources the run backs up, and each has its sender. *)
Definition all_started (run : BackupJob) (jobs : list Job) (h : list event) : Prop :=
  ∃ runSet target machine, did (resolveBackupJob run) (Ok (runSet, target, machine)) h ∧
    (length (trs_Sources runSet) ≤ length (filter is_source jobs))%nat.

(** What the Jobs of a run say of its phase. *)
Inductive verdict (run : BackupJob) (jobs : list Job) (h : list event) : string → Prop :=
  | verdict_failed : Exists (λ j, jobFailed j = true) jobs → verdict run jobs h RunPhaseFailed
  | verdict_succeeded :
      none_failed jobs → sources_done jobs → target_done jobs → all_started run jobs h →
      (bjr_Control r = true → backupRunFinalizeCommandSent run = true) →
      verdict run jobs h RunPhaseSucceeded
  | verdict_finalizing command accepted :
      none_failed jobs → sources_done jobs → all_started run jobs h → bjr_Control r = true →
      tc_Type command = TargetCommandFinalizeBackupJob →
      Ev (EnqueueTarget (run_control_key run) command) (Ok accepted) ∈ h →
      verdict run jobs h RunPhaseFinalizing
  | verdict_running : none_failed jobs → verdict run jobs h RunPhaseRunning
  | verdict_preparing :
      none_failed jobs → Forall (λ j, ¬ is_source j) jobs → verdict run jobs h RunPhasePreparing.

(** What a run needs on its target: the credentials, the Job that serves it and its Service. *)
Definition provisioned (run : BackupJob) (runSet : TargetRunSet) (target : RsyncMachine)
    (h0 h : list event) : Prop :=
  ∃ s1 s2 s3 s1' s2' s3' job now, same_run run s1 ∧ same_run run s2 ∧ same_run run s3 ∧
    did_after (ensureBackupJobCredentials r target runSet s1) (Ok tt, s1') h0 h ∧
    BuildServeTargetJobWithControl s1' target runSet (bjr_Image r) (format_snapshot now)
      (dataPlaneControlOptions r) = Ok job ∧
    did_after (createBackupJobJobIfMissing r job s2) (Ok tt, s2') h0 h ∧
    did_after (createBackupJobServiceIfMissing r (BuildTargetService s3 target) s3) (Ok tt, s3') h0 h.

(** The run may use the target: it is ready, no restore reads from it, and this run
    took its guard after that was known and then set the target up, with no other word on a lease. *)
Inductive admitted (run : BackupJob) (h : list event) : Prop :=
  | admitted_intro runSet target machine active replace blocking h0 h1 :
      did (resolveBackupJob run) (Ok (runSet, target, machine)) h0 →
      TargetReady target = true →
      replace = bool_decide (ConcurrencyPolicyOrDefault (m_Spec machine) = ConcurrencyPolicyReplace) →
      did (findActiveBackupJobForTarget run target) (Ok active) h0 →
      (active = None ∨ replace = true) →
      did (findActiveRestoreJobForTarget target) (Ok None) h0 →
      did_just (acquireTargetGuard r run target replace) (Ok (blocking, true)) h0 h1 →
      provisioned run runSet target h1 h →
      leases_kept h1 h →
      admitted run h.

(** The phases a reconcile may write to the run it read. *)
Inductive own_step (run : BackupJob) (h : list event) : string → Prop :=
  | step_hold : pending run → own_step run h RunPhasePending
  | step_merge canonical :
      pending run →
      canonical ≠ run_ref run →
      (∃ target, did (coalescePendingBackupJobsForTarget run target) (Ok (canonical, false)) h) →
      own_step run h RunPhaseCanceled
  | step_start : pending run → admitted run h → own_step run h RunPhasePreparing
  | step_fail : isTerminalPhase (phase_of run) = false → own_step run h RunPhaseFailed
  | step_same : working run → own_step run h (phase_of run)
  | step_jobs jobs phase :
      working run →
      Ev (List_ KJob None (run_selector (bj_Meta run) runKindBackup)) (Ok jobs) ∈ h →
      verdict run jobs h phase → own_step run h phase
  | step_retry jobs job :
      working run →
      Ev (List_ KJob None (run_selector (bj_Meta run) runKindBackup)) (Ok jobs) ∈ h →
      job ∈ jobs → jobFailed job = true → is_source job → space_made run job →
      did (io_ignore_notfound (deleteJobWithBackgroundPropagation job)) (Ok tt) h →
      own_step run h RunPhaseRunning
  | step_resume : phase_of run = RunPhaseFailed → recovered run → own_step run h RunPhaseRunning.

(** The writes to other runs: both cancel one. *)
Inductive other_step (run : BackupJob) (h : list event) (o : BackupJob) : Prop :=
  | step_duplicate b :
      was_read b h → pending b → bj_Meta o = bj_Meta b → phase_of o = RunPhaseCanceled →
      bjs_MergedInto (bj_Status o) =
        Some (MkObjectReference (om_Namespace (bj_Meta run)) (om_Name (bj_Meta run))) →
      other_step run h o
  | step_replace b runSet target machine :
      was_read b h → ActiveRunBlocksTargetMutation (phase_of b) = true → bj_Meta o = bj_Meta b →
      phase_of o = RunPhaseCanceled →
      did (resolveBackupJob run) (Ok (runSet, target, machine)) h →
      ConcurrencyPolicyOrDefault (m_Spec machine) = ConcurrencyPolicyReplace →
      other_step run h o.

Definition status_write (run : BackupJob) (h : list event) (o : BackupJob) : Prop :=
  (bj_Meta o = bj_Meta run ∧ own_step run h (phase_of o)) ∨ other_step run h o.

(** ** Facts that last *)

Lemma was_read_grew b h h' : grew h h' → was_read b h → was_read b h'.
Proof.
  intros Hh [[ref He]|(ns & ls & bs & He & Hb)]; [left|right]; eauto 10 using elem_of_grew.
Qed.

Lemma resolveBackupJob_same s s' : same_run s s' → resolveBackupJob s' = resolveBackupJob s.
Proof. intros (Hm & Hs & _). unfold resolveBackupJob. by rewrite Hm, Hs. Qed.

Lemma run_control_key_same s s' : same_run s s' → run_control_key s' = run_control_key s.
Proof. intros (Hm & _). unfold run_control_key. by rewrite Hm. Qed.

Lemma finalize_sent_same s s' :
  same_run s s' → backupRunFinalizeCommandSent s' = backupRunFinalizeCommandSent s.
Proof. intros (_ & _ & _ & Hc & _). unfold backupRunFinalizeCommandSent. by rewrite Hc. Qed.

Lemma all_started_grew run jobs h h' : grew h h' → all_started run jobs h → all_started run jobs h'.
Proof. intros Hh (rs & t & m & Hd & Hl). exists rs, t, m. eauto using did_grew. Qed.

Lemma verdict_grew run jobs h h' q : grew h h' → verdict run jobs h q → verdict run jobs h' q.
Proof.
  intros Hh []; econstructor; eauto using all_started_grew, elem_of_grew.
Qed.

(** ** Reading runs *)

(** What the run of a program shows, whatever may be asked of its requests. *)
Definition shows {X} (p : prog X) (Q : X → list event → Prop) : Prop :=
  ∀ h, safe no_promise (λ _ _ _, True) p h Q.

Lemma shows_runs {X} (p : prog X) Q tr a : shows p Q → runs p tr a → Q a (rev tr).
Proof.
  intros Hp Hr. eapply safe_runs in Hr as [HQ _]; [|apply (Hp [])|by apply Forall_forall; intros []].
  by rewrite app_nil_r in HQ.
Qed.

Lemma shows_did {X} (p : prog X) Q a h0 h :
  shows p Q → did_after p a h0 h → ∃ h1, grew h0 h1 ∧ grew h1 h ∧ Q a h1.
Proof. intros Hp Hd. eapply did_ends; [exact Hp|done|done]. Qed.

Lemma shows_did_just {X} (p : prog X) Q a h0 h : shows p Q → did_just p a h0 h → Q a h.
Proof.
  intros Hp (tr & h' & -> & _ & Hr). eapply safe_runs in Hr as [HQ _]; [exact HQ|by apply Hp|].
  apply Forall_forall. by intros [].
Qed.

Lemma shows_lift W {X} (m : io X) s h (Q : X → BackupJob → list event → Prop) E
    (K : X → list event → Prop) :
  only no_status_write m → shows m (λ r h', ∀ a, r = Ok a → K a h') →
  (∀ a h', grew h h' → did_after m (Ok a) h h' → K a h' → Q a s h') →
  (∀ h', grew h h' → E s h') →
  does W (lift m) s h Q E.
Proof.
  intros Hm HK HQ HE. apply does_lift.
  eapply safe_mono; [eapply (safe_only no_status_write); [done|apply no_write_allowed|apply HK]|].
  intros [a|e] h' Hk; auto.
Qed.
End Lifecycle.
