(* ===== verification/Refinement.v ===== *)
(** * Every status write is a step of a run's life

    The reconciler's handlers, one lemma each, against [status_write]; their composition
    is [reconcile_writes]. *)
From S2P Require Export Lifecycle.
From stdpp Require Import options.

(** ** Programs that list and read *)

Section Reads.
Context `{!Quantities, !Unstructured, !ControllerUtil, !TLSChecks}.

Lemma ends_io_bind {X Y} (Q : result Y → Prop) (m : io X) (f : X → io Y) :
  ends (λ r, match r with Ok a => ends Q (f a) | Err e => Q (Err e) end) m → ends Q (m ≫= f).
Proof. intros Hm. apply ends_bind. eapply ends_mono; [exact Hm|]. by intros []. Qed.

Lemma ends_any {X} (Q : X → Prop) (p : prog X) : (∀ a, Q a) → ends Q p.
Proof. intros HQ. induction p; cbn; auto. Qed.

Lemma ends_safe {X} (Q : X → Prop) A P (p : prog X) h (Q' : X → list event → Prop) :
  ends Q p → safe A P p h Q' → safe A P p h (λ a h', Q a ∧ Q' a h').
Proof.
  revert h. induction p as [a|R c k IH]; intros h; cbn; [done|]. intros He [Hc Hk]. split; [done|]. auto.
Qed.

Lemma pending_runs_ends ref runs :
  ends (λ x, ∀ l, x = Ok l → Forall (λ b, b ∈ runs ∧ pending b) l) (pending_runs ref runs).
Proof.
  induction runs as [|b runs IH]; cbn [pending_runs]; [by intros l [= <-]|].
  assert (ends (λ x, ∀ l, x = Ok l → Forall (λ c, c ∈ b :: runs ∧ pending c) l) (pending_runs ref runs)) as IH'.
  { eapply ends_mono; [exact IH|]. intros x Hx l ->. eapply Forall_impl; [by apply Hx|].
    intros c [Hc ?]. split; [by right|done]. }
  destruct (isTerminalPhase _ || _) eqn:Hp; [done|].
  apply orb_false_iff in Hp as [_ Hp%bool_decide_eq_false].
  apply ends_io_bind, ends_any. intros [ref'|e]; [|done].
  apply ends_io_bind. eapply ends_mono; [exact IH'|]. intros [rest|e] Hx; [|done].
  intros l [= <-]. specialize (Hx rest eq_refl). case_decide; [|done]. constructor; [|done].
  split; [left|]. unfold pending. destruct (decide (phase_of b = "")); [by left|right].
  destruct (decide (phase_of b = RunPhasePending)); [done|]. by destruct Hp.
Qed.

Lemma first_active_run_ends run ref runs :
  ends (λ x, ∀ b, x = Ok (Some b) → b ∈ runs ∧ ActiveRunBlocksTargetMutation (phase_of b) = true)
    (first_active_run run ref runs).
Proof.
  induction runs as [|c runs IH]; cbn [first_active_run]; [done|].
  assert (ends (λ x, ∀ b, x = Ok (Some b) → b ∈ c :: runs ∧ ActiveRunBlocksTargetMutation (phase_of b) = true)
            (first_active_run run ref runs)) as IH'.
  { eapply ends_mono; [exact IH|]. intros x Hx b Hb. destruct (Hx b Hb). split; [by right|done]. }
  case_decide; [done|]. destruct (ActiveRunBlocksTargetMutation _) eqn:Ha; cbn; [|done].
  case_match; [|done]. intros [m|e]; cbn; [|by case_match].
  case_decide; [|done]. intros b [= <-]. split; [left|done].
Qed.

Lemma findActiveBackupJobForTarget_shows run target :
  shows (findActiveBackupJobForTarget run target) (λ x h, ∀ a, x = Ok a →
    ∀ b, a = Some b → was_read b h ∧ ActiveRunBlocksTargetMutation (phase_of b) = true).
Proof.
  intros h. apply io_safe_bind. split; [done|]. intros [runs|e] _; [|done]. cbn.
  eapply safe_mono.
  { apply safe_grows, ends_safe; [apply first_active_run_ends|].
    eapply only_ran; [by apply first_active_run_quiet|done]. }
  intros x h' [[Hx _] (l & -> & _)] a -> b ->. destruct (Hx b eq_refl) as [Hb Ha]. split; [|done].
  right. eexists _, _, runs. split; [|done]. apply elem_of_app. right. left.
Qed.

Lemma activeGuardHolder_shows holder target :
  shows (activeGuardHolder holder target) (λ x h, ∀ a, x = Ok a →
    ∀ b, a = Some b → was_read b h ∧ ActiveRunBlocksTargetMutation (phase_of b) = true).
Proof.
  intros h. unfold activeGuardHolder. destruct (parseBackupJobGuardHolder holder) as [ref|]; [|by intros a [= <-]].
  apply io_safe_bind. split; [done|]. intros [run|e] _; cbn; [|by case_match; intros a [= <-]].
  destruct (ActiveRunBlocksTargetMutation _) eqn:Ha; cbn; [|by intros a [= <-]].
  apply io_safe_bind, io_safe_on_err. eapply safe_mono.
  { apply safe_grows. eapply only_ran; [apply machineRefForBackupJob_quiet|done]. }
  intros [t|e] h' [_ (l & -> & _)]; cbn; [|done].
  assert (was_read run (l ++ Ev (Get KBackupJob ref) (Ok run) :: h)) as Hread.
  { left. exists ref. apply elem_of_app. right. left. }
  repeat case_match; intros a [= <-] b Hb; simplify_eq; done.
Qed.
End Reads.

(** ** Writes that end a handler *)

(** The rest of a handler, which writes no more. *)
Lemma does_rest `{!Quantities, !Unstructured, !ControllerUtil, !TLSChecks} W {X} (m : act BackupJob X) s h :
  calm m → does W m s h (λ _ _ _, True) (λ _ _, True).
Proof. intros Hm. by apply does_calm. Qed.

(** Equations between the runs of a handler, and histories that grew. *)
Ltac same :=
  unfold same_run, phase_of, set_status in *; destruct_and?; cbn in *; destruct_and?; repeat split; congruence.
Ltac grows := repeat first [reflexivity | eassumption | etrans; [|eassumption]].

(** Follows a handler up to its next write. *)
Ltac go := repeat first [step | pass; [|solve [done | intros; same]]].
Ltac walk := go; try done.

Section Writers.
Context `{!Quantities, !Unstructured, !ControllerUtil, !TLSChecks}.
Context (r : BackupJobReconciler) (W : list event → BackupJob → Prop).

(** Writes the status and goes on when the run is gone. *)
Lemma does_write (s : BackupJob) h (Q : unit → BackupJob → list event → Prop) E :
  W h s → (∀ s' h', grew h h' → Q tt s' h') → (∀ h', grew h h' → E s h') →
  does W (ignore_notfound update_status) s h Q E.
Proof.
  intros HW HQ HE. apply (safe_bind _ _ (update_status s)). split; [done|].
  intros [s'|e] _; cbn; [apply HQ, grew_cons|]. destruct (errors_is _ _); cbn; [apply HQ|apply HE]; apply grew_cons.
Qed.

Lemma failBackupJob_does {X} cause s h (Q : X → BackupJob → list event → Prop) :
  (∀ h' o, grew h h' → bj_Meta o = bj_Meta s → phase_of o = RunPhaseFailed → W h' o) →
  does W (failBackupJob r cause) s h Q (λ _ _, True).
Proof.
  intros HW. unfold failBackupJob. go. apply does_write.
  - apply HW; [by etrans|done|done].
  - intros s1 h1 _. walk.
  - done.
Qed.

(** A step whose failure fails the run. *)
Lemma does_or_fail {X} (m : act BackupJob X) s h (Q : X → BackupJob → list event → Prop) :
  does W m s h (λ a s' h', Q a s' h')
    (λ s' h', ∀ h'' o, grew h' h'' → bj_Meta o = bj_Meta s' → phase_of o = RunPhaseFailed → W h'' o) →
  does W (or_fail r m) s h Q (λ _ _, True).
Proof.
  intros Hm. unfold or_fail. step. apply does_try. eapply does_mono; [exact Hm|done|].
  intros s' h' HE e. by apply failBackupJob_does.
Qed.

Lemma hold_does ty status reason m1 m2 error s h :
  (∀ h' o, grew h h' → bj_Meta o = bj_Meta s → phase_of o = RunPhasePending → W h' o) →
  does W (hold r ty status reason m1 m2 error) s h (λ _ _ _, True) (λ _ _, True).
Proof.
  intros HW. unfold hold. go. apply does_write.
  - match goal with Hs : same_run _ _ |- _ => destruct Hs as (Hm & _ & Hp & _) end.
    apply HW; [done|by rewrite Hm|by rewrite Hp].
  - intros s1 h1 _. walk.
  - done.
Qed.

Lemma cancelBackupJobMergedInto_does canonical s h :
  (∀ h' o, grew h h' → bj_Meta o = bj_Meta s → phase_of o = RunPhaseCanceled →
     bjs_MergedInto (bj_Status o) = Some (MkObjectReference (nn_Namespace canonical) (nn_Name canonical)) →
     W h' o) →
  does W (cancelBackupJobMergedInto canonical) s h (λ _ _ _, True) (λ _ _, True).
Proof.
  intros HW. unfold cancelBackupJobMergedInto. go. apply does_write.
  - match goal with Hs : same_run _ _ |- _ => destruct Hs as (Hm & _ & Hp & _ & Hi & _) end.
    apply HW; [by etrans|by rewrite Hm|by rewrite Hp|by rewrite Hi].
  - intros s1 h1 _. walk.
  - done.
Qed.

Lemma cancelBackupJobForReplacement_does replacement s h :
  (∀ h' o, grew h h' → bj_Meta o = bj_Meta s → phase_of o = RunPhaseCanceled → W h' o) →
  does W (cancelBackupJobForReplacement r replacement) s h (λ _ _ _, True) (λ _ _, True).
Proof.
  intros HW. unfold cancelBackupJobForReplacement. go. apply does_write.
  - match goal with Hs : same_run _ _ |- _ => destruct Hs as (Hm & _ & Hp & _) end.
    apply HW; [by etrans|by rewrite Hm|by rewrite Hp].
  - intros s1 h1 _. go. apply does_try.
    apply does_quiet; [solve_quiet| |].
    + intros [] h2 _ _. walk.
    + intros h2 _ e. walk.
  - done.
Qed.

Lemma run_on_does {X} (t : BackupJob) (m : act BackupJob X) h Q :
  does W m t h (λ _ _ _, True) (λ _ _, True) → (∀ x h', Q x h') →
  safe no_promise (on_status W) (run_on t m) h Q.
Proof. intros Hm HQ. apply safe_run_on. eapply safe_mono; [exact Hm|]. auto. Qed.
End Writers.

(** ** A pending run *)

Section Pending.
Context `{!Quantities, !Unstructured, !ControllerUtil, !TLSChecks}.
Context (r : BackupJobReconciler) (run : BackupJob).
Notation W := (status_write r run).
Notation safe' := (safe no_promise (on_status W)).

Lemma own_failure h o :
  isTerminalPhase (phase_of run) = false → bj_Meta o = bj_Meta run → phase_of o = RunPhaseFailed → W h o.
Proof. intros Ht Hm Hp. left. split; [done|]. rewrite Hp. by constructor. Qed.

Lemma pending_not_terminal : pending run → isTerminalPhase (phase_of run) = false.
Proof. by intros [-> | ->]. Qed.

(** The rule for a step whose failure fails the run, as the handlers meet it. *)
Lemma does_or_fail_run {X} (m : act BackupJob X) s h (Q : X → BackupJob → list event → Prop) :
  isTerminalPhase (phase_of run) = false →
  does W m s h Q (λ s' _, bj_Meta s' = bj_Meta run) → does W (or_fail r m) s h Q (λ _ _, True).
Proof.
  intros Ht Hm. apply does_or_fail. eapply does_mono; [exact Hm|done|].
  cbn. intros s' h' Hs h2 o _ Ho Hp. apply own_failure; congruence.
Qed.

Lemma coalescePendingBackupJobsForTarget_safe target h :
  safe' (coalescePendingBackupJobsForTarget run target) h
    (λ x _, ∀ c, x = Ok (c, false) → c ≠ run_ref run).
Proof.
  apply io_safe_bind, io_safe_on_err. split; [done|]. intros [runs|e] _; cbn; [|done].
  apply io_safe_bind. eapply safe_mono.
  { apply safe_grows, ends_safe; [apply pending_runs_ends|]. apply quiet_safe, pending_runs_quiet. }
  intros [l|e] h' [[Hl _] (l' & -> & _)]; [|done]. specialize (Hl l eq_refl).
  case_decide; [done|]. destruct (sort_by pending_le l) as [|first rest] eqn:Hsort; [done|].
  cbn zeta. case_decide as Hc; [|by intros c [= <-]].
  apply io_safe_bind. apply safe_mono with (λ _ _, True); [|by intros [[]|e] h2 _].
  apply safe_for_each. intros b h2 Hb Hh2. apply io_safe_bind.
  apply safe_mono with (λ _ _, True); [|by intros [[]|e] h3 _].
  apply run_on_does; [|done]. apply cancelBackupJobMergedInto_does.
  intros h3 o Hh3 Hm Hp Hi. right. rewrite Hc in Hi. rewrite Forall_forall in Hl.
  assert (b ∈ l) as Hbl.
  { rewrite <-(merge_sort_Permutation pending_le l : sort_by pending_le l ≡ₚ l), Hsort. by right. }
  destruct (Hl b Hbl) as [Hin Hpend]. eapply step_duplicate; [|done..].
  eapply was_read_grew; [exact Hh3|]. eapply was_read_grew; [exact Hh2|]. right.
  eexists _, _, runs. split; [|done]. apply elem_of_app. right. left.
Qed.

(** Replacing runs is asked for by the machine of the run. *)
Definition may_replace (h : list event) : Prop :=
  ∃ runSet target machine, did (resolveBackupJob run) (Ok (runSet, target, machine)) h ∧
    ConcurrencyPolicyOrDefault (m_Spec machine) = ConcurrencyPolicyReplace.

Lemma replace_safe {X} blocking h (Q : result X → list event → Prop) (f : unit * BackupJob → io X) :
  may_replace h → was_read blocking h → ActiveRunBlocksTargetMutation (phase_of blocking) = true →
  (∀ x h', grew h h' → safe' (f x) h' Q) → (∀ e h', Q (Err e) h') →
  safe' (x ← run_on blocking (cancelBackupJobForReplacement r run); f x) h Q.
Proof.
  intros (rs & t & m & Hd & Hm) Hr Ha Hf He. apply io_safe_bind. eapply safe_mono.
  { eapply safe_grows, run_on_does; [|by intros ? ?; exact I].
    apply cancelBackupJobForReplacement_does. intros h' o Hh Ho Hp. right.
    eapply step_replace; eauto using was_read_grew, did_grew. }
  intros [x|e] h' [_ (l & -> & _)]; [|done]. apply Hf. apply grew_app.
Qed.

Lemma guard_attempt_safe machineRef leaseRef replace h :
  (replace = true → may_replace h) → safe' (guard_attempt r run machineRef leaseRef replace) h (λ _ _, True).
Proof.
  intros Hrep. apply io_safe_bind. split; [done|]. intros now _. cbn.
  split; [done|]. intros [lease|e] _; cbn.
  2: { destruct (errors_is _ _); cbn; [|done]. split; [done|]. intros [l|e'] _; cbn; [done|]. by case_match. }
  assert (∀ failure h', safe' (updated ← io_try (req (Update KLease (claimTargetGuardLease lease run
    machineRef (backupRunGuardHolder run) now (default "" (l_HolderIdentity lease)))));
      match updated with
      | Ok _ => mret (Some (None (A := BackupJob), true))
      | Err e => if errors_is KConflict e then mret None else io_throw (wrap failure e)
      end) h' (λ _ _, True)) as Hclaim.
  { intros failure h'. split; [done|]. intros [l|e'] _; cbn; [done|]. by case_match. }
  case_decide; [apply Hclaim|]. apply io_safe_bind.
  eapply safe_mono.
  { apply safe_grows. eapply (safe_only no_status_write);
      [apply activeGuardHolder_quiet|apply no_write_allowed|apply activeGuardHolder_shows]. }
  intros [[blocking|]|e] h' [Hx (l & -> & _)]; [|apply Hclaim|done].
  destruct (Hx _ eq_refl blocking eq_refl) as [Hread Hact].
  destruct replace; cbn; [|done]. apply replace_safe; [|done|done|intros; apply Hclaim|done].
  destruct (Hrep eq_refl) as (rs & t & m & Hd & Hm). exists rs, t, m. split; [|done].
  eapply did_grew, Hd. eexists (l ++ [_; _]). by rewrite <-(assoc_L (++)).
Qed.

Lemma acquireTargetGuard_safe target replace h :
  (replace = true → may_replace h) → safe' (acquireTargetGuard r run target replace) h (λ _ _, True).
Proof.
  unfold acquireTargetGuard. generalize 3%nat (machine_ref target). intros n ref. revert h.
  induction n as [|n IH]; intros h Hrep; cbn [guard_attempts]; [done|]. apply io_safe_bind. eapply safe_mono.
  { apply safe_grows, (guard_attempt_safe _ _ _ _ Hrep). }
  intros [[o|]|e] h' [_ (l & -> & _)]; [done| |done]. apply IH. intros Hr.
  destruct (Hrep Hr) as (rs & t & m & Hd & Hm). exists rs, t, m. eauto using did_grew, grew_app.
Qed.

(** What is known before the target is set up. *)
Definition guarded (runSet : TargetRunSet) (target machine : RsyncMachine) (h : list event) : Prop :=
  ∃ active replace blocking h0,
    did (resolveBackupJob run) (Ok (runSet, target, machine)) h0 ∧ TargetReady target = true ∧
    replace = bool_decide (ConcurrencyPolicyOrDefault (m_Spec machine) = ConcurrencyPolicyReplace) ∧
    did (findActiveBackupJobForTarget run target) (Ok active) h0 ∧ (active = None ∨ replace = true) ∧
    did (findActiveRestoreJobForTarget target) (Ok None) h0 ∧
    did_just (acquireTargetGuard r run target replace) (Ok (blocking, true)) h0 h.

Lemma guarded_admitted runSet target machine h0 h :
  guarded runSet target machine h0 → provisioned r run runSet target h0 h → leases_kept h0 h → admitted r run h.
Proof. intros (a & rep & b & h1 & ?) Hp. destruct_and!. by eapply admitted_intro. Qed.

(** What [start_run] writes to the run: a failure, or the start once the target is set up. *)
Definition start_write (runSet : TargetRunSet) (target : RsyncMachine) (h h' : list event) (o : BackupJob) : Prop :=
  bj_Meta o = bj_Meta run ∧
  (phase_of o = RunPhaseFailed ∨ phase_of o = RunPhasePreparing ∧ provisioned r run runSet target h h').

Lemma start_run_provisions runSet target h :
  does (start_write runSet target h) (start_run r runSet target) run h (λ _ _ _, True) (λ _ _, True).
Proof.
  assert (∀ s' h' h'' o, bj_Meta s' = bj_Meta run → grew h' h'' → bj_Meta o = bj_Meta s' →
    phase_of o = RunPhaseFailed → start_write runSet target h h'' o) as Hfail.
  { intros s' h' h'' o Hs _ Hm Hp. split; [congruence|by left]. }
  unfold start_run. step. apply does_or_fail. pass; [|by intros; eapply Hfail; [by apply same_run_meta| |..]]. destruct a.
  rename select (same_run run s') into Hs1. rename select (did_after (ensureBackupJobCredentials _ _ _ _) _ _ _) into Hd1.
  step. pass; [|done]. do 2 step. step. apply does_or_fail.
  apply does_raise; [intros job Hjob|by intros; eapply Hfail; [by apply same_run_meta| |..]].
  step. pass; [|done]. destruct a0.
  rename select (did_after (createBackupJobJobIfMissing _ _ _) _ _ _) into Hd2.
  do 3 step. pass; [|done]. destruct a0.
  rename select (did_after (createBackupJobServiceIfMissing _ _ _) _ _ _) into Hd3.
  assert (∀ o h2, grew h'2 h2 → bj_Meta o = bj_Meta s'1 → phase_of o = RunPhasePreparing →
    start_write runSet target h h2 o) as Hw.
  { intros o h2 Hh Hm Hp. split; [same|right]. split; [done|].
    exists run, s', s'0, s', s'0, s'1, job, a.
    repeat split; try same; try done; eapply did_after_within; try eassumption; grows. }
  go; apply does_try, does_update.
  all: first [apply Hw; [grows|same..]|intros; walk].
Qed.

Lemma ensureBackupJobCredentials_sober target runSet s : only sober (ensureBackupJobCredentials r target runSet s).
Proof.
  unfold ensureBackupJobCredentials, BuildBackupJobCredentialSecretsWithSigner, buildBackupJobCredentialSecrets, run_ca,
    createBackupJobSecretIfMissing, backup_job_owner, create_owned, createSecretIfMissing, create_if_missing,
    validateExistingGeneratedSecret, reconcileExistingOwnerReferences. cbn zeta.
  assert (∀ b sources ttl ca pem, only sober (source_credentials b sources ttl ca pem)) as Hs.
  { intros b sources ttl ca pem. induction sources; cbn [source_credentials]; cbn zeta; solve_only. }
  solve_only.
Qed.

Lemma create_job_sober job s : only sober (createBackupJobJobIfMissing r job s).
Proof.
  unfold createBackupJobJobIfMissing, backup_job_owner, create_owned, createJobIfMissing, create_if_missing,
    reconcileExistingOwnerReferences. cbn zeta. solve_only.
Qed.

Lemma create_service_sober service s : only sober (createBackupJobServiceIfMissing r service s).
Proof.
  unfold createBackupJobServiceIfMissing, backup_job_owner, create_owned, createServiceIfMissing, create_if_missing,
    reconcileExistingOwnerReferences. cbn zeta. solve_only.
Qed.

Lemma set_cond_sober ty status reason message s : only sober (set_cond ty status reason message s).
Proof. unfold set_cond, set_job_condition. solve_only. Qed.

(** When [start_run] writes the start it has left every lease as it was. *)
Lemma start_run_sober runSet target h :
  does (λ h' o, phase_of o = RunPhasePreparing → leases_kept h h') (start_run r runSet target) run h
    (λ _ _ _, True) (λ _ _, True).
Proof.
  set (V := λ _ _, _).
  assert (∀ h'' o, phase_of o = RunPhaseFailed → V h'' o) as Hfail by (intros h'' o Hp; unfold V; by rewrite Hp).
  unfold start_run. step. apply does_or_fail.
  apply does_sober; [apply ensureBackupJobCredentials_sober|intros _ s1 h1 Hh1|by intros; apply Hfail].
  step. apply does_sober; [by repeat split|intros now s2 h2 Hh2|done]. do 2 step. step. apply does_or_fail.
  apply does_raise; [intros job _|by intros; apply Hfail].
  step. apply does_sober; [apply create_job_sober|intros _ s3 h3 Hh3|done].
  do 3 step. apply does_sober; [apply create_service_sober|intros _ s4 h4 Hh4|done].
  assert (leases_kept h h4) as Hh by exact (transitivity Hh1 (transitivity Hh2 (transitivity Hh3 Hh4))). clear h1 h2 h3 Hh1 Hh2 Hh3 Hh4.
  do 4 step. step. apply does_sober; [solve_only|intros _ s5 h5 Hh5|done]. do 2 step.
  do 4 (step; apply does_sober; [apply set_cond_sober|intros ????|done]).
  step. apply does_try, does_update.
  - intros _. repeat (etrans; [eassumption|]). done.
  - intros; walk.
  - intros; walk.
Qed.

Lemma start_run_does runSet target machine h :
  pending run → guarded runSet target machine h →
  does W (start_run r runSet target) run h (λ _ _ _, True) (λ _ _, True).
Proof.
  intros Hpend Hg. pose proof (pending_not_terminal Hpend) as Ht.
  eapply safe_mono; [|by intros [[] ?] h' _].
  eapply safe_rule; [|exact (safe_and _ _ _ _ _ _ _ (start_run_provisions runSet target h) (start_run_sober runSet target h))].
  intros h' R c [Hwr Hq]. destruct c as [| | | |k o| | | | | | | | | |]; try done. destruct k; try done. cbn in Hwr, Hq.
  destruct Hwr as [Hm [Hp|[Hp Hprov]]]; [by apply own_failure|].
  left. split; [done|]. rewrite Hp. constructor; [done|]. eapply guarded_admitted; eauto.
Qed.

(** Runs that use the target are replaced when the machine asks for it. *)
Lemma replace_active_does (active : option BackupJob) runSet target machine h h1 :
  did (resolveBackupJob run) (Ok (runSet, target, machine)) h → grew h h1 →
  pending run →
  (∀ b, active = Some b → was_read b h1 ∧ ActiveRunBlocksTargetMutation (phase_of b) = true) →
  does W match active with
    | None => mret true
    | Some blocking =>
        if bool_decide (ConcurrencyPolicyOrDefault (m_Spec machine) = ConcurrencyPolicyReplace) then
          _ ← or_fail r (lift (run_on blocking (cancelBackupJobForReplacement r run)));
          mret true
        else _ ← holdBackupJobForOverlap r target blocking machine; mret false
    end run h1 (λ proceed s' h', proceed = true → s' = run ∧ grew h1 h' ∧
      (active = None ∨ ConcurrencyPolicyOrDefault (m_Spec machine) = ConcurrencyPolicyReplace)) (λ _ _, True).
Proof.
  intros Hd Hh1 Hpend Hb. destruct active as [b|]; [|by apply does_ret; intros _; split_and!; [..|left]].
  destruct (Hb b eq_refl) as [Hread Hact]. destruct (bool_decide _) eqn:Hrep;
    [apply bool_decide_eq_true in Hrep|]; step.
  - apply does_or_fail_run; [by apply pending_not_terminal|]. apply does_lift.
    eapply safe_mono; [apply run_on_does with (Q := λ _ _, True); [|done]|].
    + apply cancelBackupJobForReplacement_does. intros h' o Hh Ho Hp. right.
      eapply step_replace; eauto using was_read_grew. eapply did_grew, Hd. grows.
    + intros [x|e] h2 _; cbn; [|done]. intros Hh2 _ _. auto.
  - unfold holdBackupJobForOverlap. cbn zeta. eapply does_mono; [apply hold_does| |done].
    + intros h' o _ Hm Hp. left. split; [done|]. rewrite Hp. by constructor.
    + done.
Qed.

Lemma admit_run_does runSet target machine h :
  pending run → did (resolveBackupJob run) (Ok (runSet, target, machine)) h → TargetReady target = true →
  does W (admit_run r runSet target machine) run h (λ _ _ _, True) (λ _ _, True).
Proof.
  intros Hpend Hd Hready. pose proof (pending_not_terminal Hpend) as Ht.
  assert (∀ h' o, bj_Meta o = bj_Meta run → phase_of o = RunPhasePending → W h' o) as Hhold.
  { intros h' o Hm Hp. left. split; [done|]. rewrite Hp. by constructor. }
  unfold admit_run. step. step. step. apply does_or_fail_run; [done|].
  apply (shows_lift _ _ _ _ _ _ (λ a h', ∀ b, a = Some b →
           was_read b h' ∧ ActiveRunBlocksTargetMutation (phase_of b) = true)); [solve_quiet| | |done].
  { intros h'. apply findActiveBackupJobForTarget_shows. }
  intros active h1 Hh1 Hact Hb. step. eapply does_mono; [by apply (replace_active_does _ _ _ _ _ _ Hd Hh1)| |done].
  intros [] s' h2 Hs; [|walk]. destruct (Hs eq_refl) as (-> & Hh2 & Hnone). cbn [negb].
  step. apply does_or_fail_run; [done|]. pass; [|done]. destruct a as [restore|].
  { step. unfold holdBackupJobForRestore. eapply does_mono; [apply hold_does; auto|by intros; walk|done]. }
  rename select (did_after (findActiveRestoreJobForTarget _) _ _ _) into Hres.
  step. apply does_or_fail_run; [done|]. apply does_lift_just. eapply safe_mono.
  { apply acquireTargetGuard_safe. intros Hrep%bool_decide_eq_true.
    exists runSet, target, machine. split; [|done]. eapply did_grew, Hd. grows. }
  intros [[blocking ok]|e] h3 _; [|done]. intros Hh3 Hguard.
  assert (ok = true → guarded runSet target machine h3) as Hg.
  { intros ->. eexists active, _, blocking, h'. split_and!; try done.
    - eapply did_grew, Hd. grows.
    - eapply did_of; [exact Hact|grows].
    - by rewrite bool_decide_eq_true.
    - by eapply did_of. }
  step; (destruct ok; [by eapply start_run_does, Hg|]); [|walk].
  step. unfold holdBackupJobForOverlap. cbn zeta.
  eapply does_mono; [apply hold_does; auto|by intros; walk|done].
Qed.

Lemma reconcile_pending_does h :
  pending run → does W (reconcile_pending r) run h (λ _ _ _, True) (λ _ _, True).
Proof.
  intros Hpend. pose proof (pending_not_terminal Hpend) as Ht. unfold reconcile_pending. do 3 step.
  apply does_or_fail_run; [done|]. pass; [|done]. destruct a as [[runSet target] machine].
  rename select (did_after (resolveBackupJob run) _ _ _) into Hd.
  step. apply does_or_fail_run; [done|]. apply does_lift.
  eapply safe_mono; [apply coalescePendingBackupJobsForTarget_safe|].
  intros [[canonical ok]|e] h2 Hc; [|done]. intros Hh2 Hco. cbv beta match. destruct ok; cbn [negb].
  - destruct (TargetReady target) eqn:Hready; cbn [negb].
    + apply admit_run_does; [done| |done]. by eapply did_of.
    + step. unfold holdBackupJobForTarget. cbn zeta. eapply does_mono; [apply hold_does|by intros; walk|done].
      intros h3 o _ Hm Hp. left. split; [done|]. rewrite Hp. by constructor.
  - step. eapply does_mono; [apply cancelBackupJobMergedInto_does|by intros; walk|done].
    intros h3 o Hh3 Hm Hp _. left. split; [done|]. rewrite Hp. econstructor; [done|by apply Hc|].
    exists target. by eapply did_of.
Qed.
End Pending.

(** ** A run that works *)

Section Working.
Context `{!Quantities, !Unstructured, !ControllerUtil, !TLSChecks}.
Context (r : BackupJobReconciler) (run : BackupJob).
Notation W := (status_write r run).

Lemma working_not_terminal : working run → isTerminalPhase (phase_of run) = false.
Proof. by intros []. Qed.

Lemma write_same h o :
  working run → bj_Meta o = bj_Meta run → phase_of o = phase_of run → W h o.
Proof. intros Hw Hm Hp. left. split; [done|]. rewrite Hp. by constructor. Qed.

Lemma write_source_status_does s h (Q : unit → BackupJob → list event → Prop) :
  working run → same_run run s → (∀ s' h', grew h h' → Q tt s' h') →
  does W write_source_status s h Q (λ _ _, True).
Proof.
  intros Hw Hs HQ. unfold write_source_status. step. apply does_write; [|done|done].
  by apply write_same; [|apply same_run_meta|apply same_run_phase].
Qed.

(** *** The scan of the Jobs *)

(** What the scan of a prefix of the Jobs found. *)
Definition scanned (jobs : list Job) (s : job_scan) : Prop :=
  none_failed jobs ∧
  (sc_targetComplete s = true → target_done jobs) ∧
  sc_sourceJobs s = length (filter is_source jobs) ∧
  (sc_sourceJobsComplete s = true → Forall (λ j, is_source j → jobComplete j = true) jobs).

(** How a scan ends. *)
Definition scan_result (jobs : list Job) (s : job_scan) : Prop :=
  if sc_failed s then Exists (λ j, jobFailed j = true) jobs else scanned jobs s.

Lemma scanned_snoc jobs job s s' :
  scanned jobs s → jobFailed job = false →
  (sc_targetComplete s' = true → sc_targetComplete s = true ∨ (is_target job ∧ jobComplete job = true)) →
  sc_sourceJobs s' = (sc_sourceJobs s + if decide (is_source job) then 1 else 0)%nat →
  (sc_sourceJobsComplete s' = true →
     sc_sourceJobsComplete s = true ∧ (is_source job → jobComplete job = true)) →
  scanned (jobs ++ [job]) s'.
Proof.
  intros (Hf & Ht & Hn & Hc) Hjob Ht' Hn' Hc'. unfold scanned, none_failed, target_done in *.
  rewrite filter_app, length_app, filter_cons, filter_nil, !Forall_app, Exists_app.
  split_and!; [done|by constructor| | |].
  - intros Ht1. destruct (Ht' Ht1) as [?|?]; [left; auto|right; by constructor].
  - rewrite Hn', Hn. by case_decide.
  - intros Hc1. destruct (Hc' Hc1). split; [auto|by constructor].
Qed.

(** *** Space to recover *)

Lemma mark_sent_does command sentAt s h (Q : unit → BackupJob → list event → Prop) E :
  (∀ s', bj_Meta s' = bj_Meta s → phase_of s' = phase_of s → Q tt s' h) →
  does W (mark_sent command sentAt) s h Q E.
Proof.
  intros HQ. apply does_modify, HQ; unfold MarkFinalizeCommandSent; cbn; repeat case_match; done.
Qed.

Lemma retry_source_does jobs job i s h (Q : ctrl_Result → BackupJob → list event → Prop) :
  working run → bj_Meta s = bj_Meta run →
  Ev (List_ KJob None (run_selector (bj_Meta run) runKindBackup)) (Ok jobs) ∈ h →
  job ∈ jobs → jobFailed job = true → is_source job → space_made run job → (∀ a s' h', Q a s' h') →
  does W (retry_source job i) s h Q (λ s' _, bj_Meta s' = bj_Meta run).
Proof.
  intros Hw Hs Hl Hjob Hf Hsrc Hm HQ. unfold retry_source. step. step. pass; [|done]. destruct a.
  rename select (did_after _ _ _ _) into Hd.
  go. apply does_write.
  - left. split; [same|]. replace (phase_of s') with RunPhaseRunning by same.
    eapply step_retry; eauto; [eapply elem_of_grew, Hl; grows|eapply did_of; [exact Hd|grows]].
  - intros; by step.
  - same.
Qed.

Lemma request_space_does source target id s h (Q : ctrl_Result → BackupJob → list event → Prop) :
  working run → same_run run s → (∀ a s' h', Q a s' h') →
  does W (request_space source target id) s h Q (λ s' _, bj_Meta s' = bj_Meta run).
Proof.
  intros Hw Hs HQ. unfold request_space. step. apply does_raise; [|same]. intros bytes _.
  go; [|apply HQ]. apply mark_sent_does. intros s1 Hm Hp. go. apply does_write; [|by intros; step|same].
  apply write_same; [done|same..].
Qed.

Lemma reconcileRecoverableSourceJobFailure_does jobs job s h
    (Q : option ctrl_Result → BackupJob → list event → Prop) :
  working run → same_run run s →
  Ev (List_ KJob None (run_selector (bj_Meta run) runKindBackup)) (Ok jobs) ∈ h →
  job ∈ jobs → jobFailed job = true → is_source job →
  (∀ a s' h', Q (Some a) s' h') → (∀ h', grew h h' → Q None s h') →
  does W (reconcileRecoverableSourceJobFailure r job) s h Q (λ s' _, bj_Meta s' = bj_Meta run).
Proof.
  intros Hw Hs Hl Hjob Hf Hsrc HS HN. unfold reconcileRecoverableSourceJobFailure.
  go. all: first [by apply HN; grows|by apply HS|idtac].
  2, 3: by eapply request_space_does; [..|intros; by apply does_ret, HS].
  eapply retry_source_does; eauto using does_ret; [same|eapply elem_of_grew, Hl; grows|].
  exists c, t0. destruct a0. split_and!; try done. same.
Qed.

(** Passes over a calm operation whose failure fails the run. *)
Lemma does_or_fail_calm {X} (m : act BackupJob X) s h (Q : X → BackupJob → list event → Prop) :
  calm m → working run → same_run run s →
  (∀ a s' h', same_run run s' → grew h h' → did_after (m s) (Ok a, s') h h' → Q a s' h') →
  does W (or_fail r m) s h Q (λ _ _, True).
Proof.
  intros Hm Hw Hs HQ. apply does_or_fail_run; [by apply working_not_terminal|].
  apply does_calm; [done|intros; apply HQ; [by etrans|done..]|intros; same].
Qed.

Lemma target_not_source job : is_target job → ¬ is_source job.
Proof. unfold is_target, is_source. intros ->. discriminate. Qed.

Lemma scan_jobs_does pre jobs sc s h (Q : ctrl_Result + job_scan → BackupJob → list event → Prop) :
  working run → same_run run s →
  Ev (List_ KJob None (run_selector (bj_Meta run) runKindBackup)) (Ok (pre ++ jobs)) ∈ h →
  scanned pre sc → sc_failed sc = false → (∀ a s' h', Q (inl a) s' h') →
  (∀ sc' s' h', grew h h' → same_run run s' → scan_result (pre ++ jobs) sc' → Q (inr sc') s' h') →
  does W (scan_jobs r jobs sc) s h Q (λ _ _, True).
Proof.
  intros Hw Hs Hl Hsc Hnf Hinl Hinr. revert pre sc s h Hs Hl Hsc Hnf Hinr.
  induction jobs as [|job jobs IH]; intros pre sc s h Hs Hl Hsc Hnf Hinr; cbn [scan_jobs].
  { apply does_ret, Hinr; [done|done|]. unfold scan_result. by rewrite Hnf, app_nil_r. }
  assert (∀ sc' s' h', grew h h' → same_run run s' → scanned (pre ++ [job]) sc' → sc_failed sc' = false →
            does W (scan_jobs r jobs sc') s' h' Q (λ _ _, True)) as Hnext.
  { assert ((pre ++ [job]) ++ jobs = pre ++ job :: jobs) as Heq by by rewrite <-(assoc_L (++)).
    intros sc' s' h' Hh Hs' Hsc' Hnf'. eapply IH; eauto; rewrite ?Heq; [by eapply elem_of_grew|].
    intros sc2 s2 h2 Hh2. apply Hinr. by etrans. }
  assert (∀ h', grew h h' → jobFailed job = true →
            Q (inr (sc <| sc_failed := true |>)) s h') as Hfail.
  { intros h' Hh Hf. apply Hinr; [done|done|]. cbn. apply Exists_exists. exists job. split; [|done].
    apply elem_of_app. right. left. }
  step. pass; [|done]. step; [step; step|].
  - apply does_or_fail_run; [by apply working_not_terminal|].
    eapply (reconcileRecoverableSourceJobFailure_does (pre ++ job :: jobs)); try done.
    + by eapply elem_of_grew.
    + apply elem_of_app. right. left.
    + intros. apply does_ret, Hfail; [grows|done].
  - by do 2 apply does_ret; apply Hfail.
  - step; [|step; [step|]].
    + apply Hnext; try done. eapply scanned_snoc; [done|done|..]; cbn.
      * intros [?|?]%orb_true_iff; auto.
      * rewrite decide_False; [lia|]. by apply target_not_source.
      * intros ?. split; [done|]. intros []%target_not_source. done.
    + step. apply does_or_fail_calm; [apply markSourceJobSucceeded_calm|done|done|].
      intros changed s' h2 Hs' Hh2 _. apply Hnext; [grows|done| |done].
      eapply scanned_snoc; [done|done|..]; cbn; auto. rewrite decide_True by done. lia.
    + apply Hnext; [done|done| |done]. eapply scanned_snoc; [done|done|..]; cbn; auto; [|done].
      rewrite decide_True by done. lia.
    + apply Hnext; [done|done| |done]. eapply scanned_snoc; [done|done|..]; auto.
      rewrite decide_False by done. lia.
Qed.

(** *** The phase that follows from the Jobs *)

(** What the choice of a phase leaves behind: the run as it was, and a reason for the phase. *)
Definition decided (jobs : list Job) (d : decision) (s : BackupJob) (h : list event) : Prop :=
  match d with
  | Return _ => True
  | Move phase _ =>
      bj_Meta s = bj_Meta run ∧ phase_of s = phase_of run ∧ verdict r run jobs h phase
  end.

Lemma run_sources_does jobs target runSet s h :
  working run → same_run run s → none_failed jobs →
  does W (run_sources r target runSet) s h (decided jobs) (λ _ _, True).
Proof.
  intros Hw Hs Hnf. unfold run_sources. step. apply does_or_fail_calm; [apply createSourceJobs_calm|done|done|].
  intros [after changed] s1 h1 Hs1 Hh1 _. cbv beta match. step.
  - step. step; [|by do 2 apply does_ret]. by apply write_source_status_does.
  - apply does_ret. split_and!; [by apply same_run_meta|by apply same_run_phase|]. by constructor.
Qed.

Lemma enqueueFinalizeCommand_does s h (Q : unit → BackupJob → list event → Prop) :
  working run → same_run run s →
  (∀ command accepted s' h', grew h h' → bj_Meta s' = bj_Meta run → phase_of s' = phase_of run →
     tc_Type command = TargetCommandFinalizeBackupJob →
     Ev (EnqueueTarget (run_control_key run) command) (Ok accepted) ∈ h' → Q tt s' h') →
  does W enqueueFinalizeCommand s h Q (λ s' _, bj_Meta s' = bj_Meta run).
Proof.
  intros Hw Hs HQ. unfold enqueueFinalizeCommand.
  go; rename select (did_after (req _) _ _ _) into Hd; apply did_req in Hd;
    rewrite (run_control_key_same _ _ Hs) in Hd.
  - eapply HQ; [grows|same..| |exact Hd]. done.
  - apply mark_sent_does. intros s1 Hm Hp. eapply HQ; [grows|same..| |exact Hd]. done.
Qed.

Lemma request_finalize_does jobs changed s h :
  working run → same_run run s → none_failed jobs → sources_done jobs → all_started run jobs h →
  bjr_Control r = true →
  does W (request_finalize r changed) s h (decided jobs) (λ _ _, True).
Proof.
  intros Hw Hs Hnf Hd Hst Hc. unfold request_finalize. step.
  apply does_or_fail_run; [by apply working_not_terminal|].
  apply enqueueFinalizeCommand_does; [done..|]. intros command accepted s1 h1 Hh Hm Hp Ht Hev.
  apply does_ret. split_and!; [done..|]. eapply verdict_finalizing; eauto using all_started_grew.
Qed.

Lemma with_run_set_does jobs sc s h f :
  working run → same_run run s → none_failed jobs → sc_sourceJobs sc = length (filter is_source jobs) →
  (∀ target s' h', same_run run s' → all_started run jobs h' →
     does W (f target) s' h' (decided jobs) (λ _ _, True)) →
  does W (with_run_set r sc f) s h (decided jobs) (λ _ _, True).
Proof.
  intros Hw Hs Hnf Hn Hf. unfold with_run_set. step. step. step.
  apply does_or_fail_run; [by apply working_not_terminal|]. pass; [|intros; same].
  destruct a as [[runSet target] machine]. cbv beta match. rename select (did_after _ _ _ _) into Hd.
  step; [by apply run_sources_does|]. apply Hf; [done|]. exists runSet, target, machine. split; [|lia].
  rewrite <-(resolveBackupJob_same _ _ Hs). by eapply did_of.
Qed.

Lemma next_phase_does jobs sc s h :
  working run → same_run run s → scan_result jobs sc →
  does W (next_phase r sc) s h (decided jobs) (λ _ _, True).
Proof.
  intros Hw Hs Hsc. unfold next_phase, scan_result in *. step. (* failed *)
  { apply does_ret. split_and!; [by apply same_run_meta|by apply same_run_phase|].
    by constructor. }
  destruct Hsc as (Hnf & Ht & Hn & Hc).
  assert (bool_decide (0 < sc_sourceJobs sc)%nat && sc_sourceJobsComplete sc = true → sources_done jobs) as Hd.
  { intros [Hpos%bool_decide_eq_true Hcomplete]%andb_true_iff. split; [|auto].
    rewrite Hn in Hpos. apply Exists_exists. destruct (filter is_source jobs) as [|j l] eqn:Hj; [cbn in Hpos; lia|].
    exists j. assert (j ∈ filter is_source jobs) as [? ?]%list_elem_of_filter by (rewrite Hj; left). done. }
  step; [|step; [|step; [|step; [|step; step; step]]]].
  - apply andb_true_iff in Heqb0 as [[Hsd Htc]%andb_true_iff Hctl].
    apply with_run_set_does; [done..|]. intros target s1 h1 Hs1 Hst. step; step; step.
    + step. pass; [|done]. apply does_ret. split_and!; [same..|].
      apply verdict_succeeded; auto; [by eapply all_started_grew|].
      by rewrite <-(finalize_sent_same _ _ Hs1).
    + apply request_finalize_does; auto.
  - apply andb_true_iff in Heqb1 as [Hsd Hctl].
    apply with_run_set_does; [done..|]. intros target s1 h1 Hs1 Hst. apply request_finalize_does; auto.
  - apply andb_true_iff in Heqb2 as [Hsd Htc].
    apply with_run_set_does; [done..|]. intros target s1 h1 Hs1 Hst. apply does_ret.
    split_and!; [by apply same_run_meta|by apply same_run_phase|].
    apply verdict_succeeded; auto. intros Hctl. by rewrite Hctl in Heqb0.
  - apply does_ret. split_and!; [by apply same_run_meta|by apply same_run_phase|]. by constructor.
  - step. apply does_or_fail_calm; [apply calm_lift; solve_quiet|done|done|].
    intros [[runSet target] machine] s1 h1 Hs1 _ _. by apply run_sources_does.
  - apply does_ret. split_and!; [by apply same_run_meta|by apply same_run_phase|].
    apply verdict_preparing; [done|].
    rewrite Hn in Heqb3. apply bool_decide_eq_false in Heqb3. apply Forall_forall. intros j Hj Hsj.
    assert (j ∈ filter is_source jobs) as Hin by by apply list_elem_of_filter.
    destruct (filter is_source jobs); [by apply not_elem_of_nil in Hin|]. cbn in Heqb3. lia.
Qed.

Lemma apply_phase_does jobs phase changed s h :
  working run → bj_Meta s = bj_Meta run → phase_of s = phase_of run → verdict r run jobs h phase →
  Ev (List_ KJob None (run_selector (bj_Meta run) runKindBackup)) (Ok jobs) ∈ h →
  does W (apply_phase r phase changed) s h (λ _ _ _, True) (λ _ _, True).
Proof.
  intros Hw Hm Hp Hv Hl. unfold apply_phase. step. step. step.
  - step. step; [|walk]. unfold write_source_status. step. apply does_write; [|intros; walk|done].
    by apply write_same.
  - assert (∀ o h2, grew h h2 → bj_Meta o = bj_Meta run → phase_of o = phase → W h2 o) as HW.
    { intros o h2 Hh Ho Hpo. left. split; [done|]. rewrite Hpo.
      eapply step_jobs; eauto using elem_of_grew, verdict_grew. }
    go. all: apply does_write; [apply HW; [grows|same..]|intros; walk|done].
Qed.

Lemma working_jobs_does h :
  working run → does W (reconcileBackupJobJobStatus r) run h (λ _ _ _, True) (λ _ _, True).
Proof.
  intros Hw. unfold reconcileBackupJobJobStatus. step. step.
  rewrite (working_not_terminal Hw). step. step.
  apply does_quiet; [solve_quiet| |done]. intros jobs h1 _ Hd.
  apply did_req in Hd. step; [by step|]. step.
  apply (scan_jobs_does []); [done|done|done| |done|by intros; step|].
  - split_and!; try done. by constructor.
  - intros sc s2 h2 Hh2 Hs2 Hsc. cbn in Hsc. cbv beta match. step.
    eapply does_mono; [by eapply does_grows, next_phase_does| |done].
    intros [after|phase changed] s3 h3 [Hdec Hh3]; [by step|]. destruct Hdec as (Hm & Hp & Hv).
    eapply apply_phase_does; [done..|]. eapply elem_of_grew, Hd. grows.
Qed.

(** ** A run that has ended *)

Lemma resumeRecoveredBackupJob_does h :
  phase_of run = RunPhaseFailed →
  does W resumeRecoveredBackupJob run h (λ _ _ _, True) (λ _ _, True).
Proof.
  intros Hp. unfold resumeRecoveredBackupJob. walk. apply does_write; [|by intros; step|done].
  left. split; [same|]. replace (phase_of s') with RunPhaseRunning by same.
  apply step_resume; [done|]. rename select (CommandStatus) into c. exists c.
  split_and!; [done|by apply dec_stable; tauto|tauto|]. destruct (hasRecoveredTransferRetry _); tauto.
Qed.

Lemma reconcile_ended_does h : does W (reconcile_ended r) run h (λ _ _ _, True) (λ _ _, True).
Proof.
  unfold reconcile_ended. step. step. step. eapply does_mono with (Q := λ _ _ _, True); [| |done].
  - step; [by apply resumeRecoveredBackupJob_does|by step].
  - intros resumed s1 h1 _. walk.
Qed.

Lemma reconcile_deleted_does h : does W (reconcile_deleted r) run h (λ _ _ _, True) (λ _ _, True).
Proof.
  unfold reconcile_deleted. go. eapply does_mono; [apply does_only; solve_quiet|by intros; step|done].
Qed.

(** ** The reconciler *)

Lemma ensureScheduled_does h :
  does W (ensureScheduledBackupJobOwnerReference r) run h
    (λ owned s' _, owned = false → s' = run) (λ _ _, True).
Proof.
  unfold ensureScheduledBackupJobOwnerReference. walk.
  apply does_try, does_quiet; [solve_quiet| |].
  - intros machine h1 _ _. step; [by step|]. step. apply does_raise; [|done]. intros owners _. step. step. step.
    step. apply does_write_run; [|done]. intros. by step.
  - intros h1 _ e. by step; step.
Qed.

Lemma reconcile_run_does h : does W (reconcile_run r) run h (λ _ _ _, True) (λ _ _, True).
Proof.
  unfold reconcile_run. step. eapply does_mono; [apply ensureScheduled_does| |done].
  intros [] s1 h1 Hs1; [by step|]. rewrite (Hs1 eq_refl). step. step.
  step; [apply reconcile_deleted_does|]. step; [apply reconcile_ended_does|]. step.
  - step. step. step. step. apply does_write_run; [|done]. intros. by step.
  - step; [apply working_jobs_does; by unfold working; destruct_and!|].
    apply reconcile_pending_does. unfold pending. destruct (decide (phase_of run = "")); [by left|].
    right. apply dec_stable. tauto.
Qed.
End Working.

Section Refines.
Context `{!Quantities, !Unstructured, !ControllerUtil, !TLSChecks}.
Context (r : BackupJobReconciler).

(** Every status write of a reconcile, in every environment, is a step of the life of the run it
    read first: the handlers implement the specification. *)
Lemma reconcile_writes ref h (o : BackupJob) :
  issues (BackupJob_Reconcile r ref) h (UpdateStatus KBackupJob o) →
  ∃ run, Ev (Get KBackupJob ref) (Ok run) ∈ h ∧ status_write r run h o.
Proof.
  set (rule := on_status (λ h o, ∃ run, Ev (Get KBackupJob ref) (Ok run) ∈ h ∧ status_write r run h o)).
  intros Hi. refine (safe_issues rule _ (λ _ _, True) _ _ _ Hi). clear Hi. split; [done|].
  intros [run|e] _; cbn; [|by case_match].
  apply io_safe_bind, safe_run_on. eapply safe_mono.
  { eapply (safe_kept (λ h, Ev (Get KBackupJob ref) (Ok run) ∈ h)); [| |left|apply reconcile_run_does].
    - intros. by right.
    - intros h0 R c Hin. destruct c as [| | | |k b| | | | | | | | | |]; try done. destruct k; try done.
      intros Hw. by exists run. }
  by intros [[x|e] s] h' _.
Qed.
End Refines.
