(* ===== verification/Cluster.v ===== *)
(** * A small cluster

    An API server that holds a few objects and accepts every write, and the libraries the
    reconcilers call, as concrete functions: the laws of the reconcilers are applied to its runs. *)
From S2P Require Export RunSet Machine RestoreRun.
From stdpp Require Import options.

(** ** Libraries *)

#[export] Instance cluster_quantities : Quantities := {|
  ParseQuantity := λ v, if decide (v = "") then Err (ErrNew "quantities must match the regular expression") else Ok v;
  Quantity_IsZero := λ q, bool_decide (q = "0");
  Quantity_Value := λ q, 1
|}.

#[export] Instance cluster_unstructured : Unstructured := {|
  NestedBool := λ _ _, Ok None;
  NestedString := λ _ _, Ok None;
  NestedMap := λ _ _, Ok None;
  NestedSlice := λ _ _, Ok None
|}.

#[export] Instance cluster_controller : ControllerUtil := {|
  SetControllerReference := λ k owner o, Ok (om_OwnerReferences o ++ [ownerReferenceFor k owner]);
  ContainsFinalizer := λ m f, bool_decide (f ∈ om_Finalizers m);
  AddFinalizer := λ m f, m <| om_Finalizers ::= λ l, l ++ [f] |>;
  RemoveFinalizer := λ m f, m <| om_Finalizers ::= filter (λ x, x ≠ f) |>
|}.

#[export] Instance cluster_tls : TLSChecks := {|
  BundleIdentity := λ _, Ok (MkIdentity "" "" "" "" "");
  VerifyIdentity := λ _ _ _, Ok tt
|}.

(** A schedule that is due every hour. *)
#[export] Instance hourly : Cron := {|
  Schedule := unit;
  ParseStandard := λ v, if decide (v = "") then Err (ErrNew "empty spec string") else Ok tt;
  Schedule_Next := λ _ t, (t / (3600 * Second) + 1) * (3600 * Second)
|}.

(** ** The API server *)

Definition objects : Type := ∀ k, list (object k).

Definition no_objects : objects := λ k, [].
Definition with_object (k : kind) (o : object k) (os : objects) : objects := λ k',
  match decide (k = k') with
  | left e => eq_rect k (λ k, list (object k)) (o :: os k) k' e
  | right _ => os k'
  end.

Definition not_found : goerr := ErrSys KNotFound "not found".

Definition selected (labels : gmap string string) (m : ObjectMeta) : bool :=
  bool_decide (labels ⊆ om_Labels m).

(** The time is always the same. *)
Definition noon : Time := 1704110400 * Second.

Definition server (os : objects) : environment := λ R _ c,
  match c in request R return R with
  | Get k ref =>
      match filter (λ o, ref_of (meta_of k o) = ref) (os k) with
      | o :: _ => Ok o
      | [] => Err not_found
      end
  | List_ k _ labels => Ok (filter (λ o, selected labels (meta_of k o) = true) (os k))
  | Create _ o => Ok o
  | Update _ o => Ok o
  | UpdateStatus _ o => Ok o
  | Delete _ _ _ => Ok tt
  | Now => noon
  | VolumeSnapshotAvailable => false
  | EnqueueTarget _ _ => Ok true
  | Eventf _ _ _ _ _ => tt
  | RecordRunPhase _ _ _ _ => tt
  | RecordGeneratedJobStatus _ _ _ _ => tt
  | NewRunCA _ _ _ => Ok "ca"
  | NewCA _ _ => Ok "ca"
  | Mint ca _ _ => Ok (MkBundle ca "" "certificate" "key")
  end.

(** ** Objects *)

Definition nas : RsyncMachine :=
  (sample_machine "") <| m_Spec ::= λ s, s <| ms_PVCName := "nas" |> |>.
Definition photos : BackupSource := sample_source "media" "photos" "./photos/".

(** A run of the machine, in a phase. *)
Definition nightly (phase : string) : BackupJob :=
  MkBackupJob ((inhabitant : ObjectMeta) <| om_Namespace := "backup" |> <| om_Name := "nightly" |>
                 <| om_Finalizers := [BackupJobFinalizer] |>)
    (MkBackupJobSpec (MkObjectReference "backup" "nas") "")
    ((inhabitant : BackupJobStatus) <| bjs_Phase := phase |>).

Definition reconciler : BackupJobReconciler :=
  MkBackupJobReconciler true "krm:latest" "" "" false false "" None true.

(** The machine with its source and one run. *)
Definition small (run : BackupJob) : objects :=
  with_object KRsyncMachine nas (with_object KBackupSource photos (with_object KBackupJob run no_objects)).

Definition nightly_ref : NamespacedName := MkNamespacedName "backup" "nightly".

(** The first write of the run's status. *)
Fixpoint first_status (tr : list event) : option (nat * BackupJob) :=
  match tr with
  | [] => None
  | Ev c _ :: tr =>
      match c with
      | UpdateStatus k o => match k return object k → option (nat * BackupJob) with
                            | KBackupJob => λ o, Some (O, o)
                            | _ => λ _, prod_map S id <$> first_status tr
                            end o
      | _ => prod_map S id <$> first_status tr
      end
  end.

Lemma first_status_issues {X} (p : prog X) env i o :
  first_status (exec env p []).1 = Some (i, o) →
  issues p (rev (take i (exec env p []).1)) (UpdateStatus KBackupJob o).
Proof.
  intros Hf. assert (∀ tr i, first_status tr = Some (i, o) → ∃ ans, tr !! i = Some (Ev (UpdateStatus KBackupJob o) ans))
    as Hall.
  { clear. intros tr. induction tr as [|[R c x] tr IH]; intros i; cbn [first_status]; [done|].
    assert (prod_map S id <$> first_status tr = Some (i, o) →
      ∃ ans, (Ev c x :: tr) !! i = Some (Ev (UpdateStatus KBackupJob o) ans)) as Hnext.
    { destruct (first_status tr) as [[j o']|]; [|done]. intros [= <- ->]. by apply IH. }
    destruct c as [| | | |k b| | | | | | | | | |]; try exact Hnext. destruct k; try exact Hnext.
    intros [= <- ->]. by exists x. }
  destruct (Hall _ _ Hf) as [ans Ha]. by eapply exec_issues.
Qed.

(** The first status write of a program's run, with the history before it. *)
Definition first_write {X} (p : prog X) (env : environment) : list event * BackupJob :=
  let tr := (exec env p []).1 in
  match first_status tr with Some (i, o) => (rev (take i tr), o) | None => ([], inhabitant) end.

Definition writes {X} (p : prog X) (env : environment) : bool :=
  match first_status (exec env p []).1 with Some _ => true | None => false end.

Lemma first_write_issued {X} (p : prog X) env :
  writes p env = true → issues p (first_write p env).1 (UpdateStatus KBackupJob (first_write p env).2).
Proof.
  unfold writes, first_write. destruct (first_status _) as [[i o]|] eqn:Hf; [|done]. intros _.
  by apply first_status_issues.
Qed.

(** A reconcile of the run in a cluster. *)
Definition reconcile_nightly : io ctrl_Result := BackupJob_Reconcile reconciler nightly_ref.

(** A Job of the run that is complete. *)
Definition finished_job (role : string) : Job :=
  (inhabitant : Job) <| j_Meta ::= λ m, m <| om_Labels :=
      <[LabelRole := role]> (run_selector (bj_Meta (nightly "")) runKindBackup) |> |>
    <| j_Conditions := [(inhabitant : JobCondition) <| jc_Type := JobComplete |> <| jc_Status := ConditionTrue |>] |>.

(** The cluster when the run starts, and when its Jobs are complete. *)
Definition starting : environment := server (small (nightly "")).
Definition finishing : environment :=
  server (with_object KJob (finished_job RoleSourceSender)
    (with_object KJob (finished_job RoleTargetServer) (small (nightly RunPhaseRunning)))).
