(* ===== verification/RunLaws.v ===== *)
(** * The laws of a BackupJob's life

    What follows from [reconcile_writes] for the phases of a run, and what taking the guard of a
    target means. *)
From S2P Require Export Cluster Refinement.
From stdpp Require Import options.

(** ** The guard *)

Section GuardLaws.
Context `{!Quantities, !Unstructured, !ControllerUtil, !TLSChecks}.
Context (r : BackupJobReconciler) (run : BackupJob) (target : RsyncMachine) (replace : bool).
Notation machineRef := (machine_ref target).
Notation leaseRef := (TargetGuardLeaseRef machineRef).

Definition holder_of (l : Lease) : string := default "" (l_HolderIdentity l).

(** The phases in which a run changes its target. *)
Definition changes_target (b : BackupJob) : Prop :=
  phase_of b ∈ [RunPhasePreparing; RunPhaseRunning; RunPhaseFinalizing].

(** The holder names a run. *)
Definition names (holder : string) (ref : NamespacedName) : Prop :=
  Split holder slash = [nn_Namespace ref; nn_Name ref] ∧ nn_Namespace ref ≠ "" ∧ nn_Name ref ≠ "".

Lemma parse_names holder ref : parseBackupJobGuardHolder holder = Some ref ↔ names holder ref.
Proof.
  unfold parseBackupJobGuardHolder, names. destruct ref as [ns name]. cbn.
  destruct (Split holder slash) as [|a [|b [|c l]]]; [naive_solver..| |naive_solver].
  case_decide; naive_solver.
Qed.

Lemma parse_nobody holder : parseBackupJobGuardHolder holder = None → ∀ ref, ¬ names holder ref.
Proof. intros Hn ref Hr%parse_names. congruence. Qed.

(** The machine that a run refers to. *)
Definition refers_to_machine (b : BackupJob) (ref : NamespacedName) : Prop :=
  ResolveObjectReference (bs_MachineRef (bj_Spec b)) (om_Namespace (bj_Meta b)) = Ok ref.

(** Found out after [h0]: the holder does not use the target.  It names no run, the run is gone, it is
    in a phase in which it changes nothing, or it uses another machine, which exists. *)
Inductive not_using (holder : string) (h0 h : list event) : Prop :=
  | not_a_run : (∀ ref, ¬ names holder ref) → not_using holder h0 h
  | run_gone ref e :
      names holder ref → since h0 h (Ev (Get KBackupJob ref) (Err e)) → errors_is KNotFound e = true →
      not_using holder h0 h
  | run_idle ref b :
      names holder ref → since h0 h (Ev (Get KBackupJob ref) (Ok b)) → ¬ changes_target b → not_using holder h0 h
  | run_elsewhere ref b other m :
      names holder ref → since h0 h (Ev (Get KBackupJob ref) (Ok b)) → refers_to_machine b other →
      since h0 h (Ev (Get KRsyncMachine other) (Ok m)) → other ≠ machineRef → not_using holder h0 h.

(** Found out after [h0]: the holder is the run [b], which changes its target, and no other machine
    than this one is known to be its target. *)
Record uses_target (holder : string) (b : BackupJob) (h0 h : list event) : Prop := {
  us_read : ∃ ref, names holder ref ∧ since h0 h (Ev (Get KBackupJob ref) (Ok b));
  us_active : changes_target b;
  us_machine : (∀ other, ¬ refers_to_machine b other) ∨
    ∃ other, refers_to_machine b other ∧
      ((∃ e, since h0 h (Ev (Get KRsyncMachine other) (Err e)) ∧ errors_is KNotFound e = true) ∨
       (∃ m, since h0 h (Ev (Get KRsyncMachine other) (Ok m))) ∧ other = machineRef)
}.

(** The run [b] was cancelled after [h0], or it was gone by then. *)
Definition was_cancelled (b : BackupJob) (h0 h : list event) : Prop :=
  ∃ o ans, since h0 h (Ev (UpdateStatus KBackupJob o) ans) ∧ bj_Meta o = bj_Meta b ∧
    phase_of o = RunPhaseCanceled ∧ ∀ e, ans = Err e → errors_is KNotFound e = true.

(** Why a lease that was read may be taken. *)
Inductive takeable (l : Lease) (h0 h : list event) : Prop :=
  | take_free : holder_of l = "" → takeable l h0 h
  | take_own : holder_of l = backupRunGuardHolder run → takeable l h0 h
  | take_unused : not_using (holder_of l) h0 h → takeable l h0 h
  | take_replaced b :
      replace = true → uses_target (holder_of l) b h0 h → was_cancelled b h0 h → takeable l h0 h.

(** The last request was a write of the lease, accepted, that makes the run its holder; it
    answers the lease that was read in the same attempt. *)
Inductive lease_taken : list event → Prop :=
  | lease_created e now l h :
      errors_is KNotFound e = true → Ev (Get KLease leaseRef) (Err e) ∈ h →
      lease_taken (Ev (Create KLease (new_guard_lease run machineRef leaseRef now)) (Ok l) :: h)
  | lease_claimed l now l' h1 h0 :
      takeable l (Ev (Get KLease leaseRef) (Ok l) :: h0) (h1 ++ Ev (Get KLease leaseRef) (Ok l) :: h0) →
      lease_taken (Ev (Update KLease (claimTargetGuardLease l run machineRef (backupRunGuardHolder run)
                                        now (holder_of l))) (Ok l')
                   :: h1 ++ Ev (Get KLease leaseRef) (Ok l) :: h0).

(** The lease is that of another run, which uses the target. *)
Definition lease_held (b : BackupJob) (h : list event) : Prop :=
  ∃ l h0, grew (Ev (Get KLease leaseRef) (Ok l) :: h0) h ∧ holder_of l ≠ "" ∧
    holder_of l ≠ backupRunGuardHolder run ∧ uses_target (holder_of l) b (Ev (Get KLease leaseRef) (Ok l) :: h0) h.

Definition guard_result (x : option BackupJob * bool) (h : list event) : Prop :=
  match x with
  | (_, true) => lease_taken h
  | (Some b, false) => replace = false ∧ lease_held b h
  | (None, false) => False
  end.

(** What [activeGuardHolder] finds out. *)
Lemma activeGuardHolder_finds holder h0 :
  safe no_promise (λ _ _ _, True) (activeGuardHolder holder machineRef) h0 (λ x h,
    grew h0 h ∧ match x with
                | Ok None => not_using holder h0 h
                | Ok (Some b) => uses_target holder b h0 h
                | Err _ => True
                end).
Proof.
  unfold activeGuardHolder. destruct (parseBackupJobGuardHolder holder) as [ref|] eqn:Hp.
  2: { split; [done|]. by apply not_a_run, parse_nobody. }
  apply parse_names in Hp. apply io_safe_bind. split; [done|]. intros [b|e] _; cbn.
  2: { destruct (errors_is KNotFound e) eqn:He; split; auto with krm.
       eapply run_gone; [exact Hp|by apply since_last|done]. }
  set (h1 := Ev (Get KBackupJob ref) (Ok b) :: h0).
  assert (grew h0 h1) as Hh1 by apply grew_cons.
  assert (since h0 h1 (Ev (Get KBackupJob ref) (Ok b))) as Hb by by apply since_last.
  destruct (ActiveRunBlocksTargetMutation (phase_of b)) eqn:Ha; cbn [negb].
  2: { split; [done|]. eapply run_idle; [done..|]. by apply bool_decide_eq_false in Ha. }
  apply bool_decide_eq_true in Ha. apply io_safe_bind, io_safe_on_err. unfold machineRefForBackupJob.
  destruct (ResolveObjectReference _ _) as [other|e] eqn:Hr; cbn [map_err].
  2: { split; [done|]. split; [by exists ref|done|]. left. intros other. unfold refers_to_machine. by rewrite Hr. }
  apply io_safe_bind. split; [done|]. intros [m|e] _; cbn.
  - set (h2 := Ev (Get KRsyncMachine other) (Ok m) :: h1).
    assert (since h0 h2 (Ev (Get KRsyncMachine other) (Ok m))) as Hm by by apply since_last.
    assert (since h0 h2 (Ev (Get KBackupJob ref) (Ok b))) as Hb2 by (eapply since_grew, Hb; apply grew_cons).
    assert (grew h0 h2) as Hh2 by (etrans; [exact Hh1|apply grew_cons]).
    case_decide as Ht; (split; [done|]); [by eapply run_elsewhere|].
    split; [by exists ref|done|]. right. exists other. split; [done|]. right. split; [by exists m|]. done.
  - set (h2 := Ev (Get KRsyncMachine other) (Err e) :: h1).
    assert (since h0 h2 (Ev (Get KRsyncMachine other) (Err e))) as Hm by by apply since_last.
    assert (since h0 h2 (Ev (Get KBackupJob ref) (Ok b))) as Hb2 by (eapply since_grew, Hb; apply grew_cons).
    assert (grew h0 h2) as Hh2 by (etrans; [exact Hh1|apply grew_cons]).
    destruct (errors_is KNotFound e) eqn:He; cbn; (split; [done|]); [|done].
    split; [by exists ref|done|]. right. exists other. split; [done|]. left. by exists e.
Qed.

(** What cancelling a run for a replacement writes. *)
Lemma cancelBackupJobForReplacement_cancels b h0 :
  safe no_promise (λ _ _ _, True) (run_on b (cancelBackupJobForReplacement r run)) h0 (λ x h,
    grew h0 h ∧ ∀ o, x = Ok o → was_cancelled b h0 h).
Proof.
  set (W := λ (_ : list event) (_ : BackupJob), True).
  assert (does W (cancelBackupJobForReplacement r run) b h0 (λ _ _ h, was_cancelled b h0 h) (λ _ _, True)) as Hd.
  { unfold cancelBackupJobForReplacement. go.
    match goal with Hs : same_run _ _ |- _ => destruct Hs as (Hm & _ & Hp & _) end. cbn in Hm, Hp.
    apply (safe_bind _ _ (update_status s')). split; [exact I|]. intros ans _.
    set (h1 := Ev (UpdateStatus KBackupJob s') ans :: h'0).
    assert (grew h0 h'0) as Hh by (etrans; eassumption).
    assert ((∀ e, ans = Err e → errors_is KNotFound e = true) → was_cancelled b h0 h1) as Hc.
    { intros He. exists s', ans. split_and!; [|exact Hm|exact Hp|exact He]. by apply since_last. }
    assert (∀ s1 : BackupJob, was_cancelled b h0 h1 → does W (
      snapshotAvailable ← lift (snapshot_available r);
      active ← get_obj;
      cleaned ← try (lift (cleanupRunResources (bj_Meta active) runKindBackup snapshotAvailable));
      match cleaned with
      | Ok _ => record_phase (phase_of b)
      | Err e =>
          _ ← recordRunEvent r EventTypeWarning "CleanupFailed" ("Cleanup after replacement failed: " +:+ error_text e);
          throw (wrap ("cleanup replaced backup job " +:+ run_name active +:+ ": ") e)
      end) s1 h1 (λ _ _ h, was_cancelled b h0 h) (λ _ _, True)) as Hrest.
    { intros s1 (o & x & Ho & Hox). apply does_calm; [solve_calm| |done]. intros _ s2 h2 _ Hh2 _.
      exists o, x. split; [by eapply since_grew|done]. }
    destruct ans as [s1|e]; cbn; [apply Hrest, Hc; done|].
    destruct (errors_is KNotFound e) eqn:He; cbn; [|done]. apply Hrest, Hc. by intros ? [= <-]. }
  assert (safe no_promise (λ _ _ _, True) (run_on b (cancelBackupJobForReplacement r run)) h0
    (λ x h, ∀ o, x = Ok o → was_cancelled b h0 h)) as Hs.
  { apply safe_run_on. eapply safe_mono; [eapply safe_rule; [|exact Hd]; done|]. by intros [[a|e] s] h Hx o. }
  eapply safe_mono; [exact (safe_grows _ _ _ _ _ Hs)|]. intros x h [Hx (l & -> & _)]. split; [apply grew_app|exact Hx].
Qed.

Lemma uses_target_grew holder b h0 h h' : grew h h' → uses_target holder b h0 h → uses_target holder b h0 h'.
Proof.
  intros Hh [(ref & Hn & Hr) Ha Hm]. split; [exists ref; eauto using since_grew|done|].
  destruct Hm as [?|(other & Ho & Hm)]; [by left|]. right. exists other. split; [done|].
  destruct Hm as [(e & He & ?)|[(m & Hm) ?]]; [left|right]; eauto using since_grew.
Qed.

Lemma guard_attempt_shows :
  shows (guard_attempt r run machineRef leaseRef replace) (λ x h,
    ∀ a, x = Ok (Some a) → guard_result a h).
Proof.
  intros h. apply io_safe_bind. split; [done|]. intros now _. cbn. split; [done|].
  intros [l|e] _; cbn.
  2: { destruct (errors_is _ _) eqn:He; cbn; [|done]. split; [done|].
       intros [l|e'] _; cbn; [|by case_match].
       intros a [= <-]. apply (lease_created e); [done|left]. }
  set (h0 := Ev Now now :: h). set (hg := Ev (Get KLease leaseRef) (Ok l) :: h0).
  assert (∀ failure h1, takeable l hg (h1 ++ hg) →
    safe no_promise (λ _ _ _, True) (updated ← io_try (req (Update KLease (claimTargetGuardLease l run
      machineRef (backupRunGuardHolder run) now (default "" (l_HolderIdentity l)))));
      match updated with
      | Ok _ => mret (Some (None (A := BackupJob), true))
      | Err e => if errors_is KConflict e then mret None else io_throw (wrap failure e)
      end) (h1 ++ hg) (λ x h', ∀ a, x = Ok (Some a) → guard_result a h')) as Hclaim.
  { intros failure h1 Ht. split; [done|]. intros [l'|e'] _; cbn; [|by case_match].
    intros a [= <-]. by apply lease_claimed. }
  case_decide as Hh.
  { apply (Hclaim _ []). destruct Hh; [by apply take_free|by apply take_own]. }
  apply io_safe_bind. eapply safe_mono; [apply activeGuardHolder_finds|].
  intros [[b|]|e] h' [[l1 ->] Hx]; [|by apply (Hclaim _ l1), take_unused|done].
  destruct replace eqn:Hrep; cbn [negb].
  - apply io_safe_bind. eapply safe_mono; [apply cancelBackupJobForReplacement_cancels|].
    intros [o|e] h2 [[l2 ->] Hc]; [|done]. rewrite (assoc_L (++)). apply (Hclaim _ (l2 ++ l1)).
    rewrite <-(assoc_L (++)). eapply take_replaced; [done|eapply uses_target_grew, Hx; apply grew_app|].
    destruct (Hc o eq_refl) as (o' & ans & Ho & ?). exists o', ans. split; [|done].
    eapply since_weaken, Ho. apply grew_app.
  - intros a [= <-]. split; [done|]. exists l, h0. split; [apply grew_app|]. split_and!; [naive_solver..|exact Hx].
Qed.

Lemma acquireTargetGuard_shows :
  shows (acquireTargetGuard r run target replace) (λ x h, ∀ a, x = Ok a → guard_result a h).
Proof.
  unfold acquireTargetGuard. generalize 3%nat. intros n h. revert h.
  induction n as [|n IH]; intros h; cbn [guard_attempts]; [done|]. apply io_safe_bind.
  eapply safe_mono; [apply guard_attempt_shows|]. intros [[a|]|e] h' Hx; [|apply IH|done].
  intros a' [= <-]. by apply Hx.
Qed.

End GuardLaws.

(** ** Restores of a target *)

Section RestoresOf.
Context `{!Quantities, !Unstructured, !ControllerUtil, !TLSChecks}.

(** Each restore that was listed has ended or was found to read from another machine. *)
Definition no_active_restore (target : RsyncMachine) (h : list event) : Prop :=
  ∃ restores, Ev (List_ KRestoreJob None ∅) (Ok restores) ∈ h ∧
    Forall (λ x, isTerminalPhase (rjs_Phase (rj_Status x)) = true ∨
      ∃ ref, did (machineRefForRestoreJob x) (Ok ref) h ∧ ref ≠ Some (machine_ref target)) restores.

Lemma first_active_restore_shows ref restores :
  shows (first_active_restore ref restores) (λ x h', x = Ok None → Forall (λ x, isTerminalPhase (rjs_Phase (rj_Status x)) = true ∨
      ∃ ref', did (machineRefForRestoreJob x) (Ok ref') h' ∧ ref' ≠ Some ref) restores).
Proof.
  induction restores as [|x restores IH]; intros h; cbn [first_active_restore]; [by intros _; constructor|].
  destruct (isTerminalPhase _) eqn:Ht.
  { eapply safe_mono; [by apply IH|]. intros y h' Hy Hn. constructor; auto. }
  apply io_safe_bind. eapply safe_mono; [apply safe_any|]. intros [ref'|e] h' (tr & Hr & ->); [|done].
  case_decide; [done|]. eapply safe_mono; [apply safe_grows, IH|].
  intros y h2 [Hy (l & -> & _)] Hn. constructor; [|auto]. right. exists ref'. split; [|done].
  eapply did_grew; [apply grew_app|]. by apply did_intro.
Qed.

Lemma findActiveRestoreJobForTarget_shows target :
  shows (findActiveRestoreJobForTarget target) (λ x h, x = Ok None → no_active_restore target h).
Proof.
  intros h. apply io_safe_bind, io_safe_on_err. split; [done|]. intros [restores|e] _; cbn; [|done].
  eapply safe_mono; [apply safe_grows, first_active_restore_shows|].
  intros x h' [Hx (l & -> & _)] Hn. exists restores. split; [|by apply Hx].
  apply elem_of_app. right. left.
Qed.
End RestoresOf.

(** ** The phases of a run *)

(** Which phase may follow which. *)
Definition phase_step (p q : string) : bool :=
  if decide (p ∈ [""; RunPhasePending])
  then bool_decide (q ∈ [RunPhasePending; RunPhasePreparing; RunPhaseFailed; RunPhaseCanceled])
  else if decide (p = RunPhaseFailed) then bool_decide (q = RunPhaseRunning)
  else if isTerminalPhase p then false
  else bool_decide (q = p ∨ q ∈ [RunPhasePreparing; RunPhaseRunning; RunPhaseFinalizing;
                                 RunPhaseSucceeded; RunPhaseFailed; RunPhaseCanceled]).

Section RunLaws.
Context `{!Quantities, !Unstructured, !ControllerUtil, !TLSChecks}.
Context (r : BackupJobReconciler).

Lemma phase_step_pending run q :
  pending run → q ∈ [RunPhasePending; RunPhasePreparing; RunPhaseFailed; RunPhaseCanceled] →
  phase_step (phase_of run) q = true.
Proof.
  intros Hp Hq. unfold phase_step. rewrite decide_True; [by apply bool_decide_eq_true|].
  destruct Hp as [-> | ->]; set_solver.
Qed.

Lemma phase_step_working p q :
  isTerminalPhase p = false → p ≠ "" → p ≠ RunPhasePending →
  q = p ∨ q ∈ [RunPhasePreparing; RunPhaseRunning; RunPhaseFinalizing;
               RunPhaseSucceeded; RunPhaseFailed; RunPhaseCanceled] →
  phase_step p q = true.
Proof.
  intros Ht Hne Hnp Hq. unfold phase_step. rewrite decide_False by set_solver. rewrite decide_False.
  - rewrite Ht. by apply bool_decide_eq_true.
  - by intros ->.
Qed.

Lemma no_active_restore_grew target h h' :
  grew h h' → no_active_restore target h → no_active_restore target h'.
Proof.
  intros Hh (restores & Hl & Hall). exists restores. split; [by eapply elem_of_grew|].
  eapply Forall_impl; [exact Hall|]. intros x [?|(ref & ? & ?)]; [by left|right].
  exists ref. eauto using did_grew.
Qed.

Lemma provisioned_weaken run runSet target h0 h1 h :
  grew h0 h1 → provisioned r run runSet target h1 h → provisioned r run runSet target h0 h.
Proof.
  intros Hh (s1 & s2 & s3 & s1' & s2' & s3' & job & now & Hp). destruct_and!.
  exists s1, s2, s3, s1', s2', s3', job, now. split_and!; try done; by eapply did_after_within.
Qed.

Lemma own_step_phase run h q : own_step r run h q → phase_step (phase_of run) q = true.
Proof.
  intros [Hp|c Hp|Hp|Ht|(?&?&?)|jobs q' (?&?&?) _ Hv|jobs job (?&?&?)|Hp _];
    try (by apply phase_step_pending; [|set_solver]).
  - destruct (decide (phase_of run ∈ [""; RunPhasePending])) as [Hp|Hp].
    + apply phase_step_pending; [|set_solver]. unfold pending. set_solver.
    + apply phase_step_working; [done|set_solver..].
  - by apply phase_step_working; [..|left].
  - apply phase_step_working; [done..|]. right. destruct Hv; set_solver.
  - apply phase_step_working; [done..|]. set_solver.
  - unfold phase_step. by rewrite Hp.
Qed.

(** C3: every write of a BackupJob's status that a reconcile issues, to the run it reconciles or to
    another, goes along an edge of the phase graph from the phase in which it read that run before: a
    run that succeeded or was cancelled is final, a run that failed is only ever set running again, and
    a run that has started never goes back to pending. *)
Theorem phase_moves ref h o :
  issues (BackupJob_Reconcile r ref) h (UpdateStatus KBackupJob o) →
  ∃ b, was_read b h ∧ bj_Meta o = bj_Meta b ∧ phase_step (phase_of b) (phase_of o) = true.
Proof.
  intros (run & Hread & [[Hm Hs]|[b Hb Hp Hm Hc _|b ? ? ? Hb Ha Hm Hc _ _]])%reconcile_writes.
  - exists run. split_and!; [left; by exists ref|done|by eapply own_step_phase].
  - exists b. split_and!; [done|done|]. rewrite Hc. apply phase_step_pending; [done|set_solver].
  - exists b. split_and!; [done|done|]. apply bool_decide_eq_true in Ha. rewrite Hc.
    repeat (apply elem_of_cons in Ha as [-> |Ha]; [done|]). by apply elem_of_nil in Ha.
Qed.

(** C1: a reconcile writes that a pending run is being prepared only when the target is ready, no
    restore that had not ended was found to read from the machine, and after that the target's lease was written, accepted, to
    make this run its holder; since then no lease was created, changed or deleted by the reconcile, and the run's
    credentials, the Job that serves the target and its Service were set up.  (A run that is past that keeps its
    phase, or goes back to it while it has no sender.) *)
Theorem start_guarded ref h o :
  issues (BackupJob_Reconcile r ref) h (UpdateStatus KBackupJob o) →
  phase_of o = RunPhasePreparing →
  ∃ run, Ev (Get KBackupJob ref) (Ok run) ∈ h ∧ bj_Meta o = bj_Meta run ∧
    (working run ∨ pending run ∧ ∃ runSet target machine replace h1,
       did (resolveBackupJob run) (Ok (runSet, target, machine)) h1 ∧ TargetReady target = true ∧
       no_active_restore target h1 ∧ lease_taken run target replace h1 ∧ leases_kept h1 h ∧
       provisioned r run runSet target h1 h).
Proof.
  intros (run & Hread & [[Hm Hs]|[]])%reconcile_writes Hp; [|rewrite Hp in *; discriminate..].
  exists run. split_and!; [done|done|]. revert Hp.
  destruct Hs as [|c|Hpend Hadm| |Hw|jobs q Hw|jobs job Hw|]; try discriminate; intros Hp; try (by left).
  destruct Hadm as [runSet target machine active replace blocking h0 h1 Hres Hready _ _ _ Hrest Hguard Hprov Hkept].
  pose proof (did_just_after _ _ _ _ Hguard) as Hafter.
  apply (shows_did _ _ _ _ _ (findActiveRestoreJobForTarget_shows target)) in Hrest as (h2 & _ & Hh2 & Hrest).
  pose proof (shows_did_just _ _ _ _ _ (acquireTargetGuard_shows r _ _ _) Hguard) as Hg.
  assert (grew h0 h1) as Hh by (destruct Hafter as (l & tr & h' & -> & Hh & _);
    etrans; [exact Hh|]; etrans; apply grew_app).
  right. split; [done|]. exists runSet, target, machine, replace, h1. split_and!.
  - by eapply did_grew.
  - done.
  - eapply no_active_restore_grew, Hrest; [by etrans|done].
  - by destruct blocking; apply (Hg _ eq_refl).
  - done.
  - done.
Qed.

(** C2: a reconcile writes that a run succeeded only after it listed the run's Jobs and found that none
    failed, that there is at least one sender, that there are at least as many senders as the run has sources
    then, that all senders and the target's Job are complete; and, with a control service, that the run recorded
    before that the target was told to finalize.  (That the senders are those of the sources is not looked at.) *)
Theorem success_justified ref h o :
  issues (BackupJob_Reconcile r ref) h (UpdateStatus KBackupJob o) →
  phase_of o = RunPhaseSucceeded →
  ∃ run jobs, Ev (Get KBackupJob ref) (Ok run) ∈ h ∧ bj_Meta o = bj_Meta run ∧ working run ∧
    Ev (List_ KJob None (run_selector (bj_Meta run) runKindBackup)) (Ok jobs) ∈ h ∧
    none_failed jobs ∧ sources_done jobs ∧ target_done jobs ∧ all_started run jobs h ∧
    (bjr_Control r = true → backupRunFinalizeCommandSent run = true).
Proof.
  intros (run & Hread & [[Hm Hs]|[]])%reconcile_writes Hp; [|rewrite Hp in *; discriminate..].
  exists run. revert Hp. destruct Hs as [|c|Hpend Hadm| |Hw|jobs q Hw Hl Hv|jobs job Hw|];
    try discriminate; intros Hp.
  - destruct Hw as [Hw _]. by rewrite Hp in Hw.
  - exists jobs. destruct Hv; try discriminate. done.
Qed.

(** ** Failed runs *)

(** No request writes a lease. *)
Definition no_lease_write : shape := λ R c,
  match c with Create KLease _ | Update KLease _ => False | _ => True end.

Lemma issues_only (F : shape) {X} (p : prog X) h {R : Set} (c : request R) : only F p → issues p h c → F R c.
Proof.
  intros Hp (tr & a & i & ans & Hr & Hi & _). revert i Hi.
  induction Hr as [a|R' c' k x tr a Hr IH]; intros i Hi; [done|]. destruct Hp as [Hc Hk].
  destruct i as [|i]; [|by apply (IH (Hk x) i)].
  apply (f_equal (λ o, match o with Some e => shaped F e | None => True end)) in Hi.
  cbn in Hi. by rewrite <-Hi.
Qed.

Lemma reconcile_ended_no_lease run : only no_lease_write (reconcile_ended r run).
Proof.
  unfold reconcile_ended, resumeRecoveredBackupJob, retry_conditions, set_cond, update_status,
    snapshot_available, releaseTargetGuardsForRun, cleanupBackupJobSnapshotResources,
    cleanupBackupJobTargetServices, deleteLabeledRunPersistentVolumeClaims, deleteLabeledRunServices,
    deleteLabeledRunVolumeSnapshots, delete_labeled, pruneBackupJobHistory, prune_run,
    cleanupRunResourcesAndRemoveFinalizer, cleanupRunResources, deleteLabeledRunJobs, deleteLabeledRunSecrets,
    deleteJobWithBackgroundPropagation, deleteWithBackgroundPropagation, delete_labeled. cbn zeta.
  solve_only. unfold snapshot_available. solve_only.
Qed.

(** a failed run that a transfer of which waits for a retry after the target made space is set running again
    by its next reconcile, whatever it failed of, and that reconcile takes no guard: it writes no
    lease, though the lease was given back when the run failed. *)
Theorem resume_takes_no_guard run :
  phase_of run = RunPhaseFailed → recovered run →
  (∀ env, ∃ o ans, (exec env (reconcile_ended r run) []).1 !! 2%nat = Some (Ev (UpdateStatus KBackupJob o) ans) ∧
     phase_of o = RunPhaseRunning ∧ bj_Meta o = bj_Meta run) ∧
  (∀ h l, ¬ issues (reconcile_ended r run) h (Create KLease l)) ∧
  (∀ h l, ¬ issues (reconcile_ended r run) h (Update KLease l)).
Proof.
  intros Hp (c & Hc & Ht & Ha & Hr). split_and!.
  - intros env. unfold reconcile_ended, resumeRecoveredBackupJob, retry_conditions, set_cond, set_job_condition.
    unfold mbind, act_mbind. cbn -[setCondition]. rewrite decide_True by done. rewrite Hc, decide_False.
    2: { rewrite Ht, Hr. naive_solver. }
    cbn -[setCondition]. destruct (setCondition _ _ _ _ _ _ _) as [cs ch]. cbn -[setCondition].
    destruct (setCondition _ _ _ _ _ _ _) as [cs2 ch2]. cbn -[setCondition].
    destruct (exec _ _ _) as [tr a]. cbn. by eexists _, _.
  - intros h l Hi. by apply (issues_only no_lease_write) in Hi; [|apply reconcile_ended_no_lease].
  - intros h l Hi. by apply (issues_only no_lease_write) in Hi; [|apply reconcile_ended_no_lease].
Qed.
End RunLaws.

(** ** Concrete runs *)


Lemma phase_moves_witness :
  let '(h, o) := first_write reconcile_nightly starting in
  phase_of o = RunPhasePreparing ∧
  ∃ b, was_read b h ∧ bj_Meta o = bj_Meta b ∧ phase_step (phase_of b) (phase_of o) = true.
Proof.
  pose proof (first_write_issued reconcile_nightly starting ltac:(by vm_compute)) as Hi.
  assert (phase_of (first_write reconcile_nightly starting).2 = RunPhasePreparing) as Hp by by vm_compute.
  revert Hi Hp. generalize (first_write reconcile_nightly starting). intros [h o] Hi Hp. split; [done|].
  exact (phase_moves reconciler nightly_ref h o Hi).
Defined.

Lemma start_guarded_witness :
  let '(h, o) := first_write reconcile_nightly starting in
  ∃ run, Ev (Get KBackupJob nightly_ref) (Ok run) ∈ h ∧ bj_Meta o = bj_Meta run ∧
    (working run ∨ pending run ∧ ∃ runSet target machine replace h1,
       did (resolveBackupJob run) (Ok (runSet, target, machine)) h1 ∧ TargetReady target = true ∧
       no_active_restore target h1 ∧ lease_taken run target replace h1 ∧ leases_kept h1 h ∧
       provisioned reconciler run runSet target h1 h).
Proof.
  pose proof (first_write_issued reconcile_nightly starting ltac:(by vm_compute)) as Hi.
  assert (phase_of (first_write reconcile_nightly starting).2 = RunPhasePreparing) as Hp by by vm_compute.
  revert Hi Hp. generalize (first_write reconcile_nightly starting). intros [h o] Hi Hp.
  exact (start_guarded reconciler nightly_ref h o Hi Hp).
Defined.

Lemma success_justified_witness :
  let '(h, o) := first_write reconcile_nightly finishing in
  ∃ run jobs, Ev (Get KBackupJob nightly_ref) (Ok run) ∈ h ∧ bj_Meta o = bj_Meta run ∧ working run ∧
    Ev (List_ KJob None (run_selector (bj_Meta run) runKindBackup)) (Ok jobs) ∈ h ∧
    none_failed jobs ∧ sources_done jobs ∧ target_done jobs ∧ all_started run jobs h ∧
    (bjr_Control reconciler = true → backupRunFinalizeCommandSent run = true).
Proof.
  pose proof (first_write_issued reconcile_nightly finishing ltac:(by vm_compute)) as Hi.
  assert (phase_of (first_write reconcile_nightly finishing).2 = RunPhaseSucceeded) as Hp by by vm_compute.
  revert Hi Hp. generalize (first_write reconcile_nightly finishing). intros [h o] Hi Hp.
  exact (success_justified reconciler nightly_ref h o Hi Hp).
Defined.

(** Senders are only counted: the run of one source succeeds with the sender of another one, which was
    a source of the machine when the run started. *)
Definition old_sender : Job :=
  (finished_job RoleSourceSender) <| j_Meta ::= λ m,
    m <| om_Namespace := "media" |> <| om_Name := GeneratedJobName "source-old-photos" "nightly" |> |>.

Definition swapped : environment :=
  server (with_object KJob old_sender
    (with_object KJob (finished_job RoleTargetServer) (small (nightly RunPhaseRunning)))).

Example senders_are_only_counted :
  phase_of (first_write reconcile_nightly swapped).2 = RunPhaseSucceeded ∧
  source_job_of (nightly RunPhaseRunning) old_sender (MkResolvedSource (source_ref photos) photos "media/photos") = false.
Proof. split; by vm_compute. Qed.

(** A run that failed while it waited for a retry. *)
Definition stuck : BackupJob :=
  (nightly RunPhaseFailed) <| bj_Status ::= λ st,
    st <| bjs_LastCommand := Some (MkCommandStatus "recover-space-media-photos" TargetCommandRecoverSpace
                                     (Some noon) (Some noon)) |>
       <| bjs_Transfers := [retry_transfer inhabitant] |> |>.

Lemma resume_takes_no_guard_witness :
  phase_of stuck = RunPhaseFailed ∧
  (∀ env, ∃ o ans,
     (exec env (reconcile_ended reconciler stuck) []).1 !! 2%nat = Some (Ev (UpdateStatus KBackupJob o) ans) ∧
     phase_of o = RunPhaseRunning ∧ bj_Meta o = bj_Meta stuck) ∧
  (∀ h l, ¬ issues (reconcile_ended reconciler stuck) h (Create KLease l)) ∧
  (∀ h l, ¬ issues (reconcile_ended reconciler stuck) h (Update KLease l)).
Proof.
  split; [done|]. apply (resume_takes_no_guard reconciler stuck); [done|].
  eexists. split_and!; [done|done|done|by vm_compute].
Defined.
