(* ===== verification/CleanupLaws.v ===== *)
(** * What a run leaves behind

    A run that is deleted goes only after its generated resources went, and the history of a
    machine keeps its newest runs. *)
From S2P Require Export RunLaws.
From stdpp Require Import options.

(** ** Objects that are gone *)

(** The API server was asked to delete the object, and did or had none. *)
Definition gone (k : kind) (o : object k) (h : list event) : Prop :=
  ∃ background answer, Ev (Delete k o background) answer ∈ h ∧
    match answer with Ok _ => True | Err e => errors_is KNotFound e = true end.

(** All the objects of the kind with these labels were listed, and each that [P] picks is gone. *)
Definition all_gone (k : kind) (P : object k → Prop) (labels : gmap string string) (h : list event) : Prop :=
  ∃ items, Ev (List_ k None labels) (Ok items) ∈ h ∧ Forall (λ o, P o → gone k o h) items.

Lemma gone_grew k o h h' : grew h h' → gone k o h → gone k o h'.
Proof. intros Hh (b & a & He & Ha). exists b, a. eauto using elem_of_grew. Qed.

Lemma all_gone_grew k P labels h h' : grew h h' → all_gone k P labels h → all_gone k P labels h'.
Proof.
  intros Hh (items & Hl & Hall). exists items. split; [by eapply elem_of_grew|].
  eapply Forall_impl; [exact Hall|]. eauto using gone_grew.
Qed.

Section Shows.
Context `{!Quantities, !Unstructured, !ControllerUtil, !TLSChecks}.
Context (r : BackupJobReconciler).

Lemma shows_bind {X Y} (m : io X) (f : X → io Y) (K : X → list event → Prop) (Q : result Y → list event → Prop) :
  shows m (λ x h, ∀ a, x = Ok a → K a h) → (∀ e h, Q (Err e) h) →
  (∀ a, shows (f a) (λ x h', ∀ h, K a h → grew h h' → Q x h')) → shows (m ≫= f) Q.
Proof.
  intros Hm He Hf h. apply io_safe_bind. eapply safe_mono; [apply Hm|]. intros [a|e] h' Hx; [|apply He].
  eapply safe_mono; [apply safe_grows, Hf|]. intros y h2 [Hy (l & -> & _)].
  apply (Hy h'); [by apply Hx|apply grew_app].
Qed.

Lemma shows_on_err {X} f (m : io X) (Q : X → list event → Prop) :
  shows m (λ x h, ∀ a, x = Ok a → Q a h) → shows (io_on_err f m) (λ x h, ∀ a, x = Ok a → Q a h).
Proof.
  intros Hm h. apply io_safe_on_err. eapply safe_mono; [apply Hm|]. intros [b|e] h' Hx a; [apply Hx|done].
Qed.

Lemma delete_shows k (o : object k) background :
  shows (io_ignore_notfound (req (Delete k o background))) (λ x h, ∀ a, x = Ok a → gone k o h).
Proof.
  intros h. split; [done|]. intros [[]|e] _; cbn.
  - intros a _. exists background, (Ok tt). split; [left|done].
  - destruct (errors_is KNotFound e) eqn:He; [|done]. intros a _. exists background, (Err e). split; [left|done].
Qed.

Lemma for_each_shows k (P : object k → Prop) (f : object k → io unit) items :
  (∀ o, shows (f o) (λ x h, ∀ a, x = Ok a → P o → gone k o h)) →
  shows (io_for_each f items) (λ x h, ∀ a, x = Ok a → Forall (λ o, P o → gone k o h) items).
Proof.
  intros Hf. induction items as [|o items IH]; [by intros h a _|]. cbn [io_for_each].
  eapply (shows_bind _ _ (λ _ h, P o → gone k o h)); [apply Hf|done|]. intros _ h.
  eapply safe_mono; [apply IH|]. intros x h' Hx h1 Ho Hh a Ha. constructor; [|by eapply Hx].
  intros Hp. by eapply gone_grew, Ho.
Qed.

Lemma list_shows k namespace labels :
  shows (req (List_ k namespace labels)) (λ x h, ∀ items, x = Ok items → Ev (List_ k namespace labels) (Ok items) ∈ h).
Proof. intros h. split; [done|]. intros x _ items ->. left. Qed.

Lemma delete_labeled_shows k delete labels :
  (∀ o, ∃ background, delete o = req (Delete k o background)) →
  shows (delete_labeled k delete labels) (λ x h, ∀ a, x = Ok a → all_gone k (λ _, True) labels h).
Proof.
  intros Hd. eapply shows_bind; [apply list_shows|done|]. intros items h.
  eapply safe_mono; [apply (for_each_shows _ (λ _, True))|].
  - intros o. destruct (Hd o) as [b ->]. intros h1. eapply safe_mono; [apply delete_shows|]. naive_solver.
  - intros x h' Hx h1 Hl Hh a Ha. exists items. split; [by eapply elem_of_grew|]. by eapply Hx.
Qed.

(** What [cleanupRunResources] leaves of a run. *)
Definition resources_gone (run : ObjectMeta) (runKind : string) (snapshots : bool) (h : list event) : Prop :=
  let gone k := all_gone k (λ _, True) (run_selector run runKind) h in
  gone KJob ∧ gone KPVC ∧ gone KSecret ∧ gone KService ∧ (snapshots = true → gone KVolumeSnapshot).

(** Two steps, the first of which shows a fact that lasts. *)
Lemma shows_then {X Y} (m : io X) (f : X → io Y) (K : list event → Prop) (Q : list event → Prop) :
  (∀ h h', grew h h' → K h → K h') →
  shows m (λ x h, ∀ a, x = Ok a → K h) → (∀ a, shows (f a) (λ x h, ∀ b, x = Ok b → Q h)) →
  shows (m ≫= f) (λ x h, ∀ b, x = Ok b → K h ∧ Q h).
Proof.
  intros HK Hm Hf. eapply shows_bind; [exact Hm|by intros|]. intros a h. eapply safe_mono; [apply Hf|].
  intros x h' Hx h1 Hh1 Hh b Hb. split; [by eapply HK|by eapply Hx].
Qed.

Lemma delete_kind_shows k noun labels delete :
  (∀ o, ∃ background, delete o = req (Delete k o background)) →
  shows (io_on_err noun (delete_labeled k delete labels))
    (λ x h, ∀ a, x = Ok a → all_gone k (λ _, True) labels h).
Proof. intros Hd. by apply shows_on_err, delete_labeled_shows. Qed.

Lemma cleanupRunResources_shows run runKind snapshots :
  shows (cleanupRunResources run runKind snapshots)
    (λ x h, ∀ a, x = Ok a → resources_gone run runKind snapshots h).
Proof.
  unfold cleanupRunResources, resources_gone. cbn zeta.
  do 4 (apply shows_then; [intros ??; apply all_gone_grew|apply delete_kind_shows; by eexists|intros _]).
  destruct snapshots; [|by intros h a _].
  intros h. eapply safe_mono; [apply delete_kind_shows; by eexists|]. naive_solver.
Qed.

(** The leases of the run's targets are its own no more. *)
Definition guards_released (run : BackupJob) (h : list event) : Prop :=
  all_gone KLease (λ l, l_HolderIdentity l = None ∨ l_HolderIdentity l = Some (backupRunGuardHolder run))
    (<[LabelRole := targetGuardRole]> (run_selector (bj_Meta run) runKindBackup)) h.

Lemma releaseTargetGuardsForRun_shows run :
  shows (releaseTargetGuardsForRun run) (λ x h, ∀ a, x = Ok a → guards_released run h).
Proof.
  eapply shows_bind; [apply shows_on_err, list_shows|by intros|]. intros leases h.
  eapply safe_mono; [apply (for_each_shows KLease
    (λ l, l_HolderIdentity l = None ∨ l_HolderIdentity l = Some (backupRunGuardHolder run)))|].
  - intros l. case_decide as Hl; [intros h1 a _ Hp; tauto|].
    intros h1. eapply safe_mono; [apply shows_on_err, delete_shows|]. naive_solver.
  - intros x h' Hx h1 Hlist Hh a Ha. exists leases. split; [by eapply elem_of_grew|]. by eapply Hx.
Qed.

(** ** A run that is deleted *)

Definition on_update (W : list event → BackupJob → Prop) : rule := λ h R c,
  match c with
  | Update k o => match k return object k → Prop with KBackupJob => W h | _ => λ _, True end o
  | _ => True
  end.

Definition no_run_update : shape := λ R c, match c with Update KBackupJob _ => False | _ => True end.

Lemma no_update_allowed W h R (c : request R) : no_run_update R c → on_update W h R c.
Proof. destruct c as [| | |k o| | | | | | | | | | |]; try done. by destruct k. Qed.

Lemma cleanupRunResources_no_update run runKind snapshots :
  only no_run_update (cleanupRunResources run runKind snapshots).
Proof.
  unfold cleanupRunResources, deleteLabeledRunJobs, deleteLabeledRunPersistentVolumeClaims,
    deleteLabeledRunSecrets, deleteLabeledRunServices, deleteLabeledRunVolumeSnapshots, delete_labeled,
    deleteJobWithBackgroundPropagation, deleteWithBackgroundPropagation. cbn zeta. solve_only.
Qed.

Lemma releaseTargetGuardsForRun_no_update run : only no_run_update (releaseTargetGuardsForRun run).
Proof. unfold releaseTargetGuardsForRun. solve_only. Qed.

(** What a program with a footprint shows, under any rule the footprint keeps. *)
Lemma shows_safe (F : shape) P {X} (m : prog X) h Q :
  only F m → (∀ h R (c : request R), F R c → P h R c) → shows m Q →
  safe no_promise P m h (λ x h', Q x h' ∧ did_after m x h h').
Proof.
  intros Hm HP HQ. eapply safe_mono.
  { apply safe_ran. eapply (safe_only F); [exact Hm|exact HP|apply HQ]. }
  intros x h' [Hx (tr & Hr & ->)]. split; [done|]. by apply did_after_intro.
Qed.

Lemma did_after_grow {X} (p : prog X) a h0 h : did_after p a h0 h → grew h0 h.
Proof. intros (h1 & tr & h' & -> & Hh & _). etrans; [exact Hh|]. exists (h1 ++ rev tr). by rewrite (assoc_L (++)). Qed.

Lemma reconcile_run_deleted run :
  deleting (bj_Meta run) = true → reconcile_run r run = reconcile_deleted r run.
Proof.
  intros Hdel. unfold reconcile_run, ensureScheduledBackupJobOwnerReference, mbind, act_mbind. cbn [get_obj prog_bind].
  cbn. rewrite Hdel. cbn. by rewrite Hdel.
Qed.

(** C16: the reconcile of a run that is being deleted takes the finalizer off the run, by an update that changes
    nothing else, only after the leases the run held were deleted and all of the Jobs, claims, Secrets
    and Services that carry the run's labels, and its volume snapshots where the cluster has them, were listed
    and deleted or found to be gone. *)
Theorem finalizer_last run h o :
  deleting (bj_Meta run) = true →
  issues (reconcile_run r run) h (Update KBackupJob o) →
  o = run <| bj_Meta ::= λ m, RemoveFinalizer m BackupJobFinalizer |> ∧
  guards_released run h ∧
  ∃ snapshots, did (snapshot_available r) (Ok snapshots) h ∧
    resources_gone (bj_Meta run) runKindBackup snapshots h.
Proof.
  intros Hdel Hi.
  refine (safe_issues (on_update (λ h o,
    o = run <| bj_Meta ::= λ m, RemoveFinalizer m BackupJobFinalizer |> ∧ guards_released run h ∧
    ∃ snapshots, did (snapshot_available r) (Ok snapshots) h ∧
      resources_gone (bj_Meta run) runKindBackup snapshots h)) _ (λ _ _, True) _ _ _ Hi).
  clear Hi. rewrite reconcile_run_deleted by done. unfold reconcile_deleted.
  apply act_safe_bind, act_safe_lift. eapply safe_mono.
  { apply (shows_safe no_run_update _ _ _ (λ _ _, True)); [unfold snapshot_available; solve_only|
      apply no_update_allowed|]. intros h0. eapply safe_mono; [apply safe_any|done]. }
  intros [snapshots|e] h1 [_ Hav]; cbn [fst snd]; [|done].
  apply act_safe_bind. cbn [get_obj safe fst snd].
  apply act_safe_bind, act_safe_lift. eapply safe_mono.
  { eapply (shows_safe no_run_update); [apply releaseTargetGuardsForRun_no_update|apply no_update_allowed|
      apply releaseTargetGuardsForRun_shows]. }
  intros [[]|e] h2 [Hrel Hd2%did_after_grow]; cbn [fst snd]; [|done].
  apply act_safe_bind. unfold cleanupRunResourcesAndRemoveFinalizer.
  apply act_safe_bind. cbn [get_obj safe fst snd].
  destruct (negb _); [done|]. apply act_safe_bind, act_safe_lift. eapply safe_mono.
  { eapply (shows_safe no_run_update); [apply cleanupRunResources_no_update|apply no_update_allowed|
      apply cleanupRunResources_shows]. }
  intros [[]|e] h3 [Hgone Hd3%did_after_grow]; cbn [fst snd]; [|done].
  apply act_safe_bind. cbn [modify safe fst snd]. apply act_safe_on_err.
  split.
  - split_and!; [done|by eapply all_gone_grew, Hrel|]. exists snapshots.
    split; [|by eapply Hgone]. eapply did_of; [exact Hav|by etrans].
  - intros [o'|e] _; cbn; [done|]. by destruct (errors_is _ _).
Qed.
End Shows.

(** The run while it is deleted. *)
Definition going : BackupJob :=
  (nightly RunPhaseRunning) <| bj_Meta ::= λ m, m <| om_DeletionTimestamp := Some noon |> |>.

Lemma finalizer_last_witness :
  deleting (bj_Meta going) = true ∧
  ∃ h o, issues (reconcile_run reconciler going) h (Update KBackupJob o) ∧
    o = going <| bj_Meta ::= λ m, RemoveFinalizer m BackupJobFinalizer |> ∧ guards_released going h ∧
    ∃ snapshots, did (snapshot_available reconciler) (Ok snapshots) h ∧
      resources_gone (bj_Meta going) runKindBackup snapshots h.
Proof.
  split; [done|].
  assert (∃ i o ans, (exec finishing (reconcile_run reconciler going) []).1 !! i =
    Some (Ev (Update KBackupJob o) ans)) as (i & o & ans & Hi).
  { exists 7%nat. do 2 eexists. vm_compute. reflexivity. }
  eexists _, o. split; [by eapply exec_issues|].
  apply (finalizer_last reconciler going _ o); [done|]. by eapply exec_issues.
Defined.
