(* ===== verification/HistoryLaws.v ===== *)
(** * The run history of a machine

    Which runs the history of a machine gives up: of its scheduled runs that have ended exactly those for
    which enough newer ones are kept. *)
From S2P Require Export CleanupLaws.
From stdpp Require Import options.

(** ** Sorting by time and key *)

#[export] Instance history_le_total : Total history_le.
Proof.
  intros a b. unfold history_le.
  destruct (Z.lt_trichotomy (backupRunHistoryTime a) (backupRunHistoryTime b)) as [H|[H|H]]; [right; by left| |left; by left].
  destruct (total String.le (run_key a) (run_key b)); [right; right|left; right]; by rewrite H.
Qed.

#[export] Instance history_le_trans : Transitive history_le.
Proof.
  intros a b c [Hab|[Hab Hk]] [Hbc|[Hbc Hk']]; unfold history_le; [left; lia..|right].
  split; [by etrans|]. by trans (run_key b).
Qed.

(** The runs that the history prefers to [c]: later ones, and of one time those with a greater key. *)
Definition newer (c d : BackupJob) : Prop := history_le d c ∧ run_key d ≠ run_key c.
#[export] Instance newer_dec c d : Decision (newer c d).
Proof. unfold newer. apply _. Defined.

Lemma history_le_antisym a b : history_le a b → history_le b a → run_key a = run_key b.
Proof.
  intros [H1|[H1 K1]] [H2|[H2 K2]]; try lia. by apply (anti_symm String.le).
Qed.

(** What is dropped of a sorted list of runs is what has enough newer runs before it. *)
Lemma elem_of_pruned runs keep c :
  NoDup (run_key <$> runs) → c ∈ runs →
  c ∈ pruneBackupJobHistoryCandidates runs keep ↔
  (Z.to_nat keep ≤ length (filter (newer c) runs))%nat.
Proof.
  intros Hnd Hc. unfold pruneBackupJobHistoryCandidates.
  pose proof (StronglySorted_merge_sort history_le runs) as Hs.
  assert (sort_by history_le runs ≡ₚ runs) as Hp by apply merge_sort_Permutation.
  fold (sort_by history_le runs) in Hs. revert Hs Hp. generalize (sort_by history_le runs). intros l Hs Hp.
  rewrite <-Hp. rewrite <-Hp in Hnd, Hc. apply list_elem_of_split in Hc as (l1 & l2 & ->).
  apply StronglySorted_app in Hs as (Hle & _ & Hs). apply StronglySorted_inv in Hs as [_ Hge].
  rewrite fmap_app, fmap_cons, NoDup_app in Hnd. destruct Hnd as (_ & H1 & H2%NoDup_cons).
  assert (filter (newer c) (l1 ++ c :: l2) = l1) as Hf.
  { rewrite filter_app, filter_all, filter_none; [apply app_nil_r|..].
    - constructor; [by intros [_ ?]|]. apply Forall_forall. intros d Hd [Hle' Hne].
      rewrite Forall_forall in Hge. by apply Hne, history_le_antisym, Hge.
    - apply Forall_forall. intros d Hd. split; [apply Hle; [done|left]|]. intros Heq.
      apply (H1 (run_key d)); [by apply list_elem_of_fmap_2|]. rewrite Heq. left. }
  rewrite Hf. destruct (decide (Z.to_nat keep ≤ length l1)%nat) as [Hk|Hk]; split; try done.
  - intros _. rewrite drop_app_le by done. apply elem_of_app. right. left.
  - intros Hd. rewrite drop_app_ge in Hd by lia. destruct H2 as [H2 _]. contradict H2.
    apply list_elem_of_fmap_2. destruct (Z.to_nat keep - length l1)%nat as [|n] eqn:Hn; [lia|].
    by apply (subseteq_drop n).
Qed.

(** ** The pruned runs *)

(** The run is one of [runs], and enough of them are newer. *)
Definition beyond (keep : Z) (runs : list BackupJob) (c : BackupJob) : Prop :=
  c ∈ runs ∧ (Z.to_nat keep ≤ length (filter (newer c) runs))%nat.

Lemma lookup_candidates m runs c completed :
  NoDup (run_key <$> completed) → (∀ d, d ∈ runs → d ∈ completed) → c ∈ completed →
  addBackupJobHistoryPruneCandidates m runs !! run_key c = Some c ↔ c ∈ runs ∨ m !! run_key c = Some c.
Proof.
  intros Hnd Hsub Hc. unfold addBackupJobHistoryPruneCandidates. revert m.
  induction runs as [|d runs IH]; intros m; cbn [foldl]; [set_solver|].
  rewrite IH by set_solver. rewrite elem_of_cons.
  destruct (decide (run_key d = run_key c)) as [Hk|Hk].
  - assert (d = c) as ->.
    { assert (d ∈ completed) as Hd by set_solver.
      apply list_elem_of_lookup in Hd as [i Hi], Hc as [j Hj].
      assert (i = j) as ->; [|congruence]. eapply NoDup_lookup; [exact Hnd|..]; rewrite list_lookup_fmap.
      - rewrite Hi. cbn. by rewrite Hk.
      - by rewrite Hj. }
    rewrite lookup_insert_eq. naive_solver.
  - rewrite lookup_insert_ne by done. naive_solver.
Qed.

Lemma NoDup_keys_filter (P : BackupJob → Prop) `{∀ x, Decision (P x)} runs :
  NoDup (run_key <$> runs) → NoDup (run_key <$> filter P runs).
Proof. intros Hnd. eapply sublist_NoDup; [exact Hnd|]. apply fmap_sublist, sublist_filter. Qed.

Lemma prune_beyond runs keep c :
  NoDup (run_key <$> runs) → c ∈ pruneBackupJobHistoryCandidates runs keep ↔ beyond keep runs c.
Proof.
  intros Hnd. destruct (decide (c ∈ runs)) as [Hc|Hc].
  - rewrite elem_of_pruned by done. unfold beyond. tauto.
  - unfold beyond. split; [|tauto]. intros Hp%subseteq_drop. contradict Hc.
    by rewrite <-(merge_sort_Permutation history_le runs).
Qed.

Definition succeeded (runs : list BackupJob) : list BackupJob :=
  filter (λ r, phase_of r = RunPhaseSucceeded) runs.
Definition unsuccessful (runs : list BackupJob) : list BackupJob :=
  filter (λ r, phase_of r = RunPhaseFailed ∨ phase_of r = RunPhaseCanceled) runs.

(** The scheduled runs of a machine that have ended. *)
Definition in_machine_history (machineRef : NamespacedName) (c : BackupJob) : Prop :=
  bs_Trigger (bj_Spec c) = BackupJobTriggerScheduled ∧
  phase_of c ∈ [RunPhaseSucceeded; RunPhaseFailed; RunPhaseCanceled] ∧ refers_to_machine c machineRef.

Lemma in_history_spec machineRef c : in_history machineRef c = true ↔ in_machine_history machineRef c.
Proof.
  unfold in_history, in_machine_history, refers_to_machine, isTerminalPhase, TriggerOrDefault.
  rewrite !andb_true_iff, !bool_decide_eq_true, !elem_of_cons, elem_of_nil.
  assert ((if decide (bs_Trigger (bj_Spec c) ≠ "") then bs_Trigger (bj_Spec c) else BackupJobTriggerManual)
    = BackupJobTriggerScheduled ↔ bs_Trigger (bj_Spec c) = BackupJobTriggerScheduled) as ->.
  { case_decide as Ht; [done|]. by rewrite Ht. }
  destruct (ResolveObjectReference _ _) as [ref|e]; [rewrite bool_decide_eq_true; naive_solver|naive_solver].
Qed.
#[export] Instance in_machine_history_dec machineRef c : Decision (in_machine_history machineRef c).
Proof. refine (cast_if (decide (in_history machineRef c = true))); by rewrite <-in_history_spec. Defined.

(** What the history gives up of the runs that were listed. *)
Definition given_up (machineRef : NamespacedName) (history : RunHistory) (listed : list BackupJob) (c : BackupJob) : Prop :=
  let completed := filter (in_machine_history machineRef) listed in
  if HasCountLimit history then
    beyond (rh_Count history) completed c ∨
    (rh_Successful history > 0 ∧ beyond (rh_Successful history) (succeeded completed) c) ∨
    (rh_Failed history > 0 ∧ beyond (rh_Failed history) (unsuccessful completed) c)
  else
    beyond (SuccessfulOrDefault history) (succeeded completed) c ∨
    beyond (FailedOrDefault history) (unsuccessful completed) c.

Lemma candidates_exact history completed c :
  NoDup (run_key <$> completed) → c ∈ completed →
  history_candidates history completed !! run_key c = Some c ↔
  if HasCountLimit history then
    beyond (rh_Count history) completed c ∨
    (rh_Successful history > 0 ∧ beyond (rh_Successful history) (succeeded completed) c) ∨
    (rh_Failed history > 0 ∧ beyond (rh_Failed history) (unsuccessful completed) c)
  else
    beyond (SuccessfulOrDefault history) (succeeded completed) c ∨
    beyond (FailedOrDefault history) (unsuccessful completed) c.
Proof.
  intros Hnd Hc. unfold history_candidates. fold (succeeded completed) (unsuccessful completed).
  assert (∀ m runs keep, NoDup (run_key <$> runs) → (∀ d, d ∈ runs → d ∈ completed) →
    addBackupJobHistoryPruneCandidates m (pruneBackupJobHistoryCandidates runs keep) !! run_key c = Some c ↔
    beyond keep runs c ∨ m !! run_key c = Some c) as Hstep.
  { intros m runs keep Hr Hsub. rewrite (lookup_candidates _ _ _ completed), prune_beyond; [done|done|done| |done].
    intros d Hd%prune_beyond; [apply Hsub, Hd|done]. }
  assert (NoDup (run_key <$> succeeded completed)) by by apply NoDup_keys_filter.
  assert (NoDup (run_key <$> unsuccessful completed)) by by apply NoDup_keys_filter.
  assert (∀ d, d ∈ succeeded completed → d ∈ completed) by by intros d [_ ?]%list_elem_of_filter.
  assert (∀ d, d ∈ unsuccessful completed → d ∈ completed) by by intros d [_ ?]%list_elem_of_filter.
  destruct (HasCountLimit history); cbn zeta; [repeat case_decide|]; rewrite !Hstep by done;
    rewrite lookup_empty; naive_solver.
Qed.

(** Every candidate is one of the runs, under its own key. *)
Lemma candidates_keyed history completed k c :
  history_candidates history completed !! k = Some c → k = run_key c ∧ c ∈ completed.
Proof.
  set (ok := λ m : gmap string BackupJob, ∀ k c, m !! k = Some c → k = run_key c ∧ c ∈ completed).
  assert (∀ runs m, (∀ d, d ∈ runs → d ∈ completed) → ok m → ok (addBackupJobHistoryPruneCandidates m runs)) as Hadd.
  { unfold addBackupJobHistoryPruneCandidates. induction runs as [|d runs IH]; intros m Hs Hm; cbn [foldl]; [done|].
    apply IH; [set_solver|]. intros k' c' [[<- <-]|[_ Hl]]%lookup_insert_Some; [|by apply Hm]. split; [done|]. apply Hs. left. }
  assert (∀ runs keep m, (∀ d, d ∈ runs → d ∈ completed) → ok m →
    ok (addBackupJobHistoryPruneCandidates m (pruneBackupJobHistoryCandidates runs keep))) as Hprune.
  { intros runs keep m Hs. apply Hadd. intros d Hd%subseteq_drop. apply Hs. by rewrite <-(merge_sort_Permutation history_le runs). }
  assert (∀ P (HP : ∀ d, Decision (P d)) d, d ∈ filter P completed → d ∈ completed) as Hf
    by by intros P HP d [_ Hd]%list_elem_of_filter.
  assert (ok ∅) as He by (intros k' c'; by rewrite lookup_empty).
  revert k c. change (ok (history_candidates history completed)). unfold history_candidates. cbv zeta.
  destruct (HasCountLimit history); repeat case_decide; repeat (apply Hprune; [try done; by apply Hf|]); done.
Qed.

Lemma candidates_given_up machineRef history listed c :
  NoDup (run_key <$> listed) →
  c ∈ (map_to_list (history_candidates history (filter (λ c, in_history machineRef c = true) listed))).*2 ↔
  given_up machineRef history listed c.
Proof.
  intros Hnd. rewrite (list_filter_iff _ (in_machine_history machineRef)) by apply in_history_spec.
  set (completed := filter (in_machine_history machineRef) listed).
  assert (NoDup (run_key <$> completed)) as Hk by by apply NoDup_keys_filter.
  assert (c ∈ completed → history_candidates history completed !! run_key c = Some c ↔ given_up machineRef history listed c)
    as He by by apply candidates_exact.
  assert (given_up machineRef history listed c → c ∈ completed) as Hg.
  { unfold given_up, beyond, succeeded, unsuccessful. fold completed. destruct (HasCountLimit history);
      intros Hx; decompose [and or] Hx; try done;
      match goal with H : c ∈ filter _ completed |- _ => by apply list_elem_of_filter in H as [_ ?] end. }
  split.
  - intros ([k c'] & -> & Hin%elem_of_map_to_list)%list_elem_of_fmap. cbn in He, Hg |- *.
    destruct (candidates_keyed _ _ _ _ Hin) as [-> Hc]. by apply He.
  - intros Hx. apply list_elem_of_fmap. exists (run_key c, c). split; [done|]. apply elem_of_map_to_list.
    by apply He; [apply Hg|].
Qed.

(** ** What is deleted *)

Section Pruning.
Context `{!Quantities, !Unstructured, !ControllerUtil, !TLSChecks}.
Context (r : BackupJobReconciler) (run : BackupJob).

(** The run without its finalizer. *)
Definition without_finalizer (c : BackupJob) : BackupJob :=
  set_meta KBackupJob (RemoveFinalizer (bj_Meta c) BackupJobFinalizer) c.

(** The object that is deleted for a run: itself, without its finalizer when it had one, or what the API server answered when that was
    taken off. *)
Definition stands_for (c o : BackupJob) (h : list event) : Prop :=
  o = c ∨ o = without_finalizer c ∨ Ev (Update KBackupJob (without_finalizer c)) (Ok o) ∈ h.

Definition on_delete (W : list event → BackupJob → Prop) : rule := λ h R c,
  match c with
  | Delete k o _ => match k return object k → Prop with KBackupJob => W h | _ => λ _, True end o
  | _ => True
  end.

Definition no_run_delete : shape := λ R c, match c with Delete KBackupJob _ _ => False | _ => True end.

Lemma no_run_delete_allowed W h R (c : request R) : no_run_delete R c → on_delete W h R c.
Proof. destruct c as [| | | | |k o b| | | | | | | | |]; try done. by destruct k. Qed.

(** The run was deleted, or was gone. *)
Definition run_deleted (c : BackupJob) (h : list event) : Prop :=
  ∃ o, stands_for c o h ∧ gone KBackupJob o h.

Lemma run_deleted_grew c h h' : grew h h' → run_deleted c h → run_deleted c h'.
Proof.
  intros Hh (o & Ho & Hg). exists o. split; [|by eapply gone_grew].
  destruct Ho as [?|[?|?]]; [by left|right; by left|right; right]. by eapply elem_of_grew.
Qed.

Lemma cleanupRunResources_no_run_delete meta runKind snapshots : only no_run_delete (cleanupRunResources meta runKind snapshots).
Proof.
  unfold cleanupRunResources, deleteLabeledRunJobs, deleteLabeledRunPersistentVolumeClaims,
    deleteLabeledRunSecrets, deleteLabeledRunServices, deleteLabeledRunVolumeSnapshots, delete_labeled,
    deleteJobWithBackgroundPropagation, deleteWithBackgroundPropagation. cbn zeta. solve_only.
Qed.

(** Taking a run's resources and its finalizer away leaves an object that stands for it. *)
Lemma cleaned_stands c snapshots W h :
  safe no_promise (on_delete W)
    (cleanupRunResourcesAndRemoveFinalizer KBackupJob runKindBackup BackupJobFinalizer snapshots c) h
    (λ rs h', stands_for c rs.2 h').
Proof.
  unfold cleanupRunResourcesAndRemoveFinalizer. apply act_safe_bind. cbn [get_obj safe fst snd].
  destruct (negb _); [by left|]. apply act_safe_bind, act_safe_lift. eapply safe_mono.
  { eapply only_safe; [apply cleanupRunResources_no_run_delete|apply no_run_delete_allowed]. }
  intros [[]|e] h1 _; cbn [fst snd]; [|by left]. apply act_safe_bind. cbn [modify safe fst snd].
  apply act_safe_on_err. unfold ignore_notfound, write_back. cbn [prog_bind safe]. split; [done|].
  intros [o|e] _; cbn; right; [right; left|by left].
Qed.

Lemma prune_run_deletes c snapshots h :
  safe no_promise (on_delete (λ h o, stands_for c o h)) (prune_run snapshots c) h
    (λ x h', ∀ a, x = Ok a → run_deleted c h').
Proof.
  unfold prune_run. apply io_safe_bind, io_safe_on_err, safe_run_on. eapply safe_mono; [apply cleaned_stands|].
  intros [[a|e] o] h1 Ho; cbn [fst snd map_err] in *; [|done]. apply io_safe_on_err. split; [exact Ho|].
  intros [[]|e] _; cbn.
  - intros _ _. exists o. split; [destruct Ho as [?|[?|?]]; [by left|right; by left|right; right; by right]|].
    exists false, (Ok tt). split; [left|done].
  - destruct (errors_is KNotFound e) eqn:He; cbn; [|done]. intros _ _. exists o.
    split; [destruct Ho as [?|[?|?]]; [by left|right; by left|right; right; by right]|].
    exists false, (Err e). split; [left|done].
Qed.

Lemma prune_loop_deletes cs snapshots h :
  safe no_promise (on_delete (λ h o, ∃ c, c ∈ cs ∧ stands_for c o h)) (io_for_each (prune_run snapshots) cs) h
    (λ x h', ∀ a, x = Ok a → Forall (λ c, run_deleted c h') cs).
Proof.
  assert (∀ ds, (∀ d, d ∈ ds → d ∈ cs) → safe no_promise (on_delete (λ h o, ∃ c, c ∈ cs ∧ stands_for c o h))
    (io_for_each (prune_run snapshots) ds) h (λ x h', ∀ a, x = Ok a → Forall (λ c, run_deleted c h') ds)) as Hall; [|by apply Hall].
  intros ds. revert h. induction ds as [|d ds IH]; intros h Hds; [by intros a _; constructor|]. cbn [io_for_each].
  apply io_safe_bind. eapply safe_mono.
  { eapply (safe_rule no_promise (on_delete (λ h o, stands_for d o h))); [|apply prune_run_deletes].
    intros h' R [| | | | |k o b| | | | | | | | |]; try done. destruct k; try done. intros Ho. exists d.
    split; [apply Hds; left|exact Ho]. }
  intros [[]|e] h1 Hd; [|done]. eapply safe_mono; [apply safe_grows, IH; set_solver|].
  intros x h2 [Hx (l & -> & _)] a Ha. constructor; [|by eapply Hx].
  eapply run_deleted_grew; [apply grew_app|]. by eapply Hd.
Qed.

(** How pruning goes: it knows what it prunes, deletes nothing else, and all of that when it succeeds; or it
    does not know, and deletes nothing. *)
Definition prunes (x : result unit) (h : list event) : Prop :=
  (∃ machineRef machine listed, refers_to_machine run machineRef ∧
    Ev (Get KRsyncMachine machineRef) (Ok machine) ∈ h ∧ Ev (List_ KBackupJob None ∅) (Ok listed) ∈ h ∧
    (NoDup (run_key <$> listed) →
     let up := given_up machineRef (ms_RunHistory (m_Spec machine)) listed in
     (∀ o background answer, Ev (Delete KBackupJob o background) answer ∈ h → ∃ c, up c ∧ stands_for c o h) ∧
     (x = Ok tt → ∀ c, up c → run_deleted c h))) ∨
  (∀ o background answer, Ev (Delete KBackupJob o background) answer ∉ h) ∧
  (x = Ok tt → (∀ ref, ¬ refers_to_machine run ref) ∨
     ∃ machineRef e, refers_to_machine run machineRef ∧ Ev (Get KRsyncMachine machineRef) (Err e) ∈ h ∧
       errors_is KNotFound e = true).

Lemma stands_for_incl c o (h h' : list event) : h ⊆ h' → stands_for c o h → stands_for c o h'.
Proof. intros Hh [?|[?|?]]; [by left|right; by left|right; right]. by apply Hh. Qed.

Lemma run_deleted_incl c (h h' : list event) : h ⊆ h' → run_deleted c h → run_deleted c h'.
Proof.
  intros Hh (o & Ho & b & a & Hd & Ha). exists o. split; [by eapply stands_for_incl|]. exists b, a. split; [by apply Hh|done].
Qed.

Lemma prune_loop_runs cs snapshots h0 tr x :
  runs (io_for_each (prune_run snapshots) cs) tr x →
  (∀ o background answer, Ev (Delete KBackupJob o background) answer ∈ tr → ∃ c, c ∈ cs ∧ stands_for c o (rev tr ++ h0)) ∧
  (x = Ok tt → ∀ c, c ∈ cs → run_deleted c (rev tr ++ h0)).
Proof.
  intros Hr. eapply safe_runs in Hr as [HQ HP]; [|apply (prune_loop_deletes cs snapshots h0)|by apply Forall_forall; intros []].
  split.
  - intros o b a [i Hi]%list_elem_of_lookup. specialize (HP i _ Hi). destruct HP as (c & Hc & Ho). exists c. split; [done|].
    eapply stands_for_incl, Ho. intros e. rewrite !elem_of_app, !list_elem_of_In, <-!in_rev, <-!list_elem_of_In.
    intros [He%subseteq_take|He]; [by left|by right].
  - intros -> c Hc. specialize (HQ tt eq_refl). by eapply Forall_forall in HQ.
Qed.
End Pruning.

(** C38: what the history of a machine prunes.  Every time the history is pruned, on account of a run, whatever
    the API server answers: when the run's machine was read and the runs were listed (each under its own key), no run is
    deleted but those the machine's history gives up, and when pruning succeeds all of these are deleted, or gone.  Given
    up are scheduled runs of this machine that have ended, never manual ones: without a total count those
    for which enough newer ones succeeded, and the failed and cancelled ones for which enough newer ones did; with
    a count the runs beyond it, and those beyond a limit for their kind that is set as well.  Newer is later, and
    of one time by key.  Otherwise no run is deleted, which is no error only when the run refers to no machine or to one that is
    gone. *)
Theorem history_prunes_exactly `{!Quantities, !Unstructured, !ControllerUtil, !TLSChecks} r run tr x :
  runs (pruneBackupJobHistory r run) tr x → prunes run x tr.
Proof.
  unfold pruneBackupJobHistory. destruct (ResolveObjectReference _ _) as [machineRef|e] eqn:Href.
  2: { intros [-> ->]%runs_inv. right. split; [set_solver|]. intros _. left. intros ref. unfold refers_to_machine. by rewrite Href. }
  cbn zeta. intros (found & tr1 & -> & Hrun)%runs_inv. destruct found as [machine|e]; cbn in Hrun.
  2: { assert (tr1 = [] ∧ x = (if errors_is KNotFound e then Ok tt else Err e)) as [-> ->]
         by (destruct (errors_is KNotFound e); by apply runs_inv in Hrun).
       right. split; [by intros o b a [=]%list_elem_of_singleton|]. intros Hx. right. exists machineRef, e.
       split; [done|]. split; [left|]. by destruct (errors_is KNotFound e). }
  apply runs_inv in Hrun as (found & tr2 & -> & Hrun). destruct found as [listed|e]; cbn in Hrun.
  2: { apply runs_inv in Hrun as [-> ->]. right. split; [|done]. intros o b a. set_solver. }
  left. exists machineRef, machine, listed. split; [done|]. split; [left|]. split; [right; left|]. intros Hnd.
  set (cs := (map_to_list _).*2) in Hrun.
  assert (∀ c, c ∈ cs ↔ given_up machineRef (ms_RunHistory (m_Spec machine)) listed c) as Hcs
    by (intros c; by apply candidates_given_up).
  assert (∃ tr0 snapshots tr3, tr2 = tr0 ++ tr3 ∧ runs (io_for_each (prune_run snapshots) cs) tr3 x ∧
    ∀ o b a, Ev (Delete KBackupJob o b) a ∉ tr0) as (tr0 & snapshots & tr3 & -> & Hr & Hno).
  { revert Hrun. unfold snapshot_available. destruct (bjr_SnapshotCapabilities r).
    - intros (a & tr3 & -> & Hrun)%runs_inv. exists [Ev VolumeSnapshotAvailable a], a, tr3. split; [done|]. split; [exact Hrun|].
      by intros o b a' [=]%list_elem_of_singleton.
    - intros Hrun. exists [], false, tr2. split; [done|]. split; [exact Hrun|]. set_solver. }
  apply (prune_loop_runs _ _ []) in Hr as [Hd Hall]. rewrite app_nil_r in Hd, Hall.
  set (h := Ev _ _ :: Ev _ _ :: tr0 ++ tr3).
  assert (rev tr3 ⊆ h) as Hsub.
  { intros e. rewrite list_elem_of_In, <-in_rev, <-list_elem_of_In. unfold h. intros He. do 2 right. apply elem_of_app. by right. }
  split.
  - intros o b a Hin. assert (Ev (Delete KBackupJob o b) a ∈ tr3) as H3.
    { unfold h in Hin. apply elem_of_cons in Hin as [[=]|[[=]|Hin]%elem_of_cons].
      apply elem_of_app in Hin as [Hin|Hin]; [by apply Hno in Hin|exact Hin]. }
    destruct (Hd _ _ _ H3) as (c & Hc & Ho). exists c. split; [by apply Hcs|by eapply stands_for_incl].
  - intros Hx c Hc%Hcs. eapply run_deleted_incl; [exact Hsub|by apply Hall].
Qed.

(** A run that succeeded on a day. *)
Definition sample_success (trigger name : string) (day : Z) : BackupJob :=
  MkBackupJob ((inhabitant : ObjectMeta) <| om_Namespace := "backup" |> <| om_Name := name |>)
    (MkBackupJobSpec (MkObjectReference "backup" "nas") trigger)
    ((inhabitant : BackupJobStatus) <| bjs_Phase := RunPhaseSucceeded |>
       <| bjs_CompletedAt := Some (day * 86400 * 10 ^ 9) |>).

(** Four scheduled runs and an older one that was not, on a machine that keeps two. *)
Definition full_history : objects :=
  let scheduled := sample_success BackupJobTriggerScheduled in
  with_object KRsyncMachine (nas <| m_Spec ::= λ s, s <| ms_RunHistory := MkRunHistory 0 2 0 |> |>)
    (foldr (with_object KBackupJob) no_objects
       [scheduled "b" 2; scheduled "a" 1; sample_success "" "manual" 0; scheduled "d" 4; scheduled "c" 3]).

Definition deleted_runs (tr : list event) : list string :=
  omap (λ e, match e with
    | Ev c _ => match c with
                | Delete k o _ => match k return object k → option string with
                                  | KBackupJob => λ o, Some (om_Name (bj_Meta o)) | _ => λ _, None end o
                | _ => None
                end
    end) tr.

Definition pruning : list event * result unit :=
  exec (server full_history) (pruneBackupJobHistory reconciler (nightly RunPhaseSucceeded)) [].

Lemma history_prunes_exactly_witness :
  pruning.2 = Ok tt ∧ deleted_runs pruning.1 = ["a"; "b"] ∧
  prunes (nightly RunPhaseSucceeded) pruning.2 pruning.1.
Proof.
  split; [by vm_compute|]. split; [by vm_compute|].
  apply (history_prunes_exactly reconciler). apply exec_runs.
Defined.
