(* ===== verification/MachineLaws.v ===== *)
(** * The laws of machines and schedules

    What a machine's verdict on its sources means for its runs, and when its schedule is due. *)
From S2P Require Export Cluster.
From stdpp Require Import options.

(** ** A valid machine and its run set *)

Lemma sources_by_ref_perm sources :
  NoDup (source_ref <$> sources) → sources_by_ref sources ≡ₚ sources.
Proof.
  intros Hnd. unfold sources_by_ref.
  assert (foldl (λ m s, <[source_ref s := s]> m) ∅ sources =
    (list_to_map (reverse ((λ s, (source_ref s, s)) <$> sources)) : gmap NamespacedName BackupSource)) as ->.
  { clear Hnd. induction sources as [|s sources IH] using rev_ind; [done|].
    rewrite foldl_snoc, IH, fmap_app, reverse_app. done. }
  rewrite map_to_list_to_map.
  - rewrite reverse_Permutation, <-list_fmap_compose. unfold compose. cbn. by rewrite list_fmap_id.
  - by rewrite fmap_reverse, reverse_Permutation, <-list_fmap_compose.
Qed.

Lemma effective_clean m s p : EffectiveDestinationPathForStrategy m s = Ok p → ∃ c, clean_dest s = Ok c.
Proof.
  unfold EffectiveDestinationPathForStrategy, EffectiveDestinationPath. destruct (is_mirror m).
  - rewrite effectiveMirrorDestinationPath_clean. eauto.
  - unfold effectiveDestinationPath, clean_dest. case_decide; [done|]. case_decide as Hd.
    + intros _. exists "". by destruct Hd as [-> | ->].
    + intros (c & Hc & _)%bind_Ok. eauto.
Qed.

Lemma check_sources_found machine found sources :
  check_sources machine found sources = inr true →
  (∀ s, s ∈ sources → refers_to machine s = true →
     ∃ p, EffectiveDestinationPathForStrategy machine s = Ok p) ∧
  (found = true ∨ Exists (λ s, refers_to machine s = true) sources).
Proof.
  revert found. induction sources as [|s sources IH]; intros found; cbn [check_sources].
  { intros [= ->]. split; [set_solver|by left]. }
  assert (refers_to machine s = false → check_sources machine found sources = inr true →
    (∀ s', s' ∈ s :: sources → refers_to machine s' = true →
       ∃ p, EffectiveDestinationPathForStrategy machine s' = Ok p) ∧
    (found = true ∨ Exists (λ s', refers_to machine s' = true) (s :: sources))) as Hskip.
  { intros Hr [Hall Hex]%IH. split; [intros s' [-> |Hs']%elem_of_cons; [congruence|auto]|].
    destruct Hex; [by left|right; by right]. }
  unfold refers_to in Hskip at 1. destruct (ResolveObjectReference _ _) as [ref|e] eqn:Hres; [|by apply Hskip].
  destruct (decide (ref ≠ machine_ref machine)) as [Hne|Hne]; [apply Hskip; by rewrite bool_decide_false|].
  apply dec_stable in Hne. subst ref. rewrite bool_decide_true in Hskip by done. cbn [andb] in Hskip.
  destruct (SourceNamespaceAllowed _ _) eqn:Hal; cbn [negb]; [|by apply Hskip].
  destruct (EffectiveDestinationPathForStrategy machine s) as [p|e] eqn:Hp; [|done].
  intros [Hall _]%IH. split; [intros s' [-> |Hs']%elem_of_cons; eauto|]. right. left.
  unfold refers_to. by rewrite Hres, bool_decide_true, Hal.
Qed.

Lemma check_sources_false machine found sources reason message :
  check_sources machine found sources ≠ inl (ConditionTrue, reason, message).
Proof.
  revert found. induction sources as [|s sources IH]; intros found; cbn [check_sources]; [done|].
  repeat case_match; auto; by intros [=].
Qed.

(** a machine that its sources are found to be valid for has a run set, unless two of its sources
    claim one directory of its snapshots: the verdict does not look for those. *)
Theorem valid_machine_resolves machine sources :
  NoDup (source_ref <$> sources) →
  TypeOrDefault (ms_Strategy (m_Spec machine)) ∈ [BackupStrategySnapshot; BackupStrategyMirror] →
  (is_mirror machine = true → RetentionPolicy_Empty (ms_Retention (m_Spec machine)) = true) →
  (source_verdict machine sources).1.1 = ConditionTrue →
  let byRef := sources_by_ref sources in
  (∃ runSet, CalculateTargetRunSet machine byRef byRef byRef = Ok runSet) ∨
  (is_mirror machine = false ∧ ∃ c cs, DetectDestinationPathConflicts [machine] byRef = Ok (c :: cs)).
Proof.
  intros Hnd Hty Hret Hv byRef. pose proof (sources_by_ref_perm _ Hnd) as Hperm. fold byRef in Hperm.
  unfold source_verdict in Hv. destruct (check_sources machine false sources) as [[[??]?]|[]] eqn:Hc; [| |done].
  { exfalso. revert Hv. cbn. clear -Hc. intros ->. by eapply check_sources_false. }
  apply check_sources_found in Hc as [Hall [?|Hex]]; [done|]. fold byRef in Hv.
  destruct (DetectMirrorDestinationPathOverlaps machine byRef) as [[|o os]|e] eqn:Hov; [|done..].
  assert (∀ s, s ∈ byRef → refers_to machine s = true →
    ∃ p, EffectiveDestinationPathForStrategy machine s = Ok p) as Hall'.
  { intros s. rewrite Hperm. apply Hall. }
  destruct (resolved_total machine byRef ∅ Hall') as [M HM].
  destruct (DetectDestinationPathConflicts [machine] byRef) as [[|c cs]|e] eqn:Hconf.
  - left. eexists. apply CalculateTargetRunSet_inv. split_and!; try done. exists M.
    split; [done|]. cbn zeta. split; [|done].
    assert (NoDup (source_ref <$> byRef)) as Hnd' by by rewrite Hperm.
    apply Exists_exists in Hex as (s & Hs & Hr). rewrite <-Hperm in Hs.
    destruct (Hall' s Hs Hr) as [p Hp]. intros Hnil.
    apply (not_elem_of_nil (MkResolvedSource (source_ref s) s p)). rewrite <-Hnil.
    apply list_elem_of_omap. exists (source_ref s).
    assert (M !! source_ref s = Some (MkResolvedSource (source_ref s) s p)) as HMs.
    { apply (resolved_spec _ _ _ Hnd' HM). exists s. split_and!; [done|done|]. split; [done|]. eauto. }
    split; [|done]. rewrite sort_by_key_perm. apply list_elem_of_fmap. eexists (_, _). split; [done|].
    by apply elem_of_map_to_list.
  - right. split; [|eauto]. destruct (is_mirror machine) eqn:Hm; [|done].
    assert (DetectDestinationPathConflicts [machine] byRef = Ok []); [|congruence].
    apply DetectDestinationPathConflicts_nil. by left.
  - exfalso. destruct (add_claim_total machine byRef ∅) as [M' HM'].
    { right. intros s Hs Hr. destruct (Hall' s Hs Hr) as [p Hp]. by eapply effective_clean. }
    unfold DetectDestinationPathConflicts in Hconf. cbn [fold_result] in Hconf.
    rewrite HM' in Hconf. done.
Qed.

(** ** Due times *)

(** What the documentation of the cron library says of [Schedule.Next] for any schedule: the next activation time is later
    than the given one, and the zero time when there is none. *)
Definition next_is_later (next : Time → Time) : Prop := ∀ t, next t = zero_time ∨ t < next t.

(** What it says for a schedule of five fields that has a time after every other: the next time is the first one
    of the schedule after the given one, and the fields have a resolution of a minute. *)
Record schedule_law (next : Time → Time) (fires : Time → Prop) : Prop := {
  next_fires t : fires (next t);
  next_after t : t < next t;
  next_first t f : fires f → t < f → next t ≤ f;
  next_minute t : next t + 60 * Second ≤ next (next t)
}.

Section Due.
Context `{!Cron} (schedule : Schedule).
Notation next := (Schedule_Next schedule).

(** The [k]th activation after a time. *)
Definition activation (k : nat) (from : Time) : Time := Nat.iter k next from.

(** The loop goes through the activations up to now, as far as its steps reach. *)
Lemma due_loop_activations n now cursor last :
  let '(t, due) := due_loop n schedule now cursor last in
  ∃ k, (k ≤ n)%nat ∧ (∀ j, (1 ≤ j ≤ k)%nat → activation j cursor ≤ now) ∧
    (k = n ∨ now < activation (S k) cursor) ∧
    t = (if decide (k = 0)%nat then last else activation k cursor) ∧ due = negb (IsZero t).
Proof.
  revert cursor last. induction n as [|n IH]; intros cursor last; cbn [due_loop].
  { exists 0%nat. split_and!; [done|lia|by left|done|done]. }
  case_decide as Hd.
  { exists 0%nat. split_and!; [lia|lia|by right|done|done]. }
  specialize (IH (next cursor) (next cursor)).
  destruct (due_loop n schedule now (next cursor) (next cursor)) as [t due].
  destruct IH as (k & Hk & Hall & Hend & -> & ->). exists (S k).
  assert (∀ j, activation j (next cursor) = activation (S j) cursor) as Hs
    by (intros j; unfold activation; by rewrite Nat.iter_succ_r).
  split_and!; [lia| | | |done].
  - intros [|j] Hj; [lia|]. rewrite <-Hs. destruct j as [|j]; [cbn; lia|]. apply Hall. lia.
  - destruct Hend as [->|He]; [by left|right]. by rewrite <-Hs.
  - rewrite (decide_False (P := S k = 0%nat)) by lia. rewrite <-Hs. by destruct k.
Qed.

Lemma activation_later k from : next_is_later next → (∀ j, (1 ≤ j ≤ k)%nat → activation j from ≠ zero_time) →
  (1 ≤ k)%nat → from < activation k from.
Proof.
  intros Hl. induction k as [|k IH]; intros Hz Hk; [lia|].
  assert (activation k from < activation (S k) from) as Hlt.
  { destruct (Hl (activation k from)) as [He|He]; [|exact He]. destruct (Hz (S k)); [lia|exact He]. }
  destruct k as [|k]; [exact Hlt|]. etrans; [apply IH; [|lia]|exact Hlt]. intros j Hj. apply Hz. lia.
Qed.

Context (fires : Time → Prop) (law : schedule_law next fires).

(** The last time of the schedule after [from] and not after [now]. *)
Definition last_due (from now t : Time) : Prop :=
  fires t ∧ from < t ∧ t ≤ now ∧ ∀ f, fires f → f ≤ now → f ≤ t.

Lemma due_loop_last n now cursor last :
  now < next cursor + Z.of_nat n * (60 * Second) →
  let '(t, due) := due_loop n schedule now cursor last in
  due = negb (IsZero t) ∧ ((t = last ∧ now < next cursor) ∨ last_due cursor now t).
Proof using law.
  pose proof (next_fires _ _ law) as Hf. pose proof (next_after _ _ law) as Ha.
  pose proof (next_first _ _ law) as H1. pose proof (next_minute _ _ law) as Hm.
  assert (0 < Second) as Hs by done. revert cursor last.
  induction n as [|n IH]; intros cursor last Hn; cbn [due_loop].
  { split; [done|left]. split; [done|lia]. }
  case_decide as Hd; [by auto|]. specialize (IH (next cursor) (next cursor)).
  destruct (due_loop n schedule now (next cursor) (next cursor)) as [t due].
  destruct IH as [-> [[-> Hlt]|(Ht & Hc & Hle & Hall)]]; [specialize (Hm cursor); lia|..];
    (split; [done|right]).
  - split_and!; [done|done|lia|]. intros f Hff Hle. destruct (decide (next cursor < f)); [|lia].
    pose proof (H1 (next cursor) f Hff ltac:(lia)). lia.
  - split_and!; [done| |done|done]. specialize (Ha cursor). lia.
Qed.

End Due.

(** From when a machine that was never scheduled looks for times. *)
Definition lookback (machine : RsyncMachine) (now : Time) : Time :=
  let created := om_CreationTimestamp (m_Meta machine) in
  (if IsZero created then now - scheduleLookback else Z.max created (now - scheduleLookback)) - Second.

Lemma first_due_loop `{!Cron} (schedule : Schedule) machine now :
  mst_LastScheduledAt (m_Status machine) = None →
  nextDueSchedule schedule machine now = due_loop (Z.to_nat 10000) schedule now (lookback machine now) zero_time.
Proof.
  intros Hn. unfold nextDueSchedule. rewrite Hn. cbv zeta. f_equal. unfold lookback.
  destruct (IsZero _); cbn; [done|]. case_bool_decide; lia.
Qed.

(** C39: when a run of a machine's schedule is due.  For any schedule whose next activation, when it has one, is later than
    the time it is asked for: after a run the next activation is taken, due as soon as it is reached, and later than that run
    unless there is none.  Before the first run the activations since the machine was created, or in the last day, are gone
    through as far as ten thousand steps reach: the last one of them that has passed is due, and none is when the
    first is still to come.  When the schedule is one of five fields that has a time after every other (not an interval
    such as [@every], and not a date that never comes), this means that after a run no time of the schedule is
    skipped, and that before the first run ten thousand steps are enough: due is the last time of the schedule that has passed since
    the machine was created and in the last day, if any. *)
Theorem next_due `{!Cron} (schedule : Schedule) machine now :
  next_is_later (Schedule_Next schedule) → zero_time + scheduleLookback + Second < now →
  let '(t, due) := nextDueSchedule schedule machine now in
  let from := lookback machine now in
  match mst_LastScheduledAt (m_Status machine) with
  | Some last => t = Schedule_Next schedule last ∧ (due = true ↔ t ≤ now) ∧ (t ≠ zero_time → last < t)
  | None => ∃ k, (k ≤ Z.to_nat 10000)%nat ∧ (∀ j, (1 ≤ j ≤ k)%nat → activation schedule j from ≤ now) ∧
      (k = Z.to_nat 10000 ∨ now < activation schedule (S k) from) ∧
      t = (if decide (k = 0)%nat then zero_time else activation schedule k from) ∧ (due = true ↔ t ≠ zero_time) ∧
      ((∀ j, (1 ≤ j ≤ k)%nat → activation schedule j from ≠ zero_time) → due = true → from < t)
  end ∧
  ∀ fires, schedule_law (Schedule_Next schedule) fires →
    match mst_LastScheduledAt (m_Status machine) with
    | Some last => fires t ∧ ∀ f, fires f → last < f → t ≤ f
    | None => if due then last_due fires from now t else ∀ f, fires f → from < f → now < f
    end.
Proof.
  intros Hl Hnow. destruct (mst_LastScheduledAt (m_Status machine)) as [last|] eqn:Hs.
  - unfold nextDueSchedule. rewrite Hs. cbv zeta. split.
    + split_and!; [done| |].
      * rewrite negb_true_iff, bool_decide_eq_false. lia.
      * by destruct (Hl last).
    + intros fires law. split; [apply law|]. by apply law.
  - rewrite (first_due_loop schedule machine now Hs).
    pose proof (due_loop_activations schedule (Z.to_nat 10000) now (lookback machine now) zero_time) as Hloop.
    pose proof (λ fires law, due_loop_last schedule fires law (Z.to_nat 10000) now (lookback machine now) zero_time) as Hlast.
    destruct (due_loop _ _ _ _ _) as [t due]. split.
    + destruct Hloop as (k & Hk & Hall & Hend & Ht & ->). exists k. split_and!; [done..| |].
      * unfold IsZero. rewrite negb_true_iff, bool_decide_eq_false. done.
      * intros Hz Hd. rewrite Ht in Hd |- *. destruct (decide (k = 0)%nat) as [->|]; [done|].
        apply activation_later; [done|done|lia].
    + intros fires law. clear Hloop.
      assert (zero_time < lookback machine now ∧ now - scheduleLookback - Second ≤ lookback machine now) as [Hz Hlb].
      { unfold lookback. destruct (IsZero (om_CreationTimestamp _)); lia. }
      assert (now < Schedule_Next schedule (lookback machine now) + Z.of_nat (Z.to_nat 10000) * (60 * Second)) as Hn.
      { pose proof (next_after _ _ law (lookback machine now)). unfold scheduleLookback, Second in *. lia. }
      destruct (Hlast fires law Hn) as [-> [[-> Hlt]|Hdue]].
      * cbn. intros f Hf Hfrom. pose proof (next_first _ _ law _ f Hf Hfrom). lia.
      * unfold IsZero. rewrite bool_decide_false; [done|]. destruct Hdue as (_ & Hlt & _). lia.
Qed.

(** A schedule that has no next time is due at once, for the zero time, on a machine that has been
    scheduled before: the library's answer for "never" is not distinguished from a time that has passed. *)
Theorem never_is_due `{!Cron} (schedule : Schedule) machine now last :
  mst_LastScheduledAt (m_Status machine) = Some last →
  Schedule_Next schedule last = zero_time → zero_time ≤ now →
  nextDueSchedule schedule machine now = (zero_time, true).
Proof.
  intros Hl Hn Hz. unfold nextDueSchedule. rewrite Hl, Hn, bool_decide_false by lia. done.
Qed.

(** ** Concrete machines *)

(** The two spellings of one directory, for two sources of a namespace. *)
Definition two_claims : list BackupSource :=
  [sample_source "media" "photos" "./photos/"; sample_source "media" "albums" "photos"].

(** A machine that is valid, and that no run can start on. *)
Lemma valid_machine_resolves_witness :
  (source_verdict nas two_claims).1.1 = ConditionTrue ∧
  (let byRef := sources_by_ref two_claims in
   (∃ runSet, CalculateTargetRunSet nas byRef byRef byRef = Ok runSet) ∨
   (is_mirror nas = false ∧ ∃ c cs, DetectDestinationPathConflicts [nas] byRef = Ok (c :: cs))).
Proof.
  split; [by vm_compute|]. apply (valid_machine_resolves nas two_claims).
  - apply (bool_decide_unpack _). by vm_compute.
  - vm_compute. left.
  - done.
  - by vm_compute.
Defined.

Lemma hourly_law : schedule_law (Schedule_Next tt) (λ t, t mod (3600 * Second) = 0).
Proof.
  cbn. assert (0 < Second) as Hs by done. set (w := 3600 * Second). assert (60 * Second ≤ w) as Hw by (unfold w; lia).
  assert (0 < w) by (unfold w; lia). clearbody w.
  assert (∀ t, w * (t / w) ≤ t < w * (t / w) + w) as Hd.
  { intros t. pose proof (Z.div_mod t w ltac:(lia)). pose proof (Z.mod_pos_bound t w ltac:(lia)). lia. }
  split; intros t.
  - by rewrite Z.mod_mul by lia.
  - specialize (Hd t). lia.
  - intros f Hf Hlt. apply Z.mod_divide in Hf as [q ->]; [|lia]. specialize (Hd t).
    apply Z.mul_le_mono_nonneg_r; [lia|]. generalize dependent (t / w). intros k Hk. nia.
  - rewrite Z.div_mul by lia. lia.
Qed.

Lemma next_due_witness :
  let '(t, due) := @nextDueSchedule hourly tt nas noon in
  due = true ∧ t = noon ∧ last_due (λ t, t mod (3600 * Second) = 0) (lookback nas noon) noon t.
Proof.
  pose proof (@next_due hourly tt nas noon) as H.
  destruct (@nextDueSchedule hourly tt nas noon) as [t due] eqn:Hd.
  assert (@nextDueSchedule hourly tt nas noon = (noon, true)) as Hn by by vm_compute.
  rewrite Hn in Hd. injection Hd as <- <-.
  split; [done|]. split; [done|].
  exact (proj2 (H (λ t, or_intror (next_after _ _ hourly_law t)) ltac:(by vm_compute)) _ hourly_law).
Defined.

(** A schedule that was due once and never again, as of a day that does not come. *)
Definition once : Cron := {|
  Schedule := unit;
  ParseStandard := λ _, Ok tt;
  Schedule_Next := λ _ t, if decide (t < 0) then 0 else zero_time
|}.

Lemma never_is_due_witness :
  @nextDueSchedule once tt (nas <| m_Status ::= λ st, st <| mst_LastScheduledAt := Some 0 |> |>) noon =
  (zero_time, true).
Proof.
  apply (@never_is_due once tt (nas <| m_Status ::= λ st, st <| mst_LastScheduledAt := Some 0 |> |>) noon 0).
  - reflexivity.
  - by vm_compute.
  - by vm_compute.
Defined.
