(* ===== verification/RestoreLaws.v ===== *)
(** * The laws of restores

    A restore touches nothing before it is known that it may: its machine admits it, is ready, and
    no backup changes what it reads; and the snapshot it reads is a path inside the target. *)
From S2P Require Export RunSet RestoreRun CleanupLaws.
From stdpp Require Import options.
From Stdlib Require Import Ascii.

(** ** Backups of a machine *)

Section NoBackup.
Context `{!Quantities, !Unstructured, !ControllerUtil, !TLSChecks}.

(** The guard's lease is nobody's, or of a run that was found, after the lease was read, not to use the target. *)
Definition guard_idle (target : RsyncMachine) (h : list event) : Prop :=
  let leaseRef := TargetGuardLeaseRef (machine_ref target) in
  (∃ e, Ev (Get KLease leaseRef) (Err e) ∈ h ∧ errors_is KNotFound e = true) ∨
  ∃ l h0, grew (Ev (Get KLease leaseRef) (Ok l) :: h0) h ∧
    (holder_of l = "" ∨ not_using target (holder_of l) (Ev (Get KLease leaseRef) (Ok l) :: h0) h).

(** Why a backup changes nothing on the target: its phase, that it refers to no machine or to one that is gone,
    or that it refers to another one. *)
Inductive harmless (target : RsyncMachine) (b : BackupJob) (h : list event) : Prop :=
  | harmless_phase : ¬ changes_target b → harmless target b h
  | harmless_lost : (∀ other, ¬ refers_to_machine b other) → harmless target b h
  | harmless_gone other e :
      refers_to_machine b other → Ev (Get KRsyncMachine other) (Err e) ∈ h → errors_is KNotFound e = true →
      harmless target b h
  | harmless_elsewhere other : refers_to_machine b other → other ≠ machine_ref target → harmless target b h.

Definition no_mutating_backup (target : RsyncMachine) (h : list event) : Prop :=
  ∃ runs, Ev (List_ KBackupJob None ∅) (Ok runs) ∈ h ∧ Forall (λ b, harmless target b h) runs.

Lemma not_using_grew target holder h0 h h' : grew h h' → not_using target holder h0 h → not_using target holder h0 h'.
Proof.
  intros Hh []; [by apply not_a_run|eapply run_gone|eapply run_idle|eapply run_elsewhere]; eauto using since_grew.
Qed.

Lemma harmless_grew target b h h' : grew h h' → harmless target b h → harmless target b h'.
Proof.
  intros Hh []; [by apply harmless_phase|by apply harmless_lost|eapply harmless_gone|eapply harmless_elsewhere];
    eauto using elem_of_grew.
Qed.

Lemma guard_idle_grew target h h' : grew h h' → guard_idle target h → guard_idle target h'.
Proof.
  intros Hh [(e & He & Hn)|(l & h0 & Hl & Hi)]; [left; exists e; eauto using elem_of_grew|right].
  exists l, h0. split; [by etrans|]. destruct Hi; [by left|right]. by eapply not_using_grew.
Qed.

Lemma no_mutating_backup_grew target h h' :
  grew h h' → no_mutating_backup target h → no_mutating_backup target h'.
Proof.
  intros Hh (runs & Hl & Hall). exists runs. split; [by eapply elem_of_grew|].
  eapply Forall_impl; [exact Hall|]. intros b. by apply harmless_grew.
Qed.

Lemma machineRefForBackupJob_shows target b :
  shows (machineRefForBackupJob b) (λ x h, ∀ ref, x = Ok ref → ref ≠ Some (machine_ref target) → harmless target b h).
Proof.
  intros h. unfold machineRefForBackupJob. destruct (ResolveObjectReference _ _) as [other|e] eqn:Hr.
  2: { intros ref _ _. apply harmless_lost. intros other. unfold refers_to_machine. by rewrite Hr. }
  apply io_safe_bind. split; [done|]. intros [m|e] _; cbn.
  - intros ref [= <-] Hne. apply (harmless_elsewhere _ _ _ other); [done|congruence].
  - destruct (errors_is KNotFound e) eqn:He; [|done]. intros ref _ _. eapply harmless_gone; [done|left|done].
Qed.

Lemma first_mutating_backup_shows target runs :
  shows (first_mutating_backup (machine_ref target) runs) (λ x h', x = Ok None →
    Forall (λ b, harmless target b h') runs).
Proof.
  induction runs as [|b runs IH]; intros h; cbn [first_mutating_backup]; [by intros _; constructor|].
  destruct (ActiveRunBlocksTargetMutation _) eqn:Ha; cbn [negb].
  2: { eapply safe_mono; [apply IH|]. intros y h' Hy Hn. constructor; [|by apply Hy].
       apply harmless_phase. by apply bool_decide_eq_false in Ha. }
  apply io_safe_bind. eapply safe_mono; [apply machineRefForBackupJob_shows|]. intros [ref'|e] h' Hx; [|done].
  case_decide as Hne; [done|]. eapply safe_mono; [apply safe_grows, IH|].
  intros y h2 [Hy (l & -> & _)] Hn. constructor; [|by apply Hy].
  eapply harmless_grew; [apply grew_app|]. by eapply Hx.
Qed.

Lemma restore_findActive_shows target :
  shows (restore_findActiveBackupJobForTarget target) (λ x h, ∀ a, x = Ok a → a = None →
    guard_idle target h ∧ no_mutating_backup target h).
Proof.
  unfold restore_findActiveBackupJobForTarget. cbn zeta. intros h. apply io_safe_bind, io_safe_try.
  split; [done|]. intros found _.
  set (h0 := Ev _ found :: h).
  apply io_safe_bind. eapply safe_mono with (λ x h', x = Ok None → guard_idle target h').
  - destruct found as [l|e].
    + assert (Ev (Get KLease (TargetGuardLeaseRef (machine_ref target))) (Ok l) ∈ h0) as Hin by left.
      assert (holder_of l = "" → guard_idle target h0) as Hfree by (intros Hl; right; exists l, h; split; [done|auto]).
      unfold holder_of in Hfree. destruct (l_HolderIdentity l) as [holder|] eqn:Hl; [|intros _; auto].
      case_decide; [intros _; auto|]. eapply safe_mono; [apply (activeGuardHolder_finds target)|].
      intros x h' [Hh Hx] ->. right. exists l, h. split; [exact Hh|right].
      unfold holder_of. by rewrite Hl.
    + destruct (errors_is KNotFound e) eqn:He; [|done]. intros _. left. exists e. split; [left|done].
  - intros [[b|]|e] h1 Hidle; [by intros a [= <-]| |done].
    apply io_safe_bind, io_safe_on_err. split; [done|]. intros [runs|e] _; cbn; [|done].
    eapply safe_mono; [apply safe_grows, first_mutating_backup_shows|].
    intros x h' [Hx (l & -> & _)] a -> ->. split.
    + eapply guard_idle_grew, Hidle; [|done]. eexists (l ++ [_]). by rewrite <-(assoc_L (++)).
    + exists runs. split; [apply elem_of_app; right; left|]. by apply Hx.
Qed.
End NoBackup.

(** ** The snapshot of a restore *)

(** The controller takes the snapshot paths the data plane takes, and cleans them the same way. *)
Lemma cleanSnapshotPath_Normalize v c : cleanSnapshotPath v = Ok c ↔ NormalizeRelativePath v = Ok c.
Proof.
  rewrite <-cleanRelativePath_Normalize. unfold cleanSnapshotPath, cleanRelativePath, IsAbs.
  destruct (decide (v = "")) as [-> |Hv]; [naive_solver|].
  destruct (decide (v = "" ∨ v = "/")) as [[?| ->]|Hv']; [done|naive_solver|].
  destruct (HasPrefix v "/") eqn:Ha; [naive_solver|].
  change (ContainsByte v "\"%char) with (ContainsByte v backslash).
  destruct (ContainsByte v backslash) eqn:Hb; [naive_solver|].
  destruct (decide (".." ∈ Split v slash)) as [Hd|Hd].
  { rewrite bool_decide_true by done. naive_solver. }
  rewrite bool_decide_false by done. cbn zeta.
  destruct (decide (Clean v = ".")) as [Hdot|Hdot]; [naive_solver|]. split; [|naive_solver].
  intros [= <-]. split; [done|]. unfold Clean, IsAbs in *. rewrite decide_False in * by done. rewrite Ha in *.
  case_decide; done.
Qed.

(** C40: the snapshot a restore resolves to is a clean path that stays inside the target: one or more plain
    segments, none of them empty, a dot or a double dot.  It is the fixed directory of a mirror; a
    snapshot that was asked for by name, which must be one of the machine's restore points when it has
    any; or what its point [latest] resolves to. *)
Theorem restored_snapshot_inside requested target p :
  resolveRestoreSnapshot requested target = Ok p →
  (∃ segs, normalized p segs) ∧
  let points := mst_RestorePoints (m_Status target) in
  if is_mirror target then p = DefaultMirrorSnapshot
  else if decide (requested = "" ∨ requested = DefaultSnapshot)
  then ∃ point, point ∈ points ∧ rpt_Snapshot point = DefaultSnapshot ∧
         NormalizeRelativePath (rpt_ResolvesTo point) = Ok p
  else NormalizeRelativePath requested = Ok p ∧ (points = [] ∨ ∃ point, point ∈ points ∧ rpt_Snapshot point = p).
Proof.
  assert (∀ v, NormalizeRelativePath v = Ok p → ∃ segs, normalized p segs) as Hn.
  { intros v Hv. pose proof (NormalizeRelativePath_normalized v p Hv). by eexists. }
  unfold resolveRestoreSnapshot. destruct (is_mirror target).
  { case_decide; [|done]. intros [= <-]. split; [|done]. exists [DefaultMirrorSnapshot]. by repeat constructor. }
  assert (∀ req,
    match list_find (λ p, rpt_Snapshot p = DefaultSnapshot) (mst_RestorePoints (m_Status target)) with
    | Some (_, point) =>
        if decide (rpt_ResolvesTo point = "") then
          Err (ErrNew ("snapshot " +:+ Quote req +:+ " in RsyncMachine " +:+ machine_name target +:+
                       " does not resolve to an immutable snapshot"))
        else map_err (wrap ("invalid resolved snapshot " +:+ Quote (rpt_ResolvesTo point) +:+ ": "))
               (cleanSnapshotPath (rpt_ResolvesTo point))
    | None => Err (snapshot_missing req target)
    end = Ok p → ∃ point, point ∈ mst_RestorePoints (m_Status target) ∧
      rpt_Snapshot point = DefaultSnapshot ∧ NormalizeRelativePath (rpt_ResolvesTo point) = Ok p) as Hlatest.
  { intros req. destruct (list_find _ _) as [[i point]|] eqn:Hf; [|done].
    apply list_find_Some in Hf as (Hi & Hs & _). case_decide; [done|].
    intros Hp%map_err_Ok%cleanSnapshotPath_Normalize. exists point. split; [|done].
    by eapply list_elem_of_lookup_2. }
  destruct (decide (requested = "")) as [->|Hne].
  { rewrite decide_False by tauto. rewrite decide_True by by left.
    intros Hp%Hlatest. split; [|done]. destruct Hp as (? & _ & _ & Hp). eauto. }
  destruct (decide (requested = DefaultSnapshot)) as [->|Hnd].
  { rewrite decide_False by tauto. rewrite decide_True by by right.
    intros Hp%Hlatest. split; [|done]. destruct Hp as (? & _ & _ & Hp). eauto. }
  rewrite decide_True by done. rewrite decide_False by tauto.
  intros (c & Hc%cleanSnapshotPath_Normalize & Hp)%bind_Ok.
  case_decide as Hpts; [injection Hp as <-; eauto|]. destruct (existsb _ _) eqn:Hex; [|done].
  injection Hp as <-. split; [eauto|]. split; [done|right].
  apply existsb_exists in Hex as (point & Hin & Heq%bool_decide_eq_true). exists point.
  by rewrite list_elem_of_In.
Qed.

(** ** A restore that starts *)

Definition on_create (W : list event → Prop) : rule := λ h R c, match c with Create _ _ => W h | _ => True end.
Definition no_create : shape := λ R c, match c with Create _ _ => False | _ => True end.

Lemma no_create_allowed W h R (c : request R) : no_create R c → on_create W h R c.
Proof. by destruct c. Qed.

Section Restores.
Context `{!Quantities, !Unstructured, !ControllerUtil, !TLSChecks}.
Context (r : RestoreJobReconciler) (run : RestoreJob).

(** Who a list of namespaces lets in: a namespace it names, the machine's own for a dot or an empty list, any
    for a star. *)
Definition lets_in (machine : RsyncMachine) (allowed : list string) (namespace : string) : Prop :=
  namespace ≠ "" ∧
  (allowed = [] ∧ namespace = om_Namespace (m_Meta machine) ∨ "*" ∈ allowed ∨
   "." ∈ allowed ∧ namespace = om_Namespace (m_Meta machine) ∨ namespace ∈ allowed ∧ namespace ≠ ".").

(** The machine lets the source attach and the restore's namespace read it, and the restore writes to its own
    namespace. *)
Record permitted (source : BackupSource) (machine : RsyncMachine) : Prop := {
  pm_source : lets_in machine (ms_AllowedSourceNamespaces (m_Spec machine)) (om_Namespace (s_Meta source));
  pm_restore : lets_in machine (ms_AllowedRestoreNamespaces (m_Spec machine)) (om_Namespace (rj_Meta run));
  pm_destination : let namespace := rd_Namespace (rov_Destination (rs_Overrides (rj_Spec run))) in
    namespace = "" ∨ namespace = om_Namespace (rj_Meta run)
}.

Lemma restore_permitted source target machineRef :
  restore_refused run source target machineRef = None → permitted source target.
Proof.
  unfold restore_refused. cbn zeta. destruct (SourceNamespaceAllowed _ _) eqn:Hs; [|done].
  destruct (RestoreNamespaceAllowed _ _) eqn:Hr; [|done]. cbn [negb]. case_decide as Hd; [done|]. intros _.
  split; [by apply namespaceAllowed_iff in Hs|by apply namespaceAllowed_iff in Hr|].
  cbn zeta. by apply not_and_l in Hd as [?%dec_stable|?%dec_stable]; [left|right].
Qed.

(** What a restore knows before it creates anything. *)
Definition restore_admitted (h : list event) : Prop :=
  ∃ sourceRef source machineRef target snapshot,
    ResolveObjectReference (rs_SourceRef (rj_Spec run)) (om_Namespace (rj_Meta run)) = Ok sourceRef ∧
    Ev (Get KBackupSource sourceRef) (Ok source) ∈ h ∧
    ResolveObjectReference (ss_MachineRef (s_Spec source)) (om_Namespace (s_Meta source)) = Ok machineRef ∧
    Ev (Get KRsyncMachine machineRef) (Ok target) ∈ h ∧
    permitted source target ∧ TargetReady target = true ∧
    guard_idle target h ∧ no_mutating_backup target h ∧
    resolveRestoreSnapshot (SnapshotOrDefault (rj_Spec run)) target = Ok snapshot.

Lemma restore_admitted_cons e h : restore_admitted h → restore_admitted (e :: h).
Proof.
  intros (sr & s & mr & t & p & Hd). exists sr, s, mr, t, p. destruct_and! Hd.
  pose proof (grew_cons e h). split_and!; eauto using elem_of_grew, guard_idle_grew, no_mutating_backup_grew.
Qed.

Notation safe' := (safe no_promise (on_create restore_admitted)).

(** Once that is known, whatever follows may create. *)
Lemma admitted_safe {X} (p : prog X) h : restore_admitted h → safe' p h (λ _ _, True).
Proof.
  intros Ha. apply (safe_kept restore_admitted no_promise (λ _ _ _, True)) with (h := h); [|by destruct c|done|].
  - intros e h'. apply restore_admitted_cons.
  - eapply safe_mono; [apply safe_any|done].
Qed.

Lemma not_creating_safe {X} (p : prog X) h : only no_create p → safe' p h (λ _ _, True).
Proof.
  intros Hp. eapply safe_mono; [eapply only_safe; [exact Hp|apply no_create_allowed]|done].
Qed.

Lemma set_restore_cond_no_create ty status reason message s :
  only no_create (set_restore_cond ty status reason message s).
Proof. unfold set_restore_cond. solve_only. Qed.

Lemma failRestoreJob_no_create {X} cause s : only no_create (failRestoreJob (A := X) r cause s).
Proof. unfold failRestoreJob, restore_recordRunEvent, record_restore_phase, update_restore_status. solve_only. Qed.

Lemma hold_restore_no_create ty status reason m1 m2 error s :
  only no_create (hold_restore r ty status reason m1 m2 error s).
Proof.
  pose proof set_restore_cond_no_create.
  unfold hold_restore, restore_recordRunEvent, record_restore_phase, update_restore_status. solve_only.
Qed.

(** An operation that always fails. *)
Definition fails {X} (m : act RestoreJob X) : Prop := ∀ s, ends (λ rs, ∃ e s', rs = (Err e, s')) (m s).

Lemma fails_throw {X} e : fails (throw (A := X) e).
Proof. intros s. by eexists _, _. Qed.

Lemma fails_bind {X Y} (m : act RestoreJob X) (f : X → act RestoreJob Y) :
  (∀ a, fails (f a)) → fails (m ≫= f).
Proof.
  intros Hf s. apply ends_bind, ends_any. intros [[a|e] s']; [apply Hf|]. by eexists _, _.
Qed.

Lemma failRestoreJob_fails {X} cause : fails (failRestoreJob (A := X) r cause).
Proof. unfold failRestoreJob. repeat (apply fails_bind; intros ?). apply fails_throw. Qed.

Lemma failRestoreJob_safe {X} cause s h (Q : result X * RestoreJob → list event → Prop) :
  (∀ e s' h', Q (Err e, s') h') → safe' (failRestoreJob (A := X) r cause s) h Q.
Proof.
  intros HQ. eapply safe_mono.
  { eapply ends_safe; [apply failRestoreJob_fails|apply not_creating_safe, failRestoreJob_no_create]. }
  intros rs h' [(e & s' & ->) _]. apply HQ.
Qed.

Lemma or_fail_restore_safe {X} (m : act RestoreJob X) s h (Q : result X * RestoreJob → list event → Prop) :
  safe' (m s) h (λ rs h', match rs.1 with Ok a => Q (Ok a, rs.2) h' | Err _ => True end) →
  (∀ e s' h', Q (Err e, s') h') → safe' (or_fail_restore r m s) h Q.
Proof.
  intros Hm HQ. apply act_safe_bind, act_safe_try. eapply safe_mono; [exact Hm|].
  intros [[a|e] s'] h'; cbn [fst snd]; [by intros|]. intros _. by apply failRestoreJob_safe.
Qed.

Lemma restore_findActive_no_create target : only no_create (restore_findActiveBackupJobForTarget target).
Proof.
  assert (∀ ref runs, only no_create (first_mutating_backup ref runs)) as Hf.
  { intros ref runs. induction runs; cbn [first_mutating_backup]; [done|].
    unfold machineRefForBackupJobWithClient, machineRefForBackupJob. solve_only. }
  unfold restore_findActiveBackupJobForTarget, restoreActiveBackupGuardHolder, activeGuardHolder,
    machineRefForBackupJob. cbn zeta. solve_only.
Qed.

Lemma admit_restore_safe sourceRef source machineRef target h :
  ResolveObjectReference (rs_SourceRef (rj_Spec run)) (om_Namespace (rj_Meta run)) = Ok sourceRef →
  Ev (Get KBackupSource sourceRef) (Ok source) ∈ h →
  ResolveObjectReference (ss_MachineRef (s_Spec source)) (om_Namespace (s_Meta source)) = Ok machineRef →
  Ev (Get KRsyncMachine machineRef) (Ok target) ∈ h →
  safe' (admit_restore r source machineRef target run) h (λ _ _, True).
Proof.
  intros Hsr Hs Hmr Hm. unfold admit_restore. apply act_safe_bind. cbn [get_obj safe fst snd].
  destruct (restore_refused _ _ _ _) as [e|] eqn:Hrefused; [by apply failRestoreJob_safe|].
  destruct (TargetReady target) eqn:Hready; cbn [negb].
  2: { apply not_creating_safe, act_only_bind; [|done]. unfold holdRestoreJobForTarget. cbn zeta.
       apply hold_restore_no_create. }
  apply act_safe_bind, or_fail_restore_safe; [|done]. apply act_safe_lift. eapply safe_mono.
  { eapply (shows_safe no_create); [apply restore_findActive_no_create|apply no_create_allowed|
      apply restore_findActive_shows]. }
  intros [[b|]|e] h1 [Hx Hh%did_after_grow]; cbn [fst snd]; [|..|done].
  { apply not_creating_safe, act_only_bind; [|done]. unfold holdRestoreJobForBackup. cbn zeta.
    apply hold_restore_no_create. }
  destruct (Hx _ eq_refl eq_refl) as [Hidle Hnone].
  unfold start_restore. apply act_safe_bind. cbn [get_obj safe fst snd].
  apply act_safe_bind, or_fail_restore_safe; [|done]. unfold raise. cbn [safe fst snd].
  destruct (resolveRestoreSnapshot _ _) as [snapshot|e] eqn:Hsnap; [|done].
  apply admitted_safe. exists sourceRef, source, machineRef, target, snapshot.
  split_and!; eauto using elem_of_grew, restore_permitted.
Qed.

Lemma reconcile_pending_restore_safe h :
  safe' (reconcile_pending_restore r run) h (λ _ _, True).
Proof.
  unfold reconcile_pending_restore. apply act_safe_bind. cbn [get_obj safe fst snd].
  apply act_safe_bind, or_fail_restore_safe; [|done]. unfold raise. cbn [safe fst snd].
  destruct (ResolveObjectReference _ _) as [sourceRef|e] eqn:Hsr; cbn [map_err]; [|done].
  apply act_safe_bind, act_safe_try, act_safe_lift. split; [done|].
  intros [source|e] _; cbn [safe fst snd]; [|by case_match].
  apply act_safe_bind, or_fail_restore_safe; [|done]. unfold raise. cbn [safe fst snd].
  destruct (ResolveObjectReference (ss_MachineRef _) _) as [machineRef|e] eqn:Hmr; cbn [map_err]; [|done].
  apply act_safe_bind, act_safe_try, act_safe_lift. split; [done|].
  intros [target|e] _; cbn [safe fst snd]; [|by case_match].
  eapply admit_restore_safe; try done; [right; left|left].
Qed.

Lemma reconcile_restore_safe h : safe' (reconcile_restore r run) h (λ _ _, True).
Proof.
  unfold reconcile_restore. apply act_safe_bind. cbn [get_obj safe fst snd].
  destruct (deleting _).
  { apply not_creating_safe. 
  unfold cleanupRunResourcesAndRemoveFinalizer, cleanupRunResources, deleteLabeledRunJobs, deleteLabeledRunPersistentVolumeClaims,
    deleteLabeledRunSecrets, deleteLabeledRunServices, deleteLabeledRunVolumeSnapshots, delete_labeled,
    deleteJobWithBackgroundPropagation, deleteWithBackgroundPropagation. cbn zeta. solve_only. }
  destruct (_ && _); [apply not_creating_safe; solve_only|].
  case_decide; [|apply reconcile_pending_restore_safe]. apply not_creating_safe.
  pose proof set_restore_cond_no_create.
  assert (∀ jobs b, only no_create (scan_restore_jobs jobs b)).
  { intros jobs. induction jobs; intros b; cbn [scan_restore_jobs]; solve_only. }
  unfold reconcileRestoreJobJobStatus, restore_completion, cleanupRunCredentialSecrets, deleteLabeledRunSecrets,
    delete_labeled, restore_recordRunEvent, record_restore_phase, update_restore_status. cbn zeta. solve_only.
Qed.
End Restores.

(** C15: a restore creates an object (a credential, the Job that serves its target, the Service or the writer) only after it
    read its source and the source's machine.  The machine's lists let the namespace of the source attach and the
    restore's own namespace read it (a listed name, a star, or a dot or an empty list for the machine's
    namespace), and the restore writes to no other namespace than its own; the machine is ready; the guard of the
    machine was nobody's, or of a holder that names no run, or one that is gone, changes nothing or has another machine; of the
    backups that were listed each was in a phase in which it changes no target, or referred to no machine, to one that is gone or to
    another one; and the snapshot the restore names resolved. *)
Theorem restore_waits `{!Quantities, !Unstructured, !ControllerUtil, !TLSChecks} r ref h k (o : object k) :
  issues (RestoreJob_Reconcile r ref) h (Create k o) →
  ∃ run, Ev (Get KRestoreJob ref) (Ok run) ∈ h ∧ restore_admitted run h.
Proof.
  intros Hi. refine (safe_issues (on_create (λ h, ∃ run, Ev (Get KRestoreJob ref) (Ok run) ∈ h ∧
    restore_admitted run h)) _ (λ _ _, True) _ _ _ Hi). split; [done|].
  intros [run|e] _; cbn; [|by case_match].
  apply io_safe_bind, safe_run_on. eapply safe_mono.
  { eapply (safe_kept (λ h, Ev (Get KRestoreJob ref) (Ok run) ∈ h)); [| |left|apply reconcile_restore_safe].
    - intros. by right.
    - intros h0 R c Hin. destruct c; try done. intros Ha. by exists run. }
  by intros [[x|e] s] h' _.
Qed.

(** ** Concrete restores *)

Lemma restored_snapshot_inside_witness :
  resolveRestoreSnapshot "daily/./2024-01-01T12-00-00Z" nas = Ok "daily/2024-01-01T12-00-00Z" ∧
  ∃ segs, normalized "daily/2024-01-01T12-00-00Z" segs.
Proof.
  assert (resolveRestoreSnapshot "daily/./2024-01-01T12-00-00Z" nas = Ok "daily/2024-01-01T12-00-00Z") as Hr
    by by vm_compute.
  split; [exact Hr|]. exact (proj1 (restored_snapshot_inside _ _ _ Hr)).
Defined.

(** A restore of the source, on a machine that lets any namespace read. *)
Definition comeback : RestoreJob :=
  (inhabitant : RestoreJob)
    <| rj_Meta := (inhabitant : ObjectMeta) <| om_Namespace := "backup" |> <| om_Name := "comeback" |>
                    <| om_Finalizers := [RestoreJobFinalizer] |> |>
    <| rj_Spec ::= λ s, s <| rs_SourceRef := MkObjectReference "media" "photos" |>
                          <| rs_Snapshot := "daily/2024-01-01T12-00-00Z" |> |>.

Definition restorer : RestoreJobReconciler := MkRestoreJobReconciler true "krm:latest" "" "" "" None true.

Lemma restore_waits_witness :
  ∃ h o, issues (RestoreJob_Reconcile restorer (MkNamespacedName "backup" "comeback")) h (Create KJob o) ∧
    ∃ run, Ev (Get KRestoreJob (MkNamespacedName "backup" "comeback")) (Ok run) ∈ h ∧ restore_admitted run h.
Proof.
  assert (∃ i o ans, (exec (server (with_object KRestoreJob comeback (small (nightly RunPhaseSucceeded))))
    (RestoreJob_Reconcile restorer (MkNamespacedName "backup" "comeback")) []).1 !! i =
    Some (Ev (Create KJob o) ans)) as (i & o & ans & Hi).
  { exists 13%nat. do 2 eexists. vm_compute. reflexivity. }
  apply exec_issues in Hi. eexists _, o. split; [exact Hi|].
  exact (restore_waits restorer _ _ KJob o Hi).
Defined.
