(* ===== verification/Recorder.v ===== *)
(** * The metrics recorder (internal/metrics/recorder.go)

    The counters and gauges of the controllers, and the two maps that make
    them count each run and each Job status once.  Every method takes the recorder's lock for
    its whole body, so the methods are functions on its state; a vector of counters or gauges is
    a map from label values to values.  A nil recorder ignores every call. *)
From S2P Require Export GoStrings ApiTypes.
From stdpp Require Import options.

Definition metrics_RunKindBackup : string := "backup".
Definition metrics_RunKindRestore : string := "restore".

Record Recorder := MkRecorder {
  activeRuns : gmap string Z;
  completedRuns : gmap string Z;
  failedRuns : gmap string Z;
  jobStatusTransitions : gmap (string * string * string) Z;
  (** The bytes, and the nanoseconds of which [transferDuration] shows the seconds. *)
  transferBytes : gmap (string * string) Z;
  transferDuration : gmap (string * string) Z;
  activeRunKeys : gmap string string;
  jobStatuses : gmap string string
}.

#[export] Instance Recorder_eta : Eta Recorder := λ r,
  MkRecorder (activeRuns r) (completedRuns r) (failedRuns r) (jobStatusTransitions r)
    (transferBytes r) (transferDuration r) (activeRunKeys r) (jobStatuses r).

Definition NewRecorder : Recorder := MkRecorder ∅ ∅ ∅ ∅ ∅ ∅ ∅ ∅.

(** [WithLabelValues(l).Add(d)]: a series starts at zero. *)
Definition add_to {K} `{Countable K} (l : K) (d : Z) (m : gmap K Z) : gmap K Z :=
  <[l := default 0 (m !! l) + d]> m.

Definition metrics_isTerminalPhase (phase : string) : bool :=
  bool_decide (phase = RunPhaseSucceeded ∨ phase = RunPhaseFailed ∨ phase = RunPhaseCanceled).

Definition count_end (runKind newPhase : string) (r : Recorder) : Recorder :=
  if decide (newPhase = RunPhaseSucceeded) then r <| completedRuns ::= add_to runKind 1 |>
  else if decide (newPhase = RunPhaseFailed) then r <| failedRuns ::= add_to runKind 1 |>
  else r.

Definition RecordRunPhase (runKind runKey oldPhase newPhase : string) (r : Recorder) : Recorder :=
  if decide (oldPhase = newPhase) then r
  else
    let stateKey := runKind +:+ "/" +:+ runKey in
    if negb (metrics_isTerminalPhase newPhase) then
      match activeRunKeys r !! stateKey with
      | Some _ => r
      | None => r <| activeRunKeys ::= <[stateKey := runKind]> |> <| activeRuns ::= add_to runKind 1 |>
      end
    else
      count_end runKind newPhase
        match activeRunKeys r !! stateKey with
        | Some seenKind =>
            r <| activeRunKeys ::= delete stateKey |> <| activeRuns ::= add_to seenKind (-1) |>
        | None => r
        end.

Definition RecordGeneratedJobStatus (runKind role jobKey status : string) (r : Recorder) : Recorder :=
  if decide (status = "") then r
  else
    let stateKey := runKind +:+ "/" +:+ jobKey in
    if decide (default "" (jobStatuses r !! stateKey) = status) then r
    else r <| jobStatuses ::= <[stateKey := status]> |>
           <| jobStatusTransitions ::= add_to (runKind, role, status) 1 |>.

Definition RecordTransfer (runKind transferKey : string) (bytesTransferred duration : Z) (r : Recorder) :
    Recorder :=
  if decide (transferKey = "") then r
  else
    let r := r <| transferBytes ::= <[(runKind, transferKey) := bytesTransferred]> |> in
    if decide (0 ≤ duration) then r <| transferDuration ::= <[(runKind, transferKey) := duration]> |> else r.

(** ** What the metrics count *)

(** The calls of the methods, in the order in which they took the lock. *)
Inductive record :=
  | PhaseRecord (runKind runKey oldPhase newPhase : string)
  | JobRecord (runKind role jobKey status : string)
  | TransferRecord (runKind transferKey : string) (bytesTransferred duration : Z).

Definition record_one (r : Recorder) (c : record) : Recorder :=
  match c with
  | PhaseRecord k key old new => RecordRunPhase k key old new r
  | JobRecord k role key st => RecordGeneratedJobStatus k role key st r
  | TransferRecord k key b d => RecordTransfer k key b d r
  end.

Definition recorded (calls : list record) : Recorder := fold_left record_one calls NewRecorder.

(** The runs of a kind that were last recorded in a phase that is not terminal. *)
Definition open_step (kind : string) (runs : gset string) (c : record) : gset string :=
  match c with
  | PhaseRecord k key old new =>
      if decide (k ≠ kind ∨ old = new) then runs
      else if metrics_isTerminalPhase new then runs ∖ {[key]} else {[key]} ∪ runs
  | _ => runs
  end.

Definition open_runs (calls : list record) (kind : string) : gset string :=
  fold_left (open_step kind) calls ∅.

(** The transitions of a kind of run to a phase. *)
Definition reached (kind phase : string) (c : record) : Prop :=
  match c with
  | PhaseRecord k _ old new => k = kind ∧ old ≠ new ∧ new = phase
  | _ => False
  end.

#[export] Instance reached_dec kind phase c : Decision (reached kind phase c).
Proof. destruct c; cbn; apply _. Defined.

(** The kinds of run have no slash, so a state key names one run of one kind. *)
Definition plain_kind (c : record) : Prop :=
  match c with PhaseRecord k _ _ _ => ContainsByte k slash = false | _ => True end.

Definition gauge {K} `{Countable K} (m : gmap K Z) (l : K) : Z := default 0 (m !! l).

Lemma gauge_add {K} `{Countable K} (m : gmap K Z) l l' d :
  gauge (add_to l d m) l' = gauge m l' + if decide (l = l') then d else 0.
Proof.
  unfold gauge, add_to. destruct (decide (l = l')) as [->|Hne].
  - by rewrite lookup_insert_eq.
  - rewrite lookup_insert_ne by done. lia.
Qed.

Lemma state_key_inj k1 k2 key1 key2 :
  ContainsByte k1 slash = false → ContainsByte k2 slash = false →
  k1 +:+ "/" +:+ key1 = k2 +:+ "/" +:+ key2 → k1 = k2 ∧ key1 = key2.
Proof.
  intros H1 H2 He. change (k1 +:+ String slash key1 = k2 +:+ String slash key2) in He.
  apply (f_equal (λ s, Cut s slash)) in He.
  rewrite !Cut_app in He by done. by injection He as -> ->.
Qed.

(** The recorder after some calls: its table of active runs is the set of open runs, its
    gauges and counters count them and the transitions. *)
Record accounts (calls : list record) (r : Recorder) : Prop := {
  ac_keys k s : activeRunKeys r !! s = Some k ↔
    ContainsByte k slash = false ∧ ∃ key, s = k +:+ "/" +:+ key ∧ key ∈ open_runs calls k;
  ac_gauge k : gauge (activeRuns r) k = Z.of_nat (size (open_runs calls k));
  ac_completed k : gauge (completedRuns r) k =
    Z.of_nat (length (filter (reached k RunPhaseSucceeded) calls));
  ac_failed k : gauge (failedRuns r) k =
    Z.of_nat (length (filter (reached k RunPhaseFailed) calls))
}.

Lemma open_runs_snoc calls c k : open_runs (calls ++ [c]) k = open_step k (open_runs calls k) c.
Proof. unfold open_runs. by rewrite fold_left_app. Qed.

Lemma reached_snoc k phase calls c :
  Z.of_nat (length (filter (reached k phase) (calls ++ [c]))) =
  Z.of_nat (length (filter (reached k phase) calls)) + if decide (reached k phase c) then 1 else 0.
Proof.
  rewrite filter_app, length_app, filter_cons, filter_nil. destruct (decide _); cbn; lia.
Qed.

Lemma open_no_slash calls k : Forall plain_kind calls → open_runs calls k ≠ ∅ → ContainsByte k slash = false.
Proof.
  induction calls as [|c calls IH] using rev_ind; [done|].
  rewrite Forall_app, Forall_singleton, open_runs_snoc. intros [Hf Hc] Ho.
  destruct c as [k' key old new| |]; cbn in Ho, Hc; [|by apply IH..].
  case_decide as Hd; [by apply IH|]. assert (k' = k) as -> by (destruct (decide (k' = k)); tauto). done.
Qed.

Lemma accounts_key calls r k key : accounts calls r → ContainsByte k slash = false →
  activeRunKeys r !! (k +:+ "/" +:+ key) = if decide (key ∈ open_runs calls k) then Some k else None.
Proof.
  intros H Hk. destruct (activeRunKeys r !! _) as [k'|] eqn:Hl.
  - apply (ac_keys _ _ H) in Hl as (Hk' & key' & He & Hin).
    apply state_key_inj in He as [<- <-]; [|done..]. by rewrite decide_True.
  - rewrite decide_False; [done|]. intros Hin.
    assert (activeRunKeys r !! (k +:+ "/" +:+ key) = Some k) by (apply (ac_keys _ _ H); eauto).
    congruence.
Qed.

(** A call that neither opens nor closes a run and reaches no end. *)
Lemma accounts_same calls c r r' : accounts calls r →
  (∀ k, open_step k (open_runs calls k) c = open_runs calls k) → (∀ k p, ¬ reached k p c) →
  activeRunKeys r' = activeRunKeys r → activeRuns r' = activeRuns r →
  completedRuns r' = completedRuns r → failedRuns r' = failedRuns r → accounts (calls ++ [c]) r'.
Proof.
  intros H Ho Hr H1 H2 H3 H4. split; intros k; rewrite ?open_runs_snoc, ?Ho, ?reached_snoc, ?H1, ?H2, ?H3, ?H4.
  1,2: apply H.
  all: rewrite decide_False, Z.add_0_r by apply Hr; apply H.
Qed.

Lemma accounts_open calls r k key old new : accounts calls r → ContainsByte k slash = false →
  old ≠ new → metrics_isTerminalPhase new = false →
  accounts (calls ++ [PhaseRecord k key old new]) (RecordRunPhase k key old new r).
Proof.
  intros H Hk Hne Ht. assert (∀ k' p, p ∈ [RunPhaseSucceeded; RunPhaseFailed] →
    ¬ reached k' p (PhaseRecord k key old new)) as Hr.
  { intros k' p Hp (_ & _ & ->). apply bool_decide_eq_false in Ht. set_solver. }
  assert (∀ k', open_runs (calls ++ [PhaseRecord k key old new]) k' =
    if decide (k = k') then {[key]} ∪ open_runs calls k' else open_runs calls k') as Ho.
  { intros k'. rewrite open_runs_snoc. cbn. rewrite Ht. destruct (decide (k = k')) as [->|].
    - by rewrite decide_False by naive_solver.
    - by rewrite decide_True by naive_solver. }
  unfold RecordRunPhase. rewrite decide_False, Ht, (accounts_key calls) by done. cbn [negb].
  destruct (decide (key ∈ open_runs calls k)) as [Hin|Hnin]; split; cbn; intros k'.
  all: rewrite ?reached_snoc, ?Ho, ?(decide_False (P := reached _ _ _)), ?Z.add_0_r by (apply Hr; set_solver).
  all: try apply H.
  - intros s. rewrite (ac_keys _ _ H). case_decide; [subst|done].
    by replace ({[key]} ∪ open_runs calls k') with (open_runs calls k') by set_solver.
  - rewrite (ac_gauge _ _ H). case_decide; [subst|done].
    by replace ({[key]} ∪ open_runs calls k') with (open_runs calls k') by set_solver.
  - intros s. rewrite lookup_insert_Some, (ac_keys _ _ H). split.
    + intros [[<- <-]|[Hs (Hk' & key' & -> & Hi)]]; (split; [done|]).
      * exists key. rewrite decide_True by done. set_solver.
      * exists key'. split; [done|]. case_decide; set_solver.
    + intros (Hk' & key' & -> & Hi). case_decide as Hkk; [subst k'|].
      * destruct (decide (key = key')) as [->|Hkey]; [by left|right].
        split; [|set_solver]. by intros [_ ?]%state_key_inj.
      * right. split; [by intros [? _]%state_key_inj|eauto].
  - rewrite gauge_add, (ac_gauge _ _ H). case_decide as Hkk; [subst k'|lia].
    rewrite size_union, size_singleton by set_solver. lia.
Qed.

Lemma accounts_close calls r k key old new : accounts calls r → ContainsByte k slash = false →
  old ≠ new → metrics_isTerminalPhase new = true →
  accounts (calls ++ [PhaseRecord k key old new]) (RecordRunPhase k key old new r).
Proof.
  intros H Hk Hne Ht.
  assert (∀ k', open_runs (calls ++ [PhaseRecord k key old new]) k' =
    if decide (k = k') then open_runs calls k' ∖ {[key]} else open_runs calls k') as Ho.
  { intros k'. rewrite open_runs_snoc. cbn. rewrite Ht. destruct (decide (k = k')) as [->|].
    - by rewrite decide_False by naive_solver.
    - by rewrite decide_True by naive_solver. }
  set (c := PhaseRecord k key old new) in *.
  unfold RecordRunPhase. rewrite decide_False, Ht, (accounts_key calls) by done. cbn [negb].
  set (r0 := match _ with Some _ => _ | None => _ end).
  assert ((∀ k' s, activeRunKeys r0 !! s = Some k' ↔ ContainsByte k' slash = false ∧
     ∃ key', s = k' +:+ "/" +:+ key' ∧ key' ∈ open_runs (calls ++ [c]) k') ∧
    (∀ k', gauge (activeRuns r0) k' = Z.of_nat (size (open_runs (calls ++ [c]) k'))) ∧
    completedRuns r0 = completedRuns r ∧ failedRuns r0 = failedRuns r) as (Ha & Hg & Hc & Hf).
  { unfold r0. destruct (decide (key ∈ open_runs calls k)) as [Hin|Hnin]; cbn; split_and!; try done.
    - intros k' s. rewrite Ho, lookup_delete_Some, (ac_keys _ _ H). split.
      + intros [Hs (Hk' & key' & -> & Hi)]. split; [done|]. exists key'. split; [done|].
        case_decide as Hkk; [subst k'|done]. set_solver.
      + intros (Hk' & key' & -> & Hi). case_decide as Hkk; [subst k'|].
        * split; [|set_solver]. intros [_ ->]%state_key_inj; [set_solver|done..].
        * split; [by intros [? _]%state_key_inj|eauto].
    - intros k'. rewrite gauge_add, Ho, (ac_gauge _ _ H). case_decide as Hkk; [subst k'|lia].
      rewrite size_difference, size_singleton by set_solver.
      pose proof (subseteq_size {[key]} (open_runs calls k)) as Hsz.
      rewrite size_singleton in Hsz. specialize (Hsz ltac:(set_solver)). lia.
    - intros k' s. rewrite Ho, (ac_keys _ _ H). case_decide; [subst|done].
      by replace (open_runs calls k' ∖ {[key]}) with (open_runs calls k') by set_solver.
    - intros k'. rewrite Ho, (ac_gauge _ _ H). case_decide; [subst|done].
      by replace (open_runs calls k' ∖ {[key]}) with (open_runs calls k') by set_solver. }
  clearbody r0.
  assert (∀ k' p, reached k' p c ↔ k = k' ∧ new = p) as Hr by (intros; cbn; naive_solver).
  unfold count_end. split; intros k'; rewrite ?reached_snoc.
  - by repeat case_decide; cbn.
  - by repeat case_decide; cbn.
  - rewrite <-(ac_completed _ _ H k'), <-Hc.
    destruct (decide (reached _ _ c)) as [[-> ->]%Hr|Hn].
    + repeat case_decide; try done. cbn. by rewrite gauge_add, decide_True.
    + rewrite Hr in Hn. repeat case_decide; subst; cbn; rewrite ?gauge_add, ?decide_False by tauto; lia.
  - rewrite <-(ac_failed _ _ H k'), <-Hf.
    destruct (decide (reached _ _ c)) as [[-> ->]%Hr|Hn].
    + repeat case_decide; try done. cbn. by rewrite gauge_add, decide_True.
    + rewrite Hr in Hn. repeat case_decide; subst; cbn; rewrite ?gauge_add, ?decide_False by tauto; lia.
Qed.

Lemma accounts_phase calls r k key old new : accounts calls r → ContainsByte k slash = false →
  accounts (calls ++ [PhaseRecord k key old new]) (RecordRunPhase k key old new r).
Proof.
  intros H Hk. destruct (decide (old = new)) as [->|Hne].
  - eapply accounts_same; [exact H| | |unfold RecordRunPhase; by rewrite decide_True..].
    + intros k'. cbn. by rewrite decide_True by tauto.
    + intros k' p. cbn. tauto.
  - destruct (metrics_isTerminalPhase new) eqn:Ht; [by apply accounts_close|by apply accounts_open].
Qed.

Lemma recorded_accounts calls : Forall plain_kind calls → accounts calls (recorded calls).
Proof.
  unfold recorded. induction calls as [|c calls IH] using rev_ind.
  { intros _. split; try done. intros k s. cbn. rewrite lookup_empty. set_solver. }
  rewrite Forall_app, Forall_singleton, fold_left_app. intros [Hf Hc]. specialize (IH Hf).
  destruct c as [k key old new|k role key st|k key b d]; cbn in Hc |- *; [by apply accounts_phase|..].
  all: eapply accounts_same; [exact IH|done|cbn; tauto|..].
  all: unfold RecordGeneratedJobStatus, RecordTransfer; by repeat case_decide.
Qed.

(** the run metrics count what they say.  After any calls, in the order in which they took the
    recorder's lock, the gauge of active runs of a kind is the number of runs of that kind that were last
    recorded in a phase that is not terminal, so it never goes below zero or drifts;
    and the counters of completed and failed runs are the numbers of transitions to those
    phases. *)
Theorem recorder_counts calls kind : Forall plain_kind calls →
  gauge (activeRuns (recorded calls)) kind = Z.of_nat (size (open_runs calls kind)) ∧
  gauge (completedRuns (recorded calls)) kind =
    Z.of_nat (length (filter (reached kind RunPhaseSucceeded) calls)) ∧
  gauge (failedRuns (recorded calls)) kind =
    Z.of_nat (length (filter (reached kind RunPhaseFailed) calls)).
Proof. intros H%recorded_accounts. split_and!; apply H. Qed.

(** A backup that fails, is set running again and succeeds, beside a restore. *)
Definition sample_records : list record :=
  [PhaseRecord "backup" "apps/nightly" "" "Pending";
   PhaseRecord "backup" "apps/nightly" "Pending" "Running";
   PhaseRecord "restore" "apps/nightly" "" "Running";
   PhaseRecord "backup" "apps/nightly" "Running" "Failed";
   PhaseRecord "backup" "apps/nightly" "Failed" "Running";
   JobRecord "backup" "source-sender" "apps/source-db" "failed";
   PhaseRecord "backup" "apps/nightly" "Running" "Succeeded"].

Lemma recorder_counts_witness :
  gauge (activeRuns (recorded sample_records)) "restore" = 1 ∧
  gauge (completedRuns (recorded sample_records)) "backup" = 1 ∧
  gauge (activeRuns (recorded sample_records)) "backup" =
    Z.of_nat (size (open_runs sample_records "backup")).
Proof.
  split; [by vm_compute|]. split; [by vm_compute|].
  apply (recorder_counts sample_records "backup"). by repeat constructor.
Defined.
