(* ===== verification/Applier.v ===== *)
(** * The event applier (internal/manager/event_applier.go)

    The manager subscribes to the event hub and writes what the events report into the status of
    the runs, restores and machines they are about: each event is applied to the object as it is read, with a
    retry when another client has written it in between.  The retry is client-go's
    [RetryOnConflict], a parameter.  The laws: in every environment a status is
    only written as an event's handler leaves the object that was just read; and when nobody else
    writes, the statuses follow the events in the order in which they come. *)
From S2P Require Export EventHub Cluster.
From stdpp Require Import options.

(** [m], and again up to [n] times while it fails with a conflict. *)
Fixpoint attempts (n : nat) (m : io unit) : io unit :=
  prog_bind (λ r, match r, n with
    | Err e, S n => if errors_is KConflict e then attempts n m else Ret (Err e)
    | _, _ => Ret r
    end) m.

(** retry.RetryOnConflict(retry.DefaultRetry, fn): it runs the function at least once and a
    bounded number of times, and returns its last result. *)
Class ConflictRetry := {
  RetryOnConflict : io unit → io unit;
  retry_law : ∃ n, ∀ m, RetryOnConflict m = attempts n m
}.

Section Applier.
Context `{!ConflictRetry}.

(** The function that is retried: read the object, apply the handler, write the status when
    the handler says that it changed. *)
Definition apply_once (k : kind) (key : NamespacedName) (handler : Time → object k → object k * bool) :
    io unit :=
  found ← io_try (req (Get k key));
  match found with
  | Err e => if errors_is KNotFound e then mret tt else io_throw e
  | Ok o =>
      now ← ask Now;
      let '(o, changed) := handler now o in
      if negb changed then mret tt
      else _ ← req (UpdateStatus k o); mret tt
  end.

Definition applyTargetEventToRun (event : TargetEvent) : io unit :=
  if decide (te_RunKind event ≠ RunKindBackup) then mret tt
  else RetryOnConflict (apply_once KBackupJob (MkNamespacedName (te_RunNamespace event) (te_RunName event))
         (λ now run, ApplyTargetEventToBackupJob now run event)).

Definition applyTargetCommandAckToRun (event : TargetCommandAckEvent) : io unit :=
  if decide (ta_RunKind event ≠ RunKindBackup) then mret tt
  else RetryOnConflict (apply_once KBackupJob (MkNamespacedName (ta_RunNamespace event) (ta_RunName event))
         (λ now run, ApplyTargetCommandAckToBackupJob now run event)).

Definition applySourceEventToBackupJob (event : SourceEvent) : io unit :=
  if negb (shouldPersistSourceEvent event) then mret tt
  else RetryOnConflict (apply_once KBackupJob (MkNamespacedName (se_RunNamespace event) (se_RunName event))
         (λ now run, ApplySourceEventToBackupJob now run event)).

Definition applySourceEventToRestoreJob (event : SourceEvent) : io unit :=
  if negb (shouldPersistSourceEvent event) then mret tt
  else RetryOnConflict (apply_once KRestoreJob (MkNamespacedName (se_RunNamespace event) (se_RunName event))
         (λ now run, ApplySourceEventToRestoreJob now run event)).

Definition applyTargetEventToTarget (event : TargetEvent) : io unit :=
  RetryOnConflict (apply_once KRsyncMachine
    (MkNamespacedName (te_TargetNamespace event) (te_TargetName event))
    (λ now target, ApplyTargetEventToRsyncMachine now target event)).

Definition ControlEventApplier_apply (event : ControlEvent) : io unit :=
  if decide (ce_Kind event = EventKindTarget) then
    match ce_Target event with
    | None => mret tt
    | Some target => _ ← applyTargetEventToRun target; applyTargetEventToTarget target
    end
  else if decide (ce_Kind event = EventKindTargetCommandAck) then
    match ce_CommandAck event with
    | None => mret tt
    | Some ack => applyTargetCommandAckToRun ack
    end
  else if decide (ce_Kind event = EventKindSource) then
    match ce_Source event with
    | None => mret tt
    | Some source =>
        if decide (se_RunKind source = RunKindBackup) then applySourceEventToBackupJob source
        else if decide (se_RunKind source = RunKindRestore) then applySourceEventToRestoreJob source
        else mret tt
    end
  else mret tt.

(** [Start], with the events its subscription sends before its channel is closed or the
    context ends. *)
Definition ControlEventApplier_Start (client hub : bool) (subscription : result (list ControlEvent)) :
    io unit :=
  if negb client then io_throw (ErrNew "client is required")
  else if negb hub then io_throw (ErrNew "control event hub is required")
  else
    events ← io_lift subscription;
    io_for_each ControlEventApplier_apply events.
End Applier.

(** The default retry makes five attempts. *)
#[export] Instance default_retry : ConflictRetry := {|
  RetryOnConflict := attempts 4;
  retry_law := ex_intro _ 4%nat (λ m, eq_refl)
|}.

(** ** Every write is an event applied to what was just read *)

(** What an event does to the object of a kind and name. *)
Inductive changes : ControlEvent → ∀ k, NamespacedName → (Time → object k → object k * bool) → Prop :=
  | changes_run e t : ce_Kind e = EventKindTarget → ce_Target e = Some t → te_RunKind t = RunKindBackup →
      changes e KBackupJob (MkNamespacedName (te_RunNamespace t) (te_RunName t))
        (λ now run, ApplyTargetEventToBackupJob now run t)
  | changes_machine e t : ce_Kind e = EventKindTarget → ce_Target e = Some t →
      changes e KRsyncMachine (MkNamespacedName (te_TargetNamespace t) (te_TargetName t))
        (λ now target, ApplyTargetEventToRsyncMachine now target t)
  | changes_command e a : ce_Kind e = EventKindTargetCommandAck → ce_CommandAck e = Some a →
      ta_RunKind a = RunKindBackup →
      changes e KBackupJob (MkNamespacedName (ta_RunNamespace a) (ta_RunName a))
        (λ now run, ApplyTargetCommandAckToBackupJob now run a)
  | changes_transfer e s : ce_Kind e = EventKindSource → ce_Source e = Some s →
      se_RunKind s = RunKindBackup → shouldPersistSourceEvent s = true →
      changes e KBackupJob (MkNamespacedName (se_RunNamespace s) (se_RunName s))
        (λ now run, ApplySourceEventToBackupJob now run s)
  | changes_restore e s : ce_Kind e = EventKindSource → ce_Source e = Some s →
      se_RunKind s = RunKindRestore → shouldPersistSourceEvent s = true →
      changes e KRestoreJob (MkNamespacedName (se_RunNamespace s) (se_RunName s))
        (λ now run, ApplySourceEventToRestoreJob now run s).

(** Only reads, clock readings and status writes; a write is what a handler made of the object
    that the last request but one read. *)
Definition just_read (events : list ControlEvent) : rule := λ h R c,
  match c with
  | Get _ _ | Now => True
  | UpdateStatus k o => ∃ e key handler now o' h', e ∈ events ∧ changes e k key handler ∧
      h = Ev Now now :: Ev (Get k key) (Ok o') :: h' ∧ handler now o' = (o, true)
  | _ => False
  end.

Lemma apply_once_safe events e k key handler h : e ∈ events → changes e k key handler →
  safe no_promise (just_read events) (apply_once k key handler) h (λ _ _, True).
Proof.
  intros He Hc. split; [done|]. intros [o|err] _; cbn; [|by destruct (errors_is _ _)].
  split; [done|]. intros now _. cbn. destruct (handler now o) as [o' ch] eqn:Hh. destruct ch; cbn; [|done].
  split; [|by intros []]. do 6 eexists. split_and!; [exact He|exact Hc|done|exact Hh].
Qed.

Lemma attempts_safe P n m h : (∀ h, safe no_promise P m h (λ _ _, True)) →
  safe no_promise P (attempts n m) h (λ _ _, True).
Proof.
  intros Hm. revert h. induction n as [|n IH]; intros h; cbn; apply safe_bind; (eapply safe_mono; [apply Hm|]);
    intros [[]|e] h' _; try done.
  destruct (errors_is _ _); [apply IH|done].
Qed.

Lemma retry_safe `{!ConflictRetry} events e k key handler h : e ∈ events → changes e k key handler →
  safe no_promise (just_read events) (RetryOnConflict (apply_once k key handler)) h (λ _ _, True).
Proof.
  intros He Hc. destruct retry_law as [n Hn]. rewrite Hn. apply attempts_safe. intros. by eapply apply_once_safe.
Qed.

Lemma apply_safe `{!ConflictRetry} events e h : e ∈ events →
  safe no_promise (just_read events) (ControlEventApplier_apply e) h (λ _ _, True).
Proof.
  intros He. unfold ControlEventApplier_apply.
  destruct (decide (ce_Kind e = EventKindTarget)) as [Hk|].
  { destruct (ce_Target e) as [t|] eqn:Ht; [|done]. apply io_safe_bind. eapply safe_mono.
    { unfold applyTargetEventToRun. case_decide as Hb; [instantiate (1 := λ _ _, True); done|].
      eapply retry_safe; [exact He|]. apply (changes_run e t Hk Ht). destruct (decide (te_RunKind t = RunKindBackup)); tauto. }
    intros [[]|err] h' _; [|done]. eapply retry_safe; [exact He|]. by apply changes_machine. }
  destruct (decide (ce_Kind e = EventKindTargetCommandAck)) as [Hk'|].
  { destruct (ce_CommandAck e) as [a|] eqn:Ha; [|done]. unfold applyTargetCommandAckToRun.
    case_decide as Hb; [done|]. eapply retry_safe; [exact He|]. apply changes_command; [done..|]. destruct (decide (ta_RunKind a = RunKindBackup)); tauto. }
  case_decide as Hs; [|done]. destruct (ce_Source e) as [s|] eqn:Hce; [|done].
  unfold applySourceEventToBackupJob, applySourceEventToRestoreJob.
  repeat case_decide; try done; destruct (shouldPersistSourceEvent s) eqn:Hp; try done; cbn [negb];
    (eapply retry_safe; [exact He|]); [by apply changes_transfer|by apply changes_restore].
Qed.

(** a status is only ever written from fresh state.  Whatever the API server answers and whoever
    else writes, and however often a conflict makes it try again, each status write of the applier is what the
    handler of one of its events made of the object that it read with its last request before
    the clock, and the handler said that the object changed; it makes no other writes. *)
Theorem applier_writes `{!ConflictRetry} client hub events h k (o : object k) :
  issues (ControlEventApplier_Start client hub (Ok events)) h (UpdateStatus k o) →
  ∃ e key handler now o' h', e ∈ events ∧ changes e k key handler ∧
    h = Ev Now now :: Ev (Get k key) (Ok o') :: h' ∧ handler now o' = (o, true).
Proof.
  intros Hi. refine (safe_issues (just_read events) _ (λ _ _, True) _ _ _ Hi). clear Hi.
  unfold ControlEventApplier_Start. destruct client, hub; cbn [negb]; try done.
  apply io_safe_bind. cbn. apply safe_for_each. intros e h' He _. by apply apply_safe.
Qed.

(** ** When nobody else writes *)

(** The objects the applier works on, by name. *)
Record stored := MkStored {
  st_jobs : gmap NamespacedName BackupJob;
  st_restores : gmap NamespacedName RestoreJob;
  st_machines : gmap NamespacedName RsyncMachine
}.
#[export] Instance stored_eta : Eta stored := λ r, MkStored (st_jobs r) (st_restores r) (st_machines r).

Definition stored_get (k : kind) (s : stored) (key : NamespacedName) : option (object k) :=
  match k return option (object k) with
  | KBackupJob => st_jobs s !! key
  | KRestoreJob => st_restores s !! key
  | KRsyncMachine => st_machines s !! key
  | _ => None
  end.

Definition stored_put (k : kind) : object k → stored → stored :=
  match k return object k → stored → stored with
  | KBackupJob => λ o s, s <| st_jobs ::= <[ref_of (bj_Meta o) := o]> |>
  | KRestoreJob => λ o s, s <| st_restores ::= <[ref_of (rj_Meta o) := o]> |>
  | KRsyncMachine => λ o s, s <| st_machines ::= <[ref_of (m_Meta o) := o]> |>
  | _ => λ _ s, s
  end.

(** An API server that holds the objects and takes each status write of an object it has. *)
Definition update_stored (k : kind) (o : object k) (s : stored) : option stored :=
  match stored_get k s (ref_of (meta_of k o)) with Some _ => Some (stored_put k o s) | None => None end.

Definition after_event (e : event) (s : stored) : stored :=
  match e with
  | Ev c _ => match c with UpdateStatus k o => default s (update_stored k o s) | _ => s end
  end.

Definition state_of (s : stored) (h : list event) : stored := foldr after_event s h.

Definition memory (s : stored) (now : Time) : environment := λ R h c,
  match c in request R return R with
  | Get k key =>
      match stored_get k (state_of s h) key with Some o => Ok o | None => Err not_found end
  | UpdateStatus k o =>
      match update_stored k o (state_of s h) with Some _ => Ok o | None => Err not_found end
  | Now => now
  | c => server no_objects _ h c
  end.

(** What an event does to a run it is applied to. *)
Definition if_changed {A} (o : A) (r : A * bool) : A := if r.2 then r.1 else o.

Definition job_step (now : Time) (run : BackupJob) (e : ControlEvent) : BackupJob :=
  if decide (ce_Kind e = EventKindTarget) then
    match ce_Target e with
    | Some t => if_changed run (ApplyTargetEventToBackupJob now run t)
    | None => run
    end
  else if decide (ce_Kind e = EventKindTargetCommandAck) then
    match ce_CommandAck e with
    | Some a => if_changed run (ApplyTargetCommandAckToBackupJob now run a)
    | None => run
    end
  else if decide (ce_Kind e = EventKindSource) then
    match ce_Source e with
    | Some s => if shouldPersistSourceEvent s then if_changed run (ApplySourceEventToBackupJob now run s) else run
    | None => run
    end
  else run.

(** The handlers leave the name of their object alone. *)
Lemma assign_status_meta {A} `{EqDecision A} (f : BackupJobStatus → A) `{!Setter f} c v rc :
  bj_Meta (assign_status f c v rc).1 = bj_Meta rc.1.
Proof. unfold assign_status. by destruct (assign _ _ _ _). Qed.

Lemma complete_phase_meta now p rc : bj_Meta (complete_phase now p rc).1 = bj_Meta rc.1.
Proof. unfold complete_phase. by case_decide. Qed.

Lemma condition_meta now ty st re ms rc : bj_Meta (set_job_condition now ty st re ms rc).1 = bj_Meta rc.1.
Proof. apply set_job_condition_transfers. Qed.

Lemma target_event_meta now run e : bj_Meta (ApplyTargetEventToBackupJob now run e).1 = bj_Meta run.
Proof.
  unfold ApplyTargetEventToBackupJob. destruct (negb _); [done|].
  repeat case_decide; by repeat rewrite ?assign_status_meta, ?condition_meta, ?complete_phase_meta.
Qed.

Lemma command_ack_meta now run e : bj_Meta (ApplyTargetCommandAckToBackupJob now run e).1 = bj_Meta run.
Proof.
  unfold ApplyTargetCommandAckToBackupJob. destruct (negb _); [done|].
  destruct (bjs_LastCommand _); [|done]. by repeat case_decide.
Qed.

Lemma source_event_meta now run e : bj_Meta (ApplySourceEventToBackupJob now run e).1 = bj_Meta run.
Proof.
  destruct (for_this_run run (se_RunNamespace e) (se_RunName e) (se_RunKind e)) eqn:Hr.
  - rewrite ApplySourceEventToBackupJob_shape by done.
    by rewrite (proj1 (proj2 (setTransferConditions_keeps _ _ _ _))).
  - unfold ApplySourceEventToBackupJob. by rewrite Hr.
Qed.

Lemma restore_event_meta now run e : rj_Meta (ApplySourceEventToRestoreJob now run e).1 = rj_Meta run.
Proof.
  unfold ApplySourceEventToRestoreJob. case_decide; [done|]. cbn zeta.
  set (x := match update_first _ _ _ with Some _ => _ | None => _ end). destruct x as [ts ch].
  assert (∀ A (EA : EqDecision A) (f : RestoreJobStatus → A) (Sf : Setter f) c v rc,
    rj_Meta (assign_restore f c v rc).1 = rj_Meta rc.1) as Ha.
  { intros. unfold assign_restore. by destruct (assign _ _ _ _). }
  assert (∀ p rc, rj_Meta (complete_restore now p rc).1 = rj_Meta rc.1) as Hc.
  { intros. unfold complete_restore. by case_decide. }
  rewrite !Ha. repeat case_decide; by rewrite ?Ha, ?Hc.
Qed.

Lemma machine_event_meta now target e : m_Meta (ApplyTargetEventToRsyncMachine now target e).1 = m_Meta target.
Proof. unfold ApplyTargetEventToRsyncMachine. by repeat case_decide. Qed.

(** Running a program on the stored objects: its result and the objects it leaves. *)
Definition plays {A} (s0 : stored) (now : Time) (h : list event) (p : prog A) (a : A) (s : stored) : Prop :=
  (exec (memory s0 now) p h).2 = a ∧ state_of s0 (rev (exec (memory s0 now) p h).1 ++ h) = s.

Section Plays.
Context (s0 : stored) (now : Time).

Lemma exec_bind {A B} (env : environment) (p : prog A) (f : A → prog B) h :
  exec env (prog_bind f p) h =
    let r := exec env p h in
    let r' := exec env (f r.2) (rev r.1 ++ h) in (r.1 ++ r'.1, r'.2).
Proof.
  revert h. induction p as [a|R c k IH]; intros h; cbn; [by destruct (exec env (f a) h)|].
  rewrite IH. destruct (exec env (k _) _) as [tr a]. cbn. rewrite <-(assoc_L (++)). cbn.
  by destruct (exec env (f a) _).
Qed.

Lemma plays_bind {A B} h (m : io A) (f : A → io B) a s r s' :
  plays s0 now h m (Ok a) s →
  (∀ h', state_of s0 h' = s → plays s0 now h' (f a) r s') → plays s0 now h (m ≫= f) r s'.
Proof.
  intros [Hr Hs] Hf. unfold plays. unfold mbind, io_mbind. rewrite exec_bind. cbn zeta. rewrite Hr.
  destruct (Hf _ Hs) as [Hr' Hs']. split; [exact Hr'|]. cbn [fst].
  by rewrite rev_app_distr, <-(assoc_L (++)).
Qed.

(** The objects are stored under their names. *)
Definition well_named (s : stored) : Prop :=
  ∀ k key o, stored_get k s key = Some o → ref_of (meta_of k o) = key.

Lemma well_named_put k o s : well_named s → well_named (stored_put k o s).
Proof.
  intros Hs k' key o' Hk. destruct k, k'; try (by apply Hs); cbn in Hk |- *;
    (apply lookup_insert_Some in Hk as [[<- <-]|[_ Hk]]; [done|]);
    [apply (Hs KBackupJob)|apply (Hs KRestoreJob)|apply (Hs KRsyncMachine)]; done.
Qed.

(** One application of a handler. *)
Definition applied (k : kind) (key : NamespacedName) (handler : Time → object k → object k * bool)
    (s : stored) : stored :=
  match stored_get k s key with
  | Some o => if (handler now o).2 then stored_put k (handler now o).1 s else s
  | None => s
  end.

Lemma apply_once_plays k key handler h s n : well_named s →
  (∀ o, meta_of k (handler now o).1 = meta_of k o) → state_of s0 h = s →
  plays s0 now h (attempts n (apply_once k key handler)) (Ok tt) (applied k key handler s).
Proof.
  intros Hs Hm Hh.
  assert (∀ R (c : request R) x h, state_of s0 (Ev c x :: h) = after_event (Ev c x) (state_of s0 h)) as Hcons by done.
  assert (plays s0 now h (apply_once k key handler) (Ok tt) (applied k key handler s)) as [Hr Hst].
  { unfold plays, applied. cbn -[state_of]. rewrite Hh.
    destruct (stored_get k s key) as [o|] eqn:Ho; cbn -[state_of]; [|by rewrite bool_decide_true].
    pose proof (Hm o) as Hmo. destruct (handler now o) as [o' ch] eqn:Hf. cbn in Hmo.
    assert (update_stored k o' s = Some (stored_put k o' s)) as Hu.
    { unfold update_stored. by rewrite Hmo, (Hs _ _ _ Ho), Ho. }
    destruct ch; cbn -[state_of]; rewrite ?Hcons, Hh; cbn -[state_of]; [|done].
    rewrite !Hu. cbn -[state_of]. rewrite !Hcons, Hh. cbn. by rewrite Hu. }
  destruct n as [|n]; cbn [attempts]; unfold plays; rewrite exec_bind; cbn zeta; rewrite Hr; cbn [exec fst snd];
    by rewrite app_nil_r.
Qed.

Lemma plays_ret {A} h (a : A) s : state_of s0 h = s → plays s0 now h (Ret a) a s.
Proof. done. Qed.
End Plays.

(** The objects after an event. *)
Definition after_target_run (now : Time) (t : TargetEvent) (s : stored) : stored :=
  if decide (te_RunKind t ≠ RunKindBackup) then s
  else applied now KBackupJob (MkNamespacedName (te_RunNamespace t) (te_RunName t))
         (λ now run, ApplyTargetEventToBackupJob now run t) s.

Definition after_apply (now : Time) (s : stored) (e : ControlEvent) : stored :=
  let source_name s := MkNamespacedName (se_RunNamespace s) (se_RunName s) in
  if decide (ce_Kind e = EventKindTarget) then
    match ce_Target e with
    | Some t =>
        applied now KRsyncMachine (MkNamespacedName (te_TargetNamespace t) (te_TargetName t))
          (λ now target, ApplyTargetEventToRsyncMachine now target t) (after_target_run now t s)
    | None => s
    end
  else if decide (ce_Kind e = EventKindTargetCommandAck) then
    match ce_CommandAck e with
    | Some a =>
        if decide (ta_RunKind a ≠ RunKindBackup) then s
        else applied now KBackupJob (MkNamespacedName (ta_RunNamespace a) (ta_RunName a))
               (λ now run, ApplyTargetCommandAckToBackupJob now run a) s
    | None => s
    end
  else if decide (ce_Kind e = EventKindSource) then
    match ce_Source e with
    | Some c =>
        if negb (shouldPersistSourceEvent c) then s
        else if decide (se_RunKind c = RunKindBackup) then
          applied now KBackupJob (source_name c) (λ now run, ApplySourceEventToBackupJob now run c) s
        else if decide (se_RunKind c = RunKindRestore) then
          applied now KRestoreJob (source_name c) (λ now run, ApplySourceEventToRestoreJob now run c) s
        else s
    | None => s
    end
  else s.

Lemma well_named_applied now k key f s : well_named s → well_named (applied now k key f s).
Proof.
  intros Hs. unfold applied. destruct (stored_get _ _ _); [|done]. destruct (f _ _).2; [|done].
  by apply well_named_put.
Qed.

Lemma well_named_after now s e : well_named s → well_named (after_apply now s e).
Proof.
  intros Hs. unfold after_apply, after_target_run. repeat case_match; by repeat apply well_named_applied.
Qed.

Lemma retry_plays `{!ConflictRetry} s0 now k key f h s : well_named s →
  (∀ o, meta_of k (f now o).1 = meta_of k o) → state_of s0 h = s →
  plays s0 now h (RetryOnConflict (apply_once k key f)) (Ok tt) (applied now k key f s).
Proof. intros. destruct retry_law as [n Hn]. rewrite Hn. by apply apply_once_plays. Qed.

Lemma apply_plays `{!ConflictRetry} s0 now h s e : well_named s → state_of s0 h = s →
  plays s0 now h (ControlEventApplier_apply e) (Ok tt) (after_apply now s e).
Proof.
  intros Hs Hh. unfold ControlEventApplier_apply, after_apply.
  assert (∀ o t, meta_of KBackupJob (ApplyTargetEventToBackupJob now o t).1 = meta_of KBackupJob o)
    as H1 by apply target_event_meta.
  assert (∀ o t, meta_of KRsyncMachine (ApplyTargetEventToRsyncMachine now o t).1 = meta_of KRsyncMachine o)
    as H2 by apply machine_event_meta.
  destruct (decide (ce_Kind e = EventKindTarget)).
  { destruct (ce_Target e) as [t|]; [|by apply plays_ret].
    apply (plays_bind _ _ _ _ _ tt (after_target_run now t s)); unfold after_target_run.
    - unfold applyTargetEventToRun. case_decide; [by apply plays_ret|]. by apply retry_plays.
    - intros h' Hh'. apply retry_plays; [|done|done]. case_decide; [done|by apply well_named_applied]. }
  destruct (decide (ce_Kind e = EventKindTargetCommandAck)).
  { destruct (ce_CommandAck e) as [a|]; [|by apply plays_ret]. unfold applyTargetCommandAckToRun.
    case_decide; [by apply plays_ret|]. apply retry_plays; [done| |done]. intros o. apply command_ack_meta. }
  case_decide; [|by apply plays_ret]. destruct (ce_Source e) as [c|]; [|by apply plays_ret].
  unfold applySourceEventToBackupJob, applySourceEventToRestoreJob.
  destruct (shouldPersistSourceEvent c); cbn [negb]; repeat case_decide; try by apply plays_ret.
  - apply retry_plays; [done| |done]. intros o. apply source_event_meta.
  - apply retry_plays; [done| |done]. intros o. apply restore_event_meta.
Qed.

Lemma applied_other_kind now k key f s : k ≠ KBackupJob → st_jobs (applied now k key f s) = st_jobs s.
Proof.
  intros Hk. unfold applied. destruct (stored_get _ _ _); [|done]. destruct (f _ _).2; [|done]. by destruct k.
Qed.

(** A handler of runs changes the run it is for, and leaves every other as it is. *)
Lemma applied_job now key f s ref : well_named s →
  (∀ run, bj_Meta (f now run).1 = bj_Meta run) → (∀ run, ref_of (bj_Meta run) ≠ key → f now run = (run, false)) →
  st_jobs (applied now KBackupJob key f s) !! ref = (λ run, if_changed run (f now run)) <$> st_jobs s !! ref.
Proof.
  intros Hs Hm Hother. unfold applied, if_changed. change (stored_get KBackupJob s key) with (st_jobs s !! key).
  assert (∀ run, st_jobs s !! ref = Some run → ref ≠ key → f now run = (run, false)) as Hne.
  { intros run Hr Hk. apply Hother. pose proof (Hs KBackupJob ref run Hr) as Hn. cbn in Hn. by rewrite Hn. }
  destruct (decide (ref = key)) as [->|Hk].
  - destruct (st_jobs s !! key) as [run|] eqn:Hr; cbn; [|by rewrite Hr].
    destruct (f now run).2; [|done]. pose proof (Hs KBackupJob key run Hr) as Hn. cbn in Hn |- *.
    by rewrite Hm, Hn, lookup_insert_eq.
  - destruct (st_jobs s !! key) as [run|] eqn:Hr.
    + pose proof (Hs KBackupJob key run Hr) as Hn. cbn in Hn.
      trans (st_jobs s !! ref).
      { destruct (f now run) as [o []]eqn:Hf; cbn; [|done]. specialize (Hm run). rewrite Hf in Hm. cbn in Hm.
        by rewrite Hm, Hn, lookup_insert_ne. }
      destruct (st_jobs s !! ref) as [x|] eqn:Hx; [|done]. cbn. by rewrite (Hne x).
    + destruct (st_jobs s !! ref) as [x|] eqn:Hx; [|done]. cbn. by rewrite (Hne x).
Qed.

Lemma not_for_run run ns name kind : ref_of (bj_Meta run) ≠ MkNamespacedName ns name →
  for_this_run run ns name kind = false.
Proof.
  intros Hn. apply bool_decide_eq_false. intros (-> & -> & _). by apply Hn.
Qed.

Lemma after_apply_job now s e ref : well_named s →
  st_jobs (after_apply now s e) !! ref = (λ run, job_step now run e) <$> st_jobs s !! ref.
Proof.
  intros Hs. unfold after_apply, job_step, after_target_run.
  assert (∀ o : option BackupJob, o = (λ run, run) <$> o) as Hid by (by intros []).
  destruct (decide (ce_Kind e = EventKindTarget)).
  { destruct (ce_Target e) as [t|]; [|apply Hid]. rewrite applied_other_kind by done. case_decide as Hk.
    - destruct (st_jobs s !! ref) as [run|]; [|done]. cbn. unfold if_changed, ApplyTargetEventToBackupJob, for_this_run.
      by rewrite bool_decide_false by tauto.
    - apply applied_job; [done|intros; apply target_event_meta|]. intros run Hn.
      unfold ApplyTargetEventToBackupJob. by rewrite not_for_run. }
  destruct (decide (ce_Kind e = EventKindTargetCommandAck)).
  { destruct (ce_CommandAck e) as [a|]; [|apply Hid]. case_decide as Hk.
    - destruct (st_jobs s !! ref) as [run|]; [|done]. cbn.
      unfold if_changed, ApplyTargetCommandAckToBackupJob, for_this_run. by rewrite bool_decide_false by tauto.
    - apply applied_job; [done|intros; apply command_ack_meta|]. intros run Hn.
      unfold ApplyTargetCommandAckToBackupJob. by rewrite not_for_run. }
  case_decide; [|apply Hid]. destruct (ce_Source e) as [c|]; [|apply Hid].
  destruct (shouldPersistSourceEvent c); cbn [negb]; [|apply Hid]. case_decide as Hk.
  - apply applied_job; [done|intros; apply source_event_meta|]. intros run Hn.
    unfold ApplySourceEventToBackupJob. by rewrite not_for_run.
  - assert (st_jobs (if decide (se_RunKind c = RunKindRestore) then
        applied now KRestoreJob (MkNamespacedName (se_RunNamespace c) (se_RunName c))
          (λ now run, ApplySourceEventToRestoreJob now run c) s else s) = st_jobs s) as ->.
    { case_decide; [by apply applied_other_kind|done]. }
    destruct (st_jobs s !! ref) as [run|]; [|done]. cbn.
    unfold if_changed, ApplySourceEventToBackupJob, for_this_run. by rewrite bool_decide_false by tauto.
Qed.

Lemma for_each_plays `{!ConflictRetry} s0 now h s events : well_named s → state_of s0 h = s →
  plays s0 now h (io_for_each ControlEventApplier_apply events) (Ok tt)
    (fold_left (after_apply now) events s).
Proof.
  revert h s. induction events as [|e events IH]; intros h s Hs Hh; [by apply plays_ret|].
  cbn [io_for_each fold_left]. eapply plays_bind; [by apply apply_plays|].
  intros h' Hh'. apply IH; [by apply well_named_after|done].
Qed.

(** C18: when nobody else writes, the statuses follow the hub.  With an API server that holds the objects, the
    applier ends without an error once its subscription ends, and the status of each
    run is what the handlers make of it, event by event in the order in which the hub sent them: events of
    other runs, and of machines and restores, do not touch it, and none of its own is lost or applied
    twice. *)
Theorem applier_follows `{!ConflictRetry} s0 now events ref run :
  well_named s0 → st_jobs s0 !! ref = Some run →
  let r := exec (memory s0 now) (ControlEventApplier_Start true true (Ok events)) [] in
  r.2 = Ok tt ∧ st_jobs (state_of s0 (rev r.1)) !! ref = Some (fold_left (job_step now) events run).
Proof.
  intros Hs Hr r. destruct (for_each_plays s0 now [] s0 events Hs eq_refl) as [Hok Hst].
  rewrite app_nil_r in Hst. subst r.
  assert (ControlEventApplier_Start true true (Ok events) = io_for_each ControlEventApplier_apply events)
    as -> by done.
  split; [exact Hok|]. rewrite Hst. clear Hok Hst. revert s0 run Hs Hr.
  induction events as [|e events IH]; intros s0 run Hs Hr; [done|].
  cbn [fold_left]. apply IH; [by apply well_named_after|]. by rewrite after_apply_job, Hr.
Qed.

(** ** A report of a target and one of a sender *)

Definition nightly_events : list ControlEvent :=
  [target_event ((inhabitant : TargetEvent) <| te_RunNamespace := "backup" |> <| te_RunName := "nightly" |>
     <| te_RunKind := RunKindBackup |> <| te_TargetNamespace := "backup" |> <| te_TargetName := "nas" |>
     <| te_Phase := "Ready" |>);
   source_event ((inhabitant : SourceEvent) <| se_RunNamespace := "backup" |> <| se_RunName := "nightly" |>
     <| se_RunKind := RunKindBackup |> <| se_SourceNamespace := "media" |> <| se_SourceName := "photos" |>
     <| se_Phase := "Succeeded" |>)].

Definition nightly_stored : stored :=
  MkStored {[nightly_ref := nightly RunPhasePreparing]} ∅ {[machine_ref nas := nas]}.

Lemma applier_writes_witness :
  ∃ h o, issues (ControlEventApplier_Start true true (Ok nightly_events)) h (UpdateStatus KBackupJob o) ∧
    phase_of o = RunPhaseRunning ∧
    ∃ e key handler now o' h', e ∈ nightly_events ∧ changes e KBackupJob key handler ∧
      h = Ev Now now :: Ev (Get KBackupJob key) (Ok o') :: h' ∧ handler now o' = (o, true).
Proof.
  set (p := ControlEventApplier_Start true true (Ok nightly_events)).
  assert (∃ o, (exec (memory nightly_stored noon) p []).1 !! 2%nat = Some (Ev (UpdateStatus KBackupJob o) (Ok o))
    ∧ phase_of o = RunPhaseRunning) as (o & Ho & Hp) by (eexists; split; vm_compute; reflexivity).
  apply exec_issues in Ho. eexists _, o. split; [exact Ho|]. split; [exact Hp|].
  by apply (applier_writes true true nightly_events).
Defined.

Lemma applier_follows_witness :
  let r := exec (memory nightly_stored noon) (ControlEventApplier_Start true true (Ok nightly_events)) [] in
  r.2 = Ok tt ∧
  phase_of <$> st_jobs (state_of nightly_stored (rev r.1)) !! nightly_ref = Some RunPhaseRunning.
Proof.
  assert (well_named nightly_stored) as Hn.
  { intros k key o Ho. destruct k; try discriminate Ho; cbn in Ho; 
      by apply lookup_singleton_Some in Ho as [<- <-]. }
  destruct (applier_follows nightly_stored noon nightly_events nightly_ref _ Hn (lookup_singleton_eq _ _))
    as [Hok Hrun].
  split; [exact Hok|]. rewrite Hrun. by vm_compute.
Defined.
