(* ===== verification/Rsync.v ===== *)
(** * Running rsync (internal/dataplane/rsync.go and logging.go)

    The command line of rsync, what is read out of its output while it runs and when it has
    ended, and the quoting of a command line for a log.  The process itself is an input: the
    chunks it writes to its two streams, and how it ends.  The regular expressions of the source
    are matchers by byte class; each is unambiguous, because the classes that follow one another are disjoint.
    A float64 is a [spec_float] with 53 digits of precision. *)
From S2P Require Export Text.
From Stdlib Require Export SpecFloat.
From stdpp Require Import options.
From Stdlib Require Import Ascii.

(** ** Options and arguments *)

Record dp_RsyncOptions := MkDpRsyncOptions {
  dro_Source : string;
  dro_Destination : string;
  dro_Delete : bool;
  dro_OneFileSystem : bool;
  dro_DryRun : bool
}.

Definition rsyncArgs (opts : dp_RsyncOptions) : list string :=
  ["-a"; "--info=progress2"; "--stats"; "--numeric-ids"] ++
  (if dro_Delete opts then ["--delete"] else []) ++
  (if dro_OneFileSystem opts then ["--one-file-system"] else []).

(** [slash] *)
Definition with_slash (path : string) : string :=
  if decide (path = "" ∨ HasSuffix path "/" = true) then path else path +:+ "/".

(** ** Quoting for a shell (logging.go) *)

Definition shell_safe (c : ascii) : bool :=
  byte_in 65 90 c || byte_in 97 122 c || is_digit c || ContainsByte "@%_+=:,./-" c.

Definition quote_mark : ascii := "'"%char.
Definition backslash_mark : ascii := ascii_of_nat 92.

Definition escaped_quote : string :=
  String quote_mark (String backslash_mark (String quote_mark (String quote_mark ""))).

Definition shellQuote (value : string) : string :=
  if decide (value = "") then String quote_mark (String quote_mark "")
  else if all_bytes shell_safe value then value
  else String quote_mark (ReplaceByte value quote_mark escaped_quote +:+ String quote_mark "").

Definition shellCommand (name : string) (args : list string) : string :=
  strings_Join (shellQuote name :: (shellQuote <$> args)) " ".

(** ** Numbers *)

(** [strconv.ParseFloat] of a text of digits and points, the only texts it is called with: the nearest float,
    or nothing for a text without a digit or with two points. *)
Definition float_prec : Z := 53.
Definition float_emax : Z := 1024.
Definition float_zero : spec_float := S754_zero false.

Definition decimal_float (m k : Z) : spec_float :=
  if decide (m = 0) then float_zero
  else
    let '(q, e, l) := SFdiv_core_binary float_prec float_emax m 0 (10 ^ k) 0 in
    binary_round_aux float_prec float_emax false q e l.

Definition ParseFloat (s : string) : option spec_float :=
  let '(before, after) := match Cut s "."%char with Some (a, b) => (a, b) | None => (s, "") end in
  m ← parse_digits (before +:+ after);
  Some (decimal_float m (Z.of_nat (String.length after))).

(** The value that is left when the error of [ParseFloat] is dropped. *)
Definition float_of (s : string) : spec_float := default float_zero (ParseFloat s).

(** [uint64(f)].  Out of the range of uint64 the language leaves the value to the implementation. *)
Class FloatConversion := {
  out_of_range : spec_float → Z;
  out_of_range_uint64 f : 0 ≤ out_of_range f ≤ max_uint64
}.

Section Rsync.
Context `{!FloatConversion}.

Definition float_uint64 (f : spec_float) : Z :=
  match f with
  | S754_zero _ => 0
  | S754_finite s m e =>
      let n := if decide (0 ≤ e) then Zpos m * 2 ^ e else Zpos m `div` 2 ^ (- e) in
      if decide (n = 0) then 0
      else if decide (s = false ∧ n ≤ max_uint64) then n
      else out_of_range f
  | _ => out_of_range f
  end.

Definition re_space (c : ascii) : bool := bool_decide (nat_of_ascii c ∈ [9; 10; 12; 13; 32]%nat).
Definition count_byte (c : ascii) : bool := is_digit c || bool_decide (c = ","%char) || bool_decide (c = "."%char).
Definition unit_byte (c : ascii) : bool := ContainsByte "KMGTPE" c.

Definition remove_byte (c : ascii) (s : string) : string := ReplaceByte s c "".

(** [leadingNumberPattern]: a digit, then digits, commas and points, after white space. *)
Definition leading_number (value : string) : option string :=
  let s := (span_bytes re_space value).2 in
  match s with
  | String c _ => if is_digit c then Some (span_bytes count_byte s).1 else None
  | EmptyString => None
  end.

(** [strconv.ParseUint(s, 10, 64)] with its error dropped, for a text of digits: too large a number is
    the largest one. *)
Definition uint_of (s : string) : Z :=
  match parse_digits s with Some n => Z.min n max_uint64 | None => 0 end.

Definition parseLeadingUint (value : string) : Z :=
  match leading_number value with
  | None => 0
  | Some number =>
      let clean := remove_byte ","%char number in
      if decide (clean = "") then 0
      else if ContainsByte clean "."%char then float_uint64 (float_of clean)
      else uint_of clean
  end.

Definition two_to (n : Z) : spec_float := binary_normalize float_prec float_emax (2 ^ n) 0 false.

(** The multiplier of a unit, 1024 for KB and so on. *)
Definition unit_multiplier (unit : string) : spec_float :=
  let u := ToUpper unit in
  if decide (u = "KB") then two_to 10 else if decide (u = "MB") then two_to 20
  else if decide (u = "GB") then two_to 30 else if decide (u = "TB") then two_to 40
  else if decide (u = "PB") then two_to 50 else if decide (u = "EB") then two_to 60
  else two_to 0.

Definition parseRate (value unit : string) : Z :=
  float_uint64 (SFmul float_prec float_emax (float_of (remove_byte ","%char value)) (unit_multiplier unit)).

(** [parseTrailingFloat]: the digits and points after the last space. *)
Definition number_field (s : string) : string :=
  String.string_of_list_ascii (filter (λ c, is_digit c || bool_decide (c = "."%char) = true) (String.list_ascii_of_string s)).

Definition parseTrailingFloat (line : string) : spec_float :=
  match CutLast line " "%char with
  | None => float_zero
  | Some (_, word) => float_of (number_field word)
  end.

(** ** The statistics of a transfer *)

Record TransferStats := MkTransferStats {
  ts_Percent : Z;
  ts_BytesTransferred : Z;
  ts_RateBytesPerSecond : Z;
  ts_FilesTransferred : Z;
  ts_TotalFiles : Z;
  ts_TotalFileSize : Z;
  ts_BytesSent : Z;
  ts_BytesReceived : Z;
  ts_Speedup : spec_float;
  ts_Summary : bool
}.

#[export] Instance TransferStats_eta : Eta TransferStats := λ r,
  MkTransferStats (ts_Percent r) (ts_BytesTransferred r) (ts_RateBytesPerSecond r) (ts_FilesTransferred r)
    (ts_TotalFiles r) (ts_TotalFileSize r) (ts_BytesSent r) (ts_BytesReceived r) (ts_Speedup r) (ts_Summary r).

Definition no_stats : TransferStats := MkTransferStats 0 0 0 0 0 0 0 0 float_zero false.

(** [rsyncProgressPattern]: a count, white space, up to three digits and a percent sign, white space, a rate and
    its unit.  The four groups. *)
Definition progress_groups (line : string) : option (string * string * string * string) :=
  let '(_, s) := span_bytes re_space line in
  let '(count, s) := span_bytes count_byte s in
  let '(gap, s) := span_bytes re_space s in
  let '(percent, s) := span_bytes is_digit s in
  if decide (count = "" ∨ gap = "" ∨ percent = "" ∨ (3 < String.length percent)%nat) then None
  else
    match s with
    | String "%" s =>
        let '(gap, s) := span_bytes re_space s in
        let '(rate, s) := span_bytes count_byte s in
        if decide (gap = "" ∨ rate = "") then None
        else
          let '(prefix, s) := match s with
            | String u t => if unit_byte u then (String u "", t) else ("", s)
            | EmptyString => ("", s)
            end in
          if HasPrefix s "B/s" then Some (count, percent, rate, prefix +:+ "B") else None
    | _ => None
    end.

Definition parseRsyncProgressLine (line : string) : option TransferStats :=
  '(count, percent, rate, unit) ← progress_groups line;
  Some (no_stats <| ts_Percent := uint_of percent |> <| ts_BytesTransferred := parseLeadingUint count |>
                 <| ts_RateBytesPerSecond := parseRate rate unit |>).

(** [strings.Cut] at a text. *)
Fixpoint CutText (s sep : string) : option (string * string) :=
  if HasPrefix s sep then Some ("", drop_str (String.length sep) s)
  else
    match s with
    | EmptyString => None
    | String c t => '(a, b) ← CutText t sep; Some (String c a, b)
    end.

Definition parseRsyncSummaryRate (line : string) : option Z :=
  '(before, _) ← CutText line " bytes/sec";
  field ← last (Fields before);
  Some (parseLeadingUint field).

Definition parseRsyncSentReceived (line : string) : option (Z * Z) :=
  match Fields line with
  | f0 :: f1 :: f2 :: f3 :: f4 :: f5 :: _ =>
      if decide (f0 ≠ "sent" ∨ f2 ≠ "bytes" ∨ f3 ≠ "received" ∨ f5 ≠ "bytes") then None
      else Some (parseLeadingUint f1, parseLeadingUint f4)
  | _ => None
  end.

(** The lines a [bufio.Scanner] gives: it stops at a line that does not fit its buffer, and a last
    line that is empty is none. *)
Definition scan_limit : Z := 64 * 1024.
Definition line_feed : ascii := ascii_of_nat 10.
Definition carriage_return : ascii := ascii_of_nat 13.

Fixpoint scan_lines (pieces : list string) : list string :=
  match pieces with
  | [] => []
  | [last] => if decide (last = "" ∨ scan_limit ≤ Z.of_nat (String.length last)) then [] else [last]
  | line :: rest => if decide (scan_limit ≤ Z.of_nat (String.length line)) then [] else line :: scan_lines rest
  end.

(** One line of the loop of [ParseRsyncStats]. *)
Definition summary_field (stats : TransferStats) (line label : string)
    (store : Z → TransferStats → TransferStats) : option TransferStats :=
  if HasPrefix line label
  then Some (store (parseLeadingUint (TrimPrefix line label)) (stats <| ts_Summary := true |>)) else None.

Definition with_rate (stats : TransferStats) (line : string) : TransferStats :=
  match parseRsyncSummaryRate line with
  | Some rate => stats <| ts_Summary := true |> <| ts_RateBytesPerSecond := rate |>
  | None => stats
  end.

Definition stats_line (stats : TransferStats) (line : string) : TransferStats :=
  let line := TrimSpace line in
  match parseRsyncProgressLine line with
  | Some progress =>
      if decide (ts_Percent stats ≤ ts_Percent progress)
      then stats <| ts_Percent := ts_Percent progress |> <| ts_BytesTransferred := ts_BytesTransferred progress |>
                 <| ts_RateBytesPerSecond := ts_RateBytesPerSecond progress |>
      else stats
  | None =>
      match summary_field stats line "Number of files:" (λ n s, s <| ts_TotalFiles := n |>) with Some s => s | None =>
      match summary_field stats line "Number of regular files transferred:" (λ n s, s <| ts_FilesTransferred := n |>) with Some s => s | None =>
      match summary_field stats line "Total file size:" (λ n s, s <| ts_TotalFileSize := n |>) with Some s => s | None =>
      match summary_field stats line "Total transferred file size:" (λ n s, s <| ts_BytesTransferred := n |>) with Some s => s | None =>
      if HasPrefix line "sent " then
        with_rate
          match parseRsyncSentReceived line with
          | Some (sent, received) =>
              stats <| ts_Summary := true |> <| ts_BytesSent := sent |> <| ts_BytesReceived := received |>
          | None => stats
          end line
      else if Contains line " bytes/sec" then with_rate stats line
      else if Contains line "speedup is" then
        stats <| ts_Summary := true |> <| ts_Speedup := parseTrailingFloat line |>
      else stats
      end end end end
  end.

Definition ParseRsyncStats (output : string) : TransferStats :=
  fold_left stats_line
    (scan_lines (Split (ReplaceByte output carriage_return newline) line_feed)) no_stats.

(** ** The output while rsync runs *)

(** A [progressWriter] of the standard output, with the buffer both streams are captured in, and the statistics it
    has passed on, oldest first. *)
Record rsyncProgressWriter := MkProgressWriter {
  pw_capture : string;
  pw_buf : string;
  pw_progress : list TransferStats
}.

#[export] Instance progressWriter_eta : Eta rsyncProgressWriter := λ r,
  MkProgressWriter (pw_capture r) (pw_buf r) (pw_progress r).

(** What a line tells, when it tells anything. *)
Definition line_progress (buf : string) : option TransferStats :=
  let line := TrimSpace buf in
  if decide (line = "") then None else parseRsyncProgressLine line.

Definition flushProgress (w : rsyncProgressWriter) : rsyncProgressWriter :=
  let stats := line_progress (pw_buf w) in
  w <| pw_buf := "" |> <| pw_progress ::= λ l, l ++ option_list stats |>.

Definition write_byte (w : rsyncProgressWriter) (b : ascii) : rsyncProgressWriter :=
  if decide (b = line_feed ∨ b = carriage_return) then flushProgress w
  else w <| pw_buf ::= λ s, s +:+ String b "" |>.

(** [out] is how writing to the process's own stream ends; [progress] tells whether the writer has somebody
    to pass statistics to, which the one of the error stream has not. *)
Definition progress_Write (progress : bool) (out : result unit) (p : string) (w : rsyncProgressWriter) :
    result Z * rsyncProgressWriter :=
  match out with
  | Err e => (Err e, w)
  | Ok _ =>
      let w := w <| pw_capture ::= λ s, s +:+ p |> in
      (Ok (Z.of_nat (String.length p)),
       if progress then fold_left write_byte (String.list_ascii_of_string p) w else w)
  end.

(** How a command ends: with an error, which has an exit code when the process ended with one. *)
Record run_error := MkRunError { re_error : goerr; re_exit : option Z }.

Definition rsyncExitCode (err : option run_error) : Z :=
  match err with
  | None => 0
  | Some e => default 1 (re_exit e)
  end.

(** One write of the process: to its standard output or not, the bytes, and how passing them on ends. *)
Record rsync_write := MkRsyncWrite { rw_stdout : bool; rw_bytes : string; rw_out : result unit }.

(** [wanted] tells whether the caller wants progress. *)
Definition write_output (wanted : bool) (w : rsyncProgressWriter) (x : rsync_write) : rsyncProgressWriter :=
  (progress_Write (wanted && rw_stdout x) (rw_out x) (rw_bytes x) w).2.

(** What is copied of the writes: after a write to one of its streams has failed, the command copies no more of that
    stream. *)
Fixpoint copied (outOpen errOpen : bool) (writes : list rsync_write) : list rsync_write :=
  match writes with
  | [] => []
  | x :: writes =>
      if rw_stdout x then
        if outOpen then x :: copied (is_ok (rw_out x)) errOpen writes else copied outOpen errOpen writes
      else if errOpen then x :: copied outOpen (is_ok (rw_out x)) writes else copied outOpen errOpen writes
  end.

(** The statistics that are returned, the error, and what was passed on while the command ran and at its end. *)
Definition runRsyncCommand (wanted : bool) (writes : list rsync_write) (err : option run_error) :
    TransferStats * option run_error * list TransferStats :=
  let w := fold_left (write_output wanted) (copied true true writes) (MkProgressWriter "" "" []) in
  let stats := ParseRsyncStats (pw_capture w) in
  (stats, err, if wanted then pw_progress w ++ [stats] else []).

(** What [Rsync] does: refuse its options, print the command, or run it. *)
Inductive local_rsync :=
  | DryRun (line : string)
  | RunRsync (args : list string).

Definition dp_Rsync (opts : dp_RsyncOptions) : result local_rsync :=
  if decide (dro_Source opts = "" ∨ dro_Destination opts = "")
  then Err (ErrNew "source and destination are required")
  else
    let args := rsyncArgs opts ++ [with_slash (dro_Source opts); with_slash (dro_Destination opts)] in
    if dro_DryRun opts then Ok (DryRun (shellCommand "rsync" args +:+ newline)) else Ok (RunRsync args).
End Rsync.

(** A conversion that gives nothing out of range. *)
Lemma zero_uint64 : 0 ≤ 0 ≤ max_uint64.
Proof. done. Qed.
#[export] Instance zeroing : FloatConversion := {| out_of_range _ := 0; out_of_range_uint64 _ := zero_uint64 |}.

(** The two outputs of the source's tests. *)
Definition sample_output : string :=
  strings_Join
    [String carriage_return "      1,024  50%  1.00MB/s    0:00:01 (xfr#1, to-chk=1/2)";
     String carriage_return "      2,048 100%  2.00MB/s    0:00:00 (xfr#2, to-chk=0/2)";
     "Number of files: 12 (reg: 10, dir: 2)";
     "Number of regular files transferred: 3";
     "Total file size: 4,096 bytes";
     "Total transferred file size: 2,048 bytes";
     "sent 2,200 bytes  received 100 bytes  4,600.00 bytes/sec";
     "total size is 4,096  speedup is 1.78"; ""] newline.

Example sample_stats : ParseRsyncStats sample_output =
  MkTransferStats 100 2048 4600 3 12 4096 2200 100 (S754_finite false 8016407336719483 (-52)) true.
Proof. by vm_compute. Qed.

Example a_rate : parseRate "1.50" "GB" = 1610612736.
Proof. by vm_compute. Qed.
