(* ===== verification/Peers.v ===== *)
(** * Who a peer is (internal/tlsutil, internal/controlgrpc, internal/manager, internal/dataplane)

    The identity in a peer's certificate: the parsing of its URI, with what it
    uses of package net/url, the checks of certificates and bundles, and what the
    control server and the data plane require of a peer.  Certificates themselves
    (crypto/x509, encoding/pem) are a parameter.  The law of the file is that an identity is read back from
    its URI, so that two runs or sources never share one. *)
From S2P Require Export Resources Text.
From stdpp Require Import options.
From Stdlib Require Import Ascii.

(** ** Package net/url *)

Definition percent : ascii := "%"%char.

Definition unhex (c : ascii) : option nat :=
  let n := nat_of_ascii c in
  if decide (48 ≤ n ≤ 57)%nat then Some (n - 48)%nat
  else if decide (97 ≤ n ≤ 102)%nat then Some (n - 87)%nat
  else if decide (65 ≤ n ≤ 70)%nat then Some (n - 55)%nat
  else None.

Definition escape_error {A} (s : string) : result A :=
  Err (ErrNew ("invalid URL escape " +:+ Quote (take_str 3 s))).

(** [unescape] of a path, a user or a fragment. *)
Fixpoint PathUnescape (s : string) : result string :=
  match s with
  | EmptyString => Ok ""
  | String c t =>
      if decide (c = percent) then
        match t with
        | String a (String b t) =>
            match unhex a, unhex b with
            | Some x, Some y => r ← PathUnescape t; Ok (String (ascii_of_nat (16 * x + y)) r)
            | _, _ => escape_error s
            end
        | _ => escape_error s
        end
      else r ← PathUnescape t; Ok (String c r)
  end.

(** The loop of [getScheme]: the scheme and the rest, when there is a scheme. *)
Fixpoint getScheme (first : bool) (s : string) : result (option (string * string)) :=
  match s with
  | EmptyString => Ok None
  | String c t =>
      let continue := r ← getScheme false t; Ok ((λ x : string * string, (String c x.1, x.2)) <$> (r : option (string * string))) in
      if is_letter c then continue
      else if is_digit c || ContainsByte "+-." c then if first then Ok None else continue
      else if decide (c = ":"%char) then
        if first then Err (ErrNew "missing protocol scheme") else Ok (Some ("", t))
      else Ok None
  end.

Definition userinfo_byte (c : ascii) : bool :=
  is_letter c || is_digit c || ContainsByte "-._:~!$&'()*+,;=%@" c.

Record URL := MkURL { u_Scheme : string; u_Host : string; u_Path : string }.

(** [parseAuthority], without the user.  A host in brackets, with a port or with an escape is kept as it is
    written: the source compares hosts with a plain name, which such a host is not. *)
Definition parseAuthority (authority : string) : result string :=
  match CutLast authority "@" with
  | None => Ok authority
  | Some (userinfo, host) =>
      if negb (all_bytes userinfo_byte userinfo) then Err (ErrNew "net/url: invalid userinfo")
      else _ ← PathUnescape userinfo; Ok host
  end.

Definition before (s : string) (c : ascii) : string :=
  match Cut s c with Some (b, _) => b | None => s end.

Definition ctl_byte (c : ascii) : bool :=
  let n := nat_of_ascii c in bool_decide (n < 32 ∨ n = 127)%nat.

(** [parse], on a text without a fragment. *)
Definition url_parse (rawURL : string) : result URL :=
  if negb (all_bytes (λ c, negb (ctl_byte c)) rawURL)
  then Err (ErrNew "net/url: invalid control character in URL")
  else if decide (rawURL = "*") then Ok (MkURL "" "" "*")
  else
    s ← getScheme true rawURL;
    let '(scheme, rest) := match s with Some (x, r) => (ascii_lower x, r) | None => ("", rawURL) end in
    let rest := before rest "?" in
    if negb (HasPrefix rest "/") && bool_decide (scheme ≠ "") then Ok (MkURL scheme "" "")
    else if negb (HasPrefix rest "/") && ContainsByte (before rest slash) ":"
    then Err (ErrNew "first path segment in URL cannot contain colon")
    else
      '(host, rest) ←
        (if HasPrefix rest "//" && (bool_decide (scheme ≠ "") || negb (HasPrefix rest "///")) then
           let rest := drop_str 2 rest in
           let authority := before rest slash in
           host ← parseAuthority authority;
           Ok (host, drop_str (String.length authority) rest)
         else Ok ("", rest));
      path ← PathUnescape rest;
      Ok (MkURL scheme host path).

Definition url_Parse (rawURL : string) : result URL :=
  map_err (wrap ("parse " +:+ Quote rawURL +:+ ": "))
    match Cut rawURL "#" with
    | None => url_parse rawURL
    | Some (u, frag) => url ← url_parse u; _ ← PathUnescape frag; Ok url
    end.

(** ** Identities *)

Definition identity_unescape (value : string) : string :=
  match PathUnescape value with Ok decoded => decoded | Err _ => value end.

Definition ParseIdentity (raw : string) : result Identity :=
  u ← url_Parse raw;
  if decide (u_Scheme u ≠ "spiffe" ∨ u_Host u ≠ "krm")
  then Err (ErrNew ("unsupported trust domain " +:+ Quote raw))
  else
    match Split (Trim (u_Path u) "/") slash with
    | [run; p1; p2; p3; p4; p5] =>
        if decide (run ≠ "run") then Err (ErrNew ("invalid identity path " +:+ Quote (u_Path u)))
        else if decide (p3 ≠ RoleSource ∧ p3 ≠ RoleTarget)
        then Err (ErrNew ("invalid identity role " +:+ Quote p3))
        else Ok (MkIdentity (identity_unescape p1) (identity_unescape p2) p3
                   (identity_unescape p4) (identity_unescape p5))
    | _ => Err (ErrNew ("invalid identity path " +:+ Quote (u_Path u)))
    end.

Example parse_source_uri :
  ParseIdentity "spiffe://krm/run/backup/nightly/source/media/photos"
  = Ok (SourceIdentity "backup" "nightly" "media" "photos").
Proof. vm_compute. reflexivity. Qed.

(** ** An identity is read back from its URI *)

(** A field of an identity that its URI carries faithfully: the names Kubernetes allows are such. *)
Definition plain_field (s : string) : Prop := ContainsByte s slash = false ∧ ContainsByte s percent = false.

Definition readable (i : Identity) : Prop :=
  plain_field (id_RunNamespace i) ∧ plain_field (id_RunName i) ∧ plain_field (id_Namespace i) ∧
  plain_field (id_Name i) ∧ id_Name i ≠ "" ∧ (id_Role i = RoleSource ∨ id_Role i = RoleTarget).

#[export] Instance readable_dec i : Decision (readable i).
Proof. unfold readable, plain_field. apply _. Defined.

Definition uri_byte (c : ascii) : bool := path_safe c || bool_decide (c = percent) || bool_decide (c = slash).

Lemma upper_hex_cases k : (k < 16)%nat → unhex (upper_hex k) = Some k ∧ path_safe (upper_hex k) = true.
Proof. intros Hk. do 16 (destruct k as [|k]; [by vm_compute|]). lia. Qed.

Lemma byte_halves c : (nat_of_ascii c / 16 < 16)%nat ∧ (nat_of_ascii c `mod` 16 < 16)%nat.
Proof.
  split; [|by apply Nat.mod_upper_bound]. apply Nat.Div0.div_lt_upper_bound. apply nat_ascii_bounded.
Qed.

Lemma PathEscape_cons c s : PathEscape (String c s) =
  if path_safe c then String c (PathEscape s)
  else String percent (String (upper_hex (nat_of_ascii c / 16))
         (String (upper_hex (nat_of_ascii c `mod` 16)) (PathEscape s))).
Proof. done. Qed.

Lemma PathEscape_bytes s : all_bytes uri_byte (PathEscape s) = true.
Proof.
  induction s as [|c s IH]; [done|]. rewrite PathEscape_cons.
  destruct (path_safe c) eqn:Hc; cbn [all_bytes]; rewrite IH.
  - unfold uri_byte. by rewrite Hc.
  - destruct (byte_halves c) as [H1 H2]. unfold uri_byte.
    by rewrite (proj2 (upper_hex_cases _ H1)), (proj2 (upper_hex_cases _ H2)).
Qed.

Lemma PathUnescape_escaped s t :
  PathUnescape (PathEscape s +:+ t) = (r ← PathUnescape t; Ok (s +:+ r)).
Proof.
  induction s as [|c s IH]; [by change (PathEscape "" +:+ t) with t; destruct (PathUnescape t)|].
  rewrite PathEscape_cons. destruct (path_safe c) eqn:Hc; rewrite ?str_app_cons; cbn [PathUnescape].
  - rewrite decide_False by (intros ->; by vm_compute in Hc). rewrite IH. by destruct (PathUnescape t).
  - rewrite decide_True by done. destruct (byte_halves c) as [H1 H2].
    rewrite (proj1 (upper_hex_cases _ H1)), (proj1 (upper_hex_cases _ H2)), IH.
    pose proof (Nat.div_mod_eq (nat_of_ascii c) 16) as Hd.
    destruct (PathUnescape t); [|done]. cbn -[Nat.div Nat.modulo Nat.mul]. rewrite <-Hd, ascii_nat_embedding. done.
Qed.

Lemma PathUnescape_plain s t : ContainsByte s percent = false →
  PathUnescape (s +:+ t) = (r ← PathUnescape t; Ok (s +:+ r)).
Proof.
  induction s as [|c s IH]; [by change ("" +:+ t) with t; destruct (PathUnescape t)|]. cbn [ContainsByte].
  rewrite orb_false_iff, bool_decide_eq_false, str_app_cons. intros [Hc Hs]. cbn [PathUnescape].
  rewrite decide_False by done. rewrite IH by done. by destruct (PathUnescape t).
Qed.

Lemma identity_unescape_plain s : ContainsByte s percent = false → identity_unescape s = s.
Proof.
  intros Hs. unfold identity_unescape. pose proof (PathUnescape_plain s "" Hs) as H.
  rewrite str_app_nil_r in H. rewrite H. cbn. by rewrite str_app_nil_r.
Qed.

(** [strings.Trim] of a rooted path whose last segment is not empty. *)
Lemma Trim_rooted x a b s c : x = String a b → a ≠ slash → x = s +:+ String c "" → c ≠ slash →
  Trim ("/" +:+ x) "/" = x.
Proof.
  intros Hx Ha Hs Hc.
  assert (∀ u v, chars u = chars v → u = v) as chars_inj.
  { intros u v Huv. rewrite <-(String.string_of_list_ascii_of_string u), <-(String.string_of_list_ascii_of_string v).
    by f_equal. }
  apply chars_inj. change "/" with (String slash "") at 2. rewrite chars_Trim.
  change (chars ("/" +:+ x)) with (slash :: chars x).
  assert (skip slash (slash :: chars x) = chars x) as ->.
  { cbn [skip]. rewrite decide_True by done. subst x. cbn. by rewrite decide_False. }
  rewrite Hs, chars_app. change (chars (String c "")) with [c]. rewrite reverse_app, reverse_singleton.
  cbn [app skip]. rewrite decide_False by done. by rewrite reverse_cons, reverse_involutive.
Qed.

Lemma last_char s : s ≠ "" → ∃ b c, s = b +:+ String c "".
Proof.
  induction s as [|a s IH]; [done|]. intros _. destruct (decide (s = "")) as [->|Hs]; [by exists "", a|].
  destruct (IH Hs) as (b & c & ->). by exists (String a b), c.
Qed.

(** The path of an identity, as its URI spells it and as it is read. *)
Definition identity_path (f : string → string) (i : Identity) : string :=
  "/run/" +:+ f (id_RunNamespace i) +:+ "/" +:+ f (id_RunName i) +:+ "/" +:+ id_Role i +:+ "/" +:+
  f (id_Namespace i) +:+ "/" +:+ f (id_Name i).

Lemma PathUnescape_path i : id_Role i = RoleSource ∨ id_Role i = RoleTarget →
  PathUnescape (identity_path PathEscape i) = Ok (identity_path id i).
Proof.
  intros Hrole. unfold identity_path.
  assert (∀ s t, PathUnescape ("/" +:+ PathEscape s +:+ t) = (r ← PathUnescape t; Ok ("/" +:+ s +:+ r))) as Hseg.
  { intros s t. rewrite PathUnescape_plain by done. rewrite PathUnescape_escaped. by destruct (PathUnescape t). }
  assert (∀ s, PathUnescape (PathEscape s) = Ok s) as Hend.
  { intros s. rewrite <-(str_app_nil_r (PathEscape s)), PathUnescape_escaped. cbn. by rewrite str_app_nil_r. }
  rewrite PathUnescape_plain, PathUnescape_escaped, Hseg by done.
  assert (ContainsByte ("/" +:+ id_Role i +:+ "/") percent = false) as Hr by (by destruct Hrole as [-> | ->]).
  replace ("/" +:+ id_Role i +:+ "/" +:+ PathEscape (id_Namespace i) +:+ "/" +:+ PathEscape (id_Name i))
    with (("/" +:+ id_Role i +:+ "/") +:+ PathEscape (id_Namespace i) +:+ "/" +:+ PathEscape (id_Name i))
    by (by rewrite !str_app_assoc).
  rewrite PathUnescape_plain, PathUnescape_escaped, PathUnescape_plain, Hend by done.
  cbn [mbind result_bind]. by rewrite !str_app_assoc.
Qed.

Lemma identity_path_bytes i : id_Role i = RoleSource ∨ id_Role i = RoleTarget →
  all_bytes uri_byte (identity_path PathEscape i) = true.
Proof.
  intros Hrole. unfold identity_path. rewrite !all_bytes_app, !PathEscape_bytes.
  by destruct Hrole as [-> | ->].
Qed.

Lemma uri_byte_not_ctl c : uri_byte c = true → negb (ctl_byte c) = true.
Proof.
  destruct c as [[] [] [] [] [] [] [] []]; vm_compute; congruence.
Qed.

Lemma before_none s c : ContainsByte s c = false → before s c = s.
Proof.
  intros Hs. unfold before. destruct (Cut s c) as [[a b]|] eqn:Hc; [|done].
  apply Cut_spec in Hc as [-> _]. rewrite ContainsByte_app in Hs. cbn in Hs.
  rewrite bool_decide_true in Hs by done. by rewrite orb_true_r in Hs.
Qed.

Lemma before_app a b c : ContainsByte a c = false → before (a +:+ String c b) c = a.
Proof. intros. unfold before. by rewrite Cut_app. Qed.

Lemma url_Parse_URI i : id_Role i = RoleSource ∨ id_Role i = RoleTarget →
  url_Parse (URI i) = Ok (MkURL "spiffe" "krm" (identity_path id i)).
Proof.
  intros Hrole. change (URI i) with ("spiffe://krm" +:+ identity_path PathEscape i).
  pose proof (identity_path_bytes i Hrole) as Hb.
  pose proof (PathUnescape_path i Hrole) as Hp.
  assert (∃ q, identity_path PathEscape i = String slash q) as [q Hq] by by eexists.
  set (p := identity_path PathEscape i) in *. clearbody p.
  assert (all_bytes (λ c, negb (ctl_byte c)) ("spiffe://krm" +:+ p) = true) as Hctl.
  { rewrite all_bytes_app. apply andb_true_iff. split; [by vm_compute|].
    eapply all_bytes_mono; [exact uri_byte_not_ctl|done]. }
  assert (∀ c, uri_byte c = false → ContainsByte p c = false) as Hno by (intros c; by apply all_bytes_Contains).
  assert (Cut ("spiffe://krm" +:+ p) "#" = None) as Hcut.
  { destruct (Cut _ _) as [[a b]|] eqn:Hc; [|done]. apply Cut_spec in Hc as [Hc _].
    assert (ContainsByte ("spiffe://krm" +:+ p) "#" = false) as Hf.
    { rewrite ContainsByte_app, Hno by (by vm_compute). by vm_compute. }
    rewrite Hc, ContainsByte_app in Hf. cbn in Hf. by rewrite orb_true_r in Hf. }
  unfold url_Parse. rewrite Hcut. unfold url_parse. rewrite Hctl. cbn [negb]. rewrite decide_False by done.
  change (getScheme true ("spiffe://krm" +:+ p)) with (@Ok (option (string * string)) (Some ("spiffe", "//krm" +:+ p))).
  cbn [mbind result_bind]. change (ascii_lower "spiffe") with "spiffe".
  rewrite (before_none ("//krm" +:+ p)).
  2: { rewrite ContainsByte_app, Hno by (by vm_compute). by vm_compute. }
  change (HasPrefix ("//krm" +:+ p) "/") with true.
  change (HasPrefix ("//krm" +:+ p) "//") with true.
  rewrite bool_decide_true by done. cbn [negb andb orb].
  change (drop_str 2 ("//krm" +:+ p)) with ("krm" +:+ p).
  assert (before ("krm" +:+ p) slash = "krm") as -> by (rewrite Hq; by apply before_app).
  change (parseAuthority "krm") with (@Ok string "krm"). cbn [mbind result_bind].
  change (drop_str (String.length "krm") ("krm" +:+ p)) with p. rewrite Hp. done.
Qed.

(** C34: an identity is read back from its URI.  The URI that a certificate is minted with is parsed, by the control
    server and by the data plane, into the identity it was made of, for all names without a slash and a
    percent sign, which are all that Kubernetes allows; so identities of two runs, sources or
    targets have different URIs. *)
Theorem identity_roundtrip i : readable i → ParseIdentity (URI i) = Ok i.
Proof.
  intros ([Hs1 Hp1] & [Hs2 Hp2] & [Hs4 Hp4] & [Hs5 Hp5] & Hne & Hrole).
  unfold ParseIdentity. rewrite url_Parse_URI by done. cbn [mbind result_bind u_Scheme u_Host u_Path].
  rewrite decide_False by naive_solver.
  assert (Trim (identity_path id i) "/" =
    strings_Join ["run"; id_RunNamespace i; id_RunName i; id_Role i; id_Namespace i; id_Name i] "/") as ->.
  { destruct (last_char (id_Name i) Hne) as (b & c & Hn).
    assert (c ≠ slash) as Hc.
    { intros ->. rewrite Hn, ContainsByte_app in Hs5. cbn in Hs5. by rewrite orb_true_r in Hs5. }
    eapply (Trim_rooted _ "r" _ ("run/" +:+ id_RunNamespace i +:+ "/" +:+ id_RunName i +:+ "/" +:+ id_Role i +:+ "/" +:+
      id_Namespace i +:+ "/" +:+ b)); [done|done| |exact Hc].
    cbn [strings_Join]. rewrite Hn. by rewrite !str_app_assoc. }
  rewrite Split_Join.
  - rewrite decide_False by naive_solver. rewrite decide_False by (destruct Hrole as [-> | ->]; naive_solver).
    rewrite !identity_unescape_plain by done. by destruct i.
  - done.
  - repeat constructor; try done. by destruct Hrole as [-> | ->].
Qed.

Lemma identity_roundtrip_witness :
  readable (TargetIdentity "backup" "nightly" "backup" "nas") ∧
  ParseIdentity (URI (TargetIdentity "backup" "nightly" "backup" "nas"))
  = Ok (TargetIdentity "backup" "nightly" "backup" "nas").
Proof. split; [|apply identity_roundtrip]; apply (bool_decide_unpack _); by vm_compute. Defined.

(** A name with a percent sign is not: it is decoded once with the path and once more by itself. *)
Example percent_decoded_twice :
  ParseIdentity (URI (SourceIdentity "backup" "x%41" "media" "photos"))
  = Ok (SourceIdentity "backup" "xA" "media" "photos").
Proof. vm_compute. reflexivity. Qed.

(** ** Certificates *)

(** What is used of crypto/x509, crypto/tls and encoding/pem: the type and the bytes of the first PEM block
    of a text, a parsed certificate with the URIs it names, the certificates of a PEM bundle, whether a
    chain leads to one of the roots at a time for a usage, and whether a key belongs to a certificate. *)
Class X509 := {
  Certificate : Set;
  pem_Decode : string → option (string * string);
  ParseCertificate : string → result Certificate;
  cert_URIs : Certificate → list string;
  CertsFromPEM : string → list Certificate;
  Verify : Certificate → list Certificate → list Certificate → Time → string → string → result unit;
  X509KeyPair : string → string → result unit
}.

Definition ExtKeyUsageAny : string := "any".
Definition ExtKeyUsageClientAuth : string := "client auth".
Definition ExtKeyUsageServerAuth : string := "server auth".

Definition zero_identity : Identity := MkIdentity "" "" "" "" "".

Section Certificates.
Context `{!X509}.

(** The first URI that is an identity. *)
Definition first_identity (uris : list string) : option Identity :=
  head (omap (λ u, result_to_option (ParseIdentity u)) uris).

Definition has_identity (uris : list string) (expected : Identity) : bool :=
  existsb (λ u, bool_decide (ParseIdentity u = Ok expected)) uris.

Definition parseCertificate (data : string) : result Certificate :=
  match pem_Decode data with
  | Some (ty, bytes) =>
      if decide (ty = "CERTIFICATE") then ParseCertificate bytes
      else Err (ErrNew "certificate PEM block is required")
  | None => Err (ErrNew "certificate PEM block is required")
  end.

(** [now] stands for the clock when no time is given. *)
Definition tls_VerifyIdentity (bundle : Bundle) (expected : Identity) (now : Time) : result unit :=
  cert ← parseCertificate (b_CertPEM bundle);
  caCert ← parseCertificate (b_CACertPEM bundle);
  _ ← Verify cert [caCert] [] now "" ExtKeyUsageClientAuth;
  if has_identity (cert_URIs cert) expected then Ok tt
  else Err (ErrNew ("certificate does not contain expected identity " +:+ URI expected)).

Definition tls_BundleIdentity (bundle : Bundle) : result Identity :=
  cert ← parseCertificate (b_CertPEM bundle);
  match first_identity (cert_URIs cert) with
  | Some identity => Ok identity
  | None => Err (ErrNew "certificate does not contain a kube-rsync-machine identity")
  end.

(** The checks the controllers make of the Secrets they find. *)
#[export] Instance x509_checks : TLSChecks := {|
  BundleIdentity := tls_BundleIdentity;
  VerifyIdentity := tls_VerifyIdentity
|}.

(** The peer's certificate with the chain it sends, parsed. *)
Definition parse_chain (rawCerts : list string) : result (Certificate * list Certificate) :=
  match rawCerts with
  | [] => Err (ErrNew "peer certificate is required")
  | raw :: rest =>
      peer ← ParseCertificate raw;
      intermediates ← map_result ParseCertificate rest;
      Ok (peer, intermediates)
  end.

Definition verifyPeer (now : Time) (rawCerts : list string) (roots : list Certificate)
    (expected : Identity) (usage : string) : result unit :=
  '(peer, intermediates) ← parse_chain rawCerts;
  _ ← Verify peer roots intermediates now "" usage;
  if decide (expected = zero_identity) then Ok tt
  else if has_identity (cert_URIs peer) expected then Ok tt
  else Err (ErrNew ("peer certificate does not contain expected identity " +:+ URI expected)).

Definition VerifyClientCertificateWithCA (now : Time) (rawCerts : list string) (caPEM : string)
    (expected : Identity) : result unit :=
  let roots := CertsFromPEM caPEM in
  if decide (length roots = 0)%nat then Err (ErrNew "client CA bundle does not contain a certificate")
  else verifyPeer now rawCerts roots expected ExtKeyUsageClientAuth.

Definition identityFromRawCertificate (rawCerts : list string) : result Identity :=
  match rawCerts with
  | [] => Err (ErrNew "client certificate is required")
  | raw :: _ =>
      cert ← ParseCertificate raw;
      match first_identity (cert_URIs cert) with
      | Some identity => Ok identity
      | None => Err (ErrNew "client certificate does not contain a kube-rsync-machine identity")
      end
  end.

Definition NewRunClientCertificateVerifier (controlCAPEM : string) (now : Time) (rawCerts : list string) :
    result unit :=
  identity ← identityFromRawCertificate rawCerts;
  VerifyClientCertificateWithCA now rawCerts controlCAPEM identity.

(** [TLSConfig]: the roots it trusts and the peer it expects. *)
Record tls_Config := MkTlsConfig {
  tc_Roots : list Certificate;
  tc_Expected : option Identity;
  tc_ServerName : string
}.

Definition TLSConfig (bundle : Bundle) (expectedPeer : Identity) (serverName : string) : result tls_Config :=
  _ ← map_err (wrap "load key pair: ") (X509KeyPair (b_CertPEM bundle) (b_KeyPEM bundle));
  let roots := CertsFromPEM (b_CACertPEM bundle) in
  if decide (length roots = 0)%nat then Err (ErrNew "ca.crt does not contain a certificate")
  else Ok (MkTlsConfig roots (if decide (expectedPeer = zero_identity) then None else Some expectedPeer) serverName).

(** Its [VerifyPeerCertificate], when it expects a peer. *)
Definition VerifyPeerCertificate (config : tls_Config) (now : Time) (rawCerts : list string) : result unit :=
  match tc_Expected config with
  | None => Ok tt
  | Some expected =>
      '(peer, intermediates) ← parse_chain rawCerts;
      _ ← Verify peer (tc_Roots config) intermediates now (tc_ServerName config) ExtKeyUsageAny;
      if has_identity (cert_URIs peer) expected then Ok tt
      else Err (ErrNew ("peer certificate does not contain expected identity " +:+ URI expected))
  end.

(** The data plane's peer: the certificates of the connection. *)
Definition peerIdentity (peerCertificates : list Certificate) : result Identity :=
  match peerCertificates with
  | [] => Err (ErrNew "peer certificate is required")
  | peer :: _ =>
      match first_identity (cert_URIs peer) with
      | Some identity => Ok identity
      | None => Err (ErrNew "peer certificate does not contain a kube-rsync-machine identity")
      end
  end.

(** The control server's peer: the certificates of the call's connection, when it has TLS. *)
Definition PeerIdentity (authInfo : option (list Certificate)) : option Identity :=
  match authInfo with
  | Some (peer :: _) => first_identity (cert_URIs peer)
  | _ => None
  end.
End Certificates.

Lemma first_identity_URI i rest : readable i → first_identity (URI i :: rest) = Some i.
Proof. intros Hi. unfold first_identity. cbn. by rewrite identity_roundtrip. Qed.

(** Certificates that are the URIs they name, which every chain verifies. *)
Definition bare_certificates : X509 := {|
  Certificate := list string;
  pem_Decode data := Some ("CERTIFICATE", data);
  ParseCertificate data := Ok [data];
  cert_URIs cert := cert;
  CertsFromPEM data := [[data]];
  Verify _ _ _ _ _ _ := Ok tt;
  X509KeyPair _ _ := Ok tt
|}.
