(* ===== verification/ControlServer.v ===== *)
(** * The control server (internal/controlgrpc/server.go)

    The four methods the targets and the sources of the runs call: each one compares
    the identity in the caller's certificate with the one its message names, and only then
    hands the message to the control service.  The gRPC streams and the encoding of messages are
    not modelled. *)
From S2P Require Export Peers CommandLog.
From stdpp Require Import options.

Definition ServiceName : string := "krm.control.v1.Control".
Definition MethodRegisterTarget : string := "/" +:+ ServiceName +:+ "/RegisterTarget".
Definition MethodReportTarget : string := "/" +:+ ServiceName +:+ "/ReportTarget".
Definition MethodAcknowledgeTargetCommand : string := "/" +:+ ServiceName +:+ "/AcknowledgeTargetCommand".
Definition MethodReportSource : string := "/" +:+ ServiceName +:+ "/ReportSource".

(** [status.Error] *)
Definition status_Error (code msg : string) : goerr := ErrNew ("rpc error: code = " +:+ code +:+ " desc = " +:+ msg).

Section ControlServer.
Context `{!X509, !NameChecks}.

Definition requirePeerIdentity (authInfo : option (list Certificate)) (expected : Identity) : result unit :=
  match PeerIdentity authInfo with
  | None => Err (status_Error "Unauthenticated" "client certificate identity is required")
  | Some identity =>
      if decide (identity ≠ expected)
      then Err (status_Error "PermissionDenied"
             ("client certificate identity " +:+ URI identity +:+ " cannot act as " +:+ URI expected))
      else Ok tt
  end.

(** [control] tells whether the server has a control service. *)
Definition service (control : bool) : result unit :=
  if control then Ok tt else Err (ErrNew "control service is required").

Definition target_of (event : TargetEvent) : Identity :=
  TargetIdentity (te_RunNamespace event) (te_RunName event) (te_TargetNamespace event) (te_TargetName event).
Definition acknowledger_of (event : TargetCommandAckEvent) : Identity :=
  TargetIdentity (ta_RunNamespace event) (ta_RunName event) (ta_TargetNamespace event) (ta_TargetName event).
Definition source_of (event : SourceEvent) : Identity :=
  SourceIdentity (se_RunNamespace event) (se_RunName event) (se_SourceNamespace event) (se_SourceName event).
Definition registrant_of (req : RegisterTargetRequest) : Identity :=
  TargetIdentity (rtr_RunNamespace req) (rtr_RunName req) (rtr_TargetNamespace req) (rtr_TargetName req).

Definition Server_RegisterTarget (control : bool) (authInfo : option (list Certificate)) (stream : nat)
    (req : RegisterTargetRequest) (s : Service) : result (list TargetCommand * Service) :=
  _ ← service control;
  _ ← requirePeerIdentity authInfo (registrant_of req);
  RegisterTarget stream true req s.

Definition Server_ReportTarget (control : bool) (authInfo : option (list Certificate)) (now : Time)
    (event : TargetEvent) (h : EventHub) : result (Z * EventHub) :=
  _ ← service control;
  _ ← requirePeerIdentity authInfo (target_of event);
  ReportTarget now event h.

Definition Server_AcknowledgeTargetCommand (control : bool) (authInfo : option (list Certificate)) (now : Time)
    (event : TargetCommandAckEvent) (h : EventHub) : result (Z * EventHub) :=
  _ ← service control;
  _ ← requirePeerIdentity authInfo (acknowledger_of event);
  AcknowledgeTargetCommand now event h.

Definition Server_ReportSource (control : bool) (authInfo : option (list Certificate)) (now : Time)
    (event : SourceEvent) (h : EventHub) : result (Z * EventHub) :=
  _ ← service control;
  _ ← requirePeerIdentity authInfo (source_of event);
  ReportSource now event h.

Definition denied {A} (i expected : Identity) : result A :=
  Err (status_Error "PermissionDenied"
    ("client certificate identity " +:+ URI i +:+ " cannot act as " +:+ URI expected)).

Lemma requirePeerIdentity_spec peer uris rest i expected : cert_URIs peer = URI i :: uris → readable i →
  requirePeerIdentity (Some (peer :: rest)) expected = if decide (expected = i) then Ok tt else denied i expected.
Proof.
  intros Hu Hi. unfold requirePeerIdentity. cbn [PeerIdentity]. rewrite Hu, first_identity_URI by done.
  by repeat case_decide; subst.
Qed.

(** C17: who may tell the manager what.  For a caller whose certificate was minted for [i], each of the
    four methods of the server is the operation of the control service when the message names [i], and
    otherwise returns PermissionDenied and leaves the hub as it was: no message of a target or of a source
    is registered, acknowledged or published on behalf of another identity. *)
Theorem server_authorizes peer uris rest i stream now req event ack source s h :
  cert_URIs peer = URI i :: uris → readable i →
  Server_RegisterTarget true (Some (peer :: rest)) stream req s
    = (if decide (registrant_of req = i) then RegisterTarget stream true req s else denied i (registrant_of req)) ∧
  Server_ReportTarget true (Some (peer :: rest)) now event h
    = (if decide (target_of event = i) then ReportTarget now event h else denied i (target_of event)) ∧
  Server_AcknowledgeTargetCommand true (Some (peer :: rest)) now ack h
    = (if decide (acknowledger_of ack = i) then AcknowledgeTargetCommand now ack h
       else denied i (acknowledger_of ack)) ∧
  Server_ReportSource true (Some (peer :: rest)) now source h
    = (if decide (source_of source = i) then ReportSource now source h else denied i (source_of source)).
Proof.
  intros Hu Hi.
  unfold Server_RegisterTarget, Server_ReportTarget, Server_AcknowledgeTargetCommand, Server_ReportSource.
  rewrite !(requirePeerIdentity_spec _ _ _ _ _ Hu Hi). repeat split; by case_decide.
Qed.
End ControlServer.

Definition sample_source_event : SourceEvent :=
  MkSourceEvent "backup" "nightly" RunKindBackup "media" "photos" "Running" 0 0 0 0 0 0 0 0 (S754_zero false)
    false "" "" 0 "" "" "" "".

Lemma server_authorizes_witness :
  let peer := [URI (SourceIdentity "backup" "nightly" "media" "photos")] in
  @Server_ReportSource bare_certificates sample_checks true (Some [peer]) inhabitant sample_source_event (NewEventHub 4)
    = @ReportSource sample_checks inhabitant sample_source_event (NewEventHub 4) ∧
  @Server_ReportTarget bare_certificates sample_checks true (Some [peer]) inhabitant
      (MkTargetEvent "backup" "nightly" RunKindBackup "backup" "vault" "Completed" "" "" 0 [] [] false [] 0 0) (NewEventHub 4)
    = denied (SourceIdentity "backup" "nightly" "media" "photos") (TargetIdentity "backup" "nightly" "backup" "vault").
Proof.
  set (i := SourceIdentity "backup" "nightly" "media" "photos").
  assert (readable i) as Hi by (apply (bool_decide_unpack _); by vm_compute).
  pose proof (server_authorizes (H := bare_certificates) (H0 := sample_checks) [URI i] [] [] i 0%nat
    inhabitant sample_request
    (MkTargetEvent "backup" "nightly" RunKindBackup "backup" "vault" "Completed" "" "" 0 [] [] false [] 0 0)
    inhabitant sample_source_event NewService (NewEventHub 4) eq_refl Hi) as (_ & Ht & _ & Hs).
  split; [exact Hs|exact Ht].
Defined.
