(* ===== verification/Wire.v ===== *)
(** * The header of a transfer (internal/dataplane/transport.go)

    A sender begins its connection with a header: the length of a JSON text in four bytes, most
    significant first, and the text.  This file has the framing with what it uses of
    encoding/binary, encoding/json and unicode/utf8, down to bytes.  The laws are that a receiver reads the
    header that was written, whatever follows it on the connection, and nothing but such a header.  The text of an
    error of encoding/json is not modelled. *)
From S2P Require Export Peers.
From stdpp Require Import options.
From Stdlib Require Import Ascii.

Definition maxTransferHeaderBytes : Z := 64 * 1024.
Definition transferProtocolRsync : string := "rsync".

Record transferHeader := MkTransferHeader {
  th_Destination : string;
  th_Snapshot : string;
  th_Source : string;
  th_Protocol : string
}.

#[export] Instance transferHeader_eq_dec : EqDecision transferHeader.
Proof. solve_decision. Defined.

(** ** Package unicode/utf8 *)

Definition code (c : ascii) : nat := nat_of_ascii c.
Definition within (lo hi : nat) (c : ascii) : bool := bool_decide (lo ≤ code c ≤ hi)%nat.
Definition continuation : ascii → bool := within 128 191.

(** The first rune of a text that is encoded in more than one byte, and what follows it. *)
Definition next_rune (s : string) : option (string * string) :=
  match s with
  | String a (String b t) =>
      let two := within 194 223 a && continuation b in
      if two then Some (String a (String b ""), t)
      else
        match t with
        | String c t =>
            let three := within 224 239 a && continuation c &&
              (if decide (code a = 224)%nat then within 160 191 b
               else if decide (code a = 237)%nat then within 128 159 b else continuation b) in
            if three then Some (String a (String b (String c "")), t)
            else
              match t with
              | String d t =>
                  let four := within 240 244 a && continuation c && continuation d &&
                    (if decide (code a = 240)%nat then within 144 191 b
                     else if decide (code a = 244)%nat then within 128 143 b else continuation b) in
                  if four then Some (String a (String b (String c (String d ""))), t) else None
              | EmptyString => None
              end
        | EmptyString => None
        end
  | _ => None
  end.

Definition is_ascii (c : ascii) : bool := bool_decide (code c < 128)%nat.

(** The encoding of U+FFFD, which stands for a byte that is not UTF-8. *)
Definition rune_error : string := bytes [239; 191; 189]%nat.

(** [utf8.AppendRune]; a surrogate is encoded as U+FFFD. *)
Definition encode_rune (r : Z) : string :=
  let low x := 128 + x `mod` 64 in
  let runes l := bytes (Z.to_nat <$> l) in
  if decide (r < 128) then runes [r]
  else if decide (r < 2048) then runes [192 + r / 64; low r]
  else if decide (55296 ≤ r ≤ 57343) then rune_error
  else if decide (r < 65536) then runes [224 + r / 4096; low (r / 64); low r]
  else runes [240 + r / 262144; low (r / 4096); low (r / 64); low r].

(** [utf8.Valid]: the fuel is the length of the text. *)
Fixpoint valid_utf8_in (fuel : nat) (s : string) : bool :=
  match fuel, s with
  | S fuel, String c t =>
      if is_ascii c then valid_utf8_in fuel t
      else match next_rune s with Some (_, rest) => valid_utf8_in fuel rest | None => false end
  | _, _ => true
  end.

Definition utf8_valid (s : string) : bool := valid_utf8_in (String.length s) s.

(** ** Package encoding/json: writing *)

Definition backslash_char : ascii := ascii_of_nat 92.
Definition quote_char : ascii := ascii_of_nat 34.
Definition escaped (x : string) : string := String backslash_char x.

(** A character below U+0080; the characters of HTML are escaped too. *)
Definition escape_ascii (c : ascii) : string :=
  if decide (c = backslash_char ∨ c = quote_char) then escaped (String c "")
  else if decide (code c = 8)%nat then escaped "b"
  else if decide (code c = 12)%nat then escaped "f"
  else if decide (code c = 10)%nat then escaped "n"
  else if decide (code c = 13)%nat then escaped "r"
  else if decide (code c = 9)%nat then escaped "t"
  else if bool_decide (code c < 32)%nat || ContainsByte "<>&" c
  then escaped ("u00" +:+ String (hex_digit (code c / 16)) (String (hex_digit (code c `mod` 16)) ""))
  else String c "".

(** The line and paragraph separators are escaped. *)
Definition escape_rune (r : string) : string :=
  if decide (r = bytes [226; 128; 168]%nat) then escaped "u2028"
  else if decide (r = bytes [226; 128; 169]%nat) then escaped "u2029"
  else r.

Fixpoint escape_in (fuel : nat) (s : string) : string :=
  match fuel, s with
  | S fuel, String c t =>
      if is_ascii c then escape_ascii c +:+ escape_in fuel t
      else match next_rune s with
           | Some (r, rest) => escape_rune r +:+ escape_in fuel rest
           | None => escaped "ufffd" +:+ escape_in fuel t
           end
  | _, _ => ""
  end.

Definition json_string (s : string) : string :=
  dquote +:+ escape_in (String.length s) s +:+ dquote.

Definition json_field (name value : string) : string := json_string name +:+ ":" +:+ json_string value.

(** [omitempty] *)
Definition unless_empty (name value : string) : list string :=
  if decide (value = "") then [] else [json_field name value].

Definition header_Marshal (h : transferHeader) : string :=
  "{" +:+ strings_Join
    ([json_field "destination" (th_Destination h)] ++ unless_empty "snapshot" (th_Snapshot h) ++
     unless_empty "source" (th_Source h) ++ [json_field "protocol" (th_Protocol h)]) "," +:+ "}".

(** ** Package encoding/json: reading *)

Inductive json :=
  | JNull
  | JBool (b : bool)
  | JNumber (s : string)
  | JString (s : string)
  | JArray (l : list json)
  | JObject (l : list (string * json)).

Definition json_space (c : ascii) : bool := bool_decide (code c ∈ [32; 9; 13; 10]%nat).

Fixpoint skip_space (s : string) : string :=
  match s with
  | EmptyString => ""
  | String c t => if json_space c then skip_space t else s
  end.

(** [getu4], after the backslash and the u. *)
Definition four_hex (s : string) : option (Z * string) :=
  match s with
  | String a (String b (String c (String d t))) =>
      a ← unhex a; b ← unhex b; c ← unhex c; d ← unhex d;
      Some (4096 * Z.of_nat a + 256 * Z.of_nat b + 16 * Z.of_nat c + Z.of_nat d, t)
  | _ => None
  end.

(** The rune of an escape, which two escapes make when it is a surrogate. *)
Definition escaped_rune (s : string) : option (string * string) :=
  '(r, t) ← four_hex s;
  if decide (55296 ≤ r ≤ 57343) then
    match t with
    | String a (String b t') =>
        match (if decide (a = backslash_char ∧ b = "u"%char) then four_hex t' else None) with
        | Some (r', t') =>
            if decide (r < 56320 ∧ 56320 ≤ r' ≤ 57343)
            then Some (encode_rune (65536 + (r - 55296) * 1024 + (r' - 56320)), t')
            else Some (rune_error, t)
        | None => Some (rune_error, t)
        end
    | _ => Some (rune_error, t)
    end
  else Some (encode_rune r, t).

Definition simple_escape (c : ascii) : option ascii :=
  if decide (c = "b"%char) then Some (ascii_of_nat 8)
  else if decide (c = "f"%char) then Some (ascii_of_nat 12)
  else if decide (c = "n"%char) then Some (ascii_of_nat 10)
  else if decide (c = "r"%char) then Some (ascii_of_nat 13)
  else if decide (c = "t"%char) then Some (ascii_of_nat 9)
  else if decide (c = backslash_char ∨ c = quote_char ∨ c = slash) then Some c
  else None.

(** One step inside a string literal: what it adds, and what follows. *)
Definition literal_step (s : string) : option (string * string) :=
  match s with
  | EmptyString => None
  | String c t =>
      if decide (c = backslash_char) then
        match t with
        | String e t =>
            if decide (e = "u"%char) then escaped_rune t
            else c ← simple_escape e; Some (String c "", t)
        | EmptyString => None
        end
      else if decide (code c < 32)%nat then None
      else if is_ascii c then Some (String c "", t)
      else match next_rune s with Some (r, rest) => Some (r, rest) | None => Some (rune_error, t) end
  end.

(** The rest of a string literal, after the opening quote. *)
Fixpoint string_literal (fuel : nat) (s : string) : option (string * string) :=
  match fuel, s with
  | S fuel, String c t =>
      if decide (c = quote_char) then Some ("", t)
      else
        '(x, t) ← literal_step s;
        '(r, t) ← string_literal fuel t;
        Some (x +:+ r, t)
  | _, _ => None
  end.

Definition json_literal (s : string) : option (string * string) := string_literal (String.length s) s.

(** The digits at the front. *)
Fixpoint span_digits (s : string) : string * string :=
  match s with
  | String c t =>
      if is_digit c then let '(d, r) := span_digits t in (String c d, r) else ("", s)
  | EmptyString => ("", "")
  end.

Definition some_digits (s : string) : option (string * string) :=
  match span_digits s with (EmptyString, _) => None | r => Some r end.

Definition number_exponent (s : string) : option (string * string) :=
  match s with
  | String e t =>
      if decide (e = "e"%char ∨ e = "E"%char) then
        let '(sign, t) := match t with
                          | String c t' => if decide (c = "+"%char ∨ c = "-"%char) then (String c "", t') else ("", t)
                          | EmptyString => ("", "")
                          end in
        '(d, r) ← some_digits t; Some (String e (sign +:+ d), r)
      else Some ("", s)
  | EmptyString => Some ("", "")
  end.

Definition number_fraction (s : string) : option (string * string) :=
  match s with
  | String c t => if decide (c = "."%char) then '(d, r) ← some_digits t; Some (String c d, r) else Some ("", s)
  | EmptyString => Some ("", "")
  end.

Definition number_integer (s : string) : option (string * string) :=
  match s with
  | String c t => if decide (c = "0"%char) then Some ("0", t) else some_digits s
  | EmptyString => None
  end.

Definition json_number (s : string) : option (json * string) :=
  let '(sign, t) := match s with
                    | String c t => if decide (c = "-"%char) then ("-", t) else ("", s)
                    | EmptyString => ("", "")
                    end in
  '(i, t) ← number_integer t; '(f, t) ← number_fraction t; '(e, t) ← number_exponent t;
  Some (JNumber (sign +:+ i +:+ f +:+ e), t).

(** A value, with the spaces before it. *)
Fixpoint json_value (fuel : nat) (s : string) : option (json * string) :=
  match fuel with
  | O => None
  | S fuel =>
      match skip_space s with
      | EmptyString => None
      | String c t =>
          if decide (c = quote_char) then '(x, r) ← json_literal t; Some (JString x, r)
          else if decide (c = "{"%char) then
            if HasPrefix (skip_space t) "}" then Some (JObject [], drop_str 1 (skip_space t))
            else '(l, r) ← json_members fuel t; Some (JObject l, r)
          else if decide (c = "["%char) then
            if HasPrefix (skip_space t) "]" then Some (JArray [], drop_str 1 (skip_space t))
            else '(l, r) ← json_elements fuel t; Some (JArray l, r)
          else if HasPrefix (String c t) "null" then Some (JNull, drop_str 3 t)
          else if HasPrefix (String c t) "true" then Some (JBool true, drop_str 3 t)
          else if HasPrefix (String c t) "false" then Some (JBool false, drop_str 4 t)
          else json_number (String c t)
      end
  end
with json_members (fuel : nat) (s : string) : option (list (string * json) * string) :=
  match fuel with
  | O => None
  | S fuel =>
      match skip_space s with
      | String q t =>
          if decide (q = quote_char) then
            '(k, t) ← json_literal t;
            if HasPrefix (skip_space t) ":" then
              '(v, t) ← json_value fuel (drop_str 1 (skip_space t));
              if HasPrefix (skip_space t) "," then
                '(l, r) ← json_members fuel (drop_str 1 (skip_space t)); Some ((k, v) :: l, r)
              else if HasPrefix (skip_space t) "}" then Some ([(k, v)], drop_str 1 (skip_space t))
              else None
            else None
          else None
      | EmptyString => None
      end
  end
with json_elements (fuel : nat) (s : string) : option (list json * string) :=
  match fuel with
  | O => None
  | S fuel =>
      '(v, t) ← json_value fuel s;
      if HasPrefix (skip_space t) "," then
        '(l, r) ← json_elements fuel (drop_str 1 (skip_space t)); Some (v :: l, r)
      else if HasPrefix (skip_space t) "]" then Some ([v], drop_str 1 (skip_space t))
      else None
  end.

Fixpoint json_depth (v : json) : nat :=
  match v with
  | JArray l => S (max_list (json_depth <$> l))
  | JObject l => S (max_list ((λ kv, json_depth kv.2) <$> l))
  | _ => 0
  end.

Definition maxNestingDepth : nat := Z.to_nat 10000.

(** A whole text: one value, not nested too deeply, and spaces. *)
Definition json_parse (data : string) : option json :=
  '(v, rest) ← json_value (2 * String.length data + 2) data;
  if decide (skip_space rest = "" ∧ (json_depth v ≤ maxNestingDepth)%nat) then Some v else None.

(** [foldName]: the case of letters is not seen, and two more letters have an ASCII one for their
    upper case. *)
Fixpoint foldName (s : string) : string :=
  match s with
  | String a t =>
      let plain := String (upper a) (foldName t) in
      match t with
      | String b t' =>
          if decide (code a = 197 ∧ code b = 191)%nat then String "S" (foldName t')
          else match t' with
               | String c t'' => if decide (code a = 226 ∧ code b = 132 ∧ code c = 170)%nat
                                 then String "K" (foldName t'') else plain
               | EmptyString => plain
               end
      | EmptyString => plain
      end
  | EmptyString => ""
  end.

(** The field of a key, with the change a text makes to it. *)
Definition header_field (key : string) : option (string → transferHeader → transferHeader) :=
  let named name := bool_decide (foldName key = foldName name) in
  if named "destination" then Some (λ x h, MkTransferHeader x (th_Snapshot h) (th_Source h) (th_Protocol h))
  else if named "snapshot" then Some (λ x h, MkTransferHeader (th_Destination h) x (th_Source h) (th_Protocol h))
  else if named "source" then Some (λ x h, MkTransferHeader (th_Destination h) (th_Snapshot h) x (th_Protocol h))
  else if named "protocol" then Some (λ x h, MkTransferHeader (th_Destination h) (th_Snapshot h) (th_Source h) x)
  else None.

Definition type_error {A} (where_ : string) : result A := Err (ErrNew ("json: cannot unmarshal into " +:+ where_)).

Definition empty_header : transferHeader := MkTransferHeader "" "" "" "".

(** A member of the object: a key that is no field is ignored, and so is null.  A value of another type
    is an error, which the source looks at when all has been read. *)
Definition set_member (h : result transferHeader) (kv : string * json) : result transferHeader :=
  match header_field kv.1, kv.2 with
  | None, _ | _, JNull => h
  | Some f, JString x => f x <$> h
  | Some _, _ => match h with Err e => Err e | Ok _ => type_error kv.1 end
  end.

(** [json.Unmarshal] into a header. *)
Definition header_Unmarshal (data : string) : result transferHeader :=
  match json_parse data with
  | None => Err (ErrNew "json: invalid text")
  | Some JNull => Ok empty_header
  | Some (JObject l) => fold_left set_member l (Ok empty_header)
  | Some _ => type_error "transferHeader"
  end.

(** ** Framing *)

(** [binary.BigEndian.PutUint32] *)
Definition put_uint32 (n : Z) : string :=
  bytes (Z.to_nat <$> [Z.land (Z.shiftr n 24) 255; Z.land (Z.shiftr n 16) 255; Z.land (Z.shiftr n 8) 255; Z.land n 255]).

(** [binary.BigEndian.Uint32] *)
Definition get_uint32 (s : string) : Z :=
  match s with
  | String a (String b (String c (String d _))) =>
      Z.lor (Z.lor (Z.lor (Z.of_nat (code d)) (Z.shiftl (Z.of_nat (code c)) 8))
        (Z.shiftl (Z.of_nat (code b)) 16)) (Z.shiftl (Z.of_nat (code a)) 24)
  | _ => 0
  end.

Definition strlen (s : string) : Z := Z.of_nat (String.length s).

(** What is written to the connection. *)
Definition writeTransferHeader (header : transferHeader) : result string :=
  let data := header_Marshal header in
  if decide (strlen data > maxTransferHeaderBytes) then Err (ErrNew "transfer header is too large")
  else Ok (put_uint32 (strlen data) +:+ data).

(** [io.ReadFull] from the bytes that arrive before the connection ends. *)
Definition ReadFull (n : nat) (r : string) : result (string * string) :=
  if decide (n ≤ String.length r)%nat then Ok (take_str n r, drop_str n r)
  else if decide (r = "") then Err (ErrSys KEOF "EOF")
  else Err (ErrNew "unexpected EOF").

(** The header and the bytes that follow it. *)
Definition readTransferHeader (r : string) : result (transferHeader * string) :=
  '(size, r) ← ReadFull 4 r;
  let length := get_uint32 size in
  if decide (length = 0 ∨ length > maxTransferHeaderBytes)
  then Err (ErrNew ("invalid transfer header size " +:+ Itoa length))
  else
    '(data, r) ← ReadFull (Z.to_nat length) r;
    header ← header_Unmarshal data;
    Ok (header, r).

Example a_header_is_read :
  (writeTransferHeader (MkTransferHeader ".partial/1/a&b" "" "" "rsync") ≫= λ d, readTransferHeader (d +:+ "rest"))
  = Ok (MkTransferHeader ".partial/1/a&b" "" "" "rsync", "rest").
Proof. vm_compute. reflexivity. Qed.

(** ** A header is read back *)

Lemma within_app lo hi c : within lo hi c = true → (lo ≤ code c ≤ hi)%nat.
Proof. apply bool_decide_eq_true. Qed.

Lemma next_rune_spec s r rest : next_rune s = Some (r, rest) →
  s = r +:+ rest ∧ (∀ t, next_rune (r +:+ t) = Some (r, t)) ∧ ∃ c r', r = String c r' ∧ is_ascii c = false.
Proof.
  assert (∀ lo hi c, (128 ≤ lo)%nat → within lo hi c = true → is_ascii c = false) as Hlead.
  { intros lo hi c Hlo Hc%within_app. apply bool_decide_eq_false. lia. }
  destruct s as [|a [|b t]]; try done. unfold next_rune at 1.
  destruct (within 194 223 a && continuation b) eqn:H2.
  { intros [= <- <-]. split; [done|]. split; [intros t'; rewrite !str_app_cons; cbn; by rewrite H2|].
    eexists _, _. split; [done|]. apply andb_true_iff in H2 as [H2 _]. by eapply Hlead, H2; lia. }
  destruct t as [|c t]; [done|]. destruct (_ && _ && (if decide (code a = 224)%nat then _ else _)) eqn:H3.
  { intros [= <- <-]. split; [done|]. split; [intros t'; rewrite !str_app_cons; cbn; by rewrite H2, H3|].
    eexists _, _. split; [done|]. rewrite !andb_true_iff in H3. destruct H3 as [[H3 _] _]. by eapply Hlead, H3; lia. }
  destruct t as [|d t]; [done|]. destruct (_ && _ && _ && (if decide (code a = 240)%nat then _ else _)) eqn:H4; [|done].
  intros [= <- <-]. split; [done|]. split; [intros t'; rewrite !str_app_cons; cbn; by rewrite H2, H3, H4|].
  eexists _, _. split; [done|]. rewrite !andb_true_iff in H4. destruct H4 as [[[H4 _] _] _]. by eapply Hlead, H4; lia.
Qed.

Lemma literal_ascii c t : is_ascii c = true →
  literal_step (escape_ascii c +:+ t) = Some (String c "", t) ∧
  ∃ a e, escape_ascii c = String a e ∧ a ≠ quote_char.
Proof.
  destruct c as [[] [] [] [] [] [] [] []]; intros Hc; try (by vm_compute in Hc);
    (split; [reflexivity|]); (eexists _, _; split; [reflexivity|]; by vm_compute).
Qed.

Lemma literal_rune s r rest t : next_rune s = Some (r, rest) →
  literal_step (escape_rune r +:+ t) = Some (r, t) ∧ ∃ a e, escape_rune r = String a e ∧ a ≠ quote_char.
Proof.
  intros H. unfold escape_rune. case_decide as Hr; [subst r; split; [reflexivity|eexists _, _; done]|].
  case_decide as Hr'; [subst r; split; [reflexivity|eexists _, _; done]|].
  destruct (next_rune_spec s r rest H) as (_ & Hn & c & r' & -> & Hc).
  assert (∀ d, is_ascii d = true → c ≠ d) as Hd by (intros d ? ->; congruence).
  split; [|eexists _, _; split; [done|by apply Hd]].
  specialize (Hn t). rewrite str_app_cons in *. unfold literal_step. rewrite decide_False by by apply Hd.
  rewrite decide_False by (apply bool_decide_eq_false in Hc; lia). by rewrite Hc, Hn.
Qed.

Lemma string_literal_escape n s : (String.length s ≤ n)%nat → valid_utf8_in n s = true → ∀ F t,
  (String.length (escape_in n s) < F)%nat →
  string_literal F (escape_in n s +:+ String quote_char t) = Some (s, t).
Proof.
  revert s. induction n as [|n IH]; intros s Hs Hv F t HF.
  { destruct s; [|cbn in Hs; lia]. destruct F; [cbn in HF; lia|done]. }
  destruct s as [|c s]; [destruct F; [cbn in HF; lia|done]|]. cbn [String.length] in Hs.
  cbn [escape_in valid_utf8_in] in *.
  assert (∀ e x u, (∀ t', literal_step (e +:+ t') = Some (x, t')) → (∃ a e', e = String a e' ∧ a ≠ quote_char) →
    (String.length u ≤ n)%nat → valid_utf8_in n u = true →
    (String.length (e +:+ escape_in n u) < F)%nat →
    string_literal F ((e +:+ escape_in n u) +:+ String quote_char t) = Some (x +:+ u, t)) as Hstep.
  { intros e x u He (a & e' & -> & Ha) Hu Hvu Hlen. rewrite length_app_str in Hlen. cbn [String.length] in Hlen.
    destruct F as [|F]; [lia|]. rewrite str_app_assoc. specialize (He (escape_in n u +:+ String quote_char t)).
    rewrite str_app_cons in *. cbn [string_literal]. rewrite decide_False by done. rewrite He. cbn.
    rewrite IH by (done || lia). done. }
  destruct (is_ascii c) eqn:Hc.
  - apply (Hstep _ (String c "")); [|by apply (literal_ascii c "")|lia|done|done].
    intros t'. by apply literal_ascii.
  - destruct (next_rune (String c s)) as [[r rest]|] eqn:Hn; [|done].
    destruct (next_rune_spec _ _ _ Hn) as (Hcs & _ & c' & r' & -> & _). rewrite Hcs.
    apply (Hstep _ (String c' r')); [|by apply (literal_rune _ _ _ "" Hn)| |done|done].
    + intros t'. by eapply literal_rune.
    + apply (f_equal String.length) in Hcs. rewrite length_app_str in Hcs. cbn in Hcs. lia.
Qed.

Lemma json_string_read s t : utf8_valid s = true →
  ∃ u, json_string s +:+ t = String quote_char u ∧ json_literal u = Some (s, t).
Proof.
  intros Hs. exists (escape_in (String.length s) s +:+ String quote_char t). split.
  - unfold json_string. change dquote with (String quote_char ""). rewrite !str_app_assoc. done.
  - unfold json_literal. apply string_literal_escape; [lia|done|]. rewrite length_app_str. cbn. lia.
Qed.

(** An object whose values are strings. *)
Definition json_fields (l : list (string * string)) : string :=
  strings_Join ((λ kv, json_field kv.1 kv.2) <$> l) ",".

Lemma json_fields_read l : l ≠ [] → Forall (λ kv, utf8_valid kv.1 = true ∧ utf8_valid kv.2 = true) l →
  ∀ F t, (S (length l) < F)%nat →
  json_members F (json_fields l +:+ String "}" t) = Some (prod_map id JString <$> l, t).
Proof.
  intros Hne Hl. induction l as [|[k v] l IH]; [done|]. apply Forall_cons in Hl as [[Hk Hv] Hl]. cbn in Hk, Hv.
  intros F t HF. destruct F as [|F]; [cbn in HF; lia|]. cbn in HF.
  assert (∀ u, ∃ x, json_field k v +:+ u = String quote_char x ∧
    json_literal x = Some (k, ":" +:+ json_string v +:+ u)) as Hfield.
  { intros u. unfold json_field. rewrite !str_app_assoc. by apply json_string_read. }
  assert (∀ u, json_value F (json_string v +:+ u) = Some (JString v, u)) as Hval.
  { intros u. destruct (json_string_read v u Hv) as (x & -> & Hx). destruct F as [|F]; [lia|].
    cbn [json_value]. change (skip_space (String quote_char x)) with (String quote_char x). cbv beta iota zeta.
    rewrite decide_True by done. by rewrite Hx. }
  destruct (decide (l = [])) as [->|Hl'].
  - unfold json_fields. cbn [fmap list_fmap strings_Join fst snd].
    destruct (Hfield (String "}" t)) as (x & -> & Hx). cbn [json_members].
    change (skip_space (String quote_char x)) with (String quote_char x). cbv beta iota zeta.
    rewrite decide_True by done. rewrite Hx. cbn [mbind option_bind].
    change (skip_space (":" +:+ json_string v +:+ String "}" t)) with (":" +:+ json_string v +:+ String "}" t).
    rewrite HasPrefix_app. change (drop_str 1 (":" +:+ json_string v +:+ String "}" t)) with (json_string v +:+ String "}" t).
    rewrite Hval. cbn [mbind option_bind].
    change (skip_space (String "}" t)) with ("}" +:+ t). rewrite HasPrefix_app. done.
  - unfold json_fields in *. cbn [fmap list_fmap fst snd]. rewrite Join_cons by (by destruct l).
    rewrite str_app_assoc. destruct (Hfield (("," +:+ strings_Join ((λ kv, json_field kv.1 kv.2) <$> l) ",") +:+ String "}" t))
      as (x & -> & Hx). cbn [json_members].
    change (skip_space (String quote_char x)) with (String quote_char x). cbv beta iota zeta.
    rewrite decide_True by done. rewrite Hx. cbn [mbind option_bind].
    match goal with |- context [skip_space (":" +:+ ?y)] => change (skip_space (":" +:+ y)) with (":" +:+ y) end.
    rewrite HasPrefix_app. match goal with |- context [drop_str 1 (":" +:+ ?y)] => change (drop_str 1 (":" +:+ y)) with y end.
    rewrite Hval. cbn [mbind option_bind]. rewrite str_app_assoc.
    match goal with |- context [skip_space ("," +:+ ?y)] => change (skip_space ("," +:+ y)) with ("," +:+ y) end.
    rewrite HasPrefix_app. match goal with |- context [drop_str 1 ("," +:+ ?y)] => change (drop_str 1 ("," +:+ y)) with y end.
    rewrite IH by (done || lia). done.
Qed.

Lemma prefix_shorter p s : HasPrefix s p = true → (String.length p ≤ String.length s)%nat.
Proof. intros [t ->]%HasPrefix_spec. rewrite length_app_str. lia. Qed.

Lemma length_skip_space s : (String.length (skip_space s) ≤ String.length s)%nat.
Proof. induction s as [|c s IH]; cbn; [done|]. case_match; cbn; lia. Qed.

Lemma length_drop_str n s : String.length (drop_str n s) = (String.length s - n)%nat.
Proof. revert s. induction n as [|n IH]; intros [|c s]; cbn; rewrite ?IH; lia. Qed.

Lemma four_hex_shorter s r t : four_hex s = Some (r, t) → (String.length t < String.length s)%nat.
Proof.
  destruct s as [|a [|b [|c [|d s]]]]; try done. cbn. destruct (unhex a), (unhex b), (unhex c), (unhex d); try done.
  intros [= _ <-]. lia.
Qed.

Lemma escaped_rune_shorter s r t : escaped_rune s = Some (r, t) → (String.length t < String.length s)%nat.
Proof.
  unfold escaped_rune. destruct (four_hex s) as [[x u]|] eqn:Hx; [|done]. apply four_hex_shorter in Hx. cbn.
  case_decide; [|intros [= _ <-]; lia]. destruct u as [|a [|b u]]; try (intros [= _ <-]; cbn in *; lia).
  case_decide; [|intros [= _ <-]; lia].
  destruct (four_hex u) as [[y v]|] eqn:Hy; [|intros [= _ <-]; lia]. apply four_hex_shorter in Hy. cbn in *.
  case_decide; intros [= _ <-]; cbn; lia.
Qed.

Lemma literal_step_shorter s x t : literal_step s = Some (x, t) → (String.length t < String.length s)%nat.
Proof.
  destruct s as [|c s]; [done|]. unfold literal_step. case_decide.
  - destruct s as [|e s]; [done|]. case_decide.
    + intros Hr%escaped_rune_shorter. cbn. lia.
    + destruct (simple_escape e); [|done]. intros [= _ <-]. cbn. lia.
  - case_decide; [done|]. destruct (is_ascii c); [intros [= _ <-]; cbn; lia|].
    destruct (next_rune _) as [[r rest]|] eqn:Hn; intros [= _ <-]; [|cbn; lia].
    destruct (next_rune_spec _ _ _ Hn) as (-> & _ & a & r' & -> & _). rewrite length_app_str. cbn. lia.
Qed.

Lemma string_literal_shorter n s x t : string_literal n s = Some (x, t) → (String.length t < String.length s)%nat.
Proof.
  revert s x t. induction n as [|n IH]; intros [|c s] x t; try done. cbn [string_literal].
  case_decide; [intros [= _ <-]; cbn; lia|].
  destruct (literal_step _) as [[y u]|] eqn:Hy; [|done]. apply literal_step_shorter in Hy. cbn [mbind option_bind].
  destruct (string_literal n u) as [[z v]|] eqn:Hz; [|done]. apply IH in Hz. intros [= _ <-]. lia.
Qed.

Lemma json_literal_shorter s x t : json_literal s = Some (x, t) → (String.length t < String.length s)%nat.
Proof. apply string_literal_shorter. Qed.

Lemma span_digits_length s : let '(d, r) := span_digits s in
  (String.length d + String.length r = String.length s)%nat.
Proof.
  induction s as [|c s IH]; [done|]. cbn. destruct (is_digit c); [|done].
  destruct (span_digits s) as [d r]. cbn. lia.
Qed.

Lemma some_digits_shorter s d r : some_digits s = Some (d, r) → (String.length r < String.length s)%nat.
Proof.
  unfold some_digits. pose proof (span_digits_length s) as H. destruct (span_digits s) as [[|c d'] r']; [done|].
  intros [= <- <-]. cbn in H. lia.
Qed.

Lemma json_number_shorter s v t : json_number s = Some (v, t) → (String.length t < String.length s)%nat.
Proof.
  assert (∀ s i t, number_integer s = Some (i, t) → (String.length t < String.length s)%nat) as Hi.
  { intros [|c u] i r; [done|]. unfold number_integer. case_decide; [intros [= _ <-]; cbn; lia|apply some_digits_shorter]. }
  assert (∀ s i t, number_fraction s = Some (i, t) → (String.length t ≤ String.length s)%nat) as Hf.
  { intros [|c u] i r; [by intros [= _ <-]|]. unfold number_fraction. case_decide; [|by intros [= _ <-]].
    destruct (some_digits u) as [[d q]|] eqn:Hd; [|done]. apply some_digits_shorter in Hd.
    intros [= _ <-]. cbn. lia. }
  assert (∀ s i t, number_exponent s = Some (i, t) → (String.length t ≤ String.length s)%nat) as He.
  { intros [|c u] i r; [by intros [= _ <-]|]. unfold number_exponent. case_decide; [|by intros [= _ <-]].
    assert (∃ g q, match u with String c t' => if decide (c = "+"%char ∨ c = "-"%char) then (String c "", t') else ("", u)
      | EmptyString => ("", "") end = (g, q) ∧ (String.length q ≤ String.length u)%nat) as (g & q & -> & Hq).
    { destruct u; [eexists _, _; by split|]. case_decide; eexists _, _; split; [done|cbn; lia|done|cbn; lia]. }
    destruct (some_digits q) as [[d q']|] eqn:Hd; [|done]. apply some_digits_shorter in Hd.
    intros [= _ <-]. cbn. lia. }
  unfold json_number.
  assert (∃ g q, match s with String c t => if decide (c = "-"%char) then ("-", t) else ("", s)
    | EmptyString => ("", "") end = (g, q) ∧ (String.length q ≤ String.length s)%nat) as (g & q & -> & Hq).
  { destruct s; [eexists _, _; by split|]. case_decide; eexists _, _; split; [done|cbn; lia|done|cbn; lia]. }
  destruct (number_integer q) as [[i1 t1]|] eqn:H1; [|done]. apply Hi in H1. cbn [mbind option_bind].
  destruct (number_fraction t1) as [[i2 t2]|] eqn:H2; [|done]. apply Hf in H2. cbn [mbind option_bind].
  destruct (number_exponent t2) as [[i3 t3]|] eqn:H3; [|done]. apply He in H3. cbn [mbind option_bind].
  intros [= _ <-]. lia.
Qed.

Lemma after_prefix p s : HasPrefix (skip_space s) p = true → p ≠ "" →
  (String.length (drop_str 1 (skip_space s)) < String.length s)%nat.
Proof.
  intros H%prefix_shorter Hp. rewrite length_drop_str. pose proof (length_skip_space s).
  destruct p; [done|]. cbn in H. lia.
Qed.

(** What a reader leaves is shorter than what it was given. *)
Lemma json_shorter n :
  (∀ s v t, json_value n s = Some (v, t) → (String.length t < String.length s)%nat) ∧
  (∀ s v t, json_members n s = Some (v, t) → (String.length t < String.length s)%nat) ∧
  (∀ s v t, json_elements n s = Some (v, t) → (String.length t < String.length s)%nat).
Proof.
  induction n as [|n (IHv & IHm & IHe)]; [done|]. repeat split; intros s v t.
  - cbn [json_value]. pose proof (length_skip_space s) as Hs. destruct (skip_space s) as [|c u] eqn:Hu; [done|].
    cbn [String.length] in Hs. case_decide.
    { destruct (json_literal u) as [[x r]|] eqn:Hx; [|done]. apply json_literal_shorter in Hx. intros [= _ <-]. lia. }
    case_decide.
    { destruct (HasPrefix _ _) eqn:Hp; [apply after_prefix in Hp; [|done]; revert Hp; generalize (drop_str 1 (skip_space u)); intros d Hp [= _ <-]; lia|].
      destruct (json_members n u) as [[x r]|] eqn:Hx; [|done]. apply IHm in Hx. intros [= _ <-]. lia. }
    case_decide.
    { destruct (HasPrefix _ _) eqn:Hp; [apply after_prefix in Hp; [|done]; revert Hp; generalize (drop_str 1 (skip_space u)); intros d Hp [= _ <-]; lia|].
      destruct (json_elements n u) as [[x r]|] eqn:Hx; [|done]. apply IHe in Hx. intros [= _ <-]. lia. }
    repeat (case_match; [match goal with |- context [drop_str ?k u] => pose proof (length_drop_str k u); generalize dependent (drop_str k u) end;
      intros d Hd [= _ <-]; lia|]).
    intros Hr%json_number_shorter. cbn in Hr. lia.
  - cbn [json_members]. pose proof (length_skip_space s) as Hs. destruct (skip_space s) as [|c u] eqn:Hu; [done|].
    cbn [String.length] in Hs. case_decide; [|done].
    destruct (json_literal u) as [[x r]|] eqn:Hx; [|done]. apply json_literal_shorter in Hx. cbn [mbind option_bind].
    destruct (HasPrefix (skip_space r) ":") eqn:Hp; [|done]. apply after_prefix in Hp; [|done].
    destruct (json_value n _) as [[y q]|] eqn:Hy; [|done]. apply IHv in Hy. cbn [mbind option_bind].
    destruct (HasPrefix (skip_space q) ",") eqn:Hc.
    + apply after_prefix in Hc; [|done]. destruct (json_members n _) as [[z w]|] eqn:Hz; [|done].
      apply IHm in Hz. intros [= _ <-]. lia.
    + destruct (HasPrefix (skip_space q) "}") eqn:Hb; [|done]. apply after_prefix in Hb; [|done].
      revert Hb. generalize (drop_str 1 (skip_space q)). intros d Hb [= _ <-]. lia.
  - cbn [json_elements]. destruct (json_value n s) as [[y q]|] eqn:Hy; [|done]. apply IHv in Hy. cbn [mbind option_bind].
    destruct (HasPrefix (skip_space q) ",") eqn:Hc.
    + apply after_prefix in Hc; [|done]. destruct (json_elements n _) as [[z w]|] eqn:Hz; [|done].
      apply IHe in Hz. intros [= _ <-]. lia.
    + destruct (HasPrefix (skip_space q) "]") eqn:Hb; [|done]. apply after_prefix in Hb; [|done].
      revert Hb. generalize (drop_str 1 (skip_space q)). intros d Hb [= _ <-]. lia.
Qed.

Lemma json_value_shorter n s v t : json_value n s = Some (v, t) → (String.length t < String.length s)%nat.
Proof. apply json_shorter. Qed.

(** Two amounts of fuel that are enough give the same reading. *)
Lemma json_enough n m :
  (∀ s, (2 * String.length s + 1 ≤ n)%nat → (2 * String.length s + 1 ≤ m)%nat → json_value n s = json_value m s) ∧
  (∀ s, (2 * String.length s + 2 ≤ n)%nat → (2 * String.length s + 2 ≤ m)%nat → json_members n s = json_members m s) ∧
  (∀ s, (2 * String.length s + 2 ≤ n)%nat → (2 * String.length s + 2 ≤ m)%nat → json_elements n s = json_elements m s).
Proof.
  revert m. induction n as [|n IH]; intros m; [repeat split; intros; lia|].
  destruct m as [|m]; [repeat split; intros; lia|]. destruct (IH m) as (IHv & IHm & IHe).
  repeat split; intros s Hn Hm.
  - cbn [json_value]. pose proof (length_skip_space s) as Hs. destruct (skip_space s) as [|c u] eqn:Hu; [done|].
    cbn [String.length] in Hs. by rewrite IHm, IHe by lia.
  - cbn [json_members]. pose proof (length_skip_space s) as Hs. destruct (skip_space s) as [|c u] eqn:Hu; [done|].
    cbn [String.length] in Hs. case_decide; [|done].
    destruct (json_literal u) as [[x r]|] eqn:Hx; [|done]. apply json_literal_shorter in Hx. cbn [mbind option_bind].
    destruct (HasPrefix (skip_space r) ":") eqn:Hp; [|done]. apply after_prefix in Hp; [|done].
    rewrite IHv by lia. destruct (json_value m _) as [[y q]|] eqn:Hy; [|done]. apply json_value_shorter in Hy.
    cbn [mbind option_bind]. destruct (HasPrefix (skip_space q) ",") eqn:Hc; [|done].
    apply after_prefix in Hc; [|done]. by rewrite IHm by lia.
  - cbn [json_elements]. rewrite IHv by lia. destruct (json_value m s) as [[y q]|] eqn:Hy; [|done].
    apply json_value_shorter in Hy. cbn [mbind option_bind].
    destruct (HasPrefix (skip_space q) ",") eqn:Hc; [|done]. apply after_prefix in Hc; [|done]. by rewrite IHe by lia.
Qed.

(** The reader of a text terminates: its recursion has as fuel twice the length of the text, and more fuel never
    changes what it reads, so a text is refused for what it is and never for want of fuel. *)
Lemma json_terminates fuel data : (2 * String.length data + 2 ≤ fuel)%nat →
  json_value fuel data = json_value (2 * String.length data + 2) data.
Proof. intros Hf. apply json_enough; lia. Qed.

(** ** Framing is read back *)

Lemma byte_code x : 0 ≤ x → Z.of_nat (code (ascii_of_nat (Z.to_nat (Z.land x 255)))) = Z.land x 255.
Proof.
  intros Hx. assert (0 ≤ Z.land x 255 < 256) as Hb.
  { change 255 with (Z.ones 8). rewrite Z.land_ones by lia. apply Z.mod_pos_bound. lia. }
  unfold code. rewrite nat_ascii_embedding by lia. lia.
Qed.

Lemma get_put_uint32 n r : 0 ≤ n < 2 ^ 32 → get_uint32 (put_uint32 n +:+ r) = n.
Proof.
  intros Hn. set (b k := ascii_of_nat (Z.to_nat (Z.land (Z.shiftr n k) 255))).
  change (put_uint32 n +:+ r) with
    (String (b 24) (String (b 16) (String (b 8) (String (ascii_of_nat (Z.to_nat (Z.land n 255))) r)))).
  unfold get_uint32, b. rewrite !byte_code by (rewrite ?Z.shiftr_nonneg; lia).
  apply Z.bits_inj_iff'. intros i Hi.
  rewrite !Z.lor_spec, !Z.shiftl_spec, !Z.land_spec by lia.
  change 255 with (Z.ones 8). rewrite !Z.testbit_ones by lia.
  destruct (decide (i < 32)) as [Hi'|Hi'].
  - destruct (decide (i < 8)); [|destruct (decide (i < 16)); [|destruct (decide (i < 24))]].
    all: repeat match goal with |- context [0 <=? ?k] => destruct (Z.leb_spec 0 k); [|try lia] end.
    all: repeat match goal with |- context [?k <? 8] => destruct (Z.ltb_spec k 8); [|try lia] end.
    all: try lia.
    all: repeat match goal with |- context [Z.testbit (Z.shiftr ?m ?k) ?j] => rewrite (Z.shiftr_spec m k j) by lia end.
    all: rewrite ?andb_false_r, ?andb_true_r, ?orb_false_r, ?orb_false_l; f_equal; lia.
  - replace (Z.testbit n i) with false.
    + destruct (Z.ltb_spec i 8), (Z.ltb_spec (i - 8) 8), (Z.ltb_spec (i - 16) 8), (Z.ltb_spec (i - 24) 8); lia.
    + symmetry. apply Z.testbit_false; [lia|]. rewrite Z.div_small; [done|].
      split; [lia|]. apply Z.lt_le_trans with (2 ^ 32); [lia|]. apply Z.pow_le_mono_r; lia.
Qed.

Lemma ReadFull_app a b n : n = String.length a → ReadFull n (a +:+ b) = Ok (a, b).
Proof.
  intros ->. unfold ReadFull. rewrite decide_True by (rewrite length_app_str; lia).
  by rewrite take_str_app, drop_str_after.
Qed.

Definition header_utf8 (h : transferHeader) : Prop :=
  utf8_valid (th_Destination h) = true ∧ utf8_valid (th_Snapshot h) = true ∧
  utf8_valid (th_Source h) = true ∧ utf8_valid (th_Protocol h) = true.
#[export] Instance header_utf8_dec h : Decision (header_utf8 h).
Proof. unfold header_utf8. apply _. Defined.

(** The members a header is written as. *)
Definition header_members (h : transferHeader) : list (string * string) :=
  [("destination", th_Destination h)] ++
  (if decide (th_Snapshot h = "") then [] else [("snapshot", th_Snapshot h)]) ++
  (if decide (th_Source h = "") then [] else [("source", th_Source h)]) ++
  [("protocol", th_Protocol h)].

Lemma header_Marshal_members h : header_Marshal h = "{" +:+ json_fields (header_members h) +:+ "}".
Proof.
  unfold header_Marshal, json_fields, header_members, unless_empty. rewrite !fmap_app.
  by repeat case_decide.
Qed.

Lemma header_members_read h :
  fold_left set_member (prod_map id JString <$> header_members h) (Ok empty_header) = Ok h.
Proof.
  destruct h as [d s x p]. unfold header_members. cbn [th_Destination th_Snapshot th_Source th_Protocol].
  repeat case_decide; subst; reflexivity.
Qed.

Lemma header_roundtrip h : header_utf8 h → header_Unmarshal (header_Marshal h) = Ok h.
Proof.
  intros (Hd & Hs & Hx & Hp). rewrite header_Marshal_members.
  assert (Forall (λ kv, utf8_valid kv.1 = true ∧ utf8_valid kv.2 = true) (header_members h)) as Hl.
  { unfold header_members. apply Forall_cons. split; [done|]. rewrite !Forall_app.
    split; [case_decide; by repeat constructor|]. split; [case_decide; by repeat constructor|by repeat constructor]. }
  unfold header_Unmarshal, json_parse.
  assert (∀ n, (8 ≤ n)%nat → json_value n ("{" +:+ json_fields (header_members h) +:+ "}")
    = Some (JObject (prod_map id JString <$> header_members h), "")) as Hv.
  { intros [|n] Hn; [lia|]. cbn [json_value].
    change (skip_space ("{" +:+ json_fields (header_members h) +:+ "}"))
      with (String "{" (json_fields (header_members h) +:+ "}")). cbv beta iota zeta.
    rewrite decide_False by done. rewrite decide_True by done.
    assert (HasPrefix (skip_space (json_fields (header_members h) +:+ "}")) "}" = false) as ->.
    { unfold json_fields. change (header_members h) with (("destination", th_Destination h) :: drop 1 (header_members h)).
      by destruct (drop 1 (header_members h)). }
    rewrite json_fields_read; [done|by destruct h|done|].
    unfold header_members. repeat case_decide; cbn; lia. }
  rewrite Hv.
  2:{ rewrite !length_app_str. unfold json_fields.
      change (header_members h) with (("destination", th_Destination h) :: drop 1 (header_members h)).
      assert (8 ≤ String.length (json_field "destination" (th_Destination h)))%nat.
      { unfold json_field. rewrite length_app_str. change (String.length (json_string "destination")) with 13%nat. lia. }
      cbn [fmap list_fmap fst snd]. destruct (drop 1 (header_members h)); cbn [fmap list_fmap strings_Join];
        rewrite ?length_app_str; lia. }
  cbn [mbind option_bind]. rewrite decide_True; [by apply header_members_read|]. split; [done|].
  cbn [json_depth]. assert (∀ l : list (string * string),
    max_list ((λ kv, json_depth kv.2) <$> (prod_map id JString <$> l)) = 0%nat) as ->.
  { induction l as [|kv l IH]; [done|]. cbn. by rewrite IH. }
  unfold maxNestingDepth. lia.
Qed.

(** C33: the receiver reads the header the sender wrote.  The bytes of a header whose fields are UTF-8 are read back as that
    header, and what follows them on the connection is left for the transfer; a header that is written is never
    refused for its size. *)
Theorem transfer_header_roundtrip h data rest :
  header_utf8 h → writeTransferHeader h = Ok data → readTransferHeader (data +:+ rest) = Ok (h, rest).
Proof.
  intros Hh. unfold writeTransferHeader. case_decide as Hlen; [done|]. intros [= <-].
  assert (0 < strlen (header_Marshal h)) as Hpos.
  { unfold strlen, header_Marshal. rewrite length_app_str. cbn. lia. }
  assert (0 ≤ strlen (header_Marshal h) < 2 ^ 32) as Hw by (unfold maxTransferHeaderBytes in Hlen; lia).
  unfold readTransferHeader. rewrite str_app_assoc, <-(str_app_nil_r (put_uint32 _)), ReadFull_app by done. cbn [mbind result_bind].
  pose proof (get_put_uint32 (strlen (header_Marshal h)) "" Hw) as ->. rewrite decide_False by lia.
  rewrite ReadFull_app by (unfold strlen; lia). cbn [mbind result_bind]. by rewrite header_roundtrip.
Qed.

Lemma transfer_header_roundtrip_witness :
  ∃ data, readTransferHeader (data +:+ "@RSYNCD: 31.0") =
    Ok (MkTransferHeader ".partial/nightly/a&b" "" "" "rsync", "@RSYNCD: 31.0").
Proof.
  eexists. apply (transfer_header_roundtrip (MkTransferHeader ".partial/nightly/a&b" "" "" "rsync")).
  - apply (bool_decide_unpack _). by vm_compute.
  - by vm_compute.
Defined.

(** ** Exactly the headers that are read *)

Lemma lor_shifted x y n : 0 ≤ n → 0 ≤ x < 2 ^ n → 0 ≤ y → Z.lor x (Z.shiftl y n) = x + y * 2 ^ n.
Proof.
  intros Hn Hx Hy. rewrite <-Z.shiftl_mul_pow2 by done.
  assert (Z.land x (Z.shiftl y n) = 0) as Hl.
  { apply Z.bits_inj'. intros i Hi. rewrite Z.land_spec, Z.bits_0, Z.shiftl_spec by done.
    destruct (decide (i < n)).
    - rewrite (Z.testbit_neg_r y (i - n)) by lia. apply andb_false_r.
    - rewrite <-(Z.mod_small x (2 ^ n)) by done. rewrite Z.mod_pow2_bits_high by lia. done. }
  rewrite Z.add_nocarry_lxor by done. symmetry. by apply Z.lxor_lor.
Qed.

Lemma code_byte c : 0 ≤ Z.of_nat (code c) < 256.
Proof. unfold code. pose proof (nat_ascii_bounded c). lia. Qed.

(** Four bytes, the first one the highest. *)
Lemma get_uint32_sum a b c d s : get_uint32 (String a (String b (String c (String d s)))) =
  Z.of_nat (code a) * 2 ^ 24 + Z.of_nat (code b) * 2 ^ 16 + Z.of_nat (code c) * 2 ^ 8 + Z.of_nat (code d).
Proof.
  pose proof (code_byte a). pose proof (code_byte b). pose proof (code_byte c). pose proof (code_byte d).
  unfold get_uint32. rewrite (lor_shifted _ _ 8), (lor_shifted _ _ 16), (lor_shifted _ _ 24) by lia. lia.
Qed.

Lemma ReadFull_Ok n r x rest : ReadFull n r = Ok (x, rest) → r = x +:+ rest ∧ String.length x = n.
Proof.
  unfold ReadFull. case_decide as Hn; [|by case_decide]. intros [= <- <-]. revert r Hn.
  induction n as [|n IH]; intros [|c r]; cbn; [done..|lia|]. intros Hn. destruct (IH r ltac:(lia)) as [H1 H2].
  rewrite str_app_cons, <-H1, H2. done.
Qed.

(** C35: the receiver reads exactly the framed headers.  From the bytes that arrive it reads a header, and leaves a rest,
    if and only if they are four bytes that give, the highest first, the length of a text, that text, which is not empty
    and at most as long as a header may be and which is read as that header, and the rest.  So bytes that end
    early, a length of zero and one that is too large are refused, and no byte of the transfer is consumed with the header. *)
Theorem header_read_exactly r h rest :
  readTransferHeader r = Ok (h, rest) ↔
  ∃ a b c d data, r = String a (String b (String c (String d (data +:+ rest)))) ∧
    strlen data = Z.of_nat (code a) * 2 ^ 24 + Z.of_nat (code b) * 2 ^ 16 + Z.of_nat (code c) * 2 ^ 8 + Z.of_nat (code d) ∧
    0 < strlen data ≤ maxTransferHeaderBytes ∧ header_Unmarshal data = Ok h.
Proof.
  unfold readTransferHeader. split.
  - destruct (ReadFull 4 r) as [[size r1]|e] eqn:Hs; [|done]. cbn [mbind result_bind].
    apply ReadFull_Ok in Hs as [-> Hs]. case_decide as Hb; [done|].
    destruct (ReadFull _ r1) as [[data r2]|e] eqn:Hd; [|done]. cbn [mbind result_bind].
    apply ReadFull_Ok in Hd as [-> Hd]. destruct (header_Unmarshal data) as [h'|e] eqn:Hu; [|done].
    intros [= -> ->]. destruct size as [|a [|b [|c [|d [|]]]]]; try done. exists a, b, c, d, data.
    rewrite get_uint32_sum in Hb, Hd. pose proof (code_byte a). pose proof (code_byte b).
    pose proof (code_byte c). pose proof (code_byte d). unfold strlen. split_and!; [done|lia..|done].
  - intros (a & b & c & d & data & -> & Hlen & Hb & Hu).
    change (String a (String b (String c (String d (data +:+ rest))))) with (String a (String b (String c (String d ""))) +:+ (data +:+ rest)).
    rewrite ReadFull_app by done. cbn [mbind result_bind]. rewrite get_uint32_sum, <-Hlen.
    rewrite decide_False by lia. rewrite ReadFull_app by (unfold strlen; lia). cbn [mbind result_bind]. by rewrite Hu.
Qed.

(** Bytes that are not UTF-8 are replaced: such a header is not read back. *)
Example replaced_bytes :
  header_Unmarshal (header_Marshal (MkTransferHeader (bytes [255]%nat) "" "" "rsync"))
  = Ok (MkTransferHeader rune_error "" "" "rsync").
Proof. vm_compute. reflexivity. Qed.
