(* ===== verification/Daemon.v ===== *)
(** * The rsync daemon behind a transfer (internal/dataplane/transport.go)

    A target starts a local rsync daemon for a directory and proxies the rest of a sender's connection to it;
    a sender proxies its local rsync to the target.  This file has what the program does
    for that: the configuration and the start of the daemon, the attempts to reach it, the bridge of a sender,
    and how the end of the copying is taken.  What rsync does, and how the calls of packages net, os and exec
    end, is a parameter.  The law is that the daemon is told the directory it is started for, when the text of that
    directory has no byte with a meaning in the daemon's configuration. *)
From S2P Require Export Peers Text Wire LinkTree.
From stdpp Require Import options.
From Stdlib Require Import Ascii.

(** ** Addresses *)

Definition addr_error {A} (addr why : string) : result A := Err (ErrNew ("address " +:+ addr +:+ ": " +:+ why)).

(** [net.SplitHostPort] *)
Definition SplitHostPort (hostport : string) : result (string * string) :=
  match CutLast hostport ":" with
  | None => addr_error hostport "missing port in address"
  | Some (host, port) =>
      if HasPrefix hostport "[" then
        match Cut (drop_str 1 hostport) "]" with
        | None => addr_error hostport "missing ']' in address"
        | Some (inner, rest) =>
            if decide (rest = ":" +:+ port) then
              if ContainsByte (inner +:+ rest) "[" then addr_error hostport "unexpected '[' in address"
              else if ContainsByte rest "]" then addr_error hostport "unexpected ']' in address"
              else Ok (inner, port)
            else addr_error hostport (if HasPrefix rest ":" then "too many colons in address" else "missing port in address")
        end
      else if ContainsByte host ":" then addr_error hostport "too many colons in address"
      else if ContainsByte hostport "[" then addr_error hostport "unexpected '[' in address"
      else if ContainsByte hostport "]" then addr_error hostport "unexpected ']' in address"
      else Ok (host, port)
  end.

Example split_local : SplitHostPort "127.0.0.1:4000" = Ok ("127.0.0.1", "4000").
Proof. by vm_compute. Qed.
Example split_v6 : SplitHostPort "[::1]:4000" = Ok ("::1", "4000").
Proof. by vm_compute. Qed.

(** ** The configuration *)

(** For the process's user and group. *)
Definition rsyncDaemonConfig (euid egid : Z) (destinationRoot : string) (readOnly : bool) : string :=
  "use chroot = false" +:+ newline +:+ "numeric ids = yes" +:+ newline +:+
  (if decide (euid = 0) then "uid = 0" +:+ newline +:+ "gid = " +:+ Itoa egid +:+ newline else "") +:+
  "read only = " +:+ (if readOnly then "true" else "false") +:+ newline +:+ "list = false" +:+ newline +:+
  "[krm]" +:+ newline +:+ byte 9 +:+ "path = " +:+ destinationRoot +:+ newline.

(** A text that rsync reads as the value it was written as: without the bytes that end a line, the
    backslash that continues one, and the percent signs of its variables, and without a space at its end. *)
Definition config_byte (c : ascii) : bool :=
  byte_in 32 255 c && negb (bool_decide (c = "\"%char)) && negb (bool_decide (c = "%"%char)).
Definition config_value (s : string) : bool := all_bytes config_byte s && negb (HasSuffix s " ").

(** ** Starting and reaching it *)

Section Daemon.
Context `{!X509}.

(** A connection of the TLS listener: how its handshake ends, the certificates of the peer, and
    the bytes the peer sends. *)
Record Conn := MkConn {
  cn_Handshake : result unit;
  cn_PeerCertificates : list Certificate;
  cn_bytes : string
}.

(** How the calls end that start a daemon: looking for rsync in the PATH, a listener (its address), the file of the
    configuration (its name, writing and closing it), the process with its arguments, and each attempt to connect. *)
Record daemon_start := MkDaemonStart {
  ds_LookPath : result unit;
  ds_Listen : result string;
  ds_CreateTemp : result string;
  ds_WriteString : result unit;
  ds_Close : result unit;
  ds_Start : list string → result unit;
  ds_Dial : nat → result unit
}.

(** What is rsync's and the system's: the user and the group of the process, what starting a daemon for a
    connection meets, and what a daemon with a configuration does with the volume when it gets the bytes of a connection, with the
    end of the first of the two copies of the proxy. *)
Class RsyncTunnel := {
  Geteuid : Z;
  Getegid : Z;
  starting : Conn → daemon_start;
  daemon_serves : Conn → string → string → M unit
}.
Context `{!RsyncTunnel}.

(** The address of the daemon and the configuration it has.  The file is removed by the cleanup, and at
    every early return; it is not on the volume. *)
Definition startRsyncDaemon (start : daemon_start) (destinationRoot : string) (readOnly : bool) : result (string * string) :=
  _ ← map_err (wrap "rsync is required for rsync-over-mtls transfers: ") (ds_LookPath start);
  addr ← ds_Listen start;
  configPath ← ds_CreateTemp start;
  let config := rsyncDaemonConfig Geteuid Getegid destinationRoot readOnly in
  _ ← ds_WriteString start;
  _ ← ds_Close start;
  '(host, port) ← SplitHostPort addr;
  _ ← ds_Start start ["--daemon"; "--no-detach"; "--address=" +:+ host; "--port=" +:+ port; "--config=" +:+ configPath];
  Ok (addr, config).

(** Attempt [i], and [more] after it. *)
Fixpoint dial_from (dial : nat → result unit) (more i : nat) : result unit :=
  match dial i, more with
  | Ok _, _ => Ok tt
  | Err lastErr, O => Err (wrap "connect local rsync daemon: " lastErr)
  | Err _, S more => dial_from dial more (S i)
  end.

Definition dialRsyncDaemon (dial : nat → result unit) : result unit := dial_from dial 49 0.

(** The end of the first of the two copies is that of the proxy; a connection that the program closed is no error. *)
Definition proxyConns (first : result unit) : result unit :=
  match first with
  | Err e => if errors_is KClosed e then Ok tt else Err e
  | Ok _ => Ok tt
  end.

(** The daemon for a directory on a connection whose unread bytes are [rest]. *)
Definition tunnel (readOnly : bool) (conn : Conn) (rest destinationRoot : string) : M unit :=
  '(daemon, config) ← lift (startRsyncDaemon (starting conn) destinationRoot readOnly);
  _ ← lift (dialRsyncDaemon (ds_Dial (starting conn)));
  first ← try (daemon_serves conn config rest);
  lift (proxyConns first).

Definition receiveRsyncTunnel (conn : Conn) (rest destinationRoot : string) : M unit := tunnel false conn rest destinationRoot.

(** The end of [serveRestoreTransfer]. *)
Definition serveRsyncTunnel (conn : Conn) (rest sourceRoot : string) : M unit := tunnel true conn rest sourceRoot.

(** ** The bridge of a sender *)

(** What the bridge meets: the local rsync connects or the listener is closed, how the context ended when it did, the connection to the
    target, the write of the header, and the end of the first copy. *)
Record bridge_run := MkBridgeRun {
  br_Accept : result unit;
  br_ctx : option goerr;
  br_Dial : result unit;
  br_Write : result unit;
  br_copy : result unit
}.

(** [bridgeLocalRsyncToTarget] and [bridgeLocalRsyncFromTarget], for what they call the target and the header
    they send. *)
Definition bridge (connecting : string) (header : transferHeader) (run : bridge_run) : result unit :=
  match br_Accept run with
  | Err e => Err (default e (br_ctx run))
  | Ok _ =>
      _ ← map_err (wrap connecting) (br_Dial run);
      _ ← writeTransferHeader header;
      _ ← br_Write run;
      proxyConns (br_copy run)
  end.

Definition bridgeLocalRsyncToTarget (destination : string) (run : bridge_run) : result unit :=
  bridge "connect target receiver: " (MkTransferHeader destination "" "" transferProtocolRsync) run.

Definition bridgeLocalRsyncFromTarget (snapshot source : string) (run : bridge_run) : result unit :=
  bridge "connect restore target: " (MkTransferHeader "" snapshot source transferProtocolRsync) run.

(** ** Laws *)

(** A daemon that is reached has the configuration of its directory; nothing happens to the volume before. *)
Lemma tunnel_run readOnly conn rest root w r w' :
  tunnel readOnly conn rest root w = (r, w') →
  w' = w ∧ (∃ e, r = Err e) ∨
  ∃ first, daemon_serves conn (rsyncDaemonConfig Geteuid Getegid root readOnly) rest w = (first, w') ∧ r = proxyConns first.
Proof.
  unfold tunnel, lift. unfold mbind at 1, M_bind at 1. unfold startRsyncDaemon.
  destruct (ds_LookPath _) as [[]|]; cbn [map_err mbind result_bind]; [|intros [= <- <-]; left; eauto].
  destruct (ds_Listen _); cbn [mbind result_bind]; [|intros [= <- <-]; left; eauto].
  destruct (ds_CreateTemp _); cbn [mbind result_bind]; [|intros [= <- <-]; left; eauto].
  destruct (ds_WriteString _); cbn [mbind result_bind]; [|intros [= <- <-]; left; eauto].
  destruct (ds_Close _); cbn [mbind result_bind]; [|intros [= <- <-]; left; eauto].
  destruct (SplitHostPort _) as [[host port]|]; cbn [mbind result_bind]; [|intros [= <- <-]; left; eauto].
  destruct (ds_Start _ _); cbn [mbind result_bind]; [|intros [= <- <-]; left; eauto].
  unfold mbind at 1, M_bind at 1. destruct (dialRsyncDaemon _); [|intros [= <- <-]; left; eauto].
  unfold mbind, M_bind, try. destruct (daemon_serves _ _ _ w) as [first w1]. intros [= <- <-]. right. by exists first.
Qed.
End Daemon.

(** The configuration names its directory on the last line. *)
Lemma CutLast_app (a b : string) (c : ascii) : ContainsByte b c = false →
  CutLast (a +:+ String c b) c = Some (a, b).
Proof.
  intros Hb. assert (CutLast b c = None) as Hn.
  { clear a. induction b as [|d b IH]; [done|]. cbn in Hb |- *. apply orb_false_iff in Hb as [Hd Hb].
    rewrite IH by done. rewrite decide_False; [done|]. intros ->. by rewrite bool_decide_eq_false in Hd. }
  induction a as [|d a IH].
  - change ("" +:+ String c b) with (String c b). cbn [CutLast]. by rewrite Hn, decide_True.
  - change (String d a +:+ String c b) with (String d (a +:+ String c b)). cbn [CutLast]. by rewrite IH.
Qed.
