(* ===== verification/Transport.v ===== *)
(** * Transfers (internal/dataplane/transport.go, and the arguments of rsync.go)

    The receiver of a backup's sources and the server of a restore, over the file system of [FileSys]: whom
    they serve, where a transfer may write, how its directory is prepared, when the receiver is
    done.  What happens on a connection after its header is rsync's protocol, for which [Daemon] has the
    program's part.  Certificates are a parameter.  Also what the senders ask for: their header and the
    arguments of their rsync. *)
From S2P Require Export Daemon Rsync.
From stdpp Require Import options.
From Stdlib Require Import Ascii.

#[export] Instance Identity_countable : Countable Identity :=
  inj_countable' (λ i, (id_RunNamespace i, id_RunName i, id_Role i, id_Namespace i, id_Name i))
    (λ x, let '(a, b, c, d, e) := x in MkIdentity a b c d e) ltac:(by intros []).

Record ExpectedTransferSource := MkExpectedTransferSource {
  ets_Identity : Identity;
  ets_Destination : string
}.

Record ExpectedRestoreWriter := MkExpectedRestoreWriter {
  erw_Identity : Identity;
  erw_Snapshot : string;
  erw_Source : string
}.

Record TargetReceiverOptions := MkTargetReceiverOptions {
  tro_TargetRoot : string;
  tro_RunID : string;
  tro_Mirror : bool;
  tro_TLSBundle : Bundle;
  tro_Sources : list ExpectedTransferSource;
  tro_ContinueOnTransferError : bool
}.

Record RestoreTargetOptions := MkRestoreTargetOptions {
  rto_TargetRoot : string;
  rto_TLSBundle : Bundle;
  rto_Writer : ExpectedRestoreWriter
}.

(** ** Expected sources *)

(** One value of the flag [--source]: what the finalizer checks, and the transfer it announces. *)
Definition expected_of (runNamespace runName runID : string) (mirror : bool) (value : string) :
    result (string * list ExpectedTransferSource) :=
  '(sourceNamespace, sourceName, destination) ← parseSourceSpec value;
  finalizeDestination ← map_err (wrap ("invalid source destination " +:+ Quote destination +:+ ": "))
    (NormalizeTargetSubpath destination);
  if decide (sourceNamespace = "" ∨ sourceName = "") then Ok (finalizeDestination, [])
  else
    let transferDestination :=
      if mirror then if decide (finalizeDestination = "") then "." else finalizeDestination
      else path_Join [".partial"; runID; finalizeDestination] in
    Ok (finalizeDestination,
        [MkExpectedTransferSource (SourceIdentity runNamespace runName sourceNamespace sourceName) transferDestination]).

Definition ParseExpectedTransferSourcesWithStrategy (runNamespace runName runID : string) (mirror : bool)
    (values : list string) : result (list ExpectedTransferSource * list string) :=
  l ← map_result (expected_of runNamespace runName runID mirror) values;
  Ok (l ≫= snd, sort_Strings l.*1).

Definition ParseExpectedTransferSources (runNamespace runName runID : string) (values : list string) :
    result (list ExpectedTransferSource * list string) :=
  ParseExpectedTransferSourcesWithStrategy runNamespace runName runID false values.

(** ** Preparing a destination *)

Definition seedPartialDestination (root destination : string) : M bool :=
  destination ← on_err (wrap "invalid destination: ") (lift (NormalizeRelativePath destination));
  let partialPrefix := ".partial" in
  if bool_decide (destination ≠ partialPrefix) && negb (HasPrefix destination (partialPrefix +:+ "/"))
  then throw (ErrNew ("destination " +:+ Quote destination +:+ " is not under .partial"))
  else
    match Split destination slash with
    | p0 :: p1 :: rest =>
        if decide (rest = [] ∨ p0 ≠ ".partial" ∨ p1 = "")
        then throw (ErrNew ("destination " +:+ Quote destination +:+ " must be under .partial/<run>"))
        else
          let latestSource := path_Join [root; "latest"; strings_Join rest "/"] in
          let destinationRoot := path_Join [root; destination] in
          _ ← lift (ensureInside root destinationRoot);
          _ ← lift (ensureInside root latestSource);
          _ ← RemoveAll destinationRoot;
          r ← try (Stat latestSource);
          match r with
          | Ok info =>
              if negb (IsDir info)
              then throw (ErrNew ("latest source " +:+ latestSource +:+ " is not a directory"))
              else
                r ← try (linkTree latestSource destinationRoot);
                match r with
                | Err e => _ ← try (RemoveAll destinationRoot); throw (wrap "seed destination from latest: " e)
                | Ok _ => mret true
                end
          | Err e =>
              if negb (errors_is KNotExist e) then throw e
              else _ ← MkdirAll destinationRoot; mret false
          end
    | _ => throw (ErrNew ("destination " +:+ Quote destination +:+ " must be under .partial/<run>"))
    end.

Definition prepareTransferDestination (root destination : string) (mirror : bool) : M bool :=
  if negb mirror then seedPartialDestination root destination
  else
    destination ← on_err (wrap "invalid destination: ") (lift (NormalizeTargetSubpath destination));
    let destinationRoot := path_Join [root; destination] in
    _ ← lift (ensureInside root destinationRoot);
    _ ← MkdirAll destinationRoot;
    mret false.

(** ** Connections *)

Section Transport.
Context `{!X509}.

Context `{!RsyncTunnel}.

(** The transfer of a sender that was recognised. *)
Definition receive_from (root : string) (mirror : bool) (conn : Conn) (identity : Identity)
    (expectedDestination : string) : M unit :=
  '(header, rest) ← lift (readTransferHeader (cn_bytes conn));
  destination ← on_err (wrap "invalid sender destination: ") (lift (NormalizeTargetSubpath (th_Destination header)));
  if decide (destination ≠ expectedDestination)
  then throw (ErrNew ("sender " +:+ URI identity +:+ " requested destination " +:+ Quote destination +:+
                      ", expected " +:+ Quote expectedDestination))
  else
    let destinationRoot := path_Join [root; destination] in
    _ ← prepareTransferDestination root destination mirror;
    if decide (th_Protocol header ≠ transferProtocolRsync)
    then throw (ErrNew ("unsupported transfer protocol " +:+ Quote (th_Protocol header)))
    else receiveRsyncTunnel conn rest destinationRoot.

(** [receiveTransfer]: the identity of the sender, with an error. *)
Definition receiveTransfer (root : string) (expected : gmap Identity string) (conn : Conn) (mirror : bool) :
    M (partial Identity) :=
  match cn_Handshake conn, peerIdentity (cn_PeerCertificates conn) with
  | Err e, _ | Ok _, Err e => mret (zero_identity, Some e)
  | Ok _, Ok identity =>
      match expected !! identity with
      | None => mret (identity, Some (ErrNew ("unexpected sender identity " +:+ URI identity)))
      | Some expectedDestination =>
          r ← try (receive_from root mirror conn identity expectedDestination);
          mret (identity, match r with Ok _ => None | Err e => Some e end)
      end
  end.

(** One turn of the loop of [ServeTargetReceiver], for what [Accept] returned: the senders that are complete after it. *)
Definition receive_step (root : string) (expected : gmap Identity string) (mirror continue : bool)
    (accepted : result Conn) (completed : gset Identity) : M (gset Identity) :=
  match accepted with
  | Err e => throw e
  | Ok conn =>
      '(identity, err) ← receiveTransfer root expected conn mirror;
      match err with
      | Some e => if continue then mret completed else throw e
      | None => mret ({[identity]} ∪ completed)
      end
  end.

(** The loop over what [Accept] returns: each connection is handled before the next one is accepted.  No result means that
    the receiver waits for another connection. *)
Fixpoint receive_loop (root : string) (expected : gmap Identity string) (mirror continue : bool)
    (accepts : list (result Conn)) (completed : gset Identity) : M (option unit) :=
  if decide (size completed < size expected)%nat then
    match accepts with
    | [] => mret None
    | accepted :: rest =>
        completed ← receive_step root expected mirror continue accepted completed;
        receive_loop root expected mirror continue rest completed
    end
  else mret (Some tt).

(** The destination of each sender; the last one that is listed, when it is listed twice. *)
Fixpoint expected_destinations (sources : list ExpectedTransferSource) (expected : gmap Identity string) :
    result (gmap Identity string) :=
  match sources with
  | [] => Ok expected
  | source :: rest =>
      if decide (ets_Identity source = zero_identity) then Err (ErrNew "source identity is required")
      else
        destination ← map_err (wrap ("invalid destination for " +:+ URI (ets_Identity source) +:+ ": "))
                        (NormalizeTargetSubpath (ets_Destination source));
        expected_destinations rest (<[ets_Identity source := destination]> expected)
  end.

(** The part before the loop: nothing, when no sender is expected, or the root and the destinations. *)
Definition open_receiver (opts : TargetReceiverOptions) : M (option (string * gmap Identity string)) :=
  if decide (tro_TargetRoot opts = "" ∨ tro_RunID opts = "")
  then throw (ErrNew "target root and run id are required")
  else if decide (tro_Sources opts = []) then mret None
  else
    root ← Abs (tro_TargetRoot opts);
    expected ← lift (expected_destinations (tro_Sources opts) ∅);
    _ ← lift (TLSConfig (tro_TLSBundle opts) zero_identity "");
    mret (Some (root, expected)).

Definition ServeTargetReceiver (accepts : list (result Conn)) (opts : TargetReceiverOptions) : M (option unit) :=
  opened ← open_receiver opts;
  match opened with
  | None => mret (Some tt)
  | Some (root, expected) =>
      receive_loop root expected (tro_Mirror opts) (tro_ContinueOnTransferError opts) accepts ∅
  end.

(** ** Serving a restore *)

Definition pathForError (parts : list string) : string := strings_Join parts "/".

Definition serveRestoreTransfer (root : string) (expected : ExpectedRestoreWriter) (conn : Conn) : M unit :=
  _ ← lift (cn_Handshake conn);
  identity ← lift (peerIdentity (cn_PeerCertificates conn));
  if decide (identity ≠ erw_Identity expected)
  then throw (ErrNew ("unexpected restore writer identity " +:+ URI identity))
  else
    '(header, rest) ← lift (readTransferHeader (cn_bytes conn));
    snapshot ← on_err (wrap "invalid requested restore snapshot: ") (lift (NormalizeRelativePath (th_Snapshot header)));
    source ← on_err (wrap "invalid requested restore source: ") (lift (NormalizeTargetSubpath (th_Source header)));
    if decide (snapshot ≠ erw_Snapshot expected ∨ source ≠ erw_Source expected)
    then throw (ErrNew ("restore writer requested " +:+ Quote snapshot +:+ "/" +:+ Quote source +:+ ", expected " +:+
                        Quote (erw_Snapshot expected) +:+ "/" +:+ Quote (erw_Source expected)))
    else
      let sourceRoot := if decide (snapshot = "current") then path_Join [root; source]
                        else path_Join [root; snapshot; source] in
      let shown := Quote (pathForError [snapshot; source]) in
      _ ← lift (ensureInside root sourceRoot);
      info ← on_err (λ e, ErrWrap ("restore source " +:+ shown +:+ " is not accessible: ") e "") (Stat sourceRoot);
      if negb (IsDir info) then throw (ErrNew ("restore source " +:+ shown +:+ " is not a directory"))
      else if decide (th_Protocol header ≠ transferProtocolRsync)
      then throw (ErrNew ("unsupported restore transfer protocol " +:+ Quote (th_Protocol header)))
      else serveRsyncTunnel conn rest sourceRoot.

(** [accepted] is what the one call of [Accept] returns; no result means that the server waits for it. *)
Definition ServeRestoreTarget (accepted : option (result Conn)) (opts : RestoreTargetOptions) : M (option unit) :=
  if decide (rto_TargetRoot opts = "") then throw (ErrNew "target root is required")
  else if decide (erw_Identity (rto_Writer opts) = zero_identity)
  then throw (ErrNew "restore writer identity is required")
  else
    snapshot ← on_err (wrap "invalid restore snapshot: ") (lift (NormalizeRelativePath (erw_Snapshot (rto_Writer opts))));
    source ← on_err (wrap "invalid restore source: ") (lift (NormalizeTargetSubpath (erw_Source (rto_Writer opts))));
    root ← Abs (rto_TargetRoot opts);
    _ ← lift (TLSConfig (rto_TLSBundle opts) zero_identity "");
    match accepted with
    | None => mret None
    | Some (Err e) => throw e
    | Some (Ok conn) =>
        _ ← serveRestoreTransfer root (MkExpectedRestoreWriter (erw_Identity (rto_Writer opts)) snapshot source) conn;
        mret (Some tt)
    end.
End Transport.

(** ** Senders *)

Record SourceSenderOptions := MkSourceSenderOptions {
  sso_Source : string;
  sso_Destination : string;
  sso_TargetEndpoint : string;
  sso_TLSBundle : Bundle;
  sso_ExpectedTarget : Identity;
  sso_Delete : bool;
  sso_OneFileSystem : bool;
  sso_DryRun : bool
}.

Record RestoreWriterOptions := MkRestoreWriterOptions {
  rwo_Destination : string;
  rwo_Snapshot : string;
  rwo_Source : string;
  rwo_TargetEndpoint : string;
  rwo_TLSBundle : Bundle;
  rwo_ExpectedTarget : Identity;
  rwo_Delete : bool;
  rwo_OneFileSystem : bool;
  rwo_DryRun : bool
}.

Definition rsyncTunnelClientArgs (opts : SourceSenderOptions) (bridgeAddr : string) : list string :=
  rsyncArgs (MkDpRsyncOptions "" "" (sso_Delete opts) (sso_OneFileSystem opts) false) ++
  [with_slash (sso_Source opts); "rsync://" +:+ bridgeAddr +:+ "/krm/"].

Definition rsyncRestoreClientArgs (opts : RestoreWriterOptions) (bridgeAddr : string) : list string :=
  rsyncArgs (MkDpRsyncOptions "" "" (rwo_Delete opts) (rwo_OneFileSystem opts) false) ++
  ["rsync://" +:+ bridgeAddr +:+ "/krm/"; with_slash (rwo_Destination opts)].

Section Senders.
Context `{!X509}.

(** What a sender does when its checks pass: it prints a line, or connects to the target with a TLS
    configuration, sends a header and proxies a local rsync. *)
Inductive sending :=
  | PrintLine (line : string)
  | Tunnel (config : tls_Config) (header : transferHeader).

Definition sendSourceRsyncTunnel (opts : SourceSenderOptions) : result sending :=
  config ← TLSConfig (sso_TLSBundle opts) (sso_ExpectedTarget opts) "";
  Ok (Tunnel config (MkTransferHeader (sso_Destination opts) "" "" transferProtocolRsync)).

(** Without the creation of the local destination. *)
Definition receiveRestoreRsyncTunnel (opts : RestoreWriterOptions) (snapshot source : string) : result sending :=
  config ← TLSConfig (rwo_TLSBundle opts) (rwo_ExpectedTarget opts) "";
  Ok (Tunnel config (MkTransferHeader "" snapshot source transferProtocolRsync)).

(** [lookPath] is how looking for rsync in the PATH ends. *)
Definition SendSource (lookPath : result unit) (opts : SourceSenderOptions) : result sending :=
  if decide (sso_Source opts = "" ∨ sso_Destination opts = "" ∨ sso_TargetEndpoint opts = "")
  then Err (ErrNew "source, destination, and target endpoint are required")
  else
    _ ← map_err (wrap "invalid destination: ") (NormalizeTargetSubpath (sso_Destination opts));
    if sso_DryRun opts
    then Ok (PrintLine ("rsync-over-mtls source=" +:+ Quote (sso_Source opts) +:+ " targetEndpoint=" +:+
                    Quote (sso_TargetEndpoint opts) +:+ " destination=" +:+ Quote (sso_Destination opts) +:+ newline))
    else
      _ ← map_err (wrap "rsync is required for source transfers: ") lookPath;
      sendSourceRsyncTunnel opts.

Definition ReceiveRestore (lookPath : result unit) (opts : RestoreWriterOptions) : result sending :=
  if decide (rwo_Destination opts = "" ∨ rwo_Snapshot opts = "" ∨ rwo_Source opts = "" ∨ rwo_TargetEndpoint opts = "")
  then Err (ErrNew "destination, snapshot, source, and target endpoint are required")
  else
    snapshot ← map_err (wrap "invalid restore snapshot: ") (NormalizeRelativePath (rwo_Snapshot opts));
    source ← map_err (wrap "invalid restore source: ") (NormalizeTargetSubpath (rwo_Source opts));
    if rwo_DryRun opts
    then Ok (PrintLine ("krm-restore targetEndpoint=" +:+ Quote (rwo_TargetEndpoint opts) +:+ " snapshot=" +:+ Quote snapshot +:+
                    " source=" +:+ Quote source +:+ " destination=" +:+ Quote (rwo_Destination opts) +:+ newline))
    else
      _ ← map_err (wrap "rsync is required for restore transfers: ") lookPath;
      receiveRestoreRsyncTunnel opts snapshot source.
End Senders.
