(* ===== verification/TransportLaws.v ===== *)
(** * The laws of transfers

    The directory of a transfer starts as a hard-linked copy of what the latest snapshot has for it,
    whatever was there before; the receiver ends when every expected sender has transferred; a connection
    sets off nothing but the preparation of its sender's own directory and a daemon on it; and what goes wrong when
    one destination is inside another one. *)
From S2P Require Export Transport.
From stdpp Require Import options.
From Stdlib Require Import Ascii.

(** ** The latest snapshot *)

(** No symbolic link on the way from [p] along [rest]. *)
Definition straight (m : gmap fpath node) (p rest : fpath) : Prop :=
  ∀ j t, j ≠ [] → below j rest → m !! (p ++ j) ≠ Some (Symlink t).

(** Without links on the way, the budget for links does not matter. *)
Lemma walk_straight l1 l2 m follow cur rest : ".." ∉ rest →
  (∀ j t, j ≠ [] → below j rest → m !! (cur ++ j) = Some (Symlink t) → j = rest ∧ follow = false) →
  walk l1 m follow cur rest = walk l2 m follow cur rest.
Proof.
  revert cur. induction rest as [|x rest IH]; intros cur Hdd Hs; rewrite (walk_go l1), (walk_go l2); [done|].
  apply not_elem_of_cons in Hdd as [Hx%not_eq_sym Hdd]. rewrite !(decide_False (P := x = "..")) by done.
  destruct (m !! (cur ++ [x])) as [n|] eqn:Hn; [|done]. destruct n as [| |t|]; [|done| |done].
  - apply IH; [done|]. intros j t Hj [k Hk]. rewrite <-(assoc_L (++)). intros Hl.
    destruct (Hs ([x] ++ j) t) as [He ->]; [done|exists k; by rewrite Hk|done|]. by injection He as <-.
  - destruct (Hs [x] t) as [He ->]; [done|by exists rest|done|]. injection He as <-. by rewrite !decide_True.
Qed.

(** Something else than a directory is in the way of a path, or nothing is there. *)
Lemma look_nothing w p rest :
  wf_tree (w_nodes w) → w_nodes w !! p = Some Dir → Forall plain_seg rest → straight (w_nodes w) p rest →
  w_nodes w !! (p ++ rest) = None →
  (free (w_nodes w) p rest ∧
   look w true (p ++ rest) = Err (ErrSys KNotExist "no such file or directory")) ∨
  (¬ free (w_nodes w) p rest ∧ look w true (p ++ rest) = Err (ErrSys KNotDir "not a directory")).
Proof.
  intros Hwf. revert p. induction rest as [|x rest IH]; intros p Hp; [rewrite (right_id_L [] (++)); congruence|].
  intros [Hx Hr]%Forall_cons Hs Hn.
  destruct (w_nodes w !! (p ++ [x])) as [n|] eqn:Hpx.
  - destruct (decide (n = Dir)) as [->|Hnd].
    + assert ((p ++ [x]) ++ rest = p ++ x :: rest) as Happ by by rewrite <-(assoc_L (++)).
      destruct (IH (p ++ [x]) Hpx Hr) as [[Hf Hl]|[Hf Hl]].
      * intros j t Hj [k ->]. rewrite <-(assoc_L (++)). apply Hs; [done|by exists k].
      * by rewrite Happ.
      * left. rewrite Happ in Hl. split; [|done]. intros [|y j] Hj [k Hk]; [done|]. injection Hk as <- Hk.
        destruct (decide (j = [])) as [->|Hj']; [by right|].
        change (x :: j) with ([x] ++ j). rewrite (assoc_L (++)). apply Hf; [done|by exists k].
      * right. rewrite Happ in Hl. split; [|done]. intros Hfree. apply Hf. intros j Hj [k ->].
        rewrite <-(assoc_L (++)). apply (Hfree ([x] ++ j)); [done|by exists k].
    + right. split.
      { intros Hf. destruct (Hf [x]) as [?|?]; [done|by exists rest|congruence|congruence]. }
      unfold look. rewrite resolve_from_dir by done. rewrite walk_go. destruct Hx as (_ & _ & Hx & _).
      rewrite (decide_False (P := x = "..")) by done. rewrite Hpx.
      assert (rest ≠ []) as Hne by (intros ->; congruence).
      destruct n as [| |t|]; [done|by rewrite decide_False| |by rewrite decide_False].
      by destruct (Hs [x] t); [|exists rest|].
  - left. assert (free (w_nodes w) p (x :: rest)) as Hf.
    { intros [|y j] Hj [k Hk]; [done|]. injection Hk as <- Hk. left.
      change (x :: j) with ([x] ++ j). rewrite (assoc_L (++)). by apply wf_below_None. }
    split; [done|]. apply look_free; [done|done|by apply Forall_cons|done|done].
Qed.

Section latest.
Context (R : fpath) (w : world) (H : target R w).
Context (tier y : string) (Ht : tier ∈ tiers) (Hy : plain_seg y).
Context (Hlatest : w_nodes w !! (R ++ ["latest"]) = Some (Symlink (snap_name tier y))).

Lemma snapshot_straight rest follow :
  (∀ j t, j ≠ [] → below j rest → w_nodes w !! (R ++ tier :: y :: j) = Some (Symlink t) → j = rest ∧ follow = false) →
  ∀ j t, j ≠ [] → below j (tier :: y :: rest) → w_nodes w !! (R ++ j) = Some (Symlink t) →
    j = tier :: y :: rest ∧ follow = false.
Proof using H Ht.
  intros Hs j t Hj [k Hk] Hn. destruct j as [|a [|b j]]; [done|..].
  - injection Hk as <- _. destruct (tg_tier R w H tier Ht); congruence.
  - injection Hk as <- <- Hk. destruct (decide (j = [])) as [->|Hne]; [by destruct (tg_snap R w H tier y t Ht)|].
    destruct (Hs j t Hne) as [-> ->]; [by exists k|done|done].
Qed.

(** A path through [latest] is a path through the snapshot it names. *)
Lemma look_through_latest rest follow :
  Forall plain_seg rest → rest ≠ [] ∨ follow = true →
  (∀ j t, j ≠ [] → below j rest → w_nodes w !! (R ++ tier :: y :: j) = Some (Symlink t) → j = rest ∧ follow = false) →
  look w follow (R ++ "latest" :: rest) = look w follow (R ++ tier :: y :: rest).
Proof using H Ht Hy Hlatest.
  intros Hp Hrest Hs. unfold look.
  assert (resolve w follow (R ++ "latest" :: rest) = resolve w follow (R ++ tier :: y :: rest)) as ->; [|done].
  destruct (tier_plain tier Ht) as [Htp _].
  rewrite !resolve_from_dir by (apply H). rewrite walk_go. rewrite decide_False by done. rewrite Hlatest.
  rewrite decide_False by naive_solver. cbn [max_links].
  assert (target_segs R (snap_name tier y) = (R, [tier; y])) as ->.
  { unfold target_segs, snap_name. rewrite Join_plain_rel, kept_segs_Join by (done || by apply plain_two). done. }
  change ([tier; y] ++ rest) with (tier :: y :: rest). apply walk_straight.
  - apply plain_not_dotdot. apply Forall_cons. split; [done|]. by apply Forall_cons.
  - by apply snapshot_straight.
Qed.
End latest.

(** ** Preparing a destination *)

(** A path that [NormalizeRelativePath] keeps. *)
Definition clean_path (p : fpath) : Prop :=
  p ≠ [] ∧ Forall plain_seg p ∧ ContainsByte (strings_Join p "/") backslash = false.
#[export] Instance clean_path_dec p : Decision (clean_path p).
Proof. unfold clean_path. apply _. Defined.

Lemma NormalizeRelativePath_clean p : clean_path p →
  NormalizeRelativePath (strings_Join p "/") = Ok (strings_Join p "/").
Proof. intros (? & ? & ?). by apply NormalizeRelativePath_normal. Qed.

(** Where the latest snapshot has the directory [rest], from the root of the volume. *)
Definition latest_source (m : gmap fpath node) (R rest : fpath) : option fpath :=
  match m !! (R ++ ["latest"]) with
  | Some (Symlink t) => Some (kept_segs t ++ rest)
  | _ => None
  end.

Lemma latest_source_spec R w rest : target R w →
  (latest_source (w_nodes w) R rest = None ∧ w_nodes w !! (R ++ ["latest"]) = None) ∨
  ∃ tier y, tier ∈ tiers ∧ plain_seg y ∧ w_nodes w !! (R ++ ["latest"]) = Some (Symlink (snap_name tier y)) ∧
    latest_source (w_nodes w) R rest = Some (tier :: y :: rest).
Proof.
  intros H. unfold latest_source. destruct (w_nodes w !! (R ++ ["latest"])) as [n|] eqn:Hn; [|by left].
  right. destruct (tg_latest R w H n Hn) as (tier & y & Ht & Hy & _ & ->). exists tier, y.
  destruct (tier_plain tier Ht) as [Htp _]. rewrite kept_segs_Join by (done || by apply plain_two). done.
Qed.

Lemma tier_not_partial tier : tier ∈ tiers → tier ≠ ".partial".
Proof. intros Ht ->. unfold tiers in Ht. set_solver. Qed.

(** What is outside [.partial] makes a target. *)
Lemma target_same R w w' : target R w → calm w' → wf_tree (w_nodes w') → w_nodes w' !! R = Some Dir →
  (∀ a q, a ≠ ".partial" → w_nodes w' !! (R ++ a :: q) = w_nodes w !! (R ++ a :: q)) → target R w'.
Proof.
  intros H Hc Hwf HR Hs. split; [done..| | |].
  - intros tier Ht. rewrite Hs by by apply tier_not_partial. by apply H.
  - intros tier y t Ht. rewrite Hs by by apply tier_not_partial. by apply H.
  - intros n. rewrite Hs by done. apply H.
Qed.

Section seed.
Context (R : fpath) (run : string) (more : fpath) (x : string).

Definition partial_path (rest : fpath) : fpath := ".partial" :: run :: rest.
Let dst : fpath := R ++ partial_path (more ++ [x]).

(** The destination is below directories that are there or missing, and nothing on the way to what the latest
    snapshot has for it is a link. *)
Record seedable (w : world) : Prop := {
  sd_target : target R w;
  sd_free : free (w_nodes w) R (partial_path more);
  sd_straight : ∀ tier y, w_nodes w !! (R ++ ["latest"]) = Some (Symlink (snap_name tier y)) →
    straight (w_nodes w) (R ++ [tier; y]) (more ++ [x])
}.

Context (Hclean : clean_path (partial_path (more ++ [x]))).

Lemma partial_clean : Forall plain_seg (partial_path more) ∧ plain_seg x ∧ plain_seg run.
Proof using Hclean.
  destruct Hclean as (_ & Hp & _). unfold partial_path in *. rewrite !Forall_cons, Forall_app, Forall_singleton in Hp.
  rewrite !Forall_cons. naive_solver.
Qed.

Lemma dst_split : dst = R ++ partial_path more ++ [x].
Proof using. done. Qed.

(** Nothing of the volume outside [.partial] is below the destination. *)
Lemma dst_apart a q : a ≠ ".partial" → ¬ below dst (R ++ a :: q).
Proof using.
  intros Ha [k Hk]. unfold dst in Hk. rewrite <-(assoc_L (++)) in Hk. apply app_inv_head in Hk. by injection Hk.
Qed.

Lemma dst_apart_self a q : a ≠ ".partial" → ¬ below (R ++ a :: q) dst.
Proof using.
  intros Ha [k Hk]. unfold dst in Hk. rewrite <-(assoc_L (++)) in Hk. apply app_inv_head in Hk.
  by injection Hk as Hk _.
Qed.

(** After the removal. *)
Definition cleared (w : world) : world := set_nodes (remove_below dst (w_nodes w)) w.

Lemma cleared_lookup w q : w_nodes (cleared w) !! q = if decide (below dst q) then None else w_nodes w !! q.
Proof using. unfold cleared. by rewrite set_nodes_nodes, lookup_remove_below. Qed.

Lemma cleared_apart w a q : a ≠ ".partial" → w_nodes (cleared w) !! (R ++ a :: q) = w_nodes w !! (R ++ a :: q).
Proof using. intros Ha. rewrite cleared_lookup, decide_False; [done|]. by apply dst_apart. Qed.

Lemma cleared_self w : w_nodes (cleared w) !! R = w_nodes w !! R.
Proof using.
  rewrite cleared_lookup, decide_False; [done|]. intros [k Hk]. apply (f_equal length) in Hk.
  unfold dst in Hk. rewrite !length_app in Hk. cbn in Hk. lia.
Qed.

Lemma cleared_target w : target R w → target R (cleared w).
Proof using.
  intros H. apply (target_same R w); [done| | | |].
  - apply set_nodes_calm, H.
  - unfold cleared. rewrite set_nodes_nodes. apply wf_remove_below; [by destruct R|apply H].
  - rewrite cleared_self. apply H.
  - intros a q Ha. by apply cleared_apart.
Qed.

Lemma cleared_seedable w : seedable w → seedable (cleared w).
Proof using.
  intros H. split; [apply cleared_target, H| |].
  - intros j Hj Hb. rewrite cleared_lookup. case_decide; [by left|]. by apply (sd_free w H).
  - intros tier y. rewrite cleared_apart by done. intros Hl j t Hj Hb. rewrite cleared_lookup.
    case_decide; [done|]. by apply (sd_straight w H).
Qed.

Definition dst_path : fpath := dst.
Let lit : fpath := R ++ "latest" :: more ++ [x].

Lemma path_Join_3_abs_str p a rest : Forall plain_seg p → plain_seg a → rest ≠ [] → Forall plain_seg rest →
  path_Join [abs_str p; a; strings_Join rest "/"] = abs_str (p ++ a :: rest).
Proof using.
  intros Hp Ha Hne Hrest. rewrite path_Join_3; [|by destruct p|by apply plain_seg_nil_app|by apply Join_plain_nonempty].
  change [a; strings_Join rest "/"] with ([a] ++ [strings_Join rest "/"]).
  replace (strings_Join ([a] ++ [strings_Join rest "/"]) "/") with (strings_Join (a :: rest) "/")
    by (by rewrite Join_cons).
  apply path_Join_abs_str; [done|done|by apply Forall_cons].
Qed.

(** What follows the removal of what was there. *)
Definition seed_rest : M bool :=
  r ← try (Stat (abs_str lit));
  match r with
  | Ok info =>
      if negb (IsDir info)
      then throw (ErrNew ("latest source " +:+ abs_str lit +:+ " is not a directory"))
      else
        r ← try (linkTree (abs_str lit) (abs_str dst));
        match r with
        | Err e => _ ← try (RemoveAll (abs_str dst)); throw (wrap "seed destination from latest: " e)
        | Ok _ => mret true
        end
  | Err e => if negb (errors_is KNotExist e) then throw e else _ ← MkdirAll (abs_str dst); mret false
  end.

Lemma seed_start w : target R w → free (w_nodes w) R (partial_path more) →
  seedPartialDestination (abs_str R) (strings_Join (partial_path (more ++ [x])) "/") w =
  seed_rest (cleared w).
Proof using Hclean.
  intros H Hf. pose proof partial_clean as (Hpm & Hx & Hrun).
  assert (Forall plain_seg R) as HR by by apply (tg_plain R w).
  assert (more ++ [x] ≠ []) as Hne by by destruct more.
  pose proof Hpm as Hm. unfold partial_path in Hm. rewrite !Forall_cons in Hm. destruct Hm as (_ & _ & Hm).
  assert (Forall plain_seg (more ++ [x])) as Hmx by by rewrite Forall_app, Forall_singleton.
  assert (Forall plain_seg (partial_path (more ++ [x]))) as Hpx by apply Hclean.
  unfold seedPartialDestination.
  erewrite run_bind by (apply run_on_err; unfold lift; by rewrite NormalizeRelativePath_clean).
  assert (strings_Join (partial_path (more ++ [x])) "/" = ".partial/" +:+ strings_Join (run :: more ++ [x]) "/") as Hj.
  { unfold partial_path. by rewrite Join_cons. }
  assert (HasPrefix (strings_Join (partial_path (more ++ [x])) "/") (".partial" +:+ "/") = true) as ->.
  { rewrite Hj. apply HasPrefix_app. }
  rewrite andb_false_r. rewrite Split_Join_plain by done.
  unfold partial_path at 1. cbv zeta.
  rewrite decide_False by (intros [?|[?|?]]; [done|done|by destruct Hrun]).
  rewrite path_Join_3_abs_str by done. rewrite (path_Join_abs_str R (partial_path (more ++ [x]))) by done.
  fold lit. change (R ++ partial_path (more ++ [x])) with dst.
  assert (∀ l, l ≠ [] → Forall plain_seg l → ensureInside (abs_str R) (abs_str (R ++ l)) = Ok tt) as Hin.
  { intros l Hl Hpl. rewrite <-(path_Join_abs_str R l) by done. by apply (ensureInside_normalized _ R). }
  erewrite run_lift by by apply Hin. erewrite run_lift by (apply Hin; [done|by apply Forall_cons]).
  erewrite run_bind; [reflexivity|]. by apply (RemoveAll_free w R (partial_path more) x); [apply H|apply H|apply H|..].
Qed.

Definition failed {A} (r : result A) : Prop := match r with Err _ => True | Ok _ => False end.

(** Making the destination, and what is below it. *)
Lemma seed_empty w : seedable w →
  let m' := mkdirs R (partial_path (more ++ [x])) (w_nodes (cleared w)) in
  MkdirAll (abs_str dst) (cleared w) = (Ok tt, set_nodes m' w) ∧ wf_tree m' ∧
  (∀ q, ¬ below dst q → m' !! q = if decide (made R (partial_path more) q) then Some Dir else w_nodes w !! q) ∧
  ∀ k, m' !! (dst ++ k) = if decide (k = []) then Some Dir else None.
Proof using Hclean.
  intros H m'. pose proof (cleared_seedable w H) as [H1 Hf1 _]. pose proof partial_clean as (Hpm & Hx & _).
  assert (Forall plain_seg (partial_path (more ++ [x]))) as Hpx by apply Hclean.
  assert (free (w_nodes (cleared w)) R (partial_path (more ++ [x]))) as Hfx.
  { intros j Hj Hb. change (partial_path (more ++ [x])) with (partial_path more ++ [x]) in Hb.
    apply below_snoc in Hb as [Hb| ->]; [by apply Hf1|]. left.
    rewrite cleared_lookup, decide_True; [done|apply below_refl]. }
  split; [|split; [|split]].
  - unfold dst. rewrite MkdirAll_app; [|apply H1|apply H1|apply H1|done|done].
    unfold m', cleared. by rewrite set_nodes_set_nodes.
  - apply wf_mkdirs; [apply H1|apply H1|done|done].
  - intros q Hq. unfold m'. rewrite lookup_mkdirs. unfold made. rewrite cleared_lookup, (decide_False (P := below dst q)) by done.
    change (partial_path (more ++ [x])) with (partial_path more ++ [x]).
    apply decide_ext. rewrite (assoc_L (++) R), below_snoc, <-(assoc_L (++) R).
    change (R ++ partial_path more ++ [x]) with dst. split; [|naive_solver].
    intros (? & ? & [?| ->]); [done|]. destruct Hq. apply below_refl.
  - intros k. unfold m'. rewrite lookup_mkdirs, cleared_lookup, (decide_True (P := below dst _)) by apply below_app.
    apply decide_ext. unfold dst. rewrite <-(assoc_L (++)), made_app. split.
    + intros [_ [j Hj]]. rewrite <-(assoc_L (++)) in Hj.
      destruct k; [done|]. apply (f_equal length) in Hj. rewrite !length_app in Hj. cbn in Hj. lia.
    + intros ->. rewrite (right_id_L [] (++)). split; [done|apply below_refl].
Qed.

(** The path through [latest] leads to the source, in every world that looks the same outside [.partial]. *)
Lemma latest_reach w src w' k follow n : seedable w → latest_source (w_nodes w) R (more ++ [x]) = Some src →
  target R w' → (∀ a q, a ≠ ".partial" → w_nodes w' !! (R ++ a :: q) = w_nodes w !! (R ++ a :: q)) →
  w_nodes w !! ((R ++ src) ++ k) = Some n → (∀ t, n = Symlink t → follow = false) →
  look w' follow (lit ++ k) = Ok ((R ++ src) ++ k, n).
Proof using Hclean.
  intros H Hsrc H' Hsame Hn Hf.
  destruct (latest_source_spec R w (more ++ [x]) (sd_target w H)) as [[Hno _]|(tier & y & Ht & Hy & Hl & Hs)]; [congruence|].
  assert (src = tier :: y :: more ++ [x]) as -> by congruence.
  assert (∀ j, (R ++ tier :: y :: more ++ [x]) ++ j = R ++ tier :: y :: (more ++ [x]) ++ j) as Happ.
  { intros j. by rewrite <-(assoc_L (++)). }
  assert (w_nodes w' !! ((R ++ tier :: y :: more ++ [x]) ++ k) = Some n) as Hn'.
  { rewrite Happ in Hn |- *. rewrite Hsame; [done|by apply tier_not_partial]. }
  unfold lit. rewrite <-(assoc_L (++) R). change (("latest" :: more ++ [x]) ++ k) with ("latest" :: (more ++ [x]) ++ k).
  rewrite (look_through_latest R w' H' tier y Ht Hy).
  - rewrite <-Happ. apply look_node; [apply H'|done|done].
  - by rewrite Hsame.
  - eapply wf_names in Hn; [|apply H]. rewrite Happ, Forall_app, !Forall_cons in Hn. apply Hn.
  - left. by destruct more.
  - intros j t Hj [i Hi] Hln. rewrite Happ, Hi in Hn'. destruct (decide (i = [])) as [->|Hine].
    + rewrite (right_id_L [] (++)) in *. split; [done|]. apply (Hf t). congruence.
    + change (tier :: y :: j ++ i) with ((tier :: y :: j) ++ i) in Hn'. rewrite (assoc_L (++)) in Hn'.
      eapply wf_ancestor in Hn'; [|apply H'|done]. congruence.
Qed.

(** The copy of the directory the latest snapshot has. *)
Lemma seed_copy w src : seedable w → latest_source (w_nodes w) R (more ++ [x]) = Some src →
  w_nodes w !! (R ++ src) = Some Dir → (∀ q, q ≠ [] → below q src → ∃ a j, q = a :: j ∧ a ≠ ".partial") →
  ∃ m', linkTree (abs_str lit) (abs_str dst) (cleared w) = (Ok tt, set_nodes m' w) ∧ wf_tree m' ∧
    (∀ k, m' !! (dst ++ k) = w_nodes w !! ((R ++ src) ++ k) ≫= copy_node) ∧
    ∀ q, ¬ below dst q → m' !! q = if decide (made R (partial_path more) q) then Some Dir else w_nodes w !! q.
Proof using Hclean.
  intros H Hsrc Hdir Hpre. pose proof (cleared_seedable w H) as H1. pose proof (sd_target _ H1) as Htg1.
  pose proof partial_clean as (Hpm & Hx & _).
  assert (∃ a rest, src = a :: rest ∧ a ≠ ".partial") as (a & rest & Heq & Ha).
  { destruct src as [|a rest].
    - destruct (latest_source_spec R w (more ++ [x]) (sd_target w H)) as [[? _]|(? & ? & _ & _ & _ & ?)]; congruence.
    - destruct (Hpre (a :: rest)) as (? & ? & [= <- <-] & ?); [done|apply below_refl|eauto]. }
  assert (∀ k, w_nodes (cleared w) !! ((R ++ src) ++ k) = w_nodes w !! ((R ++ src) ++ k)) as Hsame.
  { intros k. subst src. rewrite <-(assoc_L (++)). by apply cleared_apart. }
  assert (∀ w' a q, linking dst (mkdirs R (partial_path more) (w_nodes (cleared w))) w' → a ≠ ".partial" →
    w_nodes w' !! (R ++ a :: q) = w_nodes w !! (R ++ a :: q)) as Hlk.
  { intros w' b q Hl Hb. rewrite (lk_rest _ _ _ Hl) by by apply dst_apart. rewrite lookup_mkdirs, decide_False.
    - by apply cleared_apart.
    - intros [_ [k Hk]]%made_app. by injection Hk. }
  destruct (linkTree_through (cleared w) lit (R ++ src) R (partial_path more) x) as (m' & Hr & Hw & Hm);
    [apply Htg1|apply Htg1| |apply Htg1|done|done|apply H1|..].
  - pose proof (Hsame []) as He. by rewrite !(right_id_L [] (++)), Hdir in He.
  - change (R ++ partial_path more ++ [x]) with dst. rewrite cleared_lookup, decide_True; [done|apply below_refl].
  - change (R ++ partial_path more ++ [x]) with dst. subst src. by apply dst_apart_self.
  - change (R ++ partial_path more ++ [x]) with dst. subst src. by apply dst_apart.
  - unfold lit. unfold partial_path in Hpm. rewrite !Forall_cons in Hpm.
    rewrite Forall_app, Forall_cons, Forall_app, Forall_singleton.
    split; [exact (tg_plain R w (sd_target w H))|].
    split; [done|]. split; [apply Hpm|done].
  - rewrite <-(right_id_L [] (++) lit). rewrite (latest_reach w src (cleared w) [] false Dir); try done.
    + by rewrite (right_id_L [] (++)).
    + intros b q Hb. by apply cleared_apart.
    + by rewrite (right_id_L [] (++)).
  - intros w' k follow n Hl Hn Hf. apply (latest_reach w src w' k follow n); try done.
    + apply (target_same R w); [apply H|apply Hl|apply Hl| |].
      * rewrite (lk_rest _ _ _ Hl).
        { rewrite lookup_mkdirs, decide_False; [apply Htg1|]. by intros (_ & ? & _). }
        intros [i Hi]. apply (f_equal length) in Hi. rewrite !length_app in Hi. cbn in Hi. lia.
      * intros b q Hb. by apply Hlk.
    + intros b q Hb. by apply Hlk.
    + rewrite lookup_mkdirs, decide_False, Hsame in Hn; [done|]. subst src. rewrite <-(assoc_L (++)).
      intros [_ [i Hi]]%made_app. by injection Hi.
  - exists m'. split; [unfold cleared in Hr at 2; by rewrite set_nodes_set_nodes in Hr|]. split; [done|].
    change (R ++ partial_path more ++ [x]) with dst in Hm. split.
    + intros k. rewrite Hm, decide_True, drop_app_length by apply below_app. by rewrite Hsame.
    + intros q Hq. rewrite Hm, decide_False, lookup_mkdirs by done. by rewrite cleared_lookup, (decide_False (P := below dst q)).
Qed.

(** What the destination holds at first. *)
Inductive seeded (w : world) : result bool → (fpath → option node) → Prop :=
  | SeededCopy src : latest_source (w_nodes w) R (more ++ [x]) = Some src → w_nodes w !! (R ++ src) = Some Dir →
      seeded w (Ok true) (λ k, w_nodes w !! ((R ++ src) ++ k) ≫= copy_node)
  | SeededEmpty :
      (∀ src, latest_source (w_nodes w) R (more ++ [x]) = Some src →
        w_nodes w !! (R ++ src) = None ∧ free (w_nodes w) R src) →
      seeded w (Ok false) (λ k, if decide (k = []) then Some Dir else None)
  | SeedRefused src e : latest_source (w_nodes w) R (more ++ [x]) = Some src →
      (∃ n, w_nodes w !! (R ++ src) = Some n ∧ n ≠ Dir) ∨ (w_nodes w !! (R ++ src) = None ∧ ¬ free (w_nodes w) R src) →
      seeded w (Err e) (λ k, None).

Lemma latest_source_free w src : seedable w → latest_source (w_nodes w) R (more ++ [x]) = Some src →
  ∃ tier y, tier ∈ tiers ∧ plain_seg y ∧ src = tier :: y :: more ++ [x] ∧ straight (w_nodes w) R src ∧
    w_nodes w !! (R ++ ["latest"]) = Some (Symlink (snap_name tier y)).
Proof using.
  intros H Hsrc.
  destruct (latest_source_spec R w (more ++ [x]) (sd_target w H)) as [[Hno _]|(tier & y & Ht & Hy & Hl & Hs)]; [congruence|].
  exists tier, y. split; [done|]. split; [done|]. assert (src = tier :: y :: more ++ [x]) as -> by congruence.
  split; [done|]. split; [|done]. intros j t Hj Hb Hn.
  destruct (snapshot_straight R w (sd_target w H) tier y Ht (more ++ [x]) true) with j t as [_ ?]; [|done..].
  intros i t' Hi Hbi Hn'. exfalso. apply (sd_straight w H tier y Hl i t' Hi Hbi). by rewrite <-(assoc_L (++)).
Qed.

(** What the seed does to the volume. *)
Lemma seed_spec w : seedable w → ∃ r m' held,
  seedPartialDestination (abs_str R) (strings_Join (partial_path (more ++ [x])) "/") w = (r, set_nodes m' w) ∧
  seeded w r held ∧ wf_tree m' ∧ (∀ k, m' !! (dst ++ k) = held k) ∧
  ∀ q, ¬ below dst q → m' !! q = w_nodes w !! q ∨ made R (partial_path more) q ∧ m' !! q = Some Dir.
Proof using Hclean.
  intros H. pose proof (sd_target w H) as Htg. rewrite seed_start by apply H.
  pose proof (cleared_seedable w H) as H1. pose proof (sd_target _ H1) as Htg1.
  pose proof partial_clean as (Hpm & Hx & _).
  assert (Forall plain_seg lit) as Hpl.
  { unfold lit. rewrite Forall_app, Forall_cons. split; [by apply (tg_plain R w)|]. split; [done|].
    unfold partial_path in Hpm. rewrite !Forall_cons in Hpm. rewrite Forall_app, Forall_singleton. naive_solver. }
  assert (∀ a q, a ≠ ".partial" → w_nodes (cleared w) !! (R ++ a :: q) = w_nodes w !! (R ++ a :: q)) as Hsame
    by (intros; by apply cleared_apart).
  destruct (seed_empty w H) as (Hmk & Hwe & Hoe & Hbe).
  set (me := mkdirs R (partial_path (more ++ [x])) (w_nodes (cleared w))) in *.
  assert (∀ e, errors_is KNotExist e = true → Stat (abs_str lit) (cleared w) = (Err e, cleared w) →
    (∀ src, latest_source (w_nodes w) R (more ++ [x]) = Some src → w_nodes w !! (R ++ src) = None ∧ free (w_nodes w) R src) →
    ∃ r m' held, seed_rest (cleared w) = (r, set_nodes m' w) ∧ seeded w r held ∧ wf_tree m' ∧ (∀ k, m' !! (dst ++ k) = held k) ∧
    ∀ q, ¬ below dst q → m' !! q = w_nodes w !! q ∨ made R (partial_path more) q ∧ m' !! q = Some Dir) as Hempty.
  { intros e He Hst Hno. exists (Ok false), me. eexists. split; [|split; [by apply SeededEmpty|split; [done|split; [done|]]]].
    - unfold seed_rest. erewrite run_bind by (unfold try; by rewrite Hst). cbv beta iota. rewrite He. cbn [negb]. by erewrite run_bind.
    - intros q Hq. rewrite Hoe by done. case_decide; [right|left]; done. }
  destruct (latest_source (w_nodes w) R (more ++ [x])) as [src|] eqn:Hsrc.
  2:{ assert (w_nodes w !! (R ++ ["latest"]) = None) as Hnl.
      { destruct (latest_source_spec R w (more ++ [x]) Htg) as [[_ ?]|(?&?&?&?&?&?)]; [done|congruence]. }

      destruct (Stat_missing (cleared w) (tg_calm R _ Htg1) (tg_wf R _ Htg1) R "latest" (more ++ [x])) as (e & Hst & He).
      - apply Htg1.
      - unfold lit in Hpl. apply Forall_app in Hpl. apply Hpl.
      - by rewrite cleared_apart.
      - by apply (Hempty e). }
  destruct (latest_source_free w src H Hsrc) as (tier & y & Ht & Hy & Heq & Hst & Hl).
  assert (w_nodes (cleared w) !! (R ++ src) = w_nodes w !! (R ++ src)) as Hsrc1.
  { subst src. apply Hsame. by apply tier_not_partial. }
  assert (look (cleared w) true lit = look (cleared w) true (R ++ src)) as Hlook.
  { unfold lit. rewrite Heq. apply (look_through_latest R _ Htg1 tier y Ht Hy).
    - by rewrite Hsame.
    - unfold lit in Hpl. rewrite Forall_app, Forall_cons in Hpl. apply Hpl.
    - by right.
    - intros j t Hj Hb Hn. exfalso. rewrite Hsame in Hn by by apply tier_not_partial.
      apply (Hst (tier :: y :: j) t); [done| |done]. rewrite Heq. by apply (prefix_app [tier; y]). }
  assert (Forall plain_seg src) as Hps.
  { subst src. unfold lit in Hpl. rewrite Forall_app, Forall_cons in Hpl. rewrite !Forall_cons.
    destruct (tier_plain tier Ht). naive_solver. }
  assert (∀ j, below j src → j ≠ [] → w_nodes (cleared w) !! (R ++ j) = w_nodes w !! (R ++ j)) as Hpre.
  { intros j [k Hk] Hj. destruct j as [|a j]; [done|]. apply Hsame. rewrite Heq in Hk. injection Hk as <- _.
    by apply tier_not_partial. }
  assert (∀ q, ¬ below dst q → w_nodes (cleared w) !! q = w_nodes w !! q) as Hout.
  { intros q Hq. by rewrite cleared_lookup, decide_False. }
  assert (∀ k, w_nodes (cleared w) !! (dst ++ k) = None) as Hgone.
  { intros k. rewrite cleared_lookup, decide_True; [done|apply below_app]. }
  destruct (w_nodes w !! (R ++ src)) as [n|] eqn:Hn.
  - assert (∀ t, n ≠ Symlink t) as Hnl by (intros t ->; by apply (Hst src t); [subst src|apply below_refl|]).
    assert (Stat (abs_str lit) (cleared w) = (Ok n, cleared w)) as Hstat.
    { apply (Stat_look _ (tg_calm R _ Htg1) _ Hpl (R ++ src)). rewrite Hlook.
      apply look_node; [apply Htg1|congruence|intros t ->; by destruct (Hnl t)]. }
    unfold seed_rest. erewrite run_bind by (unfold try; by rewrite Hstat). cbv beta iota.
    destruct (decide (n = Dir)) as [->|Hnd].
    + destruct (seed_copy w src H Hsrc Hn) as (m' & Hr & Hw & Hb & Ho).
      { intros q Hq [k Hk]. destruct q as [|a q]; [done|]. rewrite Heq in Hk. injection Hk as <- Hk.
        exists tier, q. split; [done|]. by apply tier_not_partial. }
      change (IsDir Dir) with true. cbn [negb]. erewrite run_bind by (unfold try; by rewrite Hr).
      eexists _, m', _. split; [reflexivity|]. split; [by eapply SeededCopy|]. split; [done|]. split; [done|].
      intros q Hq. rewrite Ho by done. case_decide; [right|left]; done.
    + unfold IsDir. rewrite bool_decide_false by done. cbn [negb].
      eexists _, _, _. split; [reflexivity|]. split; [eapply SeedRefused; [done|left; eauto]|].
      split; [|split; [exact Hgone|intros q Hq; left; by apply Hout]]. apply (tg_wf R _ Htg1).
  - destruct (look_nothing (cleared w) R src) as [[Hf Hlk]|[Hf Hlk]]; try done; try apply Htg1.
    + intros j t Hj Hb. rewrite Hpre by done. by apply Hst.
    + apply (Hempty (path_err "stat" (abs_str lit) (ErrSys KNotExist "no such file or directory"))); [done| |].
      * unfold Stat, on_err. rewrite syscall_calm, segs_of_abs_str by (done || apply Htg1). by rewrite Hlook, Hlk.
      * intros src' [= <-]. split; [done|]. intros j Hj Hb. rewrite <-Hpre by done. by apply Hf.
    + assert (Stat (abs_str lit) (cleared w) = (Err (path_err "stat" (abs_str lit) (ErrSys KNotDir "not a directory")), cleared w)) as Hstat.
      { unfold Stat, on_err. rewrite syscall_calm, segs_of_abs_str by (done || apply Htg1). by rewrite Hlook, Hlk. }
      unfold seed_rest. erewrite run_bind by (unfold try; by rewrite Hstat). cbv beta iota. cbn [errors_is path_err wrap].
      eexists _, _, _. split; [reflexivity|]. split.
      { eapply SeedRefused; [done|]. right. split; [done|]. intros Hf'. apply Hf. intros j Hj Hb. rewrite Hpre by done.
        by apply Hf'. }
      split; [|split; [exact Hgone|intros q Hq; left; by apply Hout]]. apply (tg_wf R _ Htg1).
Qed.
End seed.

(** ** The receiver *)

Section receiver.
Context `{!X509, !RsyncTunnel}.

(** The transfer of a sender went well. *)
Definition transferred (root : string) (mirror : bool) (conn : Conn) (i : Identity) (destination : string) : Prop :=
  cn_Handshake conn = Ok tt ∧ peerIdentity (cn_PeerCertificates conn) = Ok i ∧
  ∃ header rest w1 w2, readTransferHeader (cn_bytes conn) = Ok (header, rest) ∧
    NormalizeTargetSubpath (th_Destination header) = Ok destination ∧ th_Protocol header = transferProtocolRsync ∧
    receiveRsyncTunnel conn rest (path_Join [root; destination]) w1 = (Ok tt, w2).

Lemma bind_run {A B} (m : M A) (f : A → M B) w b w' :
  (m ≫= f) w = (Ok b, w') → ∃ a w1, m w = (Ok a, w1) ∧ f a w1 = (Ok b, w').
Proof. unfold mbind, M_bind. destruct (m w) as [[a|e] w1]; [eauto|done]. Qed.

Lemma on_err_run {A} g (m : M A) w a w' : on_err g m w = (Ok a, w') → m w = (Ok a, w').
Proof. unfold on_err. destruct (m w) as [[b|e] w1]; [|done]. by intros [= <- <-]. Qed.

Lemma receiveTransfer_Ok root expected conn mirror w i w' :
  receiveTransfer root expected conn mirror w = (Ok (i, None), w') →
  ∃ destination, expected !! i = Some destination ∧ transferred root mirror conn i destination.
Proof.
  unfold receiveTransfer. destruct (cn_Handshake conn) as [[]|e] eqn:Hh; [|done].
  destruct (peerIdentity _) as [j|e] eqn:Hj; [|done].
  destruct (expected !! j) as [d|] eqn:Hd; [|done].
  intros (r & w1 & Hr & Hret)%bind_run. unfold try in Hr.
  destruct (receive_from root mirror conn j d w) as [[[]|e] w2] eqn:Hf; injection Hr as <- <-; [|done].
  injection Hret as <- <-. exists d. split; [done|]. split; [done|]. split; [done|]. revert Hf.
  unfold receive_from. intros ([header rest] & w3 & Hhd & Hf)%bind_run. injection Hhd as Hhd <-.
  apply bind_run in Hf as (dest & w4 & Hn & Hf). apply on_err_run in Hn. injection Hn as Hn <-.
  case_decide as Hdest; [done|]. subst dest.
  apply bind_run in Hf as (b & w5 & _ & Hf). case_decide as Hp; [done|].
  by exists header, rest, w5, w2.
Qed.

Lemma completed_all (expected : gmap Identity string) (completed : gset Identity) :
  completed ⊆ dom expected → ¬ (size completed < size expected)%nat →
  ∀ i destination, expected !! i = Some destination → i ∈ completed.
Proof.
  intros Hsub Hs i d Hi. assert (completed = dom expected) as ->; [|by apply elem_of_dom].
  apply set_subseteq_size_eq; [done|]. rewrite size_dom. lia.
Qed.

Lemma receive_step_completes root expected mirror continue accepted completed w completed' w' :
  receive_step root expected mirror continue accepted completed w = (Ok completed', w') →
  completed ⊆ dom expected →
  completed' ⊆ dom expected ∧
  ∀ i destination, i ∈ completed' → expected !! i = Some destination →
    i ∈ completed ∨ ∃ conn, accepted = Ok conn ∧ transferred root mirror conn i destination.
Proof.
  unfold receive_step. destruct accepted as [conn|e]; [|done].
  intros ([j err] & w1 & Hrt & Hrest)%bind_run Hsub. destruct err as [e|].
  - destruct continue; [|done]. injection Hrest as <- <-. split; [done|]. by left.
  - destruct (receiveTransfer_Ok _ _ _ _ _ _ _ Hrt) as (dj & Hj & Htr). injection Hrest as <- <-.
    split; [apply union_subseteq; split; [|done]; by apply singleton_subseteq_l, elem_of_dom|].
    intros i d [->%elem_of_singleton|?]%elem_of_union Hi; [|by left]. right. exists conn. split; [done|]. congruence.
Qed.

Lemma receive_loop_completes root expected mirror continue accepts completed w w' :
  receive_loop root expected mirror continue accepts completed w = (Ok (Some tt), w') →
  completed ⊆ dom expected →
  ∀ i destination, expected !! i = Some destination →
    i ∈ completed ∨ ∃ conn, Ok conn ∈ accepts ∧ transferred root mirror conn i destination.
Proof.
  revert completed w. induction accepts as [|accepted accepts IH]; intros completed w; cbn [receive_loop];
    (case_decide as Hs; [|intros _ Hsub i d Hi; left; by eapply completed_all]); [done|].
  intros (completed' & w1 & Hstep & Hrest)%bind_run Hsub i d Hi.
  destruct (receive_step_completes _ _ _ _ _ _ _ _ _ Hstep Hsub) as [Hsub' Hnew].
  destruct (IH _ _ Hrest Hsub' i d Hi) as [Hin|(c & Hc & ?)]; [|right; exists c; split; [by right|done]].
  destruct (Hnew i d Hin Hi) as [?|(conn & -> & ?)]; [by left|]. right. exists conn. split; [by left|done].
Qed.
End receiver.

Lemma open_receiver_run {HX : X509} opts w r w' : open_receiver opts w = (r, w') →
  w' = w ∧ ∀ o, r = Ok o →
    match o with
    | None => tro_Sources opts = []
    | Some (root, expected) =>
        tro_Sources opts ≠ [] ∧ Abs (tro_TargetRoot opts) w = (Ok root, w) ∧
        expected_destinations (tro_Sources opts) ∅ = Ok expected
    end.
Proof.
  unfold open_receiver. case_decide; [by intros [= <- <-]|]. case_decide as Hs.
  { intros [= <- <-]. split; [done|]. by intros o [= <-]. }
  assert (∃ root, Abs (tro_TargetRoot opts) w = (Ok root, w)) as [root Ha] by by eexists.
  erewrite run_bind by done. unfold lift. unfold mbind at 1, M_bind at 1.
  destruct (expected_destinations _ _) as [expected|e]; [|by intros [= <- <-]].
  unfold mbind, M_bind. destruct (TLSConfig _ _ _); [|by intros [= <- <-]].
  intros [= <- <-]. split; [done|]. by intros o [= <-].
Qed.

(** ** What a connection may change *)

Section reaches.
Context `{!X509, !RsyncTunnel}.
Context (R : fpath) (run : string) (dests : gmap Identity fpath).

(** The destinations of the senders of a run, as the controllers name them. *)
Definition run_destinations : gmap Identity string := (λ d, strings_Join (partial_path run d) "/") <$> dests.










End reaches.

(** ** The theorems *)

(** C11: a transfer starts from the latest snapshot.  When there is nothing but directories on the way to the destination (or nothing
    at all), no symbolic link on the way to what the latest snapshot has at that path, and no system call fails: what was in the destination goes; in its place is a hard-linked copy of
    what the latest snapshot has at that path, an empty directory when it has nothing there, and nothing, with an error, when
    something else is in the way.  Apart from the destination only the missing directories above
    it are made. *)
Theorem seed_from_latest R run more x w :
  clean_path (partial_path run (more ++ [x])) → seedable R run more x w →
  ∃ r m' held,
  seedPartialDestination (abs_str R) (strings_Join (partial_path run (more ++ [x])) "/") w = (r, set_nodes m' w) ∧
  seeded R more x w r held ∧ wf_tree m' ∧ (∀ k, m' !! ((R ++ partial_path run (more ++ [x])) ++ k) = held k) ∧
  ∀ q, ¬ below (R ++ partial_path run (more ++ [x])) q →
    m' !! q = w_nodes w !! q ∨ made R (partial_path run more) q ∧ m' !! q = Some Dir.
Proof. intros Hc Hs. by apply seed_spec. Qed.

(** C9: the receiver ends when every sender has transferred.  When [ServeTargetReceiver] returns without an error, each sender
    that it expects has made a connection of its own: with its certificate, with a header
    that names its own destination and the protocol, and with a transfer that ended well. *)
Theorem receiver_complete {HX : X509} {HT : RsyncTunnel} accepts opts w w' expected root :
  ServeTargetReceiver accepts opts w = (Ok (Some tt), w') → tro_Sources opts ≠ [] →
  expected_destinations (tro_Sources opts) ∅ = Ok expected → Abs (tro_TargetRoot opts) w = (Ok root, w) →
  ∀ i destination, expected !! i = Some destination →
    ∃ conn, Ok conn ∈ accepts ∧ transferred root (tro_Mirror opts) conn i destination.
Proof.
  intros Hr Hne Hex Habs i d Hi. apply bind_run in Hr as (opened & w1 & Ho & Hr).
  apply open_receiver_run in Ho as [-> Ho]. specialize (Ho _ eq_refl).
  destruct opened as [[root' expected']|]; [|done]. destruct Ho as (_ & Ha & He).
  assert (root' = root) as -> by congruence. assert (expected' = expected) as -> by congruence.
  by destruct (receive_loop_completes _ _ _ _ _ _ _ _ Hr (empty_subseteq _) i d Hi) as [?%not_elem_of_empty|].
Qed.


(** ** A volume and its senders *)

(** A tunnel whose bytes are one file, [name=content], which replaces a file of that name. *)
Definition write_file (p : fpath) (name content : string) : M unit := λ w,
  if decide (w_nodes w !! p = Some Dir ∧ plain_seg name ∧
             w_nodes w !! (p ++ [name]) ≠ Some Dir)
  then (Ok tt, w <| w_nodes ::= <[p ++ [name] := File (w_next_ino w)]> |>
                 <| w_data ::= <[w_next_ino w := content]> |> <| w_next_ino ::= S |>)
  else (Err (ErrNew "rsync error"), w).

#[local] Existing Instance bare_certificates.

(** The directory of a configuration: the last one that is given, when there are several. *)
Definition served_directory (config : string) : string :=
  match CutLast config (ascii_of_nat 9) with
  | Some (_, tail) => match Cut tail (ascii_of_nat 10) with Some (line, _) => TrimPrefix line "path = " | None => "" end
  | None => ""
  end.

Definition good_start : daemon_start :=
  MkDaemonStart (Ok tt) (Ok "127.0.0.1:4000") (Ok "/tmp/krm-rsyncd-1.conf") (Ok tt) (Ok tt) (λ _, Ok tt) (λ _, Ok tt).

#[export] Instance file_tunnel : RsyncTunnel := {|
  Geteuid := 1000;
  Getegid := 1000;
  starting _ := good_start;
  daemon_serves _ config rest w :=
    let p := served_directory config in
    match Cut rest "=" with
    | Some (name, content) =>
        match resolve w true (segs_of w p) with Ok q => write_file q name content w | Err e => (Err e, w) end
    | None => (Ok tt, w)
    end
|}.

Lemma run_result {A} (p : result A * world) a : p.1 = Ok a → p = (Ok a, p.2).
Proof. destruct p. cbn. by intros ->. Qed.

(** Two sources of one namespace: a database whose destination is inside that of a source without a
    destination path. *)
Definition senders (values : list string) : list ExpectedTransferSource :=
  match ParseExpectedTransferSources "backup" "nightly" "run-9" values with
  | Ok (l, _) => l
  | Err _ => []
  end.

Definition nested_sources : list string := ["apps/db=apps/pg/data"; "apps/web=apps"].

Definition sender (name destination file : string) : Conn :=
  MkConn (Ok tt) [[URI (SourceIdentity "backup" "nightly" "apps" name)]]
    (match writeTransferHeader (MkTransferHeader destination "" "" transferProtocolRsync) with
     | Ok bytes => bytes +:+ file | Err _ => "" end).

Definition web_sender : Conn := sender "web" ".partial/run-9/apps" "index=page".
Definition db_sender : Conn := sender "db" ".partial/run-9/apps/pg/data" "table=new".

Definition receiver_options (values : list string) : TargetReceiverOptions :=
  MkTargetReceiverOptions "/t" "run-9" false (MkBundle "ca" "" "cert" "key") (senders values) true.

(** A volume with one snapshot, from yesterday. *)
Definition old_snapshot : fpath := ["t"; "hourly"; "2024-05-01T02-00-00Z"].
Definition yesterday : world :=
  MkWorld (list_to_map [([], Dir); (["t"], Dir); (["t"; "hourly"], Dir); (old_snapshot, Dir);
    (old_snapshot ++ ["apps"], Dir); (old_snapshot ++ ["apps"; "pg"], Dir);
    (old_snapshot ++ ["apps"; "pg"; "data"], Dir); (old_snapshot ++ ["apps"; "pg"; "data"; "table"], File 0);
    (old_snapshot ++ ["media"], Dir); (old_snapshot ++ ["media"; "photo"], File 1);
    (["t"; "latest"], Symlink "hourly/2024-05-01T02-00-00Z")])
    {[0%nat := "old"; 1%nat := "picture"]} 2 [] [] (λ p, 0) (λ m, (100, 10)).

(** The database's file in the snapshot that is promoted after the senders connected in an order; nothing
    when something failed. *)
Definition backed_up (order : list Conn) : option string :=
  match ServeTargetReceiver (Ok <$> order) (receiver_options nested_sources) yesterday with
  | (Ok (Some _), w) =>
      match FinalizeBackup (MkFinalizeOptions "/t" "run-9" "2024-05-01T03-00-00Z" ["apps"; "apps/pg/data"]
              (MkRetentionPolicy 24 7 8 12)) w with
      | (Ok (_, None), w) =>
          match w_nodes w !! ["t"; "hourly"; "2024-05-01T03-00-00Z"; "apps"; "pg"; "data"; "table"] with
          | Some (File i) => w_data w !! i
          | _ => None
          end
      | _ => None
      end
  | _ => None
  end.

(** a transfer inside another one does harm.  The run set admits two sources of one namespace of which one has no
    destination path: their destinations differ, and the second one is inside the first.  When the inner one connects
    first, preparing the directory of the outer one removes what it transferred; both transfers end well, the receiver is
    done, the snapshot is promoted without an error, and it holds the file of the day before. *)
Theorem nested_destinations_harm :
  rsrc_EffectiveDestinationPath <$> trs_Sources (sample_run_set "") = ["apps/pg/data"; "apps"; "media/photos"] ∧
  backed_up [web_sender; db_sender] = Some "new" ∧ backed_up [db_sender; web_sender] = Some "old".
Proof. split; [by vm_compute|]. split; by vm_compute. Qed.

(** A source whose destination path ends a line of the configuration. *)
Definition bad_path : string := "site" +:+ newline +:+ byte 9 +:+ "path = /t/hourly/2024-05-01T02-00-00Z".
Definition bad_sender : Conn := sender "web" (".partial/run-9/apps/" +:+ bad_path) "index=page".

(** a destination path can choose the daemon's directory.  The controllers and the data plane accept a destination path
    that holds the end of a line; the text goes into the configuration of the daemon as it is, where it becomes a setting of its
    own: the daemon is told another directory, for writing.  With a daemon that follows the last setting the transfer is
    written into a finished snapshot. *)
Example a_destination_rewrites_the_configuration :
  effectiveDestinationPath "apps" bad_path = Ok ("apps/" +:+ bad_path) ∧
  NormalizeTargetSubpath (".partial/run-9/apps/" +:+ bad_path) = Ok (".partial/run-9/apps/" +:+ bad_path) ∧
  Split (rsyncDaemonConfig 1000 1000 ("/t/.partial/run-9/apps/" +:+ bad_path) false) (ascii_of_nat 10)
  = ["use chroot = false"; "numeric ids = yes"; "read only = false"; "list = false"; "[krm]";
     byte 9 +:+ "path = /t/.partial/run-9/apps/site"; byte 9 +:+ "path = /t/hourly/2024-05-01T02-00-00Z"; ""] ∧
  ∃ w, ServeTargetReceiver [Ok bad_sender] (receiver_options ["apps/web=apps/" +:+ bad_path]) yesterday = (Ok (Some tt), w) ∧
    w_nodes w !! (old_snapshot ++ ["index"]) = Some (File 2).
Proof.
  split; [by vm_compute|]. split; [by vm_compute|]. split; [by vm_compute|].
  exists (ServeTargetReceiver [Ok bad_sender] (receiver_options ["apps/web=apps/" +:+ bad_path]) yesterday).2.
  split; [apply run_result|]; by vm_compute.
Qed.

(** ** Witnesses *)

Lemma below_take (j rest : fpath) : below j rest → j = take (length j) rest ∧ (length j ≤ length rest)%nat.
Proof. intros [k ->]. rewrite take_app_length, length_app. split; [done|lia]. Qed.

Lemma free_check m p rest :
  Forall (λ n, m !! (p ++ take n rest) = None ∨ m !! (p ++ take n rest) = Some Dir) (seq 1 (length rest)) →
  free m p rest.
Proof.
  intros H j Hj Hb. destruct (below_take j rest Hb) as [He Hl]. rewrite Forall_forall in H.
  specialize (H (length j)). rewrite <-He in H. apply H. apply elem_of_seq. destruct j; [done|]. cbn in *. lia.
Qed.

Lemma straight_check m p rest :
  Forall (λ n, match m !! (p ++ take n rest) with Some (Symlink _) => False | _ => True end) (seq 1 (length rest)) →
  straight m p rest.
Proof.
  intros H j t Hj Hb Hn. destruct (below_take j rest Hb) as [He Hl]. rewrite Forall_forall in H.
  specialize (H (length j)). rewrite <-He, Hn in H. apply H. apply elem_of_seq. destruct j; [done|]. cbn in *. lia.
Qed.

#[local] Instance not_link_dec (o : option node) :
  Decision (match o with Some (Symlink _) => False | _ => True end).
Proof. destruct o as [[]|]; apply _. Defined.

Lemma yesterday_target : target ["t"] yesterday.
Proof. apply target_check_sound. apply (bool_decide_unpack _). by vm_compute. Qed.

Lemma yesterday_latest tier y :
  w_nodes yesterday !! (["t"] ++ ["latest"]) = Some (Symlink (snap_name tier y)) → ["t"] ++ [tier; y] = old_snapshot.
Proof.
  assert (w_nodes yesterday !! (["t"] ++ ["latest"]) = Some (Symlink "hourly/2024-05-01T02-00-00Z")) as Hl by by vm_compute.
  rewrite Hl. intros Hs. injection Hs as Hs. apply (f_equal (λ s, Split s slash)) in Hs.
  unfold snap_name in Hs. cbn [strings_Join] in Hs. rewrite Split_app_slash in Hs.
  pose proof (Split_nonempty tier slash) as H1. pose proof (Split_nonempty y slash) as H2.
  pose proof (Join_Split tier slash) as J1. pose proof (Join_Split y slash) as J2.
  match type of Hs with ?l = _ => let v := eval vm_compute in l in change l with v in Hs end.
  destruct (Split tier slash) as [|a [|a' l]]; [done| |].
  - cbn [app] in Hs. injection Hs as Ha Hb. rewrite <-Ha in J1. rewrite <-Hb in J2.
    by rewrite <-J1, <-J2.
  - cbn [app] in Hs. injection Hs as _ _ Hs. symmetry in Hs. apply app_eq_nil in Hs as [_ ?]. done.
Qed.

Lemma yesterday_seedable more x :
  Forall (λ n, w_nodes yesterday !! (["t"] ++ take n (partial_path "run-9" more)) = None ∨
    w_nodes yesterday !! (["t"] ++ take n (partial_path "run-9" more)) = Some Dir) (seq 1 (length (partial_path "run-9" more))) →
  Forall (λ n, match w_nodes yesterday !! (old_snapshot ++ take n (more ++ [x])) with Some (Symlink _) => False | _ => True end)
    (seq 1 (length (more ++ [x]))) →
  seedable ["t"] "run-9" more x yesterday.
Proof.
  intros Hf Hs. split; [exact yesterday_target|by apply free_check|].
  intros tier y Hl. rewrite (yesterday_latest tier y Hl). by apply straight_check.
Qed.

Lemma seed_from_latest_witness :
  clean_path (partial_path "run-9" (["apps"; "pg"] ++ ["data"])) ∧ seedable ["t"] "run-9" ["apps"; "pg"] "data" yesterday ∧
  ∃ m', seedPartialDestination "/t" ".partial/run-9/apps/pg/data" yesterday = (Ok true, set_nodes m' yesterday) ∧
    m' !! ["t"; ".partial"; "run-9"; "apps"; "pg"; "data"; "table"] = Some (File 0).
Proof.
  assert (clean_path (partial_path "run-9" (["apps"; "pg"] ++ ["data"]))) as Hc by (apply (bool_decide_unpack _); by vm_compute).
  assert (seedable ["t"] "run-9" ["apps"; "pg"] "data" yesterday) as Hs
    by (apply yesterday_seedable; apply (bool_decide_unpack _); by vm_compute).
  split; [done|]. split; [done|].
  destruct (seed_from_latest ["t"] "run-9" ["apps"; "pg"] "data" yesterday Hc Hs) as (r & m' & held & Hr & Hh & _ & Hk & _).
  exists m'. inversion Hh as [src Hsrc Hd| Hno | src e Hsrc Hno]; subst.
  - split; [exact Hr|]. etransitivity; [exact (Hk ["table"])|].
    assert (src = ["hourly"; "2024-05-01T02-00-00Z"; "apps"; "pg"; "data"]) as -> by (vm_compute in Hsrc; by injection Hsrc as <-).
    by vm_compute.
  - exfalso. destruct (Hno _ eq_refl) as [Hn _]. by vm_compute in Hn.
  - exfalso. vm_compute in Hsrc. injection Hsrc as <-. destruct Hno as [(n & Hn & Hnd)|[Hn _]]; vm_compute in Hn; congruence.
Defined.

Definition side_by_side : TargetReceiverOptions := receiver_options ["apps/web=apps/web"; "apps/db=apps/db"].
Definition web_identity : Identity := SourceIdentity "backup" "nightly" "apps" "web".
Definition db_identity : Identity := SourceIdentity "backup" "nightly" "apps" "db".
Definition side_destinations : gmap Identity fpath :=
  <[web_identity := ["apps"; "web"]]> {[db_identity := ["apps"; "db"]]}.

Definition side_senders : list (result Conn) :=
  [Ok (sender "web" ".partial/run-9/apps/db" "index=page"); Ok (sender "web" ".partial/run-9/apps/web" "index=page");
   Ok (sender "db" "/.partial/run-9/apps/db" "table=new"); Ok (sender "db" ".partial/run-9/apps/db/" "table=new")].

Definition side_world : world := (ServeTargetReceiver side_senders side_by_side yesterday).2.

Lemma side_run : ServeTargetReceiver side_senders side_by_side yesterday = (Ok (Some tt), side_world).
Proof. unfold side_world. apply run_result. by vm_compute. Qed.

Lemma side_expected : expected_destinations (tro_Sources side_by_side) ∅ = Ok (run_destinations "run-9" side_destinations).
Proof.
  assert (tro_Sources side_by_side = [MkExpectedTransferSource web_identity ".partial/run-9/apps/web";
    MkExpectedTransferSource db_identity ".partial/run-9/apps/db"]) as -> by by vm_compute.
  cbn [expected_destinations ets_Identity ets_Destination]. rewrite !decide_False by done.
  change (NormalizeTargetSubpath ".partial/run-9/apps/web") with (@Ok string ".partial/run-9/apps/web").
  change (NormalizeTargetSubpath ".partial/run-9/apps/db") with (@Ok string ".partial/run-9/apps/db").
  cbn [map_err mbind result_bind]. unfold run_destinations, side_destinations.
  rewrite fmap_insert, map_fmap_singleton, insert_insert_ne by done. done.
Qed.


Lemma receiver_complete_witness :
  ∃ conn, Ok conn ∈ side_senders ∧ transferred "/t" false conn db_identity ".partial/run-9/apps/db".
Proof.
  apply (receiver_complete side_senders side_by_side yesterday side_world
    (run_destinations "run-9" side_destinations) "/t" side_run).
  - by vm_compute.
  - exact side_expected.
  - apply (Abs_abs_str ["t"]). apply Forall_singleton. by vm_compute.
  - by vm_compute.
Defined.

