(* ===== verification/Wiring.v ===== *)
(** * What the controllers tell the data plane

    The Job that receives a backup is started with one flag [--source] for each source of the run set, and each
    source's Job with the flag [--target] of its destination (src/internal/controller/builders.go); the data plane
    parses the former (src/internal/dataplane/transport.go) and compares what senders ask for with it.  The law is that
    the two agree: a sender that does what its Job says is let in, and asks for what is expected of it. *)
From S2P Require Export Builders Transport.
From stdpp Require Import options.
From Stdlib Require Import Ascii.

(** The value of the flag [--source] for a source. *)
Definition source_value (target : RsyncMachine) (source : ResolvedSource) : string :=
  om_Namespace (s_Meta (rsrc_Source source)) +:+ "/" +:+ om_Name (s_Meta (rsrc_Source source)) +:+ "=" +:+
  (if is_mirror target && bool_decide (rsrc_EffectiveDestinationPath source = "") then "."
   else rsrc_EffectiveDestinationPath source).

Lemma source_arg_value target source : source_arg target source = ["--source"; source_value target source].
Proof. done. Qed.

(** The identity of a source's sender, in its certificate. *)
Definition sender_identity (run : BackupJob) (source : BackupSource) : Identity :=
  SourceIdentity (om_Namespace (bj_Meta run)) (om_Name (bj_Meta run))
    (om_Namespace (s_Meta source)) (om_Name (s_Meta source)).

(** Names that the flag can carry. *)
Definition flag_name (s : BackupSource) : Prop :=
  plain_seg (om_Namespace (s_Meta s)) ∧ ContainsByte (om_Namespace (s_Meta s)) backslash = false ∧
  ContainsByte (om_Namespace (s_Meta s)) "=" = false ∧ om_Name (s_Meta s) ≠ "" ∧
  ContainsByte (om_Name (s_Meta s)) "=" = false.
#[export] Instance flag_name_dec s : Decision (flag_name s).
Proof. unfold flag_name. apply _. Defined.

Definition run_id (run : BackupJob) : Prop := plain_seg (RunID run) ∧ ContainsByte (RunID run) backslash = false.
#[export] Instance run_id_dec run : Decision (run_id run).
Proof. unfold run_id. apply _. Defined.

(** A destination the controllers compute is one the data plane keeps. *)
Lemma effective_normal target s p : flag_name s → EffectiveDestinationPathForStrategy target s = Ok p →
  ∃ segs, p = strings_Join segs "/" ∧ Forall plain_seg segs ∧ ContainsByte p backslash = false ∧
    (segs = [] → is_mirror target = true).
Proof.
  intros (Hns & Hb & _). unfold EffectiveDestinationPathForStrategy.
  assert (∀ d c, cleanRelativePath d = Ok c → ContainsByte c backslash = false) as Hclean.
  { intros d c Hc. destruct (decide (c = "")) as [->|Hne]; [done|].
    pose proof (proj1 (cleanRelativePath_Normalize d c) (conj Hc Hne)) as Hn.
    apply NormalizeRelativePath_Ok in Hn as [(_ & Hd & _ & _) ->]. by apply kept_no_backslash. }
  destruct (is_mirror target) eqn:Hm.
  - rewrite effectiveMirrorDestinationPath_clean. intros Hc. pose proof (Hclean _ _ Hc).
    destruct (cleanRelativePath_shape _ _ Hc) as (segs & Hp & ->). eauto.
  - unfold EffectiveDestinationPath. rewrite effectiveDestinationPath_Ok by done.
    intros (segs & Hp & Hc & ->). exists (om_Namespace (s_Meta s) :: segs). split; [done|].
    split; [by apply Forall_cons|]. split; [|done]. pose proof (Hclean _ _ Hc) as Hbs.
    rewrite ContainsByte_Join in Hbs |- * by done. cbn [existsb]. by rewrite Hb, Hbs.
Qed.

(** The destination of a source's transfer. *)
Definition transfer_destination (target : RsyncMachine) (run : BackupJob) (p : string) : string :=
  if is_mirror target then if decide (p = "") then "." else p else path_Join [".partial"; RunID run; p].

Lemma TransferDestinationPath_effective target run s p :
  RunID run ≠ "" → EffectiveDestinationPathForStrategy target s = Ok p →
  TransferDestinationPath target (RunID run) s = Ok (transfer_destination target run p).
Proof.
  intros Hr. unfold TransferDestinationPath, transfer_destination, PartialDestinationPath, EffectiveDestinationPathForStrategy.
  destruct (is_mirror target); intros ->; cbn [mbind result_bind]; [by case_decide|by rewrite decide_False].
Qed.

Lemma NormalizeTargetSubpath_Join segs : Forall plain_seg segs →
  ContainsByte (strings_Join segs "/") backslash = false →
  NormalizeTargetSubpath (strings_Join segs "/") = Ok (strings_Join segs "/").
Proof.
  intros Hp Hb. destruct (decide (segs = [])) as [->|Hne]; [done|]. unfold NormalizeTargetSubpath.
  rewrite decide_False; [by apply NormalizeRelativePath_normal|].
  pose proof (Split_Join_plain segs Hne Hp) as Hsp. intros [He|[He|He]]; rewrite He in Hsp; subst segs.
  - by apply Forall_singleton in Hp as (? & _).
  - by apply Forall_singleton in Hp as (_ & ? & _).
  - by apply Forall_cons in Hp as [(? & _) _].
Qed.

Lemma partial_Join run segs : plain_seg run → Forall plain_seg segs → segs ≠ [] →
  path_Join [".partial"; run; strings_Join segs "/"] = strings_Join (".partial" :: run :: segs) "/".
Proof.
  intros Hr Hs Hne. pose proof (Join_plain_nonempty segs Hne Hs).
  rewrite path_Join_3 by (done || by apply plain_seg_nil_app).
  replace (strings_Join [run; strings_Join segs "/"] "/") with (strings_Join (run :: segs) "/")
    by (by rewrite Join_cons).
  rewrite path_Join_2; [|done|by apply Join_plain_nonempty; [|apply Forall_cons]].
  rewrite <-Join_cons by done. apply Clean_plain; [done|]. by repeat apply Forall_cons_2.
Qed.

(** What the data plane makes of the flag of one source. *)
Lemma expected_of_source target run s p : flag_name s → run_id run →
  EffectiveDestinationPathForStrategy target s = Ok p →
  expected_of (om_Namespace (bj_Meta run)) (om_Name (bj_Meta run)) (RunID run) (is_mirror target)
    (source_value target (MkResolvedSource (source_ref s) s p))
  = Ok (p, [MkExpectedTransferSource (sender_identity run s) (transfer_destination target run p)]) ∧
  ∃ e, NormalizeTargetSubpath (transfer_destination target run p) = Ok e.
Proof.
  intros Hs [Hrun Hrb] Hp. destruct (effective_normal target s p Hs Hp) as (segs & -> & Hsegs & Hb & Hemp).
  destruct Hs as (Hns & Hnb & Hne & Hname & Hneq).
  set (p := strings_Join segs "/") in *.
  set (flagged := if is_mirror target && bool_decide (p = "") then "." else p).
  assert (flagged ≠ "" ∧ NormalizeTargetSubpath flagged = Ok p) as [Hfl Hnorm].
  { unfold flagged. destruct (is_mirror target) eqn:Hm; cbn [andb].
    - case_bool_decide as He; [by rewrite He|]. split; [done|]. by apply NormalizeTargetSubpath_Join.
    - assert (segs ≠ []) as Hsne by (intros ->; by specialize (Hemp eq_refl)).
      split; [by apply Join_plain_nonempty|by apply NormalizeTargetSubpath_Join]. }
  split.
  - unfold expected_of, parseSourceSpec, source_value. cbn [rsrc_Source rsrc_EffectiveDestinationPath]. fold flagged.
    change ("=" +:+ flagged) with (String "=" flagged).
    replace (om_Namespace (s_Meta s) +:+ "/" +:+ om_Name (s_Meta s) +:+ String "=" flagged)
      with ((om_Namespace (s_Meta s) +:+ "/" +:+ om_Name (s_Meta s)) +:+ String "=" flagged) by (by rewrite !str_app_assoc).
    rewrite Cut_app by (rewrite !ContainsByte_app, Hne, Hneq; done).
    change ("/" +:+ om_Name (s_Meta s)) with (String slash (om_Name (s_Meta s))).
    rewrite Cut_app by apply Hns. rewrite decide_False by (intros [?|?]; [by destruct Hns|done]).
    rewrite decide_False by done. cbn [mbind result_bind]. rewrite Hnorm. cbn [map_err mbind result_bind].
    rewrite decide_False by (intros [?|?]; [by destruct Hns|done]). done.
  - unfold transfer_destination. destruct (is_mirror target) eqn:Hm.
    + case_decide; [by eexists|]. eexists. by apply NormalizeTargetSubpath_Join.
    + assert (segs ≠ []) as Hsne by (intros ->; by specialize (Hemp eq_refl)).
      unfold p. rewrite (partial_Join (RunID run)) by done. eexists. apply NormalizeTargetSubpath_Join.
      * by repeat apply Forall_cons_2.
      * fold p. unfold p in *. rewrite ContainsByte_Join in Hb |- * by done. cbn [existsb]. by rewrite Hrb, Hb.
Qed.

Lemma expected_destinations_lookup l acc expected i : expected_destinations l acc = Ok expected →
  expected !! i = match last (filter (λ x, ets_Identity x = i) l) with
                  | Some x => result_to_option (NormalizeTargetSubpath (ets_Destination x))
                  | None => acc !! i
                  end.
Proof.
  revert acc. induction l as [|x l IH]; intros acc; cbn [expected_destinations]; [by intros [= ->]|].
  case_decide; [done|]. destruct (NormalizeTargetSubpath (ets_Destination x)) as [d|e] eqn:Hd; [|done].
  cbn [map_err mbind result_bind]. intros Hex. rewrite (IH _ Hex), filter_cons. case_decide as Hi.
  - rewrite last_cons. destruct (last _) as [y|]; [done|]. subst i. rewrite lookup_insert_eq, Hd. done.
  - destruct (last _); [done|]. by apply lookup_insert_ne.
Qed.

Lemma map_result_fmap {A B C} (f : B → result C) (g : A → B) (h : A → C) l :
  (∀ x, x ∈ l → f (g x) = Ok (h x)) → map_result f (g <$> l) = Ok (h <$> l).
Proof.
  induction l as [|x l IH]; intros Hf; [done|]. cbn. rewrite Hf by left. cbn. rewrite IH; [done|].
  intros y Hy. apply Hf. by right.
Qed.

Section wiring.
Context (run : BackupJob) (target : RsyncMachine) (ss : list BackupSource) (rs : TargetRunSet).
Context (Hnd : NoDup (source_ref <$> ss)) (Hnames : Forall flag_name ss) (Hrun : run_id run).
Context (Hok : CalculateTargetRunSet target ss ss ss = Ok rs).

(** The transfer of a source of the run set. *)
Definition run_transfer (r : ResolvedSource) : ExpectedTransferSource :=
  MkExpectedTransferSource (sender_identity run (rsrc_Source r))
    (transfer_destination target run (rsrc_EffectiveDestinationPath r)).

Lemma run_source r : r ∈ trs_Sources rs → ∃ s p, flag_name s ∧ r = MkResolvedSource (source_ref s) s p ∧
  EffectiveDestinationPathForStrategy target s = Ok p.
Proof using Hnd Hnames Hok.
  rewrite (elem_of_run_set target ss ss ss rs Hnd Hok). intros (s & Hs & _ & p & Hp & ->).
  exists s, p. rewrite Forall_forall in Hnames. auto.
Qed.

Lemma parse_run_sources :
  ParseExpectedTransferSourcesWithStrategy (om_Namespace (bj_Meta run)) (om_Name (bj_Meta run)) (RunID run)
    (is_mirror target) (source_value target <$> trs_Sources rs)
  = Ok (run_transfer <$> trs_Sources rs, sort_Strings (rsrc_EffectiveDestinationPath <$> trs_Sources rs)).
Proof using All.
  unfold ParseExpectedTransferSourcesWithStrategy.
  rewrite (map_result_fmap _ _ (λ r, (rsrc_EffectiveDestinationPath r, [run_transfer r]))).
  - cbn [mbind result_bind]. rewrite <-list_fmap_compose. f_equal. f_equal.
    induction (trs_Sources rs) as [|r l IH]; [done|]. cbn. by f_equal.
  - intros r Hr. destruct (run_source r Hr) as (s & p & Hs & -> & Hp).
    by apply expected_of_source.
Qed.

Lemma run_transfers_distinct r1 r2 : r1 ∈ trs_Sources rs → r2 ∈ trs_Sources rs →
  ets_Identity (run_transfer r1) = ets_Identity (run_transfer r2) → run_transfer r1 = run_transfer r2.
Proof using All.
  intros H1 H2. destruct (run_source r1 H1) as (s1 & p1 & _ & -> & Hp1), (run_source r2 H2) as (s2 & p2 & _ & -> & Hp2).
  unfold run_transfer. cbn. intros Hi. rewrite Hi. f_equal.
  assert (s1 = s2) as ->.
  { apply (elem_of_run_set target ss ss ss rs Hnd Hok) in H1 as (t1 & Ht1 & _ & q1 & _ & He1).
    apply (elem_of_run_set target ss ss ss rs Hnd Hok) in H2 as (t2 & Ht2 & _ & q2 & _ & He2).
    apply (f_equal rsrc_Source) in He1, He2. cbn in He1, He2. subst t1 t2.
    apply list_elem_of_lookup in Ht1 as [a Ha]. apply list_elem_of_lookup in Ht2 as [b Hb].
    assert (a = b) as ->; [|congruence]. eapply NoDup_lookup; [exact Hnd| |].
    - by rewrite list_lookup_fmap, Ha.
    - rewrite list_lookup_fmap, Hb. cbn. f_equal. unfold sender_identity, SourceIdentity in Hi.
      injection Hi as Hns Hname. unfold source_ref. congruence. }
  congruence.
Qed.
End wiring.

(** C12: senders and receiver agree.  The flags [--source] of the Job that receives a run are one for each source of the run
    set, in order; the data plane parses them into the identity that the source's certificate is minted for, with the destination
    its own Job is given; so what a sender asks for is what the receiver has for its identity, and what the finalizer looks for
    in the snapshot are the effective paths of the sources. *)
Theorem sender_meets_receiver run target ss rs timestamp options :
  NoDup (source_ref <$> ss) → Forall flag_name ss → run_id run → om_Name (bj_Meta run) ≠ "" →
  CalculateTargetRunSet target ss ss ss = Ok rs →
  let values := source_value target <$> trs_Sources rs in
  (∃ before, serve_target_args run target rs timestamp options = before ++ (values ≫= λ v, ["--source"; v])) ∧
  ∃ sources expected,
    ParseExpectedTransferSourcesWithStrategy (om_Namespace (bj_Meta run)) (om_Name (bj_Meta run)) (RunID run)
      (is_mirror target) values = Ok (sources, sort_Strings (rsrc_EffectiveDestinationPath <$> trs_Sources rs)) ∧
    expected_destinations sources ∅ = Ok expected ∧
    ∀ r, r ∈ trs_Sources rs → ∃ d e,
      TransferDestinationPath target (RunID run) (rsrc_Source r) = Ok d ∧
      NormalizeTargetSubpath d = Ok e ∧ expected !! sender_identity run (rsrc_Source r) = Some e.
Proof.
  intros Hnd Hnames Hrun Hname Hok values. split.
  { eexists. unfold serve_target_args. f_equal. unfold values.
    induction (trs_Sources rs) as [|r l IH]; [done|]. cbn. by rewrite IH. }
  exists (run_transfer run target <$> trs_Sources rs).
  assert (∀ r, r ∈ trs_Sources rs → ∃ e, NormalizeTargetSubpath (ets_Destination (run_transfer run target r)) = Ok e) as Hn.
  { intros r Hr. destruct (run_source target ss rs Hnd Hnames Hok r Hr) as (s & p & Hs & -> & Hp).
    exact (proj2 (expected_of_source target run s p Hs Hrun Hp)). }
  assert (∃ expected, expected_destinations (run_transfer run target <$> trs_Sources rs) ∅ = Ok expected) as [expected Hex].
  { generalize (∅ : gmap Identity string). revert Hn. generalize (trs_Sources rs). intros l.
    induction l as [|r l IH]; intros Hn acc; [by eexists|]. cbn [fmap list_fmap expected_destinations].
    rewrite decide_False by (unfold run_transfer, sender_identity, SourceIdentity, zero_identity; cbn; congruence).
    destruct (Hn r) as [e ->]; [by left|]. cbn [map_err mbind result_bind]. apply IH. intros r' Hr'. apply Hn. by right. }
  exists expected. split; [by eapply parse_run_sources|]. split; [done|].
  intros r Hr. destruct (Hn r Hr) as [e He].
  destruct (run_source target ss rs Hnd Hnames Hok r Hr) as (s & p & Hs & Heq & Hp).
  exists (transfer_destination target run p), e. split; [|split].
  - subst r. apply TransferDestinationPath_effective; [by destruct Hrun as [[? _] _]|done].
  - by subst r.
  - rewrite (expected_destinations_lookup _ _ _ _ Hex).
    destruct (last _) as [x|] eqn:Hl.
    + apply last_Some_elem_of, list_elem_of_filter in Hl as [Hi (r' & -> & Hr')%list_elem_of_fmap].
      rewrite (run_transfers_distinct run target ss rs Hnd Hnames Hrun Hok r' r) by done. by rewrite He.
    + exfalso. apply last_None in Hl.
      assert (run_transfer run target r ∈ filter (λ x, ets_Identity x = sender_identity run (rsrc_Source r))
        (run_transfer run target <$> trs_Sources rs)) as Hin.
      { apply list_elem_of_filter. split; [done|]. by apply list_elem_of_fmap_2. }
      rewrite Hl in Hin. by apply not_elem_of_nil in Hin.
Qed.

Definition nightly_run : BackupJob :=
  MkBackupJob ((inhabitant : ObjectMeta) <| om_Namespace := "backup" |> <| om_Name := "nightly" |>) inhabitant inhabitant.

Lemma sender_meets_receiver_witness :
  ∃ sources expected,
    ParseExpectedTransferSourcesWithStrategy "backup" "nightly" "backup-nightly" false
      ["apps/db=apps/pg/data"; "apps/web=apps"; "media/photos=media/photos"]
    = Ok (sources, ["apps"; "apps/pg/data"; "media/photos"]) ∧
    expected_destinations sources ∅ = Ok expected ∧
    expected !! SourceIdentity "backup" "nightly" "apps" "web" = Some ".partial/backup-nightly/apps".
Proof.
  destruct (sender_meets_receiver nightly_run (sample_machine "") RunSet.sample_sources (sample_run_set "") ""
    (MkDataPlaneControlOptions "" "")) as (_ & sources & expected & Hparse & Hex & Hr).
  - apply (bool_decide_unpack _). by vm_compute.
  - apply (bool_decide_unpack _). by vm_compute.
  - apply (bool_decide_unpack _). by vm_compute.
  - done.
  - by vm_compute.
  - exists sources, expected. split; [exact Hparse|]. split; [exact Hex|].
    destruct (Hr (MkResolvedSource (MkNamespacedName "apps" "web") (sample_source "apps" "web" "/") "apps"))
      as (d & e & Hd & He & Hl); [vm_compute; right; left|].
    etransitivity; [exact Hl|]. vm_compute in Hd. injection Hd as <-. vm_compute in He. by injection He as <-.
Defined.
