(* ===== verification/OutputLaws.v ===== *)
(** * What is read from rsync, and what a shell reads back

    The laws of [Rsync]: a command that is logged can be pasted into a shell; progress does
    not depend on how the output arrives in pieces; the statistics at the end are those of rsync's summary,
    as it printed them. *)
From S2P Require Export Rsync.
From stdpp Require Import options.
From Stdlib Require Import Ascii.

(** ** A shell

    How a POSIX shell splits a command into words, for the characters that are not special to it
    outside of quotes; for others there is no answer.  [word] is the word that has begun. *)
Definition shell_plain (c : ascii) : bool :=
  byte_in 33 126 c && negb (ContainsByte "|&;<>()$`*?[]#~!{}^" c) &&
  negb (bool_decide (nat_of_ascii c ∈ [34; 39; 92]%nat)).
Definition shell_blank (c : ascii) : bool := bool_decide (c = " "%char).

Fixpoint shell_words (quoted : bool) (word : option string) (s : string) : option (list string) :=
  match s with
  | EmptyString => if quoted then None else Some (option_list word)
  | String c s =>
      let extend x := Some (default "" word +:+ x) in
      if quoted then
        if decide (c = quote_mark) then shell_words false (extend "") s
        else shell_words true (extend (String c "")) s
      else if decide (c = quote_mark) then shell_words true (extend "") s
      else if decide (c = backslash_mark) then
        match s with
        | String d s => shell_words false (extend (String d "")) s
        | EmptyString => None
        end
      else if shell_blank c then
        rest ← shell_words false None s; Some (option_list word ++ rest)
      else if shell_plain c then shell_words false (extend (String c "")) s
      else None
  end.

Lemma shell_quote_begin word s :
  shell_words false word (String quote_mark s) = shell_words true (Some (default "" word)) s.
Proof. cbn [shell_words]. rewrite decide_True by done. cbn [default id]. by rewrite str_app_nil_r. Qed.

Lemma shell_quote_end word s : shell_words true (Some word) (String quote_mark s) = shell_words false (Some word) s.
Proof. cbn [shell_words]. rewrite decide_True by done. cbn [default id]. by rewrite str_app_nil_r. Qed.

Lemma shell_backslash word d s :
  shell_words false (Some word) (String backslash_mark (String d s)) = shell_words false (Some (word +:+ String d "")) s.
Proof. cbn [shell_words]. by rewrite decide_False, decide_True by done. Qed.

Lemma shell_space word s :
  shell_words false word (String " " s) = rest ← shell_words false None s; Some (option_list word ++ rest).
Proof. done. Qed.

Lemma snoc_str s c t : (s +:+ String c "") +:+ t = s +:+ String c t.
Proof. by rewrite str_app_assoc, str_app_cons, str_app_nil_l. Qed.

(** A quoted value is one word, whatever follows it. *)
Lemma shell_words_quoted word value rest :
  shell_words true (Some word) (ReplaceByte value quote_mark escaped_quote +:+ String quote_mark rest)
  = shell_words false (Some (word +:+ value)) rest.
Proof.
  revert word. induction value as [|c value IH]; intros word.
  { cbn [ReplaceByte]. by rewrite str_app_nil_l, str_app_nil_r, shell_quote_end. }
  cbn [ReplaceByte]. rewrite str_app_assoc. case_decide as Hc.
  - subst c. unfold escaped_quote. rewrite !str_app_cons, str_app_nil_l.
    rewrite shell_quote_end, shell_backslash, shell_quote_begin. cbn [default id]. by rewrite IH, snoc_str.
  - rewrite str_app_cons, str_app_nil_l. cbn [shell_words]. rewrite decide_False by done. cbn [default id].
    by rewrite IH, snoc_str.
Qed.

Lemma safe_not_special c : shell_safe c = true →
  c ≠ quote_mark ∧ c ≠ backslash_mark ∧ shell_blank c = false ∧ shell_plain c = true.
Proof. destruct c as [[] [] [] [] [] [] [] []]; by vm_compute. Qed.

Lemma shell_words_safe word value rest : all_bytes shell_safe value = true →
  shell_words false (Some word) (value +:+ rest) = shell_words false (Some (word +:+ value)) rest.
Proof.
  revert word. induction value as [|c value IH]; intros word Hv.
  { by rewrite str_app_nil_l, str_app_nil_r. }
  cbn in Hv. apply andb_true_iff in Hv as [Hc Hv]. destruct (safe_not_special c Hc) as (H1 & H2 & H3 & H4).
  rewrite str_app_cons. cbn [shell_words]. rewrite decide_False, decide_False by done. rewrite H3, H4. cbn [default id].
  rewrite IH by done. by rewrite snoc_str.
Qed.

Lemma shell_words_begin value rest : all_bytes shell_safe value = true → value ≠ "" →
  shell_words false None (value +:+ rest) = shell_words false (Some value) rest.
Proof.
  intros Hv Hne. destruct value as [|c value]; [done|].
  cbn in Hv. apply andb_true_iff in Hv as [Hc Hv]. destruct (safe_not_special c Hc) as (H1 & H2 & H3 & H4).
  rewrite str_app_cons. cbn [shell_words]. rewrite decide_False, decide_False by done. rewrite H3, H4. cbn [default id].
  rewrite shell_words_safe by done. by rewrite str_app_nil_l, str_app_cons, str_app_nil_l.
Qed.

Lemma shell_words_shellQuote value rest :
  shell_words false None (shellQuote value +:+ rest) = shell_words false (Some value) rest.
Proof.
  unfold shellQuote. case_decide as Hv; [by subst|]. destruct (all_bytes shell_safe value) eqn:Hs.
  { by apply shell_words_begin. }
  rewrite str_app_cons, str_app_assoc, str_app_cons, str_app_nil_l, shell_quote_begin, shell_words_quoted.
  cbn [default id]. by rewrite str_app_nil_l.
Qed.

(** a logged command can be pasted into a shell.  Split into words as a POSIX shell does it, the text that
    [shellCommand] logs for a program and its arguments gives the program and exactly these arguments, whatever bytes
    they contain. *)
Theorem shellCommand_words name args : shell_words false None (shellCommand name args) = Some (name :: args).
Proof.
  unfold shellCommand. revert name. induction args as [|a args IH]; intros name.
  - cbn [fmap list_fmap strings_Join]. rewrite <-(str_app_nil_r (shellQuote name)). by rewrite shell_words_shellQuote.
  - rewrite Join_cons by done. rewrite shell_words_shellQuote. rewrite str_app_cons, str_app_nil_l.
    change (shellQuote <$> a :: args) with (shellQuote a :: (shellQuote <$> args)). by rewrite shell_space, IH.
Qed.

(** ** Progress *)

(** The pieces of an output between its line ends, of which the last one has not ended. *)
Definition pieces (s : string) : list string := Split (ReplaceByte s carriage_return newline) line_feed.

Definition no_line_end (s : string) : Prop := ContainsByte s line_feed = false ∧ ContainsByte s carriage_return = false.

Lemma pieces_end buf c s : no_line_end buf → c = line_feed ∨ c = carriage_return →
  pieces (buf +:+ String c s) = buf :: pieces s.
Proof.
  intros [Hl Hr] Hc. unfold pieces. rewrite ReplaceByte_app, (ReplaceByte_absent buf) by done. cbn [ReplaceByte].
  assert ((if decide (c = carriage_return) then newline else String c "") = String line_feed "") as ->.
  { destruct Hc as [->| ->]; by vm_compute. }
  rewrite str_app_cons, str_app_nil_l. by apply Split_app.
Qed.

Lemma pieces_nonempty s : pieces s ≠ [].
Proof. apply Split_nonempty. Qed.

Lemma pieces_open buf : no_line_end buf → pieces buf = [buf].
Proof. intros [Hl Hr]. unfold pieces. rewrite ReplaceByte_absent by done. by apply Split_none. Qed.

(** The statistics that the ended lines of an output pass on. *)
Definition lines_progress `{!FloatConversion} (s : string) : list TransferStats :=
  omap line_progress (removelast (pieces s)).

Section Progress.
Context `{!FloatConversion}.

Lemma write_bytes s w : no_line_end (pw_buf w) →
  fold_left write_byte (String.list_ascii_of_string s) w =
  MkProgressWriter (pw_capture w) (List.last (pieces (pw_buf w +:+ s)) "")
    (pw_progress w ++ lines_progress (pw_buf w +:+ s)).
Proof.
  unfold lines_progress. revert w. induction s as [|c s IH]; intros w Hw.
  { cbn [String.list_ascii_of_string fold_left]. rewrite str_app_nil_r, pieces_open by done. cbn.
    rewrite (right_id_L [] (++)). by destruct w. }
  cbn [String.list_ascii_of_string fold_left]. unfold write_byte at 2. case_decide as Hc.
  - rewrite IH by done. rewrite pieces_end by done. destruct w as [cap buf prog]. cbn -[pieces] in *.
    rewrite str_app_nil_l. destruct (pieces s) as [|x l] eqn:Hp; [by destruct (pieces_nonempty s)|].
    f_equal. rewrite <-(assoc_L (++)). f_equal. change (buf :: removelast (x :: l)) with ([buf] ++ removelast (x :: l)).
    rewrite omap_app. by f_equal.
  - rewrite IH.
    + destruct w as [cap buf prog]. cbn -[pieces] in *. by rewrite snoc_str.
    + destruct w as [cap buf prog]. cbn in *. destruct Hw as [H1 H2]. unfold no_line_end.
      rewrite !ContainsByte_app, H1, H2. cbn. rewrite !bool_decide_false by naive_solver. done.
Qed.
End Progress.

Definition concatenated (l : list string) : string := foldr String.append "" l.
Definition all_output (writes : list rsync_write) : string := concatenated (rw_bytes <$> writes).
Definition standard_output (writes : list rsync_write) : string :=
  concatenated (rw_bytes <$> filter (λ x, rw_stdout x = true) writes).

Section Output.
Context `{!FloatConversion}.

Definition captured (c : string) (w : rsyncProgressWriter) : rsyncProgressWriter := w <| pw_capture := c |>.

Lemma write_bytes_captured l c w :
  fold_left write_byte l (captured c w) = captured c (fold_left write_byte l w).
Proof.
  revert w. induction l as [|b l IH]; intros w; [done|]. cbn [fold_left]. rewrite <-IH. f_equal.
  unfold write_byte, captured. by case_decide.
Qed.

Lemma list_ascii_app s t :
  String.list_ascii_of_string (s +:+ t) = String.list_ascii_of_string s ++ String.list_ascii_of_string t.
Proof. induction s as [|c s IH]; [done|]. rewrite str_app_cons. cbn. by rewrite IH. Qed.

Lemma write_output_fold wanted writes w : Forall (λ x, rw_out x = Ok tt) writes →
  fold_left (write_output wanted) writes w =
  captured (pw_capture w +:+ all_output writes)
    (if wanted then fold_left write_byte (String.list_ascii_of_string (standard_output writes)) w else w).
Proof.
  intros Hok. revert w. induction Hok as [|x writes Hx Hok IH]; intros w.
  { destruct w, wanted; cbn; by rewrite str_app_nil_r. }
  cbn [fold_left]. rewrite IH. unfold write_output, progress_Write. rewrite Hx. cbn [snd].
  unfold all_output, standard_output. cbn [fmap list_fmap concatenated foldr].
  change (foldr String.append "" (rw_bytes <$> writes)) with (concatenated (rw_bytes <$> writes)).
  rewrite <-str_app_assoc. change (w <| pw_capture ::= _ |>) with (captured (pw_capture w +:+ rw_bytes x) w).
  destruct wanted; cbn [andb]; [|done]. rewrite filter_cons. destruct (rw_stdout x) eqn:Hs.
  - rewrite decide_True by done. cbn [fmap list_fmap concatenated foldr].
    change (foldr String.append "" (rw_bytes <$> ?l)) with (concatenated (rw_bytes <$> l)).
    rewrite list_ascii_app, fold_left_app, !write_bytes_captured. done.
  - rewrite decide_False by done. by rewrite write_bytes_captured.
Qed.

Lemma copied_all writes : Forall (λ x, rw_out x = Ok tt) writes → copied true true writes = writes.
Proof. induction 1 as [|x writes Hx _ IH]; [done|]. cbn [copied]. rewrite Hx. cbn [is_ok]. rewrite IH. by destruct (rw_stdout x). Qed.

(** C36: progress does not depend on how the output arrives.  When the program's own streams take what is written to
    them, and whatever pieces the output of rsync is written in, and however
    the two streams are interleaved, what is passed on is: the statistics of each ended line of the standard output that
    is a line of progress, in order, and at the end the statistics of the whole output, which are also returned, with the error of
    the command. *)
Theorem progress_by_line writes err : Forall (λ x, rw_out x = Ok tt) writes →
  runRsyncCommand true writes err =
  (ParseRsyncStats (all_output writes), err,
   omap line_progress (removelast (pieces (standard_output writes))) ++ [ParseRsyncStats (all_output writes)]).
Proof.
  intros Hok. unfold runRsyncCommand. rewrite copied_all, write_output_fold by done. rewrite write_bytes by done.
  cbn [pw_capture pw_progress captured update_field]. done.
Qed.
End Output.

(** ** The summary *)

(** A number as rsync prints it: its digits, in groups with commas between them. *)
Definition spells (s : string) (n : Z) : Prop :=
  0 ≤ n ≤ max_uint64 ∧ remove_byte ","%char s = Itoa n ∧
  all_bytes (λ c, is_digit c || bool_decide (c = ","%char)) s = true ∧
  match s with String c _ => is_digit c = true | EmptyString => False end.

(** A text without white space. *)
Definition one_word (s : string) : Prop := s ≠ "" ∧ all_bytes (λ c, byte_in 33 126 c) s = true.

Definition files_line (count rest : string) : string := "Number of files: " +:+ count +:+ rest.
Definition transferred_line (count : string) : string := "Number of regular files transferred: " +:+ count.
Definition size_line (bytes : string) : string := "Total file size: " +:+ bytes +:+ " bytes".
Definition moved_line (bytes : string) : string := "Total transferred file size: " +:+ bytes +:+ " bytes".
Definition sent_line (sent received rate : string) : string :=
  "sent " +:+ sent +:+ " bytes  received " +:+ received +:+ " bytes  " +:+ rate +:+ " bytes/sec".
Definition speedup_line (bytes speedup : string) : string := "total size is " +:+ bytes +:+ "  speedup is " +:+ speedup.

Section Summary.
Context `{!FloatConversion}.

(** A line of the output that tells nothing that is kept. *)
Definition says_nothing (line : string) : bool :=
  bool_decide (parseRsyncProgressLine line = None) &&
  negb (existsb (HasPrefix line) ["Number of files:"; "Number of regular files transferred:"; "Total file size:";
    "Total transferred file size:"; "sent "]) &&
  negb (Contains line " bytes/sec") && negb (Contains line "speedup is").

(** A line that fits the scanner. *)
Definition plain_line (line : string) : Prop := no_line_end line ∧ Z.of_nat (String.length line) < scan_limit.

Lemma count_byte_spells s n : spells s n → all_bytes count_byte s = true.
Proof.
  intros (_ & _ & Hs & _). eapply all_bytes_mono; [|exact Hs]. intros c. unfold count_byte.
  rewrite !orb_true_iff. tauto.
Qed.

(** A spelled number is read, whatever follows it that is no part of it. *)
Lemma parse_spelled s n rest : spells s n → stops count_byte rest → parseLeadingUint (" " +:+ s +:+ rest) = n ∧
  parseLeadingUint (s +:+ rest) = n.
Proof.
  intros Hsp Hr. pose proof (count_byte_spells s n Hsp) as Hc. destruct Hsp as (Hn & Hd & Ha & H0).
  assert (leading_number (s +:+ rest) = Some s) as H2.
  { destruct s as [|c s]; [done|]. assert (re_space c = false) as Hspace.
    { clear -H0. destruct c as [[] [] [] [] [] [] [] []]; vm_compute in H0 |- *; done. }
    assert (span_bytes count_byte (String c s +:+ rest) = (String c s, rest)) as Hs by by apply span_bytes_app.
    unfold leading_number. rewrite str_app_cons in Hs |- *.
    assert (span_bytes re_space (String c (s +:+ rest)) = ("", String c (s +:+ rest))) as ->
      by (cbn -[re_space]; by rewrite Hspace).
    cbn [snd]. by rewrite H0, Hs. }
  assert (leading_number (" " +:+ s +:+ rest) = Some s) as H1.
  { rewrite <-H2. unfold leading_number. rewrite str_app_cons, str_app_nil_l.
    assert (∀ x, (span_bytes re_space (String " " x)).2 = (span_bytes re_space x).2) as ->; [|done].
    intros x. cbn [span_bytes]. change (re_space " ") with true. cbn iota. by destruct (span_bytes re_space x). }
  unfold parseLeadingUint. rewrite H1, H2. cbn zeta. rewrite Hd.
  destruct (Itoa_digits n ltac:(lia)) as [Hne Hdig]. rewrite decide_False by done.
  assert (ContainsByte (Itoa n) "."%char = false) as ->.
  { clear -Hdig. induction (Itoa n) as [|c t IH]; [done|]. cbn in Hdig |- *. apply andb_true_iff in Hdig as [Hc Ht].
    rewrite IH by done. rewrite bool_decide_false; [done|]. intros ->. done. }
  unfold uint_of. rewrite parse_digits_Itoa by lia. lia.
Qed.

(** A line that starts with a letter is no progress. *)
Lemma no_progress c s : re_space c = false → count_byte c = false → parseRsyncProgressLine (String c s) = None.
Proof.
  intros H1 H2. unfold parseRsyncProgressLine, progress_groups.
  assert (∀ P, P c = false → span_bytes P (String c s) = ("", String c s)) as Hspan by (intros P HP; cbn; by rewrite HP).
  rewrite (Hspan re_space H1), (Hspan count_byte H2), (Hspan re_space H1).
  destruct (span_bytes is_digit (String c s)) as [percent s1]. by rewrite decide_True by by left.
Qed.

Lemma no_progress_line line : match line with String c _ => re_space c = false ∧ count_byte c = false | "" => False end →
  parseRsyncProgressLine line = None.
Proof. destruct line as [|c s]; [done|]. intros [H1 H2]. by apply no_progress. Qed.

(** *** Words *)

Lemma printable_no_space c : byte_in 33 126 c = true → after_space (String c "") = None ∧ c ≠ " "%char.
Proof. destruct c as [[] [] [] [] [] [] [] []]; intros Hc; try (by vm_compute in Hc); by vm_compute. Qed.

Lemma after_space_word c s : byte_in 33 126 c = true → after_space (String c s) = None.
Proof. destruct c as [[] [] [] [] [] [] [] []]; intros Hc; try (by vm_compute in Hc); reflexivity. Qed.

Definition fields_from (word s : string) : list string := fields_in (S (String.length s)) word s.

Lemma fields_word w word s : all_bytes (λ c, byte_in 33 126 c) w = true →
  fields_from word (w +:+ s) = fields_from (word +:+ w) s.
Proof.
  revert word. induction w as [|c w IH]; intros word Hw; [by rewrite str_app_nil_r|].
  cbn in Hw. apply andb_true_iff in Hw as [Hc Hw]. rewrite str_app_cons.
  assert (fields_from word (String c (w +:+ s)) = fields_from (word +:+ String c "") (w +:+ s)) as ->.
  { unfold fields_from. cbn [String.length fields_in]. by rewrite after_space_word. }
  rewrite IH by done. by rewrite snoc_str.
Qed.

Lemma fields_space word s :
  fields_from word (String " " s) = (if decide (word = "") then [] else [word]) ++ fields_from "" s.
Proof.
  assert (after_space (String " " s) = Some s) as Ha.
  { by destruct s. }
  unfold fields_from. cbn [String.length fields_in]. by rewrite Ha.
Qed.

Lemma fields_end word : word ≠ "" → fields_from word "" = [word].
Proof. intros Hw. unfold fields_from. cbn. by rewrite decide_False. Qed.

Lemma digit_printable c : is_digit c = true → byte_in 33 126 c = true ∧ c ≠ "b"%char.
Proof. destruct c as [[] [] [] [] [] [] [] []]; intros Hc; try (by vm_compute in Hc); by vm_compute. Qed.

Lemma spells_word s n : spells s n → s ≠ "" ∧ all_bytes (λ c, byte_in 33 126 c) s = true.
Proof.
  intros (_ & _ & Ha & H0). split; [by intros ->|]. eapply all_bytes_mono; [|exact Ha]. intros c. cbn beta.
  rewrite orb_true_iff, bool_decide_eq_true. intros [Hd| ->]; [by apply digit_printable|done].
Qed.

(** A text that starts with a digit and has no white space. *)
Definition number_word (s : string) : Prop :=
  all_bytes (λ c, byte_in 33 126 c) s = true ∧ match s with String c _ => is_digit c = true | EmptyString => False end.

Lemma spells_number s n : spells s n → number_word s.
Proof. intros Hs. split; [by eapply spells_word|]. by destruct Hs as (_ & _ & _ & ?). Qed.

Lemma number_word_cons w : number_word w → ∃ c t, w = String c t ∧ c ≠ "b"%char ∧ w ≠ "".
Proof. intros [_ Hw]. destruct w as [|c t]; [done|]. exists c, t. split_and!; [done|by apply digit_printable|done]. Qed.

(** What cutting and searching skip. *)
Lemma CutText_word w s p : all_bytes (λ c, byte_in 33 126 c) w = true →
  CutText (w +:+ s) (String " " p) = ('(a, b) ← CutText s (String " " p); Some (w +:+ a, b)).
Proof.
  induction w as [|c w IH]; intros Hw.
  { rewrite str_app_nil_l. destruct (CutText s (String " " p)) as [[]|]; cbn [mbind option_bind]; [by rewrite str_app_nil_l|done]. }
  cbn in Hw. apply andb_true_iff in Hw as [Hc Hw]. rewrite str_app_cons. cbn [CutText HasPrefix].
  destruct (printable_no_space c Hc) as [_ Hne]. rewrite bool_decide_false by congruence. cbn [andb]. rewrite IH by done.
  destruct (CutText s (String " " p)) as [[]|]; cbn [mbind option_bind]; [by rewrite str_app_cons|done].
Qed.

Lemma CutText_space d s p q : d ≠ q →
  CutText (String " " (String d s)) (String " " (String q p)) =
  ('(a, b) ← CutText (String d s) (String " " (String q p)); Some (String " " a, b)).
Proof. intros Hd. cbn [CutText HasPrefix]. rewrite (bool_decide_false (q = d)) by done. by rewrite andb_false_r. Qed.

Lemma Contains_word w s p : all_bytes (λ c, byte_in 33 126 c) w = true →
  Contains (w +:+ s) (String " " p) = Contains s (String " " p).
Proof.
  induction w as [|c w IH]; intros Hw; [done|].
  cbn in Hw. apply andb_true_iff in Hw as [Hc Hw]. rewrite str_app_cons. cbn [Contains HasPrefix].
  destruct (printable_no_space c Hc) as [_ Hne]. rewrite bool_decide_false by congruence. cbn [andb orb]. by apply IH.
Qed.

Lemma Contains_space d s p q : d ≠ q →
  Contains (String " " (String d s)) (String " " (String q p)) = Contains (String d s) (String " " (String q p)).
Proof. intros Hd. cbn [Contains HasPrefix]. rewrite (bool_decide_false (q = d)) by done. by rewrite andb_false_r. Qed.

Lemma Contains_middle a sub b : sub ≠ "" → Contains (a +:+ sub +:+ b) sub = true.
Proof.
  intros Hs. induction a as [|c a IH].
  - rewrite str_app_nil_l. destruct sub as [|d sub]; [done|]. rewrite str_app_cons. cbn [Contains].
    rewrite <-str_app_cons. by rewrite HasPrefix_app.
  - rewrite str_app_cons. cbn [Contains]. rewrite IH. apply orb_true_r.
Qed.

Lemma CutLast_word a w : all_bytes (λ c, byte_in 33 126 c) w = true → CutLast (a +:+ String " " w) " "%char = Some (a, w).
Proof.
  intros Hw. assert (CutLast w " "%char = None) as Hn.
  { induction w as [|c w IH]; [done|]. cbn in Hw |- *. apply andb_true_iff in Hw as [Hc Hw].
    rewrite IH by done. rewrite decide_False; [done|]. by apply printable_no_space. }
  induction a as [|c a IH].
  - rewrite str_app_nil_l. cbn. by rewrite Hn.
  - rewrite str_app_cons. cbn. by rewrite IH.
Qed.

(** *** The lines *)

(** A line with a label and a number. *)
Lemma summary_field_spelled st label s n rest store :
  spells s n → stops count_byte rest →
  summary_field st (label +:+ " " +:+ s +:+ rest) label store = Some (store n (st <| ts_Summary := true |>)).
Proof.
  intros Hs Hr. unfold summary_field. rewrite HasPrefix_app, TrimPrefix_app.
  by destruct (parse_spelled s n rest Hs Hr) as [-> _].
Qed.

Lemma files_stats st s n rest : spells s n → stops count_byte rest → TrimSpace (files_line s rest) = files_line s rest →
  stats_line st (files_line s rest) = st <| ts_Summary := true |> <| ts_TotalFiles := n |>.
Proof.
  intros Hs Hr Ht. unfold stats_line. rewrite Ht. cbv zeta. rewrite (no_progress_line (files_line s rest)) by done.
  change (files_line s rest) with ("Number of files:" +:+ " " +:+ s +:+ rest). by rewrite (summary_field_spelled _ _ s n).
Qed.

Lemma transferred_stats st s n : spells s n → TrimSpace (transferred_line s) = transferred_line s →
  stats_line st (transferred_line s) = st <| ts_Summary := true |> <| ts_FilesTransferred := n |>.
Proof.
  intros Hs Ht. unfold stats_line. rewrite Ht. cbv zeta. rewrite (no_progress_line (transferred_line s)) by done.
  rewrite <-(str_app_nil_r s).
  change (transferred_line (s +:+ "")) with ("Number of regular files transferred:" +:+ " " +:+ s +:+ "").
  rewrite (summary_field_spelled _ "Number of regular files transferred:" s n) by done. reflexivity.
Qed.

Lemma size_stats st s n : spells s n → TrimSpace (size_line s) = size_line s →
  stats_line st (size_line s) = st <| ts_Summary := true |> <| ts_TotalFileSize := n |>.
Proof.
  intros Hs Ht. unfold stats_line. rewrite Ht. cbv zeta. rewrite (no_progress_line (size_line s)) by done.
  change (size_line s) with ("Total file size:" +:+ " " +:+ s +:+ " bytes").
  rewrite (summary_field_spelled _ "Total file size:" s n) by done. reflexivity.
Qed.

Lemma moved_stats st s n : spells s n → TrimSpace (moved_line s) = moved_line s →
  stats_line st (moved_line s) = st <| ts_Summary := true |> <| ts_BytesTransferred := n |>.
Proof.
  intros Hs Ht. unfold stats_line. rewrite Ht. cbv zeta. rewrite (no_progress_line (moved_line s)) by done.
  change (moved_line s) with ("Total transferred file size:" +:+ " " +:+ s +:+ " bytes").
  rewrite (summary_field_spelled _ "Total transferred file size:" s n) by done. reflexivity.
Qed.

(** The words of the last line but one. *)
Lemma sent_words A B R rest :
  "sent " +:+ A +:+ " bytes  received " +:+ B +:+ " bytes  " +:+ R +:+ rest =
  "sent" +:+ String " " (A +:+ String " " ("bytes" +:+ String " " (String " " ("received" +:+ String " "
    (B +:+ String " " ("bytes" +:+ String " " (String " " (R +:+ rest)))))))).
Proof. reflexivity. Qed.

Lemma Fields_sent A B R rest : number_word A → number_word B → number_word R →
  Fields ("sent " +:+ A +:+ " bytes  received " +:+ B +:+ " bytes  " +:+ R +:+ rest) =
  ["sent"; A; "bytes"; "received"; B; "bytes"] ++ fields_from R rest.
Proof.
  intros [HA HA0] [HB HB0] [HR HR0]. rewrite sent_words. change (Fields ?x) with (fields_from "" x).
  rewrite (fields_word "sent"), fields_space by done. rewrite (fields_word A), fields_space by done.
  rewrite (fields_word "bytes"), fields_space by done. rewrite fields_space.
  rewrite (fields_word "received"), fields_space by done. rewrite (fields_word B), fields_space by done.
  rewrite (fields_word "bytes"), fields_space by done. rewrite fields_space.
  rewrite (fields_word R) by done. rewrite !str_app_nil_l.
  by destruct A, B.
Qed.

Lemma sent_rate A B R : number_word A → number_word B → number_word R →
  parseRsyncSummaryRate (sent_line A B R) = Some (parseLeadingUint R).
Proof.
  intros HA HB HR. unfold parseRsyncSummaryRate, sent_line.
  assert (CutText ("sent " +:+ A +:+ " bytes  received " +:+ B +:+ " bytes  " +:+ R +:+ " bytes/sec") " bytes/sec" =
    Some ("sent " +:+ A +:+ " bytes  received " +:+ B +:+ " bytes  " +:+ R +:+ "", "")) as ->.
  { rewrite !sent_words. destruct (number_word_cons A HA) as (a & A' & -> & Ha & _).
    destruct (number_word_cons B HB) as (b & B' & -> & Hb & _). destruct (number_word_cons R HR) as (c & R' & -> & Hc & _).
    destruct HA as [HA _], HB as [HB _], HR as [HR _]. change " bytes/sec" with (String " " (String "b" "ytes/sec")).
    rewrite (CutText_word "sent") by done. rewrite str_app_cons, CutText_space by done. rewrite <-str_app_cons.
    rewrite (CutText_word (String a A')) by done.
    assert (∀ x, CutText (String " " ("bytes" +:+ String " " x)) (String " " (String "b" "ytes/sec")) =
      ('(a, b) ← CutText ("bytes" +:+ String " " x) (String " " (String "b" "ytes/sec")); Some (String " " a, b))) as Hstep
      by reflexivity.
    rewrite Hstep. rewrite (CutText_word "bytes") by done. rewrite (CutText_space " "%char) by done.
    change (String " " ("received" +:+ ?x)) with (String " " (String "r" ("eceived" +:+ x))). rewrite (CutText_space "r"%char) by done.
    change (String "r" ("eceived" +:+ ?x)) with ("received" +:+ x).
    rewrite (CutText_word "received") by done. rewrite str_app_cons, CutText_space by done. rewrite <-str_app_cons.
    rewrite (CutText_word (String b B')) by done. rewrite Hstep. rewrite (CutText_word "bytes") by done.
    rewrite (CutText_space " "%char) by done. rewrite str_app_cons, CutText_space by done. rewrite <-str_app_cons.
    rewrite (CutText_word (String c R')) by done. reflexivity. }
  cbn [mbind option_bind]. rewrite Fields_sent by done. rewrite fields_end by (destruct HR as [_ HR]; by intros ->).
  rewrite last_snoc. done.
Qed.

Lemma sent_stats st A a B b R : spells A a → spells B b → number_word R → TrimSpace (sent_line A B R) = sent_line A B R →
  stats_line st (sent_line A B R) = st <| ts_Summary := true |> <| ts_BytesSent := a |> <| ts_BytesReceived := b |>
    <| ts_RateBytesPerSecond := parseLeadingUint R |>.
Proof.
  intros HA HB HR Ht. pose proof (spells_number A a HA) as HA'. pose proof (spells_number B b HB) as HB'.
  unfold stats_line. rewrite Ht. cbv zeta. rewrite (no_progress_line (sent_line A B R)) by done.
  unfold summary_field. cbn [HasPrefix sent_line].
  assert (parseRsyncSentReceived (sent_line A B R) = Some (a, b)) as Hs.
  { unfold parseRsyncSentReceived, sent_line. rewrite Fields_sent by done. cbn [app].
    destruct (fields_from R " bytes/sec") eqn:Hf; rewrite decide_False by (intros [|[|[|]]]; done);
      destruct (parse_spelled A a "" HA) as [_ H1]; destruct (parse_spelled B b "" HB) as [_ H2]; try done;
      rewrite !str_app_nil_r in *; by rewrite H1, H2. }
  assert (∀ label, HasPrefix (sent_line A B R) (String "N" label) = false ∧ HasPrefix (sent_line A B R) (String "T" label) = false)
    as Hn by done.
  rewrite !(proj1 (Hn _)), !(proj2 (Hn _)). assert (HasPrefix (sent_line A B R) "sent " = true) as -> by apply HasPrefix_app.
  cbn iota.
  rewrite Hs. unfold with_rate. rewrite sent_rate by done. reflexivity.
Qed.
Lemma speedup_stats st S V : number_word S → number_word V → TrimSpace (speedup_line S V) = speedup_line S V →
  stats_line st (speedup_line S V) = st <| ts_Summary := true |> <| ts_Speedup := float_of (number_field V) |>.
Proof.
  intros HS HV Ht. unfold stats_line. rewrite Ht. cbv zeta. rewrite (no_progress_line (speedup_line S V)) by done.
  unfold summary_field.
  assert (∀ label, HasPrefix (speedup_line S V) (String "N" label) = false ∧ HasPrefix (speedup_line S V) (String "T" label) = false
    ∧ HasPrefix (speedup_line S V) (String "s" label) = false) as Hn by done.
  rewrite !(proj1 (Hn _)), !(proj1 (proj2 (Hn _))), !(proj2 (proj2 (Hn _))). cbn iota.
  assert (Contains (speedup_line S V) " bytes/sec" = false) as ->.
  { unfold speedup_line. destruct (number_word_cons S HS) as (a & S' & -> & Ha & _).
    destruct (number_word_cons V HV) as (b & V' & -> & Hb & _). destruct HS as [HS _], HV as [HV _].
    assert ("total size is " +:+ String a S' +:+ "  speedup is " +:+ String b V' =
      "total" +:+ String " " (String "s" ("ize" +:+ String " " (String "i" ("s" +:+ String " " (String a (S' +:+
        String " " (String " " (String "s" ("peedup" +:+ String " " (String "i" ("s" +:+ String " " (String b (V' +:+ ""))))))))))))))
      as -> by by rewrite str_app_nil_r.
    change " bytes/sec" with (String " " (String "b" "ytes/sec")).
    rewrite (Contains_word "total"), Contains_space by done.
    change (String "s" ("ize" +:+ ?x)) with ("size" +:+ x). rewrite (Contains_word "size"), Contains_space by done.
    change (String "i" ("s" +:+ ?x)) with ("is" +:+ x). rewrite (Contains_word "is"), Contains_space by done.
    rewrite <-(str_app_cons a), (Contains_word (String a S')), Contains_space, Contains_space by done.
    change (String "s" ("peedup" +:+ ?x)) with ("speedup" +:+ x). rewrite (Contains_word "speedup"), Contains_space by done.
    change (String "i" ("s" +:+ ?x)) with ("is" +:+ x). rewrite (Contains_word "is"), Contains_space by done.
    rewrite <-(str_app_cons b), (Contains_word (String b V')) by done. done. }
  assert (Contains (speedup_line S V) "speedup is" = true) as ->.
  { unfold speedup_line.
    change ("  speedup is " +:+ V) with ("  " +:+ "speedup is" +:+ " " +:+ V). rewrite <-!(str_app_assoc _ _ ("speedup is" +:+ _)).
    by apply Contains_middle. }
  unfold parseTrailingFloat.
  assert (speedup_line S V = ("total size is " +:+ S +:+ "  speedup is") +:+ String " " V) as ->.
  { unfold speedup_line. by rewrite !str_app_assoc. }
  rewrite CutLast_word by apply HV. done.
Qed.

(** *** The whole output *)

Lemma says_nothing_stats st line : TrimSpace line = line → says_nothing line = true → stats_line st line = st.
Proof.
  intros Ht. unfold says_nothing. rewrite !andb_true_iff, !negb_true_iff. intros [[[Hp%bool_decide_eq_true Hl] Hr] Hs].
  unfold stats_line. rewrite Ht. cbv zeta. rewrite Hp, Hr, Hs. cbn [existsb] in Hl. rewrite !orb_false_iff in Hl.
  destruct Hl as (H1 & H2 & H3 & H4 & H5 & _). unfold summary_field. by rewrite H1, H2, H3, H4, H5.
Qed.

Lemma fold_stats_filter st lines : Forall (λ l, TrimSpace l = l) lines →
  fold_left stats_line lines st = fold_left stats_line (filter (λ l, says_nothing l = false) lines) st.
Proof.
  intros Hl. revert st. induction Hl as [|l lines Ht Hl IH]; intros st; [done|]. cbn [fold_left]. rewrite filter_cons.
  destruct (says_nothing l) eqn:Hn.
  - rewrite decide_False by done. by rewrite says_nothing_stats.
  - rewrite decide_True by done. cbn [fold_left]. by apply IH.
Qed.

Lemma scan_plain lines : Forall plain_line lines → ∀ st,
  fold_left stats_line (scan_lines lines) st = fold_left stats_line lines st.
Proof.
  induction 1 as [|l lines [Hl Hlen] Hall IH]; intros st; [done|]. cbn [scan_lines].
  destruct lines as [|m lines].
  - destruct (decide (l = "" ∨ _)) as [[->|?]|]; [|lia|done]. cbn [fold_left].
    symmetry. by apply says_nothing_stats.
  - rewrite decide_False by lia. cbn [fold_left]. apply IH.
Qed.

Lemma ParseRsyncStats_lines lines : lines ≠ [] → Forall plain_line lines →
  ParseRsyncStats (strings_Join lines newline) = fold_left stats_line lines no_stats.
Proof.
  intros Hne Hl. unfold ParseRsyncStats. rewrite ReplaceByte_absent.
  - change newline with (String line_feed ""). rewrite Split_Join; [by apply scan_plain|done|].
    eapply Forall_impl; [exact Hl|]. by intros l [[? _] _].
  - clear Hne. induction Hl as [|l lines [[_ Hr] _] Hl IH]; [done|]. destruct lines as [|m lines]; [done|].
    rewrite Join_cons by done. rewrite !ContainsByte_app, Hr, IH. done.
Qed.

(** C37: the summary of rsync is read back.  Whatever lines come first (of progress, warnings), when the lines
    after them that tell something are those that rsync prints with --stats, in order, with whatever other lines between
    them, then the statistics that are read are: the numbers of files and of transferred files, the three sizes and the two
    byte counts of the summary as they were printed, with or without commas between the digits; the rate and
    the speedup as their numbers are read; and the percentage of the progress before.  What the progress
    said of bytes and rate is replaced.  Each line is shorter than a
    scanner's buffer, and those of the summary have no space at their ends. *)
Theorem summary_read_back before rest files nfiles tail transferred ntransferred size nsize moved nmoved
    sent nsent received nreceived rate total speedup :
  Forall plain_line (before ++ rest) → Forall (λ l, TrimSpace l = l) rest →
  filter (λ l, says_nothing l = false) rest =
    [files_line files tail; transferred_line transferred; size_line size; moved_line moved;
     sent_line sent received rate; speedup_line total speedup] →
  spells files nfiles → stops count_byte tail → spells transferred ntransferred → spells size nsize →
  spells moved nmoved → spells sent nsent → spells received nreceived →
  number_word rate → number_word total → number_word speedup →
  ParseRsyncStats (strings_Join (before ++ rest) newline) =
  MkTransferStats (ts_Percent (fold_left stats_line before no_stats)) nmoved (parseLeadingUint rate) ntransferred nfiles
    nsize nsent nreceived (float_of (number_field speedup)) true.
Proof.
  intros Hl Ht Hf H1 H2 H3 H4 H5 H6 H7 H8 H9 H10.
  rewrite ParseRsyncStats_lines; [|by destruct before, rest|done].
  rewrite fold_left_app.
  rewrite (fold_stats_filter _ rest) by done.
  assert (Forall (λ l, TrimSpace l = l) (filter (λ l, says_nothing l = false) rest)) as Ht'.
  { apply Forall_forall. intros l [_ Hin]%list_elem_of_filter. by eapply Forall_forall in Ht. }
  rewrite Hf in Ht' |- *. rewrite !Forall_cons in Ht'. destruct_and! Ht'. cbn [fold_left].
  generalize (fold_left stats_line before no_stats). intros st.
  rewrite (files_stats _ _ nfiles), (transferred_stats _ _ ntransferred), (size_stats _ _ nsize), (moved_stats _ _ nmoved),
    (sent_stats _ _ nsent _ nreceived), speedup_stats by done. reflexivity.
Qed.
End Summary.

(** The output of the source's tests in three writes, the second one to the other stream. *)
Definition split_output : list rsync_write :=
  [MkRsyncWrite true (String.substring 0 70 sample_output) (Ok tt); MkRsyncWrite false "a warning" (Ok tt);
   MkRsyncWrite true (String.substring 70 1000 sample_output) (Ok tt)].

Lemma progress_by_line_witness :
  (runRsyncCommand true split_output None).2 =
    [MkTransferStats 50 1024 1048576 0 0 0 0 0 float_zero false; MkTransferStats 100 2048 2097152 0 0 0 0 0 float_zero false;
     ParseRsyncStats (all_output split_output)] ∧
  runRsyncCommand true split_output None =
    (ParseRsyncStats (all_output split_output), None,
     omap line_progress (removelast (pieces (standard_output split_output))) ++ [ParseRsyncStats (all_output split_output)]).
Proof. split; [by vm_compute|]. apply (progress_by_line split_output None). by repeat constructor. Defined.

(** What rsync printed, as a list of lines: progress, and a summary with lines in it that tell nothing. *)
Definition sample_progress : list string :=
  ["      1,024  50%  1.00MB/s    0:00:01 (xfr#1, to-chk=1/2)"; "      2,048 100%  2.00MB/s    0:00:00 (xfr#2, to-chk=0/2)"; ""].
Definition sample_summary : list string :=
  ["Number of files: 1,200 (reg: 10, dir: 2)"; "Number of created files: 3 (reg: 3)"; "Number of regular files transferred: 3";
   "Total file size: 18,446,744,073,709,551,615 bytes"; "Total transferred file size: 2,048 bytes"; "Literal data: 2,048 bytes"; "";
   "sent 2,200 bytes  received 100 bytes  4,600.00 bytes/sec"; "total size is 4,096  speedup is 1.78"; ""].

Lemma summary_read_back_witness :
  let stats := ParseRsyncStats (strings_Join (sample_progress ++ sample_summary) newline) in
  ts_Percent stats = 100 ∧ ts_BytesTransferred stats = 2048 ∧ ts_TotalFiles stats = 1200 ∧ ts_TotalFileSize stats = max_uint64.
Proof.
  cbv zeta. rewrite (summary_read_back sample_progress sample_summary "1,200" 1200 " (reg: 10, dir: 2)" "3" 3
    "18,446,744,073,709,551,615" max_uint64 "2,048" 2048 "2,200" 2200 "100" 100 "4,600.00" "4,096" "1.78").
  all: try (by vm_compute).
  all: try (split_and!; by vm_compute).
  all: repeat constructor.
Defined.
