(* ===== verification/Flags.v ===== *)
(** * The command line (package flag)

    Package flag of Go's library, as the command line of the data plane uses it: a set of
    flags with the change each makes to the options, and the parsing of arguments.  A flag that
    takes a value has it after an equals sign or in the next argument; a boolean one needs none.
    Parsing ends at the first argument that is not a flag. *)
From S2P Require Export Text.
From stdpp Require Import options.
From Stdlib Require Import Ascii.

(** ** Values *)

(** [strconv.ParseBool] *)
Definition ParseBool (s : string) : option bool :=
  if bool_decide (s ∈ ["1"; "t"; "T"; "true"; "TRUE"; "True"]) then Some true
  else if bool_decide (s ∈ ["0"; "f"; "F"; "false"; "FALSE"; "False"]) then Some false
  else None.

(** The value of a digit or letter, in any base. *)
Definition any_digit (c : ascii) : option Z :=
  let n := Z.of_nat (nat_of_ascii (lower c)) in
  if decide (48 ≤ n ≤ 57) then Some (n - 48)
  else if decide (97 ≤ n ≤ 122) then Some (n - 97 + 10)
  else None.

Definition parse_error {A} : result A := Err (ErrNew "parse error").
Definition range_error {A} : result A := Err (ErrNew "value out of range").

(** Digits in a base, with underscores: the first digit that leads out of uint64 ends it. *)
Fixpoint digits_in (base acc : Z) (s : string) : result Z :=
  match s with
  | EmptyString => Ok acc
  | String c s =>
      if decide (c = "_"%char) then digits_in base acc s
      else
        match any_digit c with
        | None => parse_error
        | Some d =>
            if decide (base ≤ d) then parse_error
            else if decide (max_uint64 < acc * base + d) then range_error
            else digits_in base (acc * base + d) s
        end
  end.

(** [underscoreOK] after the sign: [saw] is what the last character was. *)
Inductive underscore_state := SawStart | SawDigit | SawUnderscore | SawOther.

Fixpoint underscores (hex : bool) (saw : underscore_state) (s : string) : bool :=
  match s with
  | EmptyString => match saw with SawUnderscore => false | _ => true end
  | String c s =>
      if is_digit c || (hex && byte_in 97 102 (lower c)) then underscores hex SawDigit s
      else if decide (c = "_"%char) then
        match saw with SawDigit => underscores hex SawUnderscore s | _ => false end
      else match saw with SawUnderscore => false | _ => underscores hex SawOther s end
  end.

(** The base of a prefix letter. *)
Definition prefix_base (c : ascii) : option Z :=
  if decide (lower c = "b"%char) then Some 2
  else if decide (lower c = "o"%char) then Some 8
  else if decide (lower c = "x"%char) then Some 16
  else None.

Definition underscoreOK (s : string) : bool :=
  match s with
  | String "0" (String p t) =>
      match prefix_base p with
      | Some base => underscores (bool_decide (base = 16)) SawDigit t
      | None => underscores false SawStart s
      end
  | _ => underscores false SawStart s
  end.

(** [strconv.ParseUint(s, 0, 64)] with the two errors of package flag: the base is read from the text. *)
Definition any_base (s : string) : result Z :=
  let '(base, digits) := match s with
    | String "0" t =>
        match t with
        | String p (String _ _ as u) =>
            match prefix_base p with Some base => (base, drop_str 1 t) | None => (8, t) end
        | _ => (8, t)
        end
    | _ => (10, s)
    end in
  if decide (s = "") then parse_error
  else
    n ← digits_in base 0 digits;
    if ContainsByte digits "_"%char && negb (underscoreOK s) then parse_error else Ok n.

(** [strconv.ParseInt(s, 0, 64)] *)
Definition ParseInt0 (s : string) : result Z :=
  let '(neg, t) := match s with
    | String "-" t => (true, t)
    | String "+" t => (false, t)
    | _ => (false, s)
    end in
  n ← any_base t;
  if (neg : bool) then if decide (n ≤ 2 ^ 63) then Ok (- n) else range_error
  else if decide (n < 2 ^ 63) then Ok n else range_error.

(** ** Flag sets *)

Record flag (S : Type) := MkFlag {
  fl_name : string;
  fl_bool : bool;
  fl_set : string → S → result S
}.
Arguments MkFlag {S}.
Arguments fl_name {S}.
Arguments fl_bool {S}.
Arguments fl_set {S}.

Section Flags.
Context {S : Type}.

Definition string_flag (name : string) (f : S → string) `{!Setter f} : flag S :=
  MkFlag name false (λ v s, Ok (s <| f := v |>)).

Definition int_flag (name : string) (f : S → Z) `{!Setter f} : flag S :=
  MkFlag name false (λ v s, n ← ParseInt0 v; Ok (s <| f := n |>)).

Definition bool_flag (name : string) (f : S → bool) `{!Setter f} : flag S :=
  MkFlag name true (λ v s,
    match ParseBool v with Some b => Ok (s <| f := b |>) | None => Err (ErrNew "parse error") end).

(** A flag that may be repeated. *)
Definition list_flag (name : string) (f : S → list string) `{!Setter f} : flag S :=
  MkFlag name false (λ v s, Ok (s <| f ::= λ l, l ++ [v] |>)).

(** What an argument is: not a flag, the end of the flags, malformed, or a flag with the value after its equals sign. *)
Inductive token :=
  | NotFlag
  | Terminator
  | BadSyntax
  | Named (name : string) (value : option string).

Definition named_token (name : string) : token :=
  match name with
  | EmptyString => BadSyntax
  | String c t =>
      if decide (c = "-"%char ∨ c = "="%char) then BadSyntax
      else match Cut t "="%char with
           | Some (rest, value) => Named (String c rest) (Some value)
           | None => Named name None
           end
  end.

Definition token_of (s : string) : token :=
  match s with
  | String "-" t =>
      match t with
      | EmptyString => NotFlag
      | String "-" EmptyString => Terminator
      | String "-" name => named_token name
      | name => named_token name
      end
  | _ => NotFlag
  end.

Definition formal (flags : list (flag S)) (name : string) : option (flag S) :=
  snd <$> list_find (λ f, fl_name f = name) flags.

Definition set_flag (f : flag S) (value : string) (s : S) : result S :=
  map_err (λ e, ErrWrap ((if fl_bool f then "invalid boolean value " else "invalid value ") +:+ Quote value +:+
                  (if fl_bool f then " for -" else " for flag -") +:+ fl_name f +:+ ": ") e "") (fl_set f value s).

(** [FlagSet.Parse] with ContinueOnError: the options, without the arguments that are left. *)
Fixpoint Parse (flags : list (flag S)) (args : list string) (s : S) : result S :=
  match args with
  | [] => Ok s
  | arg :: rest =>
      match token_of arg with
      | NotFlag | Terminator => Ok s
      | BadSyntax => Err (ErrNew ("bad flag syntax: " +:+ arg))
      | Named name value =>
          match formal flags name with
          | None =>
              if decide (name = "help" ∨ name = "h") then Err (ErrNew "flag: help requested")
              else Err (ErrNew ("flag provided but not defined: -" +:+ name))
          | Some f =>
              if fl_bool f then s ← set_flag f (default "true" value) s; Parse flags rest s
              else
                match value, rest with
                | Some v, _ => s ← set_flag f v s; Parse flags rest s
                | None, v :: rest => s ← set_flag f v s; Parse flags rest s
                | None, [] => Err (ErrNew ("flag needs an argument: -" +:+ name))
                end
          end
      end
  end.

(** ** Laws *)

(** The argument is a flag by its name only. *)
Definition plain_flag (arg name : string) : Prop := token_of arg = Named name None.

Lemma Parse_value flags f arg v rest s : plain_flag arg (fl_name f) → formal flags (fl_name f) = Some f →
  fl_bool f = false → Parse flags (arg :: v :: rest) s = s' ← set_flag f v s; Parse flags rest s'.
Proof. unfold plain_flag. intros Ha Hf Hb. cbn [Parse]. by rewrite Ha, Hf, Hb. Qed.

Lemma Parse_switch flags f arg rest s : plain_flag arg (fl_name f) → formal flags (fl_name f) = Some f →
  fl_bool f = true → Parse flags (arg :: rest) s = s' ← set_flag f "true" s; Parse flags rest s'.
Proof. unfold plain_flag. intros Ha Hf Hb. cbn [Parse]. by rewrite Ha, Hf, Hb. Qed.
End Flags.

Lemma lower_digit c : is_digit c = true → lower c = c.
Proof. unfold is_digit, lower. rewrite bool_decide_eq_true. intros. case_decide; [lia|done]. Qed.

Lemma parse_digits_acc_grows acc s n : 0 ≤ acc → parse_digits_acc acc s = Some n → acc ≤ n.
Proof.
  revert acc. induction s as [|c s IH]; intros acc Ha; cbn [parse_digits_acc]; [intros [= <-]; lia|].
  unfold digit_val. case_decide; [|done]. intros Hn. apply IH in Hn; lia.
Qed.

Lemma digits_in_decimal acc s n : all_bytes is_digit s = true → 0 ≤ acc → n ≤ max_uint64 →
  parse_digits_acc acc s = Some n → digits_in 10 acc s = Ok n.
Proof.
  revert acc. induction s as [|c s IH]; intros acc Hs Ha Hn; cbn [parse_digits_acc]; [by intros [= <-]|].
  cbn [all_bytes] in Hs. apply andb_true_iff in Hs as [Hc Hs].
  cbn [digits_in]. rewrite decide_False by by intros ->. unfold any_digit, digit_val.
  rewrite lower_digit by done. unfold is_digit in Hc. apply bool_decide_eq_true in Hc.
  rewrite !decide_True by lia. cbn [mbind option_bind]. intros Hp.
  assert (10 * acc + (Z.of_nat (nat_of_ascii c) - 48) ≤ n) by (eapply parse_digits_acc_grows, Hp; lia).
  rewrite !decide_False by lia.
  apply IH; [done|lia|done|]. rewrite <-Hp. f_equal. lia.
Qed.

Lemma no_underscore s : all_bytes is_digit s = true → ContainsByte s "_"%char = false.
Proof. intros Hs. by apply (all_bytes_Contains is_digit). Qed.

(** A number is read back from its decimal. *)
Lemma ParseInt0_Itoa n : 0 ≤ n < 2 ^ 63 → ParseInt0 (Itoa n) = Ok n.
Proof.
  intros Hn. destruct (decide (n = 0)) as [->|Hne]; [by vm_compute|].
  destruct (Itoa_pos n ltac:(lia)) as (c & t & Hi & Hc & Ht). pose proof (Itoa_digits n ltac:(lia)) as [_ Hd].
  pose proof (parse_digits_Itoa n ltac:(lia)) as Hp. rewrite Hi in *.
  assert (any_base (String c t) = Ok n) as Hb.
  { unfold parse_digits in Hp. rewrite decide_False in Hp by done. unfold any_base.
    replace (match String c t with String "0" _ => _ | _ => (10, String c t) end) with (10, String c t)
      by (destruct c as [[] [] [] [] [] [] [] []]; done).
    rewrite decide_False by done. rewrite (digits_in_decimal _ _ n) by (done || unfold max_uint64; lia).
    cbn [mbind result_bind]. by rewrite no_underscore. }
  unfold ParseInt0.
  replace (match String c t with String "-" t => (true, t) | String "+" t => (false, t) | _ => (false, String c t) end)
    with (false, String c t) by (destruct c as [[] [] [] [] [] [] [] []]; done).
  rewrite Hb. cbn [mbind result_bind]. by rewrite decide_True by lia.
Qed.
