(* ===== verification/CliFlags.v ===== *)
(** * The flags of the data plane's commands (internal/cli/cli.go)

    The options of [serve-target], [send-source] and [restore], the flags that set them, and
    the dispatch on the command.  The manager's own flags only carry values to the manager. *)
From S2P Require Export Flags.
From stdpp Require Import options.
From Stdlib Require Import Ascii.

(** ** Commands *)

Inductive app_command :=
  | Version
  | Manager (args : list string)
  | ServeTarget (args : list string)
  | SendSource_ (args : list string)
  | Restore_ (args : list string)
  | Help.

(** [App.Run], up to the command it runs. *)
Definition App_Run (args : list string) : result app_command :=
  match args with
  | _ :: command :: rest =>
      if decide (command = "version") then Ok Version
      else if decide (command = "manager") then Ok (Manager rest)
      else if decide (command = "serve-target") then Ok (ServeTarget rest)
      else if decide (command = "send-source") then Ok (SendSource_ rest)
      else if decide (command = "restore") then Ok (Restore_ rest)
      else if decide (command = "help" ∨ command = "-h" ∨ command = "--help") then Ok Help
      else Err (ErrNew ("unknown command " +:+ Quote command))
  | _ => Err (ErrNew "missing command")
  end.

(** The default of [--control-grpc-namespace] (internal/manager/control_tls.go). *)
Definition DefaultNamespace : string := "kube-rsync-machine-operator".

(** ** serve-target *)

Record ServeTargetFlags := MkServeTargetFlags {
  sf_target : string;
  sf_runID : string;
  sf_tlsDir : string;
  sf_controlGRPCEndpoint : string;
  sf_controlGRPCNamespace : string;
  sf_runNamespace : string;
  sf_runName : string;
  sf_targetNamespace : string;
  sf_targetName : string;
  sf_listen : string;
  sf_timestamp : string;
  sf_strategy : string;
  sf_restoreSnapshot : string;
  sf_restoreSource : string;
  sf_restoreWriter : string;
  sf_retentionHourly : Z;
  sf_retentionDaily : Z;
  sf_retentionWeekly : Z;
  sf_retentionMonthly : Z;
  sf_sources : list string
}.

#[export] Instance ServeTargetFlags_eta : Eta ServeTargetFlags := λ r,
  MkServeTargetFlags (sf_target r) (sf_runID r) (sf_tlsDir r) (sf_controlGRPCEndpoint r) (sf_controlGRPCNamespace r)
    (sf_runNamespace r) (sf_runName r) (sf_targetNamespace r) (sf_targetName r) (sf_listen r) (sf_timestamp r)
    (sf_strategy r) (sf_restoreSnapshot r) (sf_restoreSource r) (sf_restoreWriter r) (sf_retentionHourly r)
    (sf_retentionDaily r) (sf_retentionWeekly r) (sf_retentionMonthly r) (sf_sources r).

(** [now] is the time the process starts, as a snapshot's timestamp. *)
Definition serve_target_defaults (now : string) : ServeTargetFlags :=
  MkServeTargetFlags "" "" "" "" DefaultNamespace "" "" "" "" ":873" now "snapshot" "" "" "" 24 7 8 12 [].

Definition serve_target_flags : list (flag ServeTargetFlags) :=
  [string_flag "target" sf_target; string_flag "run-id" sf_runID; string_flag "tls-dir" sf_tlsDir;
   string_flag "control-grpc-endpoint" sf_controlGRPCEndpoint;
   string_flag "control-grpc-namespace" sf_controlGRPCNamespace;
   string_flag "run-namespace" sf_runNamespace; string_flag "run-name" sf_runName;
   string_flag "target-namespace" sf_targetNamespace; string_flag "target-name" sf_targetName;
   string_flag "listen" sf_listen; string_flag "timestamp" sf_timestamp; string_flag "strategy" sf_strategy;
   string_flag "restore-snapshot" sf_restoreSnapshot; string_flag "restore-source" sf_restoreSource;
   string_flag "restore-writer" sf_restoreWriter;
   int_flag "retention-hourly" sf_retentionHourly; int_flag "retention-daily" sf_retentionDaily;
   int_flag "retention-weekly" sf_retentionWeekly; int_flag "retention-monthly" sf_retentionMonthly;
   list_flag "source" sf_sources].

(** ** send-source *)

Record SendSourceFlags := MkSendSourceFlags {
  xf_source : string;
  xf_target : string;
  xf_targetEndpoint : string;
  xf_tlsDir : string;
  xf_controlGRPCEndpoint : string;
  xf_controlGRPCNamespace : string;
  xf_runNamespace : string;
  xf_runName : string;
  xf_sourceNamespace : string;
  xf_sourceName : string;
  xf_targetNamespace : string;
  xf_targetName : string;
  xf_deleteExtra : bool;
  xf_oneFileSystem : bool;
  xf_dryRun : bool
}.

#[export] Instance SendSourceFlags_eta : Eta SendSourceFlags := λ r,
  MkSendSourceFlags (xf_source r) (xf_target r) (xf_targetEndpoint r) (xf_tlsDir r) (xf_controlGRPCEndpoint r)
    (xf_controlGRPCNamespace r) (xf_runNamespace r) (xf_runName r) (xf_sourceNamespace r) (xf_sourceName r)
    (xf_targetNamespace r) (xf_targetName r) (xf_deleteExtra r) (xf_oneFileSystem r) (xf_dryRun r).

Definition send_source_defaults : SendSourceFlags :=
  MkSendSourceFlags "" "" "" "" "" DefaultNamespace "" "" "" "" "" "" false false false.

Definition send_source_flags : list (flag SendSourceFlags) :=
  [string_flag "source" xf_source; string_flag "target" xf_target; string_flag "target-endpoint" xf_targetEndpoint;
   string_flag "tls-dir" xf_tlsDir; string_flag "control-grpc-endpoint" xf_controlGRPCEndpoint;
   string_flag "control-grpc-namespace" xf_controlGRPCNamespace;
   string_flag "run-namespace" xf_runNamespace; string_flag "run-name" xf_runName;
   string_flag "source-namespace" xf_sourceNamespace; string_flag "source-name" xf_sourceName;
   string_flag "target-namespace" xf_targetNamespace; string_flag "target-name" xf_targetName;
   bool_flag "delete" xf_deleteExtra; bool_flag "one-file-system" xf_oneFileSystem; bool_flag "dry-run" xf_dryRun].

(** ** restore *)

Record RestoreFlags := MkRestoreFlags {
  rf_snapshot : string;
  rf_destination : string;
  rf_tlsDir : string;
  rf_controlGRPCEndpoint : string;
  rf_controlGRPCNamespace : string;
  rf_runNamespace : string;
  rf_runName : string;
  rf_sourceNamespace : string;
  rf_sourceName : string;
  rf_snapshotSource : string;
  rf_targetEndpoint : string;
  rf_targetNamespace : string;
  rf_targetName : string;
  rf_deleteExtra : bool;
  rf_oneFileSystem : bool;
  rf_dryRun : bool
}.

#[export] Instance RestoreFlags_eta : Eta RestoreFlags := λ r,
  MkRestoreFlags (rf_snapshot r) (rf_destination r) (rf_tlsDir r) (rf_controlGRPCEndpoint r)
    (rf_controlGRPCNamespace r) (rf_runNamespace r) (rf_runName r) (rf_sourceNamespace r) (rf_sourceName r)
    (rf_snapshotSource r) (rf_targetEndpoint r) (rf_targetNamespace r) (rf_targetName r) (rf_deleteExtra r)
    (rf_oneFileSystem r) (rf_dryRun r).

Definition restore_defaults : RestoreFlags :=
  MkRestoreFlags "" "" "" "" DefaultNamespace "" "" "" "" "" "" "" "" false false false.

Definition restore_flags : list (flag RestoreFlags) :=
  [string_flag "snapshot" rf_snapshot; string_flag "destination" rf_destination; string_flag "tls-dir" rf_tlsDir;
   string_flag "control-grpc-endpoint" rf_controlGRPCEndpoint;
   string_flag "control-grpc-namespace" rf_controlGRPCNamespace;
   string_flag "run-namespace" rf_runNamespace; string_flag "run-name" rf_runName;
   string_flag "source-namespace" rf_sourceNamespace; string_flag "source-name" rf_sourceName;
   string_flag "snapshot-source" rf_snapshotSource; string_flag "target-endpoint" rf_targetEndpoint;
   string_flag "target-namespace" rf_targetNamespace; string_flag "target-name" rf_targetName;
   bool_flag "delete" rf_deleteExtra; bool_flag "one-file-system" rf_oneFileSystem; bool_flag "dry-run" rf_dryRun].

Example some_flags :
  Parse send_source_flags ["--source"; "/data"; "-target=x=y"; "--delete"; "--dry-run=false"; "rest"; "--x"] send_source_defaults
  = Ok (send_source_defaults <| xf_source := "/data" |> <| xf_target := "x=y" |> <| xf_deleteExtra := true |>).
Proof. by vm_compute. Qed.

Example an_unknown_flag :
  Parse restore_flags ["--snapshot"; "latest"; "--source"; "x"] restore_defaults
  = Err (ErrNew "flag provided but not defined: -source").
Proof. by vm_compute. Qed.
