(* ===== verification/JobArgs.v ===== *)
(** * The Jobs' arguments are what the commands expect

    The controllers start the data plane with arguments (src/internal/controller/builders.go), and the
    data plane parses them (src/internal/cli/cli.go).  The laws: every Job that is built names a
    command, its arguments parse, and the options the command runs with are the ones the controllers meant. *)
From S2P Require Export Wiring CliFlags.
From S2P Require Import Cluster.
From stdpp Require Import options.
From Stdlib Require Import Ascii.

(** ** Parsing known flags *)

Section Parsing.
Context {S : Type}.
Implicit Types (flags : list (flag S)) (s : S).

Lemma Parse_string flags name (f : S → string) `{!Setter f} arg v rest s :
  plain_flag arg name → formal flags name = Some (string_flag name f) →
  Parse flags (arg :: v :: rest) s = Parse flags rest (s <| f := v |>).
Proof. intros Ha Hf. by rewrite (Parse_value flags (string_flag name f)). Qed.

Lemma Parse_int flags name (f : S → Z) `{!Setter f} arg n rest s :
  plain_flag arg name → formal flags name = Some (int_flag name f) → 0 ≤ n < 2 ^ 63 →
  Parse flags (arg :: Itoa n :: rest) s = Parse flags rest (s <| f := n |>).
Proof.
  intros Ha Hf Hn. rewrite (Parse_value flags (int_flag name f)) by done. unfold set_flag. cbn [fl_set int_flag].
  by rewrite ParseInt0_Itoa.
Qed.

Lemma Parse_bool flags name (f : S → bool) `{!Setter f} arg rest s :
  plain_flag arg name → formal flags name = Some (bool_flag name f) →
  Parse flags (arg :: rest) s = Parse flags rest (s <| f := true |>).
Proof. intros Ha Hf. by rewrite (Parse_switch flags (bool_flag name f)). Qed.

Lemma Parse_list flags name (f : S → list string) `{!Setter f} arg v rest s :
  plain_flag arg name → formal flags name = Some (list_flag name f) →
  Parse flags (arg :: v :: rest) s = Parse flags rest (s <| f ::= λ l, l ++ [v] |>).
Proof. intros Ha Hf. by rewrite (Parse_value flags (list_flag name f)). Qed.
End Parsing.

(** Writes the options out as a record. *)
Ltac tidy_flags := unfold update_field; cbn beta iota delta
  [sf_target sf_runID sf_tlsDir sf_controlGRPCEndpoint sf_controlGRPCNamespace sf_runNamespace sf_runName sf_targetNamespace
   sf_targetName sf_listen sf_timestamp sf_strategy sf_restoreSnapshot sf_restoreSource sf_restoreWriter
   sf_retentionHourly sf_retentionDaily sf_retentionWeekly sf_retentionMonthly sf_sources serve_target_defaults
   xf_source xf_target xf_targetEndpoint xf_tlsDir xf_controlGRPCEndpoint xf_controlGRPCNamespace xf_runNamespace
   xf_runName xf_sourceNamespace xf_sourceName xf_targetNamespace xf_targetName xf_deleteExtra xf_oneFileSystem
   xf_dryRun send_source_defaults
   rf_snapshot rf_destination rf_tlsDir rf_controlGRPCEndpoint rf_controlGRPCNamespace rf_runNamespace rf_runName
   rf_sourceNamespace rf_sourceName rf_snapshotSource rf_targetEndpoint rf_targetNamespace rf_targetName
   rf_deleteExtra rf_oneFileSystem rf_dryRun restore_defaults].

(** Reads one flag off the arguments. *)
Ltac parse_string name f := rewrite (Parse_string _ name f) by (vm_compute; reflexivity); tidy_flags.
Ltac parse_bool name f := rewrite (Parse_bool _ name f) by (vm_compute; reflexivity); tidy_flags.

(** The arguments of the container of a Job. *)
Definition job_args (j : Job) : option (list string) :=
  match ps_Containers (js_Template (j_Spec j)) with [c] => Some (c_Args c) | _ => None end.

(** What the entry point of the image runs. *)
Definition job_command (j : Job) : option (result app_command) :=
  (λ args, App_Run ("kube-rsync-machine" :: args)) <$> job_args j.

Section JobArgs.
Context `{!Quantities}.

(** ** The target of a backup *)

Definition kept (n default : Z) : Z := if decide (n > 0) then n else default.

Definition int_sized (r : RetentionPolicy) : Prop :=
  rp_Hourly r < 2 ^ 63 ∧ rp_Daily r < 2 ^ 63 ∧ rp_Weekly r < 2 ^ 63 ∧ rp_Monthly r < 2 ^ 63.

(** The options [serve-target] gets for a run that keeps these snapshots. *)
Definition target_options_keeping (keep : RetentionPolicy) (now : string) (run : BackupJob) (target : RsyncMachine) (runSet : TargetRunSet)
    (timestamp : string) (controlOptions : DataPlaneControlOptions) : ServeTargetFlags :=
  let control := withDefaults controlOptions in
  let snapshot := negb (is_mirror target) in
  MkServeTargetFlags DefaultRsyncMachineMountPath (RunID run) TLSMountPath (dp_GRPCEndpoint control)
    (dp_GRPCNamespace control) (om_Namespace (bj_Meta run)) (om_Name (bj_Meta run))
    (om_Namespace (m_Meta target)) (om_Name (m_Meta target)) ":873"
    (if snapshot && bool_decide (timestamp ≠ "") then timestamp else now)
    (if snapshot then "snapshot" else "mirror") "" "" ""
    (rp_Hourly keep) (rp_Daily keep) (rp_Weekly keep) (rp_Monthly keep)
    (source_value target <$> trs_Sources runSet).

(** What [serve-target] keeps when it is not told. *)
Definition default_retention : RetentionPolicy := MkRetentionPolicy 24 7 8 12.

(** A retention as it reaches the target: without a positive number the default stands. *)
Definition reached (target : RsyncMachine) (r : RetentionPolicy) : RetentionPolicy :=
  if is_mirror target then default_retention
  else MkRetentionPolicy (kept (rp_Hourly r) 24) (kept (rp_Daily r) 7) (kept (rp_Weekly r) 8) (kept (rp_Monthly r) 12).


Lemma parse_sources l rest s :
  Parse serve_target_flags ((l ≫= λ v, ["--source"; v]) ++ rest) s =
  Parse serve_target_flags rest (s <| sf_sources ::= λ vs, vs ++ l |>).
Proof.
  revert s. induction l as [|v l IH]; intros s.
  { by assert (s <| sf_sources ::= λ vs, vs ++ [] |> = s) as -> by (destruct s; unfold update_field; cbn; by rewrite app_nil_r). }
  cbn [mbind list_bind app]. rewrite (Parse_list _ "source" sf_sources) by (vm_compute; reflexivity).
  rewrite IH. f_equal. destruct s. unfold update_field. cbn -[Parse]. by rewrite <-(assoc_L (++)).
Qed.

(** One of the flags of a retention. *)
Definition keep_flag (name : string) (keep : Z) : list string := if decide (keep > 0) then [name; Itoa keep] else [].

Lemma Parse_keep arg name (f : ServeTargetFlags → Z) `{!Setter f} keep rest s default :
  plain_flag arg name → formal serve_target_flags name = Some (int_flag name f) →
  s <| f := default |> = s → keep < 2 ^ 63 →
  Parse serve_target_flags (keep_flag arg keep ++ rest) s =
  Parse serve_target_flags rest (s <| f := kept keep default |>).
Proof.
  intros Ha Hf Hs Hk. unfold keep_flag, kept. case_decide.
  - cbn [app]. rewrite (Parse_int _ name f); [done|done|done|lia].
  - by rewrite Hs.
Qed.

Ltac parse_keep arg name f default :=
  rewrite (Parse_keep arg name f _ _ _ default);
    [tidy_flags|vm_compute; reflexivity|reflexivity|tidy_flags; reflexivity|assumption].

Lemma appendRetentionArgs_flags args r : appendRetentionArgs args r = args ++
  keep_flag "--retention-hourly" (rp_Hourly r) ++ keep_flag "--retention-daily" (rp_Daily r) ++
  keep_flag "--retention-weekly" (rp_Weekly r) ++ keep_flag "--retention-monthly" (rp_Monthly r).
Proof. done. Qed.

Lemma source_args target l : l ≫= source_arg target = (source_value target <$> l) ≫= λ v, ["--source"; v].
Proof. induction l as [|r l IH]; [done|]. cbn. by rewrite IH. Qed.

Lemma parse_target_args now run target runSet timestamp controlOptions : int_sized (trs_Retention runSet) →
  ∃ args, serve_target_args run target runSet timestamp controlOptions = "serve-target" :: args ∧
    Parse serve_target_flags args (serve_target_defaults now)
    = Ok (target_options_keeping (reached target (trs_Retention runSet)) now run target runSet timestamp controlOptions).
Proof.
  intros (Hh & Hd & Hw & Hm). unfold serve_target_args, appendControlGRPCArgs, target_options_keeping, reached.
  rewrite source_args. generalize (source_value target <$> trs_Sources runSet). intros values.
  destruct (withDefaults controlOptions) as [endpoint namespace]. cbn [dp_GRPCEndpoint dp_GRPCNamespace].
  destruct (is_mirror target); cbn [negb andb]; rewrite ?andb_false_r, ?andb_true_r;
    [|rewrite appendRetentionArgs_flags; destruct (bool_decide (timestamp ≠ ""))];
    (eexists; split; [rewrite <-!(assoc_L (++)); reflexivity|]); cbn [app];
    parse_string "target" sf_target; parse_string "run-id" sf_runID; parse_string "tls-dir" sf_tlsDir;
    parse_string "run-namespace" sf_runNamespace; parse_string "run-name" sf_runName;
    parse_string "target-namespace" sf_targetNamespace; parse_string "target-name" sf_targetName;
    parse_string "control-grpc-endpoint" sf_controlGRPCEndpoint;
    parse_string "control-grpc-namespace" sf_controlGRPCNamespace.
  - parse_string "strategy" sf_strategy. rewrite <-(app_nil_r (values ≫= λ v, ["--source"; v])), parse_sources. done.
  - parse_string "timestamp" sf_timestamp.
    parse_keep "--retention-hourly" "retention-hourly" sf_retentionHourly 24. parse_keep "--retention-daily" "retention-daily" sf_retentionDaily 7.
    parse_keep "--retention-weekly" "retention-weekly" sf_retentionWeekly 8. parse_keep "--retention-monthly" "retention-monthly" sf_retentionMonthly 12.
    by rewrite <-(app_nil_r (values ≫= λ v, ["--source"; v])), parse_sources.
  - parse_keep "--retention-hourly" "retention-hourly" sf_retentionHourly 24. parse_keep "--retention-daily" "retention-daily" sf_retentionDaily 7.
    parse_keep "--retention-weekly" "retention-weekly" sf_retentionWeekly 8. parse_keep "--retention-monthly" "retention-monthly" sf_retentionMonthly 12.
    by rewrite <-(app_nil_r (values ≫= λ v, ["--source"; v])), parse_sources.
Qed.

(** ** The sender of a source *)

Definition sender_options (run : BackupJob) (source : BackupSource) (target : RsyncMachine) (targetPath : string)
    (controlOptions : DataPlaneControlOptions) : SendSourceFlags :=
  let control := withDefaults controlOptions in
  MkSendSourceFlags (path_Join ["/source"; TrimPrefix (SourcePathOrDefault (s_Spec source)) "/"]) targetPath
    (TargetServiceEndpoint run target) TLSMountPath (dp_GRPCEndpoint control) (dp_GRPCNamespace control)
    (om_Namespace (bj_Meta run)) (om_Name (bj_Meta run)) (om_Namespace (s_Meta source)) (om_Name (s_Meta source))
    (om_Namespace (m_Meta target)) (om_Name (m_Meta target))
    (DeleteOrDefault (ss_Rsync (s_Spec source))) (OneFileSystemOrDefault (ss_Rsync (s_Spec source))) false.






(** A count of zero does not reach the target, which then keeps what it keeps when it is not told. *)
Lemma a_zero_count_is_not_told now run target runSet timestamp controlOptions :
  is_mirror target = false → int_sized (trs_Retention runSet) → rp_Hourly (trs_Retention runSet) = 0 →
  ∃ args f, serve_target_args run target runSet timestamp controlOptions = "serve-target" :: args ∧
    Parse serve_target_flags args (serve_target_defaults now) = Ok f ∧ sf_retentionHourly f = 24.
Proof.
  intros Hm Hk Hz. destruct (parse_target_args now run target runSet timestamp controlOptions Hk) as (args & Ha & Hp).
  exists args. eexists. split; [done|]. split; [done|]. cbn. unfold reached, kept. by rewrite Hm, Hz.
Qed.

(** ** Restores *)

Definition restore_target_options (now : string) (restore : RestoreJob) (source : BackupSource) (target : RsyncMachine)
    (effectivePath : string) (controlOptions : DataPlaneControlOptions) : ServeTargetFlags :=
  let control := withDefaults controlOptions in
  MkServeTargetFlags DefaultRsyncMachineMountPath "" TLSMountPath (dp_GRPCEndpoint control) (dp_GRPCNamespace control)
    (om_Namespace (rj_Meta restore)) (om_Name (rj_Meta restore)) (om_Namespace (m_Meta target)) (om_Name (m_Meta target))
    ":873" now "snapshot" (restore_snapshot restore target) (restore_source target effectivePath)
    (om_Namespace (s_Meta source) +:+ "/" +:+ om_Name (s_Meta source)) 24 7 8 12 [].

(** The options of the writer of a restore. *)
Definition restore_writer_options (restore : RestoreJob) (source : BackupSource) (target : RsyncMachine)
    (effectivePath : string) (controlOptions : DataPlaneControlOptions) : RestoreFlags :=
  let control := withDefaults controlOptions in
  let destination := rov_Destination (rs_Overrides (rj_Spec restore)) in
  let destinationPath := if decide (rd_Path destination = "")
                         then SourcePathOrDefault (s_Spec source) else rd_Path destination in
  let overrides := rov_Rsync (rs_Overrides (rj_Spec restore)) in
  let rsync := if HasOverrides overrides then overrides else ss_Rsync (s_Spec source) in
  MkRestoreFlags (restore_snapshot restore target) (path_Join ["/restore"; TrimPrefix destinationPath "/"]) TLSMountPath
    (dp_GRPCEndpoint control) (dp_GRPCNamespace control) (om_Namespace (rj_Meta restore)) (om_Name (rj_Meta restore))
    (om_Namespace (s_Meta source)) (om_Name (s_Meta source)) (restore_source target effectivePath)
    (RestoreTargetServiceEndpoint restore target) (om_Namespace (m_Meta target)) (om_Name (m_Meta target))
    (DeleteOrDefault rsync) (OneFileSystemOrDefault rsync) false.

(** C14: the Jobs of a restore run what the controllers mean.  The Job that serves a restore starts [serve-target] for the
    writer of the source, and the Job that writes starts [restore]; both are given the same snapshot and the same directory in it, the
    one of the source, which the server compares. *)
Theorem restore_job_arguments now restore source target image controlOptions effectivePath job job' :
  EffectiveDestinationPathForStrategy target source = Ok effectivePath →
  BuildRestoreTargetJobWithControl restore source target image controlOptions = Ok job →
  BuildRestoreJobWithControl restore source target image controlOptions = Ok job' →
  (∃ args, job_command job = Some (Ok (ServeTarget args)) ∧
     Parse serve_target_flags args (serve_target_defaults now)
     = Ok (restore_target_options now restore source target effectivePath controlOptions)) ∧
  ∃ args, job_command job' = Some (Ok (Restore_ args)) ∧
    Parse restore_flags args restore_defaults
    = Ok (restore_writer_options restore source target effectivePath controlOptions).
Proof.
  intros He Hj Hj'. unfold BuildRestoreTargetJobWithControl in Hj. unfold BuildRestoreJobWithControl in Hj'.
  rewrite He in Hj, Hj'. cbn [mbind result_bind] in Hj, Hj'. injection Hj as <-. injection Hj' as <-. split.
  - eexists. split; [reflexivity|]. unfold restore_target_options.
    destruct (withDefaults controlOptions) as [endpoint namespace]. cbn [dp_GRPCEndpoint dp_GRPCNamespace app].
    parse_string "target" sf_target. parse_string "tls-dir" sf_tlsDir.
    parse_string "run-namespace" sf_runNamespace. parse_string "run-name" sf_runName.
    parse_string "target-namespace" sf_targetNamespace. parse_string "target-name" sf_targetName.
    parse_string "restore-snapshot" sf_restoreSnapshot. parse_string "restore-source" sf_restoreSource.
    parse_string "restore-writer" sf_restoreWriter. parse_string "control-grpc-endpoint" sf_controlGRPCEndpoint.
    by parse_string "control-grpc-namespace" sf_controlGRPCNamespace.
  - eexists. split; [reflexivity|]. unfold restore_writer_options, appendRsyncArgs.
    destruct (withDefaults controlOptions) as [endpoint namespace]. cbn [dp_GRPCEndpoint dp_GRPCNamespace].
    destruct (DeleteOrDefault _), (OneFileSystemOrDefault _); cbn [app];
      parse_string "snapshot" rf_snapshot; parse_string "snapshot-source" rf_snapshotSource;
      parse_string "target-endpoint" rf_targetEndpoint; parse_string "destination" rf_destination;
      parse_string "tls-dir" rf_tlsDir; parse_string "run-namespace" rf_runNamespace;
      parse_string "run-name" rf_runName; parse_string "source-namespace" rf_sourceNamespace;
      parse_string "source-name" rf_sourceName; parse_string "target-namespace" rf_targetNamespace;
      parse_string "target-name" rf_targetName; parse_string "control-grpc-endpoint" rf_controlGRPCEndpoint;
      parse_string "control-grpc-namespace" rf_controlGRPCNamespace.
    + parse_bool "delete" rf_deleteExtra. by parse_bool "one-file-system" rf_oneFileSystem.
    + by parse_bool "delete" rf_deleteExtra.
    + by parse_bool "one-file-system" rf_oneFileSystem.
    + done.
Qed.
End JobArgs.

(** ** On a sample *)

Definition sample_control : DataPlaneControlOptions := MkDataPlaneControlOptions "" "".



Definition sample_restore : RestoreJob := (inhabitant : RestoreJob)
  <| rj_Meta := (inhabitant : ObjectMeta) <| om_Namespace := "apps" |> <| om_Name := "undo" |> |>.

Lemma restore_job_arguments_witness :
  let source := sample_source "apps" "db" "pg//data" in
  ∃ job args,
  BuildRestoreTargetJobWithControl sample_restore source (sample_machine "") "krm" sample_control = Ok job ∧
  job_command job = Some (Ok (ServeTarget args)) ∧
  sf_restoreSource <$> Parse serve_target_flags args (serve_target_defaults "") = Ok "apps/pg/data".
Proof.
  intros source.
  assert (is_ok (BuildRestoreTargetJobWithControl sample_restore source (sample_machine "") "krm" sample_control)
    = true) as [job Hj]%is_ok_true by (vm_compute; reflexivity).
  assert (is_ok (BuildRestoreJobWithControl sample_restore source (sample_machine "") "krm" sample_control) = true)
    as [job' Hj']%is_ok_true by (vm_compute; reflexivity).
  destruct (restore_job_arguments "" sample_restore source (sample_machine "") "krm" sample_control "apps/pg/data" job job')
    as [(args & Hc & Hp) _]; [by vm_compute|exact Hj|exact Hj'|].
  exists job, args. split; [exact Hj|]. split; [exact Hc|]. rewrite Hp. vm_compute. reflexivity.
Defined.

(** A source path is cleaned only after it was joined: with enough parents in it the sender reads outside of the
    source's volume, and the run succeeds. *)
Example a_source_outside_its_volume :
  xf_source (sender_options nightly_run
    ((sample_source "apps" "db" "db") <| s_Spec ::= λ s, s <| ss_SourcePath := "/../var/run" |> |>)
    (sample_machine "") "" sample_control) = "/var/run".
Proof. by vm_compute. Qed.
