(* ===== verification/ServeTarget.v ===== *)
(** * serve-target (internal/cli/cli.go, internal/dataplane/controlclient.go)

    The process that owns a target volume during a run: it loads its certificates, receives the
    sources' transfers, waits for commands of the control service, frees space when it is told to, and in
    the end promotes what it received to a snapshot, or serves one for a restore.  What it tells the control
    service is a list of messages.  What happens to it is a list too: connections of senders and commands of
    its stream, in the order in which they come; a transfer and the handling of a command are each
    one step.  How the control service answers is an environment of which nothing is assumed. *)
From S2P Require Export TransportLaws CliFlags Control.
From stdpp Require Import options.
From Stdlib Require Import Ascii.

(** ** What the process says and what happens to it *)

(** A step of the process ends, or waits for something that does not happen. *)
Inductive outcome (A : Type) :=
  | Done (r : result A)
  | Waiting.
Arguments Done {A}.
Arguments Waiting {A}.

Inductive outgoing :=
  | ReportTarget_ (e : TargetEvent)
  | RegisterTarget_ (r : RegisterTargetRequest)
  | Acknowledge (e : TargetCommandAckEvent).

#[export] Instance outgoing_eq_dec : EqDecision outgoing.
Proof. solve_decision. Defined.

Section ServeTarget.
Context {HX : X509}.

Inductive happening :=
  (** [Accept] returns a connection or an error. *)
  | Accepted (c : result Conn)
  (** A command comes down the stream. *)
  | Received (c : TargetCommand)
  (** The stream ends, with the error that is seen when there is one. *)
  | StreamEnded (e : option goerr).

(** The receiver's goroutine: at work, with the senders that are complete, or done. *)
Inductive receiver :=
  | Receiving (root : string) (expected : gmap Identity string) (completed : gset Identity)
  | Finished (r : result unit).

Record process := MkProcess {
  pr_world : world;
  pr_receiver : option receiver;
  (** The newest message first. *)
  pr_sent : list outgoing
}.

#[export] Instance process_eta : Eta process := λ r, MkProcess (pr_world r) (pr_receiver r) (pr_sent r).

Definition T (A : Type) : Type := process → outcome A * process.

#[export] Instance T_ret : MRet T := λ A a p, (Done (Ok a), p).
#[export] Instance T_bind : MBind T := λ A B f m p,
  match m p with
  | (Done (Ok a), p) => f a p
  | (Done (Err e), p) => (Done (Err e), p)
  | (Waiting, p) => (Waiting, p)
  end.

Definition fail {A} (e : goerr) : T A := λ p, (Done (Err e), p).
Definition give {A} (r : result A) : T A := λ p, (Done r, p).

(** [r, err := m()] *)
Definition attempt {A} (m : T A) : T (result A) := λ p,
  match m p with
  | (Done r, p) => (Done (Ok r), p)
  | (Waiting, p) => (Waiting, p)
  end.

(** An operation on the volume. *)
Definition on_volume {A} (m : M A) : T A := λ p,
  let '(r, w) := m (pr_world p) in (Done r, p <| pr_world := w |>).

(** ** Certificates and the control client *)

(** [LoadBundle] (internal/tlsutil/load.go) *)
Definition read_secret (dir file : string) : M string :=
  on_err (wrap ("read " +:+ file +:+ ": ")) (ReadFile (path_Join [dir; file])).

Definition LoadBundle (dir : string) : M Bundle :=
  if decide (dir = "") then throw (ErrNew "tls directory is required")
  else
    caCert ← read_secret dir SecretCAFile;
    cert ← read_secret dir SecretCertFile;
    key ← read_secret dir SecretKeyFile;
    mret (MkBundle caCert "" cert key).

(** [ControlGRPCServerIdentity] (internal/manager/control_tls.go) *)
Definition ControlGRPCServerIdentity (namespace : string) : Identity :=
  TargetIdentity "operator" "control-grpc" namespace "kube-rsync-machine-manager".

Record ControlClient := MkControlClient {
  cc_GRPCEndpoint : string;
  cc_TLSBundle : Bundle;
  cc_ControlCAPEM : string;
  cc_ExpectedControl : Identity
}.

Definition empty_bundle : Bundle := MkBundle "" "" "" "".

Definition dataPlaneControlClient (grpcEndpoint grpcNamespace tlsDir : string) (tlsBundle : Bundle) : M ControlClient :=
  if decide (grpcEndpoint = "") then mret (MkControlClient "" empty_bundle "" zero_identity)
  else if decide (tlsDir = "") then throw (ErrNew "--tls-dir is required with --control-grpc-endpoint")
  else
    controlCA ← read_secret tlsDir SecretControlCAFile;
    mret (MkControlClient grpcEndpoint tlsBundle controlCA (ControlGRPCServerIdentity grpcNamespace)).

(** [ClientCredentialsWithServerCA] (internal/controlgrpc/tls.go): the roots the control server is checked with. *)
Definition ClientCredentialsWithServerCA (client : Bundle) (serverCAPEM : string) : result (list Certificate) :=
  _ ← map_err (wrap "load client key pair: ") (X509KeyPair (b_CertPEM client) (b_KeyPEM client));
  let roots := CertsFromPEM serverCAPEM in
  if decide (length roots = 0)%nat then Err (ErrNew "server CA bundle does not contain a certificate")
  else Ok roots.

(** The check of the control server's certificate. *)
Definition verify_control_server (now : Time) (rawCerts : list string) (roots : list Certificate)
    (expectedServer : Identity) : result unit :=
  verifyPeer now rawCerts roots expectedServer ExtKeyUsageServerAuth.

(** What the process cannot know: how a call of the control service ends, after the messages sent before, and how
    listening on an address does. *)
Class TargetEnvironment := {
  answer : list outgoing → outgoing → result unit;
  Listen : string → result unit
}.
Context {HE : TargetEnvironment} {HT : RsyncTunnel}.

Definition grpcClient (c : ControlClient) : result unit :=
  if decide (cc_GRPCEndpoint c = "") then Err (ErrNew "control grpc endpoint is not configured")
  else _ ← ClientCredentialsWithServerCA (cc_TLSBundle c) (cc_ControlCAPEM c); Ok tt.

(** A call of the control service, once there is a client. *)
Definition control_call (c : ControlClient) (m : outgoing) : T unit := λ p,
  match grpcClient c with
  | Err e => (Done (Err e), p)
  | Ok _ => (Done (answer (pr_sent p) m), p <| pr_sent ::= cons m |>)
  end.

Definition ControlClient_ReportTarget (c : ControlClient) (event : TargetEvent) : T unit :=
  if decide (cc_GRPCEndpoint c = "") then mret tt else control_call c (ReportTarget_ event).

Definition ControlClient_AcknowledgeTargetCommand (c : ControlClient) (event : TargetCommandAckEvent) : T unit :=
  control_call c (Acknowledge event).

(** [App.reportTarget] only logs an error. *)
Definition reportTarget (c : ControlClient) (event : TargetEvent) : T unit :=
  _ ← attempt (ControlClient_ReportTarget c event); mret tt.

Definition ackTargetCommand (c : ControlClient) (event : TargetCommandAckEvent) : T unit :=
  ControlClient_AcknowledgeTargetCommand c event.

(** ** The receiver's goroutine *)

Definition after_step (root : string) (expected : gmap Identity string) (r : result (gset Identity)) : receiver :=
  match r with
  | Err e => Finished (Err e)
  | Ok completed =>
      if decide (size completed < size expected)%nat then Receiving root expected completed else Finished (Ok tt)
  end.

Definition start_receiver (opts : TargetReceiverOptions) : T unit := λ p,
  let '(r, w) := open_receiver opts (pr_world p) in
  let receiver := match r with
    | Err e => Finished (Err e)
    | Ok None => Finished (Ok tt)
    | Ok (Some (root, expected)) => after_step root expected (Ok ∅)
    end in
  (Done (Ok tt), p <| pr_world := w |> <| pr_receiver := Some receiver |>).

(** A connection that is accepted while the receiver is at work; otherwise nobody listens. *)
Definition accept_connection (mirror continue : bool) (c : result Conn) : T unit := λ p,
  match pr_receiver p with
  | Some (Receiving root expected completed) =>
      let '(r, w) := receive_step root expected mirror continue c completed (pr_world p) in
      (Done (Ok tt), p <| pr_world := w |> <| pr_receiver := Some (after_step root expected r) |>)
  | _ => (Done (Ok tt), p)
  end.

(** [<-receiverDone] *)
Fixpoint await_receiver (mirror continue : bool) (next : list happening) : T unit := λ p,
  match pr_receiver p with
  | None => (Done (Ok tt), p)
  | Some (Finished r) => (Done r, p)
  | Some (Receiving _ _ _) =>
      match next with
      | [] => (Waiting, p)
      | Accepted c :: next => (_ ← accept_connection mirror continue c; await_receiver mirror continue next) p
      | _ :: next => await_receiver mirror continue next p
      end
  end.

(** ** Commands *)

(** The loop of [WaitForFinalizeBackupJobWithRecovery]: the finalize command and what has yet to happen. *)
Fixpoint wait_commands (connection : result Conn → T unit) (recover : TargetCommand → T unit)
    (next : list happening) : T (TargetCommand * list happening) :=
  match next with
  | [] => λ p, (Waiting, p)
  | Accepted c :: next => _ ← connection c; wait_commands connection recover next
  | StreamEnded (Some e) :: _ => fail e
  | StreamEnded None :: _ => fail (ErrNew "target command stream closed before finalize command")
  | Received command :: next =>
      if decide (tc_Type command = TargetCommandFinalizeBackupJob) then
        match tc_Finalize command with
        | None => fail (ErrNew ("finalize command " +:+ Quote (tc_CommandID command) +:+ " missing payload"))
        | Some _ => mret (command, next)
        end
      else if decide (tc_Type command = TargetCommandRecoverSpace) then
        match tc_RecoverSpace command with
        | None => fail (ErrNew ("recover command " +:+ Quote (tc_CommandID command) +:+ " missing payload"))
        | Some _ => _ ← recover command; wait_commands connection recover next
        end
      else if decide (tc_Type command = TargetCommandAbortRun) then
        match tc_Abort command with
        | Some abort =>
            if decide (ar_Reason abort ≠ "") then fail (ErrNew ("target run aborted: " +:+ ar_Reason abort))
            else fail (ErrNew "target run aborted")
        | None => fail (ErrNew "target run aborted")
        end
      else wait_commands connection recover next
  end.

Definition WaitForFinalizeBackupJobWithRecovery (c : ControlClient) (req : RegisterTargetRequest)
    (connection : result Conn → T unit) (recover : TargetCommand → T unit) (next : list happening) :
    T (TargetCommand * list happening) :=
  _ ← control_call c (RegisterTarget_ req);
  wait_commands connection recover next.

(** ** Events *)

(** An event of the target of a run, with what every such event has. *)
Definition target_report (f : ServeTargetFlags) (kind phase message : string) : TargetEvent :=
  MkTargetEvent (sf_runNamespace f) (sf_runName f) kind (sf_targetNamespace f) (sf_targetName f) phase message
    "" 0 [] [] false [] 0 0.

Definition command_ack (f : ServeTargetFlags) (id type : string) : TargetCommandAckEvent :=
  MkTargetCommandAckEvent (sf_runNamespace f) (sf_runName f) RunKindBackup (sf_targetNamespace f) (sf_targetName f)
    id type "" "".

Definition finalizeCommandSources (sources : list ExpectedSource) : list string :=
  sort_Strings (filter (λ d, d ≠ "") (es_DestinationPath <$> sources)).

Definition restorePointBytesTransferred (bytesTransferred : Z) : Z :=
  if decide (bytesTransferred > max_int64) then max_int64 else bytesTransferred.

Definition controlRestorePoints (points : list dp_RestorePoint) (snapshot : string) (bytesTransferred : Z) :
    list control_RestorePoint :=
  (λ point, Mkcontrol_RestorePoint (dp_Snapshot point) (dp_ResolvesTo point) (dp_Tier point)
    (if IsZero (dp_CreatedAt point) then "" else format_rfc3339 (dp_CreatedAt point))
    (if decide (dp_Snapshot point = snapshot) then restorePointBytesTransferred bytesTransferred
     else dp_BytesTransferred point)) <$> points.

(** ** Serving a restore *)

Definition restore_writer (value : string) : option (string * string) :=
  match Cut value slash with
  | Some (namespace, name) => if decide (namespace = "" ∨ name = "") then None else Some (namespace, name)
  | None => None
  end.

Definition serve_restore (f : ServeTargetFlags) (bundle : Bundle) (client : ControlClient)
    (accepted : option (result Conn)) : T unit :=
  if decide (sf_restoreSnapshot f = "" ∨ sf_restoreSource f = "" ∨ sf_restoreWriter f = "")
  then fail (ErrNew "--restore-snapshot, --restore-source, and --restore-writer are required for restore serving")
  else if decide (sf_tlsDir f = "") then fail (ErrNew "--tls-dir is required for restore serving")
  else
    match restore_writer (sf_restoreWriter f) with
    | None => fail (ErrNew "--restore-writer must be namespace/name")
    | Some (writerNamespace, writerName) =>
        _ ← give (map_err (wrap "listen for restore transfers: ") (Listen (sf_listen f)));
        _ ← reportTarget client (target_report f RunKindRestore "Ready" "");
        let writer := SourceIdentity (sf_runNamespace f) (sf_runName f) writerNamespace writerName in
        served ← attempt (on_volume (ServeRestoreTarget accepted (MkRestoreTargetOptions (sf_target f) bundle
          (MkExpectedRestoreWriter writer (sf_restoreSnapshot f) (sf_restoreSource f)))));
        match served with
        | Ok None => λ p, (Waiting, p)
        | Ok (Some _) => reportTarget client (target_report f RunKindRestore "Completed" "")
        | Err e => _ ← reportTarget client (target_report f RunKindRestore "Failed" (error_text e)); fail e
        end
    end.

(** ** Serving a backup *)

(** An error that is reported before it ends the process. *)
Definition report_failure {A} (client : ControlClient) (f : ServeTargetFlags) (m : T A) : T A :=
  r ← attempt m;
  match r with
  | Ok a => mret a
  | Err e => _ ← reportTarget client (target_report f RunKindBackup "Failed" (error_text e)); fail e
  end.

(** [n, _ := AvailableBytes(root)] *)
Definition available_or_zero (root : string) : T Z :=
  r ← attempt (on_volume (AvailableBytes root)); mret (match r with Ok n => n | Err _ => 0 end).

(** The handling of a recovery command. *)
Definition recover_target (f : ServeTargetFlags) (client : ControlClient) (command : TargetCommand) : T unit :=
  match tc_RecoverSpace command with
  | None => mret tt
  | Some request =>
      before ← available_or_zero (sf_target f);
      '(removed, recoverErr) ← on_volume (RecoverSpace (sf_target f) (rsp_MinAvailableBytes request)
        (rsp_ProtectedSnapshots request));
      after ← available_or_zero (sf_target f);
      let bytesFreed := if decide (before < after) then after - before else 0 in
      let event phase message :=
        (target_report f RunKindBackup phase message) <| te_BytesFreed := bytesFreed |> <| te_Paths := removed |>
          <| te_AvailableBytes := after |> in
      match recoverErr with
      | Some e => _ ← reportTarget client (event "Failed" (error_text e)); fail e
      | None =>
          _ ← reportTarget client (event "Ready" ("recovered target space; removed " +:+
                Itoa (Z.of_nat (length removed)) +:+ " snapshots"));
          ackTargetCommand client (command_ack f (tc_CommandID command) (tc_Type command))
      end
  end.

Definition ack_finalize (f : ServeTargetFlags) (client : ControlClient) (commandID : string) : T unit :=
  if decide (commandID = "") then mret tt
  else _ ← attempt (ackTargetCommand client (command_ack f commandID TargetCommandFinalizeBackupJob)); mret tt.

(** After the receiver is done: a mirror is complete, and what was received for a snapshot is promoted. *)
Definition finalize_target (f : ServeTargetFlags) (client : ControlClient) (mirror : bool)
    (timestamp : string) (finalizeSources : list string) (finalizeCommandID : string) (bytesTransferred : Z) : T unit :=
  if mirror then
    _ ← reportTarget client ((target_report f RunKindBackup "Completed" "") <| te_Snapshot := "current" |>
          <| te_RestoreScanned := true |>);
    ack_finalize f client finalizeCommandID
  else
    let opts := MkFinalizeOptions (sf_target f) (sf_runID f) timestamp finalizeSources
      (MkRetentionPolicy (sf_retentionHourly f) (sf_retentionDaily f) (sf_retentionWeekly f) (sf_retentionMonthly f)) in
    _ ← report_failure client f
          ('(points, err) ← on_volume (FinalizeBackup opts); match err with None => mret points | Some e => fail e end);
    scanned ← attempt (on_volume (ScanRestorePoints (sf_target f)));
    let restorePoints := match scanned with Ok points => points | Err _ => [] end in
    let message := match scanned with Ok _ => "" | Err e => error_text e end in
    _ ← reportTarget client ((target_report f RunKindBackup "Completed" message)
          <| te_Snapshot := "hourly/" +:+ timestamp |>
          <| te_RestorePoints := controlRestorePoints restorePoints ("hourly/" +:+ timestamp) bytesTransferred |>
          <| te_RestoreScanned := is_ok scanned |>);
    ack_finalize f client finalizeCommandID.

(** The finalize command, when there is a control service: its identifier, its bytes, the timestamp and the sources
    it sets, and what has yet to happen. *)
Definition await_finalize (f : ServeTargetFlags) (client : ControlClient) (mirror : bool)
    (finalizeSources : list string) (next : list happening) : T (string * Z * string * list string * list happening) :=
  if decide (sf_controlGRPCEndpoint f = "") then mret ("", 0, sf_timestamp f, finalizeSources, next)
  else
    '(command, next) ← report_failure client f
      (WaitForFinalizeBackupJobWithRecovery client
        (MkRegisterTargetRequest (sf_runNamespace f) (sf_runName f) RunKindBackup (sf_targetNamespace f) (sf_targetName f))
        (accept_connection mirror true) (recover_target f client) next);
    match tc_Finalize command with
    | None => mret (tc_CommandID command, 0, sf_timestamp f, finalizeSources, next)
    | Some finalize =>
        mret (tc_CommandID command, fb_BytesTransferred finalize,
              if decide (fb_Timestamp finalize ≠ "") then fb_Timestamp finalize else sf_timestamp f,
              if decide (fb_Sources finalize = []) then finalizeSources else finalizeCommandSources (fb_Sources finalize),
              next)
    end.

(** The listener and the receiver, when there is something to receive. *)
Definition open_backup (f : ServeTargetFlags) (bundle : Bundle) (mirror : bool)
    (receiverSources : list ExpectedTransferSource) : T unit :=
  if decide (sf_tlsDir f = "" ∨ receiverSources = []) then mret tt
  else
    _ ← give (map_err (wrap "listen for source transfers: ") (Listen (sf_listen f)));
    start_receiver (MkTargetReceiverOptions (sf_target f) (sf_runID f) mirror bundle receiverSources
      (bool_decide (sf_controlGRPCEndpoint f ≠ ""))).

(** From there until everything is received and the run is to be finalized.  Without a control service the
    receiver is waited for first. *)
Definition collect_backup (f : ServeTargetFlags) (client : ControlClient) (mirror : bool) (finalizeSources : list string)
    (next : list happening) : T (string * Z * string * list string) :=
  let continue := bool_decide (sf_controlGRPCEndpoint f ≠ "") in
  _ ← (if continue then mret tt else report_failure client f (await_receiver mirror continue next));
  _ ← reportTarget client (target_report f RunKindBackup "Ready" "");
  '(commandID, bytesTransferred, timestamp, finalizeSources, next) ← await_finalize f client mirror finalizeSources next;
  _ ← (if continue then report_failure client f (await_receiver mirror continue next) else mret tt);
  mret (commandID, bytesTransferred, timestamp, finalizeSources).

Definition run_backup (f : ServeTargetFlags) (client : ControlClient) (mirror : bool) (finalizeSources : list string)
    (next : list happening) : T unit :=
  '(commandID, bytesTransferred, timestamp, finalizeSources) ← collect_backup f client mirror finalizeSources next;
  finalize_target f client mirror timestamp finalizeSources commandID bytesTransferred.

Definition serve_backup (f : ServeTargetFlags) (bundle : Bundle) (client : ControlClient) (mirror : bool)
    (receiverSources : list ExpectedTransferSource) (finalizeSources : list string) (next : list happening) : T unit :=
  _ ← open_backup f bundle mirror receiverSources;
  run_backup f client mirror finalizeSources next.

(** ** The command *)

(** [strings.EqualFold(s, t)] for an ASCII [t]. *)
Definition EqualFold (s t : string) : bool := bool_decide (foldName s = foldName t).

(** The certificates and the client of the control service. *)
Definition load_secrets (f : ServeTargetFlags) : T (Bundle * ControlClient) :=
  bundle ← (if decide (sf_tlsDir f = "") then mret empty_bundle else on_volume (LoadBundle (sf_tlsDir f)));
  client ← on_volume (dataPlaneControlClient (sf_controlGRPCEndpoint f) (sf_controlGRPCNamespace f)
                        (sf_tlsDir f) bundle);
  mret (bundle, client).

Definition serveTarget (now : string) (args : list string) (next : list happening) : T unit :=
  f ← give (Parse serve_target_flags args (serve_target_defaults now));
  if decide (sf_target f = "") then fail (ErrNew "--target is required")
  else
    '(bundle, client) ← load_secrets f;
    if decide (sf_restoreSnapshot f ≠ "" ∨ sf_restoreSource f ≠ "" ∨ sf_restoreWriter f ≠ "")
    then serve_restore f bundle client (head (omap (λ h, match h with Accepted c => Some c | _ => None end) next))
    else if decide (sf_runID f = "") then fail (ErrNew "--run-id is required")
    else
      let mirror := EqualFold (sf_strategy f) "mirror" in
      if negb mirror && negb (EqualFold (sf_strategy f) "snapshot")
      then fail (ErrNew ("unsupported strategy " +:+ Quote (sf_strategy f)))
      else
        '(receiverSources, finalizeSources) ← give (ParseExpectedTransferSourcesWithStrategy (sf_runNamespace f)
          (sf_runName f) (sf_runID f) mirror (sf_sources f));
        serve_backup f bundle client mirror receiverSources finalizeSources next.
End ServeTarget.
