(* ===== verification/ServeTargetLaws.v ===== *)
(** * What a target tells is true

    The laws of [ServeTarget]: a run is reported complete only when every sender that was expected has
    transferred its files and what they sent was promoted; a target that was ready and fails says so, with the
    error; and what a target can wait for. *)
From S2P Require Export ServeTarget.
From stdpp Require Import options.
From Stdlib Require Import Ascii.

(** ** Steps *)

Section Laws.
Context {HX : X509} {HE : TargetEnvironment} {HT : RsyncTunnel}.

Lemma T_bind_run {A B} (m : T A) (f : A → T B) p r p' : (m ≫= f) p = (r, p') →
  (∃ a p1, m p = (Done (Ok a), p1) ∧ f a p1 = (r, p')) ∨
  (∃ e, m p = (Done (Err e), p') ∧ r = Done (Err e)) ∨ (m p = (Waiting, p') ∧ r = Waiting).
Proof.
  unfold mbind, T_bind. destruct (m p) as [[[a|e]|] p1]; intros Hr; [|simplify_eq; by eauto 6..].
  left. by exists a, p1.
Qed.

Lemma T_bind_Ok {A B} (m : T A) (f : A → T B) p b p' : (m ≫= f) p = (Done (Ok b), p') →
  ∃ a p1, m p = (Done (Ok a), p1) ∧ f a p1 = (Done (Ok b), p').
Proof. intros [H|[(e & _ & [=])|[_ [=]]]]%T_bind_run. done. Qed.

(** ** What a step may say, and what it keeps

    [sound Q P m]: whatever [m] sends satisfies [P], and it keeps the property [Q] of the process. *)
Definition sound (Q : process → Prop) (P : outgoing → Prop) {A} (m : T A) : Prop :=
  ∀ p r p', m p = (r, p') → Q p →
    Q p' ∧ ∃ l, pr_sent p' = l ++ pr_sent p ∧ Forall P l.

(** A message that does not say that a run is complete. *)
Definition quiet (m : outgoing) : Prop :=
  match m with ReportTarget_ ev => te_Phase ev ≠ "Completed" | _ => True end.

Section Sound.
Context (Q : process → Prop) (P : outgoing → Prop).
(** The property is one of the receiver only. *)
Context (Hframe : ∀ p p', Q p → pr_receiver p' = pr_receiver p → Q p').

Lemma sound_keep {A} (m : T A) :
  (∀ p r p', m p = (r, p') → pr_sent p' = pr_sent p ∧ (Q p → Q p')) → sound Q P m.
Proof. intros H p r p' Hm Hq. destruct (H _ _ _ Hm) as [Hs Hk]. split; [by apply Hk|]. by exists []. Qed.

Lemma sound_ret {A} (a : A) : sound Q P (mret a).
Proof. apply sound_keep. by intros p r p' [= _ <-]. Qed.

Lemma sound_give {A} (a : result A) : sound Q P (give a).
Proof. apply sound_keep. by intros p r p' [= _ <-]. Qed.

Lemma sound_fail {A} e : sound Q P (fail (A := A) e).
Proof. apply sound_give. Qed.

Lemma sound_wait {A} : sound Q P (λ p, (@Waiting A, p)).
Proof. apply sound_keep. by intros p r p' [= _ <-]. Qed.

Lemma sound_bind_ran {A B} (m : T A) (f : A → T B) :
  sound Q P m → (∀ a p p1, m p = (Done (Ok a), p1) → sound Q P (f a)) → sound Q P (m ≫= f).
Proof.
  intros Hm Hf p r p' [(a & p1 & H1 & H2)|[(e & H1 & ->)|[H1 ->]]]%T_bind_run Hq; [|by eapply Hm..].
  destruct (Hm _ _ _ H1 Hq) as (Hq1 & l1 & Hs1 & Hl1). destruct (Hf a _ _ H1 _ _ _ H2 Hq1) as (Hq2 & l2 & Hs2 & Hl2).
  split; [done|]. exists (l2 ++ l1). rewrite Hs2, Hs1, (assoc_L (++)). split; [done|]. by apply Forall_app.
Qed.

Lemma sound_bind {A B} (m : T A) (f : A → T B) :
  sound Q P m → (∀ a, sound Q P (f a)) → sound Q P (m ≫= f).
Proof. intros Hm Hf. by apply sound_bind_ran. Qed.

Lemma sound_attempt {A} (m : T A) : sound Q P m → sound Q P (attempt m).
Proof.
  intros Hm p r p'. unfold attempt. destruct (m p) as [[o|] p1] eqn:H1; intros [= <- <-]; by eapply Hm.
Qed.

Lemma sound_volume {A} (m : M A) : sound Q P (on_volume m).
Proof using Hframe.
  apply sound_keep. intros p r p'. unfold on_volume. destruct (m (pr_world p)). intros [= _ <-].
  split; [done|]. intros Hq. by eapply Hframe.
Qed.

Lemma sound_call c m : (grpcClient c = Ok tt → P m) → sound Q P (control_call c m).
Proof using Hframe.
  intros Hm p r p'. unfold control_call. destruct (grpcClient c) as [[]|e]; intros [= _ <-] Hq; [|by split; [|exists []]].
  split; [by eapply Hframe|]. exists [m]. repeat constructor. by apply Hm.
Qed.

Lemma sound_report c ev : (grpcClient c = Ok tt → P (ReportTarget_ ev)) → sound Q P (reportTarget c ev).
Proof using Hframe.
  intros Hp. apply sound_bind; [|intros; apply sound_ret]. apply sound_attempt. unfold ControlClient_ReportTarget.
  case_decide; [apply sound_ret|by apply sound_call, Hp].
Qed.

Lemma sound_failure {A} c f (m : T A) : sound Q P m →
  (∀ e, grpcClient c = Ok tt → P (ReportTarget_ (target_report f RunKindBackup "Failed" (error_text e)))) →
  sound Q P (report_failure c f m).
Proof using Hframe.
  intros Hm Hp. apply sound_bind; [by apply sound_attempt|]. intros [a|e]; [apply sound_ret|].
  apply sound_bind; [by apply sound_report, Hp|]. intros. apply sound_fail.
Qed.

Lemma sound_commands connection recover next :
  (∀ c, Accepted c ∈ next → sound Q P (connection c)) → (∀ c, sound Q P (recover c)) →
  sound Q P (wait_commands connection recover next).
Proof.
  intros Hc Hr. induction next as [|[c|command|[e|]] next IH]; cbn [wait_commands]; [apply sound_wait| | |apply sound_fail..].
  - apply sound_bind; [apply Hc; by left|]. intros _. apply IH. intros. apply Hc. by right.
  - assert (sound Q P (wait_commands connection recover next)) as Hn by (apply IH; intros; apply Hc; by right).
    case_decide; [destruct (tc_Finalize command); [apply sound_ret|apply sound_fail]|].
    case_decide; [destruct (tc_RecoverSpace command); [by apply sound_bind; [|intros]|apply sound_fail]|].
    case_decide; [|done]. destruct (tc_Abort command); [case_decide|]; apply sound_fail.
Qed.

Lemma sound_recover f c command :
  (∀ ev, grpcClient c = Ok tt → te_Phase ev ≠ "Completed" → P (ReportTarget_ ev)) →
  (∀ e, grpcClient c = Ok tt → P (Acknowledge e)) →
  sound Q P (recover_target f c command).
Proof using Hframe.
  intros Hp Ha. unfold recover_target. destruct (tc_RecoverSpace command); [|apply sound_ret].
  assert (∀ root, sound Q P (available_or_zero root)) as Hav.
  { intros root. apply sound_bind; [apply sound_attempt, sound_volume|intros; apply sound_ret]. }
  apply sound_bind; [apply Hav|]. intros before. apply sound_bind; [apply sound_volume|]. intros [removed err].
  apply sound_bind; [apply Hav|]. intros after. destruct err.
  - apply sound_bind; [by apply sound_report; intros; apply Hp|]. intros. apply sound_fail.
  - apply sound_bind; [by apply sound_report; intros; apply Hp|]. intros. apply sound_call, Ha.
Qed.

Lemma sound_await mirror continue next :
  (∀ c, Accepted c ∈ next → sound Q P (accept_connection mirror continue c)) → sound Q P (await_receiver mirror continue next).
Proof.
  intros Hc. induction next as [|h next IH]; intros p r p'; cbn [await_receiver].
  - destruct (pr_receiver p) as [[]|]; intros [= _ <-] Hq; split; by try exists [].
  - assert (sound Q P (await_receiver mirror continue next)) as Hn by (apply IH; intros; apply Hc; by right).
    destruct (pr_receiver p) as [[]|]; [|intros [= _ <-] Hq; split; by try exists []..].
    destruct h as [c|command|e]; [|by apply Hn..]. apply sound_bind; [apply Hc; by left|done].
Qed.

Lemma sound_await_finalize f c mirror sources next :
  (∀ a, Accepted a ∈ next → sound Q P (accept_connection mirror true a)) →
  (∀ m, grpcClient c = Ok tt → quiet m → P m) → sound Q P (await_finalize f c mirror sources next).
Proof using Hframe.
  intros Hc Hp. unfold await_finalize. case_decide; [apply sound_ret|]. apply sound_bind.
  - apply sound_failure; [|intros; by apply Hp]. apply sound_bind; [apply sound_call; intros; by apply Hp|]. intros _.
    apply sound_commands; [done|]. intros. apply sound_recover; intros; by apply Hp.
  - intros [command rest]. destruct (tc_Finalize command); apply sound_ret.
Qed.
End Sound.

(** ** The receiver *)

(** Every sender that is complete has transferred, over a connection that was accepted. *)
Definition all_transferred (next : list happening) (root : string) (mirror : bool) (expected : gmap Identity string)
    (done : Identity → Prop) : Prop :=
  ∀ i destination, done i → expected !! i = Some destination →
    ∃ conn, Accepted (Ok conn) ∈ next ∧ transferred root mirror conn i destination.

Definition receiver_sound (next : list happening) (root : string) (mirror : bool) (expected : gmap Identity string)
    (p : process) : Prop :=
  match pr_receiver p with
  | Some (Receiving root' expected' completed) =>
      root' = root ∧ expected' = expected ∧ completed ⊆ dom expected ∧
      all_transferred next root mirror expected (.∈ completed)
  | Some (Finished (Ok _)) => all_transferred next root mirror expected (λ _, True)
  | Some (Finished (Err _)) => True
  | None => False
  end.

Lemma receiver_sound_frame next root mirror expected p p' :
  receiver_sound next root mirror expected p → pr_receiver p' = pr_receiver p → receiver_sound next root mirror expected p'.
Proof. unfold receiver_sound. by intros H ->. Qed.

Lemma after_step_sound next root mirror expected completed p :
  completed ⊆ dom expected → all_transferred next root mirror expected (.∈ completed) →
  receiver_sound next root mirror expected (p <| pr_receiver := Some (after_step root expected (Ok completed)) |>).
Proof.
  intros Hsub Hc. unfold receiver_sound. cbn. case_decide as Hs; [done|].
  intros i d _ Hi. apply (Hc i d); [|done]. by eapply completed_all.
Qed.

Lemma accept_sound P next root mirror expected continue c : Accepted c ∈ next →
  sound (receiver_sound next root mirror expected) P (accept_connection mirror continue c).
Proof.
  intros Hin. apply sound_keep. intros p r p'. unfold accept_connection.
  destruct (pr_receiver p) as [[root' expected' completed|r1]|] eqn:Hr; [|by intros [= _ <-]..].
  destruct (receive_step _ _ _ _ _ _ _) as [s w] eqn:Hs. intros [= _ <-]. split; [done|].
  unfold receiver_sound at 1. rewrite Hr. intros (-> & -> & Hsub & Hc).
  destruct s as [completed'|e]; [|done].
  destruct (receive_step_completes _ _ _ _ _ _ _ _ _ Hs Hsub) as [Hsub' Hnew].
  apply (after_step_sound _ _ _ _ _ (p <| pr_world := w |>)); [done|]. intros i d Hi Hd.
  destruct (Hnew i d Hi Hd) as [?|(conn & -> & Ht)]; [by apply Hc|]. by exists conn.
Qed.

Lemma start_receiver_run opts p r p' : start_receiver opts p = (r, p') →
  pr_sent p' = pr_sent p ∧ (tro_Sources opts ≠ [] →
    (∃ e, pr_receiver p' = Some (Finished (Err e))) ∨
    ∃ root expected, Abs (tro_TargetRoot opts) (pr_world p) = (Ok root, pr_world p) ∧
      expected_destinations (tro_Sources opts) ∅ = Ok expected ∧
      ∀ next, receiver_sound next root (tro_Mirror opts) expected p').
Proof.
  unfold start_receiver. destruct (open_receiver opts (pr_world p)) as [o w] eqn:Ho.
  apply open_receiver_run in Ho as [-> Ho]. intros [= _ <-]. split; [done|]. intros Hne.
  destruct o as [[[root expected]|]|e]; [right|by destruct (Ho _ eq_refl)|left; by exists e].
  destruct (Ho _ eq_refl) as (_ & Ha & He). exists root, expected. split; [done|]. split; [done|]. intros next.
  refine (after_step_sound next root (tro_Mirror opts) expected ∅ (p <| pr_world := pr_world p |>) _ _).
  { apply empty_subseteq. }
  by intros i d ?%not_elem_of_empty.
Qed.

Lemma await_receiver_Ok mirror continue next p a p' : await_receiver mirror continue next p = (Done (Ok a), p') →
  pr_receiver p' = None ∨ ∃ b, pr_receiver p' = Some (Finished (Ok b)).
Proof.
  revert p. induction next as [|h next IH]; intros p; cbn [await_receiver].
  - destruct (pr_receiver p) as [[|r]|] eqn:Hr; [done|intros [= -> <-]; right; by exists a|intros [= _ <-]; by left].
  - destruct (pr_receiver p) as [[|r]|] eqn:Hr; [|intros [= -> <-]; right; by exists a|intros [= _ <-]; by left].
    destruct h as [c|command|e]; [|by apply IH..]. intros (? & p1 & _ & H)%T_bind_Ok. by apply IH in H.
Qed.

(** ** Completion *)

(** Whoever says that a run is complete has [C]. *)
Definition told (C : outcome unit → process → TargetEvent → Prop) (p0 : process) (r : outcome unit) (p : process) : Prop :=
  ∃ l, pr_sent p = l ++ pr_sent p0 ∧
    ∀ ev, ReportTarget_ ev ∈ l → te_Phase ev = "Completed" → C r p ev.

Lemma told_quiet C p0 r p l : pr_sent p = l ++ pr_sent p0 → Forall quiet l → told C p0 r p.
Proof.
  intros Hs Hl. exists l. split; [done|]. intros ev Hin Hc. rewrite Forall_forall in Hl. by specialize (Hl _ Hin Hc).
Qed.

Lemma told_bind {A} Q C (m : T A) (f : A → T unit) p0 r p : sound Q quiet m → Q p0 → (m ≫= f) p0 = (r, p) →
  (∀ a p1, m p0 = (Done (Ok a), p1) → Q p1 → f a p1 = (r, p) → told C p1 r p) → told C p0 r p.
Proof.
  intros Hm Hq Hr Hf. apply T_bind_run in Hr as [(a & p1 & H1 & H2)|[(e & H1 & ->)|[H1 ->]]].
  - destruct (Hm _ _ _ H1 Hq) as (Hq1 & l1 & Hs1 & Hl1). destruct (Hf a p1 H1 Hq1 H2) as (l2 & Hs2 & Hl2).
    exists (l2 ++ l1). split; [by rewrite Hs2, Hs1, (assoc_L (++))|]. intros ev [Hin|Hin]%elem_of_app Hc; [by apply Hl2|].
    rewrite Forall_forall in Hl1. by specialize (Hl1 _ Hin Hc).
  - destruct (Hm _ _ _ H1 Hq) as (_ & l & Hs & Hl). by eapply told_quiet.
  - destruct (Hm _ _ _ H1 Hq) as (_ & l & Hs & Hl). by eapply told_quiet.
Qed.

(** The bytes, the timestamp and the sources of a run: those of the flags, or those of the command that asked to finalize it. *)
Definition finalize_request (next : list happening) (f : ServeTargetFlags) (flagSources : list string)
    (bytesTransferred : Z) (timestamp : string) (sources : list string) : Prop :=
  sf_controlGRPCEndpoint f = "" ∧ bytesTransferred = 0 ∧ timestamp = sf_timestamp f ∧ sources = flagSources ∨
  ∃ command finalize, Received command ∈ next ∧ tc_Type command = TargetCommandFinalizeBackupJob ∧
    tc_Finalize command = Some finalize ∧ bytesTransferred = fb_BytesTransferred finalize ∧
    timestamp = (if decide (fb_Timestamp finalize ≠ "") then fb_Timestamp finalize else sf_timestamp f) ∧
    sources = (if decide (fb_Sources finalize = []) then flagSources else finalizeCommandSources (fb_Sources finalize)).

(** The event is about the run of the flags. *)
Definition about_run (f : ServeTargetFlags) (kind : string) (ev : TargetEvent) : Prop :=
  te_RunNamespace ev = sf_runNamespace f ∧ te_RunName ev = sf_runName f ∧ te_RunKind ev = kind ∧
  te_TargetNamespace ev = sf_targetNamespace f ∧ te_TargetName ev = sf_targetName f.

(** The volume [w1] has been promoted to the snapshot an event names, and the restore points of the event are those of
    the volume [w] afterwards; a mirror needs no promotion. *)
Definition promotes (f : ServeTargetFlags) (mirror : bool) (bytesTransferred : Z) (timestamp : string) (sources : list string)
    (w1 w : world) (ev : TargetEvent) : Prop :=
  if mirror then te_Snapshot ev = "current" ∧ te_RestorePoints ev = [] ∧ te_RestoreScanned ev = true ∧ w = w1
  else
    let snapshot := "hourly/" +:+ timestamp in
    te_Snapshot ev = snapshot ∧ ∃ points w2 scanned,
    FinalizeBackup (MkFinalizeOptions (sf_target f) (sf_runID f) timestamp sources
      (MkRetentionPolicy (sf_retentionHourly f) (sf_retentionDaily f) (sf_retentionWeekly f) (sf_retentionMonthly f))) w1
    = (Ok (points, None), w2) ∧
    ScanRestorePoints (sf_target f) w2 = (scanned, w) ∧
    match scanned with
    | Ok points => te_RestoreScanned ev = true ∧ te_RestorePoints ev = controlRestorePoints points snapshot bytesTransferred
    | Err e => te_RestoreScanned ev = false ∧ te_RestorePoints ev = [] ∧ te_Message ev = error_text e
    end.

(** The process is done with its receiver, when it had one. *)
Definition receiver_done (p : process) : Prop :=
  pr_receiver p = None ∨ ∃ b, pr_receiver p = Some (Finished (Ok b)).

Lemma attempt_Ok {A} (m : T A) p : ∀ r p', attempt m p = (Done r, p') → ∃ o, r = Ok o ∧ m p = (Done o, p').
Proof. unfold attempt. destruct (m p) as [[o|] p1]; [|done]. intros r p' [= <- <-]. by exists o. Qed.

Lemma report_failure_Ok {A} c f (m : T A) p a p' : report_failure c f m p = (Done (Ok a), p') → m p = (Done (Ok a), p').
Proof.
  intros (o & p1 & H1 & H2)%T_bind_Ok. apply attempt_Ok in H1 as (o' & [= ->] & H1).
  destruct o' as [b|e]; [by injection H2 as <- <-|]. apply T_bind_Ok in H2 as (? & ? & _ & H2). done.
Qed.

Lemma quiet_report f e : quiet (ReportTarget_ (target_report f RunKindBackup "Failed" e)).
Proof. done. Qed.

(** A receiver that is not at work stays as it is. *)
Lemma accept_idle (Q : process → Prop) P mirror continue c :
  (∀ p root expected completed, Q p → pr_receiver p ≠ Some (Receiving root expected completed)) →
  sound Q P (accept_connection mirror continue c).
Proof.
  intros Hq p r p' H Hp. unfold accept_connection in H. specialize (Hq p).
  destruct (pr_receiver p) as [[root expected completed|]|]; [by destruct (Hq root expected completed)|..];
    injection H as _ <-; (split; [done|by exists []]).
Qed.

Lemma wait_commands_Ok connection recover next p command next' p' :
  wait_commands connection recover next p = (Done (Ok (command, next')), p') →
  Received command ∈ next ∧ tc_Type command = TargetCommandFinalizeBackupJob ∧ is_Some (tc_Finalize command) ∧
  next' ⊆ next.
Proof.
  revert p. induction next as [|h next IH]; intros p H; [done|]. cbn [wait_commands] in H.
  assert (∀ q, wait_commands connection recover next q = (Done (Ok (command, next')), p') →
    Received command ∈ h :: next ∧ tc_Type command = TargetCommandFinalizeBackupJob ∧ is_Some (tc_Finalize command) ∧
    next' ⊆ h :: next) as Hn.
  { intros q (? & ? & ? & ?)%IH. repeat split; [by right|done..|]. by apply list_subseteq_cons. }
  destruct h as [c|c|[e|]]; [|..|done|done].
  - apply T_bind_Ok in H as (? & q & _ & H). by eapply Hn.
  - case_decide as Ht.
    + destruct (tc_Finalize c) as [fin|] eqn:Hf; [|done]. injection H as <- <- <-.
      repeat split; [by left|done|by rewrite Hf|by apply list_subseteq_cons].
    + case_decide; [destruct (tc_RecoverSpace c); [|done]|].
      * apply T_bind_Ok in H as (? & q & _ & H). by eapply Hn.
      * case_decide; [|by eapply Hn]. destruct (tc_Abort c); [case_decide|]; done.
Qed.

Lemma await_finalize_Ok f client mirror flagSources next p id bytes timestamp sources next' p' :
  await_finalize f client mirror flagSources next p = (Done (Ok (id, bytes, timestamp, sources, next')), p') →
  finalize_request next f flagSources bytes timestamp sources ∧ next' ⊆ next.
Proof.
  unfold await_finalize. case_decide as He.
  { intros [= _ <- <- <- <- _]. split; [by left|done]. }
  intros ([command rest] & p1 & H1%report_failure_Ok & H2)%T_bind_Ok.
  apply T_bind_Ok in H1 as (? & p2 & _ & H1). apply wait_commands_Ok in H1 as (Hin & Ht & [fin Hf] & Hsub).
  rewrite Hf in H2. injection H2 as _ <- <- <- <- _. split; [|done]. right. by exists command, fin.
Qed.

(** A run says that it is complete at its end, when everything has been received, over which the volume became [w1],
    and promoted. *)
Definition truly_complete (next : list happening) (f : ServeTargetFlags) (mirror : bool) (flagSources : list string)
    (collected : Z → string → list string → world → Prop) (r : outcome unit) (p : process) (ev : TargetEvent) : Prop :=
  r = Done (Ok tt) ∧ about_run f RunKindBackup ev ∧
  ∃ bytesTransferred timestamp sources w1, collected bytesTransferred timestamp sources w1 ∧
    finalize_request next f flagSources bytesTransferred timestamp sources ∧
    promotes f mirror bytesTransferred timestamp sources w1 (pr_world p) ev.

Lemma ack_finalize_run f client id p r p' : ack_finalize f client id p = (r, p') →
  r = Done (Ok tt) ∧ pr_world p' = pr_world p ∧ ∃ l, pr_sent p' = l ++ pr_sent p ∧ Forall quiet l.
Proof.
  unfold ack_finalize. case_decide; [intros [= <- <-]; repeat split; by exists []|].
  unfold mbind, T_bind, attempt, ackTargetCommand, ControlClient_AcknowledgeTargetCommand, control_call.
  destruct (grpcClient client); cbn; intros [= <- <-]; repeat split; [|by exists []].
  eexists [_]. split; [done|]. by repeat constructor.
Qed.

Lemma reportTarget_run client ev p r p' : reportTarget client ev p = (r, p') →
  r = Done (Ok tt) ∧ pr_world p' = pr_world p ∧ (pr_sent p' = pr_sent p ∨ pr_sent p' = ReportTarget_ ev :: pr_sent p).
Proof.
  unfold reportTarget, ControlClient_ReportTarget, mbind, T_bind, attempt, control_call. case_decide; cbn.
  { intros [= <- <-]. by split_and!; [..|left]. }
  destruct (grpcClient client); cbn; intros [= <- <-]; split_and!; try done; [by right|by left].
Qed.

(** The last two messages: the event, and the acknowledgement of the command. *)
Lemma told_last C f client ev id p r p' :
  (_ ← reportTarget client ev; ack_finalize f client id) p = (r, p') →
  (r = Done (Ok tt) → pr_world p' = pr_world p → C r p' ev) → told C p r p'.
Proof.
  intros H Hc. apply T_bind_run in H as [([] & p1 & H1 & H2)|[(e & H1 & _)|[H1 _]]];
    apply reportTarget_run in H1 as (? & Hw1 & Hs1); [|done..].
  apply ack_finalize_run in H2 as (-> & Hw2 & l & Hs2 & Hl). rewrite Forall_forall in Hl.
  destruct Hs1 as [Hs1|Hs1]; rewrite Hs1 in Hs2.
  - exists l. split; [done|]. intros ev' Hin Hph. by destruct (Hl _ Hin).
  - exists (l ++ [ReportTarget_ ev]). split; [by rewrite <-(assoc_L (++))|].
    intros ev' [Hin|[= ->]%list_elem_of_singleton]%elem_of_app Hph; [by destruct (Hl _ Hin)|].
    apply Hc; [done|congruence].
Qed.

Lemma finalize_target_told next f client mirror timestamp sources flagSources id bytes
    (collected : Z → string → list string → world → Prop) p r p' :
  finalize_target f client mirror timestamp sources id bytes p = (r, p') →
  finalize_request next f flagSources bytes timestamp sources → collected bytes timestamp sources (pr_world p) →
  told (truly_complete next f mirror flagSources collected) p r p'.
Proof.
  intros H Hreq Hrec. unfold finalize_target in H. destruct mirror.
  { eapply told_last; [exact H|]. intros -> Hw. split; [done|]. split; [done|].
    by exists bytes, timestamp, sources, (pr_world p). }
  eapply (told_bind (λ _, True)); [|done|exact H|].
  { apply sound_failure; [done| |intros; apply quiet_report]. apply sound_bind; [by apply sound_volume|].
    intros [points [e|]]; [apply sound_fail|apply sound_ret]. }
  intros points p1 H1%report_failure_Ok _ H2.
  apply T_bind_Ok in H1 as ([points' err] & q & H1 & Hq). destruct err as [e|]; [done|]. injection Hq as -> ->.
  eapply (told_bind (λ _, True)); [by apply sound_attempt, sound_volume|done|exact H2|].
  intros scanned p2 (o & [= ->] & Hscan)%attempt_Ok _ H3. eapply told_last; [exact H3|].
  intros -> Hw. split; [done|]. split; [done|]. exists bytes, timestamp, sources, (pr_world p). split; [done|].
  split; [done|]. unfold on_volume in H1, Hscan. split; [done|].
  destruct (FinalizeBackup _ _) as [fr fw] eqn:Hfin in H1. injection H1 as -> <-.
  destruct (ScanRestorePoints _ _) as [sr sw] eqn:Hsc in Hscan. injection Hscan as -> <-.
  exists points, fw, o. rewrite Hw. split; [done|]. split; [exact Hsc|]. by destruct o.
Qed.

(** What a run keeps of its receiver: what it says of one that is done is what has been received. *)
Section Run.
Context (Q : process → Prop) (next : list happening) (mirror : bool) (received : Prop).
Context (Hframe : ∀ p p', Q p → pr_receiver p' = pr_receiver p → Q p').
Context (Haccept : ∀ continue c, Accepted c ∈ next → sound Q quiet (accept_connection mirror continue c)).
Context (Hdone : ∀ p, Q p → receiver_done p → received).

Lemma collect_sound f client flagSources : sound Q quiet (collect_backup f client mirror flagSources next).
Proof using Hframe Haccept.
  assert (∀ continue h, h ⊆ next → sound Q quiet
    (report_failure client f (await_receiver mirror continue h))) as Hwait.
  { intros continue h Hh. apply sound_failure; [done| |intros; apply quiet_report].
    apply sound_await. intros c Hc. by apply Haccept, Hh. }
  unfold collect_backup. apply sound_bind; [case_bool_decide; [apply sound_ret|by apply Hwait]|]. intros _.
  apply sound_bind; [by apply sound_report|]. intros _. apply sound_bind_ran.
  { apply sound_await_finalize; [done|intros; by apply Haccept|done]. }
  intros [[[[id bytes] timestamp] sources] rest] p p1 [_ Hsub]%await_finalize_Ok.
  apply sound_bind; [case_bool_decide; [by apply Hwait|apply sound_ret]|]. intros _. apply sound_ret.
Qed.

Lemma collect_Ok f client flagSources p id bytes timestamp sources p' : Q p →
  collect_backup f client mirror flagSources next p = (Done (Ok (id, bytes, timestamp, sources)), p') →
  finalize_request next f flagSources bytes timestamp sources ∧ received.
Proof using Hframe Haccept Hdone.
  intros Hq H. unfold collect_backup in H.
  assert (∀ continue h, h ⊆ next → sound Q quiet
    (report_failure client f (await_receiver mirror continue h))) as Hwait.
  { intros continue h Hh. apply sound_failure; [done| |intros; apply quiet_report].
    apply sound_await. intros c Hc. by apply Haccept, Hh. }
  apply T_bind_Ok in H as ([] & p1 & H1 & H).
  assert (Q p1) as Hq1.
  { case_bool_decide; [by injection H1 as <-|]. eapply Hwait; [reflexivity|exact H1|done]. }
  apply T_bind_Ok in H as ([] & p2 & H2 & H).
  assert (Q p2) as Hq2 by (eapply (sound_report Q (λ _, True) Hframe); [done|exact H2|done]).
  apply T_bind_Ok in H as ([[[[id' bytes'] timestamp'] sources'] rest] & p3 & H3 & H).
  assert (Q p3) as Hq3.
  { eapply (sound_await_finalize Q (λ _, True) Hframe); [|done|exact H3|done]. intros c Hc.
    intros q r q' Hm Hq'. destruct (Haccept true c Hc _ _ _ Hm Hq') as (? & l & ? & _). split; [done|]. exists l.
    split; [done|]. by apply Forall_forall. }
  apply await_finalize_Ok in H3 as [Hreq Hsub].
  apply T_bind_Ok in H as ([] & p4 & H4 & H). injection H as -> -> -> -> <-. split; [done|].
  case_bool_decide.
  - assert (Q p4) by (eapply (Hwait true rest); [done|exact H4|done]).
    apply report_failure_Ok, await_receiver_Ok in H4. by apply (Hdone p4).
  - apply report_failure_Ok, await_receiver_Ok in H1. by apply (Hdone p1).
Qed.

Lemma run_backup_told f client flagSources p r p' :
  run_backup f client mirror flagSources next p = (r, p') → Q p →
  told (truly_complete next f mirror flagSources (λ bytes timestamp sources w1, received ∧ ∃ id p1,
    collect_backup f client mirror flagSources next p = (Done (Ok (id, bytes, timestamp, sources)), p1) ∧
    pr_world p1 = w1)) p r p'.
Proof using Hframe Haccept Hdone.
  intros H Hq. unfold run_backup in H. eapply (told_bind Q); [apply collect_sound|done|exact H|].
  intros [[[id bytes] timestamp] sources] p1 H1 _ H2. destruct (collect_Ok _ _ _ _ _ _ _ _ _ Hq H1) as [Hreq Hrec].
  eapply finalize_target_told; [exact H2|done|]. split; [done|]. by exists id, p1.
Qed.
End Run.

(** ** The command *)

Definition start (w : world) : process := MkProcess w None [].

Lemma load_secrets_sound (Q : process → Prop) P f :
  (∀ p p', Q p → pr_receiver p' = pr_receiver p → Q p') → sound Q P (load_secrets f).
Proof.
  intros Hframe. unfold load_secrets. apply sound_bind.
  { destruct (decide (sf_tlsDir f = "")); [apply sound_ret|by apply sound_volume]. }
  intros bundle. apply sound_bind; [by apply sound_volume|]. intros client. apply sound_ret.
Qed.

(** A restore is served without a word about a backup. *)
Lemma serve_restore_sound f bundle client accepted :
  sound (λ _, True) (λ m, match m with ReportTarget_ ev => te_RunKind ev = RunKindRestore | _ => True end)
    (serve_restore f bundle client accepted).
Proof.
  unfold serve_restore. case_decide; [apply sound_fail|]. case_decide; [apply sound_fail|].
  destruct (restore_writer _) as [[writerNamespace writerName]|]; [|apply sound_fail].
  apply sound_bind; [apply sound_give|]. intros _. apply sound_bind; [by apply sound_report|]. intros _.
  apply sound_bind; [by apply sound_attempt, sound_volume|].
  intros [[served|]|e]; [by apply sound_report|apply sound_wait|].
  apply sound_bind; [by apply sound_report|]. intros _. apply sound_fail.
Qed.

(** All the senders that a list of sources expects have transferred their files, to the volume that was [w]. *)
Definition all_received (next : list happening) (f : ServeTargetFlags) (mirror : bool)
    (sources : list ExpectedTransferSource) (w : world) : Prop :=
  sf_tlsDir f = "" ∨ sources = [] ∨ ∃ root expected,
    Abs (sf_target f) w = (Ok root, w) ∧ expected_destinations sources ∅ = Ok expected ∧
    all_transferred next root mirror expected (λ _, True).

(** The command collected what its run sends: it loaded its secrets and opened the receiver, every sender that is expected transferred, and
    the volume is [w1] when the run is to be finalized. *)
Definition collected (w : world) (next : list happening) (f : ServeTargetFlags) (mirror : bool)
    (sources : list ExpectedTransferSource) (flagSources : list string)
    (bytesTransferred : Z) (timestamp : string) (finalizeSources : list string) (w1 : world) : Prop :=
  ∃ bundle client p0 p1 p2 id,
    load_secrets f (start w) = (Done (Ok (bundle, client)), p0) ∧
    open_backup f bundle mirror sources p0 = (Done (Ok tt), p1) ∧
    all_received next f mirror sources (pr_world p0) ∧
    collect_backup f client mirror flagSources next p1
      = (Done (Ok (id, bytesTransferred, timestamp, finalizeSources)), p2) ∧ pr_world p2 = w1.

Lemma told_mono (C C' : outcome unit → process → TargetEvent → Prop) p0 r p :
  (∀ ev, C r p ev → C' r p ev) → told C p0 r p → told C' p0 r p.
Proof. intros HC (l & Hl & Ht). exists l. split; [done|]. intros ev Hin Hph. by apply HC, Ht. Qed.

Lemma serve_backup_told w f bundle client mirror sources flagSources next p r p' :
  load_secrets f (start w) = (Done (Ok (bundle, client)), p) →
  serve_backup f bundle client mirror sources flagSources next p = (r, p') → pr_receiver p = None →
  told (truly_complete next f mirror flagSources (collected w next f mirror sources flagSources)) p r p'.
Proof.
  intros Hload H Hnone. unfold serve_backup in H.
  assert (∀ p1, open_backup f bundle mirror sources p = (Done (Ok tt), p1) →
    told (truly_complete next f mirror flagSources (λ bytes timestamp srcs w1,
      all_received next f mirror sources (pr_world p) ∧ ∃ id p2,
      collect_backup f client mirror flagSources next p1 = (Done (Ok (id, bytes, timestamp, srcs)), p2) ∧
      pr_world p2 = w1)) p1 r p' →
    told (truly_complete next f mirror flagSources (collected w next f mirror sources flagSources)) p1 r p') as Hmono.
  { intros p1 Ho. apply told_mono. intros ev (Hr & Ha & bytes & timestamp & srcs & w1 & (Hrec & id & p2 & Hc & Hw) & Hrest).
    split; [done|]. split; [done|]. exists bytes, timestamp, srcs, w1. split; [|done].
    by exists bundle, client, p, p1, p2, id. }
  unfold open_backup in H, Hmono. case_decide as Hopen.
  { apply Hmono; [done|]. eapply (run_backup_told (λ p, pr_receiver p = None)); [| | |exact H|done].
    - by intros q q' Hq ->.
    - intros. apply accept_idle. by intros q ? ? ? ->.
    - intros. destruct Hopen; [by left|by right; left]. }
  assert (sources ≠ []) as Hne by tauto. eapply (told_bind (λ _, True)); [|done|exact H|clear H].
  { apply sound_bind; [apply sound_give|]. intros _. apply sound_keep. intros q r0 q' (? & _)%start_receiver_run. done. }
  intros [] p1 H1 _ H2. apply Hmono; [exact H1|]. apply T_bind_Ok in H1 as ([] & p0 & H0 & H1).
  assert (p0 = p) as -> by (unfold give in H0; by injection H0).
  apply start_receiver_run in H1 as [_ H1].
  destruct (H1 Hne) as [[e He]|(root & expected & Ha & Hd & Hs)].
  - eapply (run_backup_told (λ p, pr_receiver p = Some (Finished (Err e)))); [| | |exact H2|done].
    + by intros q q' Hq ->.
    + intros. apply accept_idle. by intros q ? ? ? ->.
    + intros q Hq [Hr|[b Hr]]; congruence.
  - eapply (run_backup_told (receiver_sound next root mirror expected)); [| | |exact H2|apply Hs].
    + apply receiver_sound_frame.
    + intros. by apply accept_sound.
    + intros q Hq Hr. right; right. exists root, expected. split; [done|]. split; [done|].
      unfold receiver_sound in Hq. by destruct Hr as [Hr|[b Hr]]; rewrite Hr in Hq.
Qed.

Lemma T_bind_give {A B} (r : result A) (f : A → T B) a p : r = Ok a → (give r ≫= f) p = f a p.
Proof. by intros ->. Qed.

(** C7: What a target says of a backup is true: when it reports a run complete, the event is about its own run and the command
    returns without an error; every sender it expects has transferred its files over a connection that was accepted, and
    the run was asked to finalize by the control service (when there is one); the volume as it was then has been
    promoted to the snapshot that the event names, and the restore points of the event are those that were found on
    the volume after that, with the bytes that the control service counted.  (A mirror is not promoted.) *)
Theorem completed_is_true now args next w r p' f ev :
  Parse serve_target_flags args (serve_target_defaults now) = Ok f →
  serveTarget now args next (start w) = (r, p') →
  ReportTarget_ ev ∈ pr_sent p' → te_Phase ev = "Completed" → te_RunKind ev = RunKindBackup →
  let mirror := EqualFold (sf_strategy f) "mirror" in
  ∃ sources flagSources,
    ParseExpectedTransferSourcesWithStrategy (sf_runNamespace f) (sf_runName f) (sf_runID f) mirror (sf_sources f)
      = Ok (sources, flagSources) ∧
    truly_complete next f mirror flagSources (collected w next f mirror sources flagSources) r p' ev.
Proof.
  intros Hf H Hin Hph Hkind mirror. unfold serveTarget in H. rewrite (T_bind_give _ _ f) in H by done.
  set (C := λ (r : outcome unit) p ev, te_RunKind ev = RunKindBackup → ∃ sources flagSources,
    ParseExpectedTransferSourcesWithStrategy (sf_runNamespace f) (sf_runName f) (sf_runID f) mirror (sf_sources f)
      = Ok (sources, flagSources) ∧
    truly_complete next f mirror flagSources (collected w next f mirror sources flagSources) r p ev).
  enough (told C (start w) r p') as (l & Hl & Ht).
  { apply (Ht ev); [|done..]. by rewrite Hl, app_nil_r in Hin. }
  destruct (decide (sf_target f = _)) as [?|_]; [injection H as _ <-; by apply (told_quiet C _ _ _ [])|].
  eapply (told_bind (λ p, pr_receiver p = None)); [|done|exact H|clear H].
  { by apply load_secrets_sound; intros ? ? ? ->. }
  intros [bundle client] p2 Hload Hn2 H. destruct (decide (_ ∨ _)) as [?|_].
  { destruct (serve_restore_sound _ _ _ _ _ _ _ H I) as (_ & l & Hl & Hall). exists l. split; [done|].
    intros ev' Hin' _ Hk. rewrite Forall_forall in Hall. specialize (Hall _ Hin'). cbn in Hall. by rewrite Hk in Hall. }
  destruct (decide (sf_runID f = _)) as [?|_]; [injection H as _ <-; by apply (told_quiet C _ _ _ [])|]. fold mirror in H.
  destruct (negb mirror && _); [injection H as _ <-; by apply (told_quiet C _ _ _ [])|].
  destruct (ParseExpectedTransferSourcesWithStrategy _ _ _ _ _) as [[sources flagSources]|e] eqn:Hp;
    [|injection H as _ <-; by apply (told_quiet C _ _ _ [])].
  rewrite (T_bind_give _ _ _ _ eq_refl) in H. apply (serve_backup_told w) in H as (l & Hl & Ht); [|done..].
  exists l. split; [done|]. intros ev' Hin' Hc' _. exists sources, flagSources. split; [done|]. by apply Ht.
Qed.

(** ** Failures *)

(** The last message says that the run of the flags failed, with the error. *)
Definition failure_told (f : ServeTargetFlags) (kind : string) (e : goerr) (sent : list outgoing) : Prop :=
  ∃ ev, head sent = Some (ReportTarget_ ev) ∧ about_run f kind ev ∧ te_Phase ev = "Failed" ∧ te_Message ev = error_text e.

Lemma failure_told_report f kind e sent :
  failure_told f kind e (ReportTarget_ (target_report f kind "Failed" (error_text e)) :: sent).
Proof. by eexists. Qed.

Section Failures.
Context (f : ServeTargetFlags) (kind : string).

(** A target that fails says so last, with the error. *)
Definition loud {A} (m : T A) : Prop :=
  ∀ p e p', m p = (Done (Err e), p') → failure_told f kind e (pr_sent p').

Lemma loud_never {A} (m : T A) : (∀ p e p', m p ≠ (Done (Err e), p')) → loud m.
Proof. intros H p e p' Hm. by destruct (H p e p'). Qed.

Lemma loud_ret {A} (a : A) : loud (mret a).
Proof. by apply loud_never. Qed.

Lemma loud_bind {A B} (m : T A) (g : A → T B) : loud m → (∀ a, loud (g a)) → loud (m ≫= g).
Proof.
  intros Hm Hf p e p' [(a & p1 & H1 & H2)|[(e' & H1 & [= ->])|[_ [=]]]]%T_bind_run; [by eapply Hf|by eapply Hm].
Qed.

Lemma attempt_loud {A} (m : T A) : loud (attempt m).
Proof. apply loud_never. intros p e p'. unfold attempt. by destruct (m p) as [[]]. Qed.

Lemma report_loud client ev : loud (reportTarget client ev).
Proof. apply loud_bind; [apply attempt_loud|intros; apply loud_ret]. Qed.

Lemma ack_loud client id : loud (ack_finalize f client id).
Proof. unfold ack_finalize. case_decide; [apply loud_ret|]. apply loud_bind; [apply attempt_loud|intros; apply loud_ret]. Qed.

Lemma report_fail_loud {A} client e : grpcClient client = Ok tt →
  loud (_ ← reportTarget client (target_report f kind "Failed" (error_text e)); fail (A := A) e).
Proof.
  intros Hc p e' p'. unfold reportTarget, ControlClient_ReportTarget, mbind, T_bind, attempt, control_call, fail.
  rewrite Hc. case_decide as He; [unfold grpcClient in Hc; by rewrite decide_True in Hc|]. cbn. intros [= <- <-].
  apply failure_told_report.
Qed.

(** The last words of a command that has said nothing before. *)
Definition last_words {A} (m : T A) : Prop := ∀ p e p', m p = (Done (Err e), p') → pr_sent p = [] →
  pr_sent p' = [] ∨ failure_told f kind e (pr_sent p').

Definition mute {A} (m : T A) : Prop := ∀ p r p', m p = (r, p') → pr_sent p' = pr_sent p.

Lemma mute_last {A} (m : T A) : mute m → last_words m.
Proof. intros Hm p e p' H%Hm Hs. left. congruence. Qed.

Lemma mute_bind {A B} (m : T A) (g : A → T B) : mute m → (∀ a, last_words (g a)) → last_words (m ≫= g).
Proof.
  intros Hm Hf p e p' [(a & p1 & H1%Hm & H2)|[(e' & H1%Hm & [= ->])|[_ [=]]]]%T_bind_run Hs; [|left; congruence].
  apply (Hf _ _ _ _ H2). congruence.
Qed.

Lemma mute_give {A} (r : result A) : mute (give r).
Proof. by intros p r' p' [= _ <-]. Qed.

Lemma mute_volume {A} (m : M A) : mute (on_volume m).
Proof. intros p r q. unfold on_volume. destruct (m (pr_world p)). by intros [= _ <-]. Qed.

Lemma mute_then {A B} (m : T A) (g : A → T B) : mute m → (∀ a, mute (g a)) → mute (m ≫= g).
Proof.
  intros Hm Hf p r p' [(a & p1 & H1%Hm & H2%Hf)|[(e' & H1%Hm & _)|[H1%Hm _]]]%T_bind_run; congruence.
Qed.

Lemma mute_secrets : mute (load_secrets f).
Proof.
  unfold load_secrets. apply mute_then; [destruct (decide (sf_tlsDir f = "")); [apply mute_give|apply mute_volume]|].
  intros bundle. apply mute_then; [apply mute_volume|intros; apply mute_give].
Qed.

Lemma mute_open bundle mirror sources : mute (open_backup f bundle mirror sources).
Proof using HE HT HX f.
  unfold open_backup. case_decide; [by intros p r p' [= _ <-]|]. apply mute_then; [apply mute_give|].
  by intros _ p r p' [H2 _]%start_receiver_run.
Qed.
End Failures.

Section BackupFailures.
Context (f : ServeTargetFlags).
Notation loud' := (loud f RunKindBackup).

Lemma failure_loud {A} client (m : T A) : grpcClient client = Ok tt → loud' (report_failure client f m).
Proof.
  intros Hc. apply loud_bind; [apply attempt_loud|]. intros [a|e]; [apply loud_ret|by apply report_fail_loud].
Qed.

Lemma await_finalize_loud client mirror sources next : grpcClient client = Ok tt →
  loud' (await_finalize f client mirror sources next).
Proof.
  intros Hc. unfold await_finalize. case_decide; [apply loud_ret|]. apply loud_bind; [by apply failure_loud|].
  intros [command rest]. destruct (tc_Finalize command); apply loud_ret.
Qed.

Lemma finalize_target_loud client mirror timestamp sources id bytes : grpcClient client = Ok tt →
  loud' (finalize_target f client mirror timestamp sources id bytes).
Proof.
  intros Hc. unfold finalize_target. destruct mirror; [apply loud_bind; [apply report_loud|intros; apply ack_loud]|].
  apply loud_bind; [by apply failure_loud|]. intros _. apply loud_bind; [apply attempt_loud|]. intros scanned.
  apply loud_bind; [apply report_loud|intros; apply ack_loud].
Qed.

Lemma run_backup_loud client mirror sources next : grpcClient client = Ok tt →
  loud' (run_backup f client mirror sources next).
Proof.
  intros Hc. unfold run_backup, collect_backup. apply loud_bind; [|intros [[[id bytes] timestamp] srcs]; by apply finalize_target_loud].
  apply loud_bind; [case_bool_decide; [apply loud_ret|by apply failure_loud]|]. intros _.
  apply loud_bind; [apply report_loud|]. intros _. apply loud_bind; [by apply await_finalize_loud|].
  intros [[[[id bytes] timestamp] rest] ?].
  apply loud_bind; [case_bool_decide; [by apply failure_loud|apply loud_ret]|]. intros _. apply loud_ret.
Qed.
End BackupFailures.

(** A target that has no client says nothing. *)
Definition has_client (client : ControlClient) (m : outgoing) : Prop := grpcClient client = Ok tt.

Lemma connection_silent P mirror continue c : sound (λ _, True) P (accept_connection mirror continue c).
Proof.
  apply sound_keep. intros p r p'. unfold accept_connection.
  destruct (pr_receiver p) as [[]|]; [destruct (receive_step _ _ _ _ _ _ _)|..]; by intros [= _ <-].
Qed.

Lemma finalize_target_sound (Q : process → Prop) f client mirror timestamp sources id bytes :
  (∀ p p', Q p → pr_receiver p' = pr_receiver p → Q p') →
  sound Q (has_client client) (finalize_target f client mirror timestamp sources id bytes).
Proof.
  intros Hframe.
  assert (∀ ev id, sound Q (has_client client) (_ ← reportTarget client ev; ack_finalize f client id)) as Hl.
  { intros. apply sound_bind; [by apply sound_report|]. intros _. unfold ack_finalize. case_decide; [apply sound_ret|].
    apply sound_bind; [by apply sound_attempt, sound_call|intros; apply sound_ret]. }
  unfold finalize_target. destruct mirror; [apply Hl|]. apply sound_bind.
  { apply sound_failure; [done| |done]. apply sound_bind; [by apply sound_volume|].
    intros [points [e|]]; [apply sound_fail|apply sound_ret]. }
  intros _. apply sound_bind; [by apply sound_attempt, sound_volume|]. intros scanned. apply Hl.
Qed.

Lemma run_backup_sound (Q : process → Prop) f client mirror sources next :
  (∀ p p', Q p → pr_receiver p' = pr_receiver p → Q p') →
  (∀ continue c, sound Q (has_client client) (accept_connection mirror continue c)) →
  sound Q (has_client client) (run_backup f client mirror sources next).
Proof.
  intros Hframe Haccept.
  assert (∀ continue h, sound Q (has_client client) (report_failure client f (await_receiver mirror continue h))) as Hw.
  { intros. by apply sound_failure; [|apply sound_await; intros|]. }
  unfold run_backup, collect_backup.
  apply sound_bind; [|intros [[[id bytes] timestamp] srcs]; by apply finalize_target_sound].
  apply sound_bind; [case_bool_decide; [apply sound_ret|apply Hw]|]. intros _.
  apply sound_bind; [by apply sound_report|]. intros _.
  apply sound_bind; [by apply sound_await_finalize; [|intros|]|].
  intros [[[[id bytes] timestamp] rest] ?].
  apply sound_bind; [case_bool_decide; [apply Hw|apply sound_ret]|]. intros _. apply sound_ret.
Qed.

Lemma run_backup_client f client mirror sources next :
  sound (λ _, True) (has_client client) (run_backup f client mirror sources next).
Proof. apply run_backup_sound; [done|]. intros. apply connection_silent. Qed.

(** Whatever has been said has been said to a client. *)
Lemma said {A} client (m : T A) p r p' : sound (λ _, True) (has_client client) m → m p = (r, p') → pr_sent p = [] →
  pr_sent p' = [] ∨ grpcClient client = Ok tt.
Proof.
  intros Hm H Hs. destruct (Hm _ _ _ H I) as (_ & l & Hl & Hall). rewrite Hs, app_nil_r in Hl.
  destruct l as [|m0 l]; [by left|right]. by apply Forall_cons in Hall as [? _].
Qed.

Lemma client_last {A} f kind client (m : T A) :
  sound (λ _, True) (has_client client) m → (grpcClient client = Ok tt → loud f kind m) → last_words f kind m.
Proof. intros Hs Hl p e p' H Hp. destruct (said _ _ _ _ _ Hs H Hp) as [?|Hc]; [by left|right]. by eapply Hl. Qed.

Lemma serve_restore_last f bundle client accepted : last_words f RunKindRestore (serve_restore f bundle client accepted).
Proof.
  unfold serve_restore. do 2 (case_decide; [apply mute_last, mute_give|]).
  destruct (restore_writer _) as [[writerNamespace writerName]|]; [|apply mute_last, mute_give].
  apply mute_bind; [apply mute_give|]. intros _. apply (client_last _ _ client).
  - apply sound_bind; [by apply sound_report|]. intros _. apply sound_bind; [by apply sound_attempt, sound_volume|].
    intros [[served|]|e]; [by apply sound_report|apply sound_wait|].
    apply sound_bind; [by apply sound_report|]. intros _. apply sound_fail.
  - intros Hc. apply loud_bind; [apply report_loud|]. intros _. apply loud_bind; [apply attempt_loud|].
    intros [[served|]|e]; [apply report_loud|by apply loud_never|by apply report_fail_loud].
Qed.

(** What the flags ask for: with one about a restore, to serve one. *)
Definition run_kind (f : ServeTargetFlags) : string :=
  if decide (sf_restoreSnapshot f ≠ "" ∨ sf_restoreSource f ≠ "" ∨ sf_restoreWriter f ≠ "")
  then RunKindRestore else RunKindBackup.

(** C8: A target that has spoken does not fail silently.  When the command returns an error after it has sent a message
    to the control service, whatever the error and whenever it came, its flags were parsed, and the last message it sent is the report
    that its own run (the one of the flags, a restore when they ask to serve one) failed, with the text of that error. *)
Theorem failure_is_reported now args next w e p' :
  serveTarget now args next (start w) = (Done (Err e), p') → pr_sent p' ≠ [] →
  ∃ f, Parse serve_target_flags args (serve_target_defaults now) = Ok f ∧ failure_told f (run_kind f) e (pr_sent p').
Proof.
  intros H Hs. unfold serveTarget in H. destruct (Parse serve_target_flags args _) as [f|e'] eqn:Hf; [|by injection H as _ <-].
  exists f. split; [done|]. rewrite (T_bind_give _ _ f) in H by done. revert H.
  match goal with |- ?m _ = _ → _ => enough (last_words f (run_kind f) m) as Hl by (intros H; by destruct (Hl _ _ _ H eq_refl)) end.
  destruct (decide (sf_target f = _)); [apply mute_last, mute_give|].
  apply mute_bind; [apply mute_secrets|]. intros [bundle client]. unfold run_kind.
  destruct (decide (_ ∨ _)); [apply serve_restore_last|].
  destruct (decide (sf_runID f = _)); [apply mute_last, mute_give|]. cbv zeta.
  destruct (negb _ && _); [apply mute_last, mute_give|].
  apply mute_bind; [apply mute_give|]. intros [sources flagSources].
  unfold serve_backup. apply mute_bind; [apply mute_open|]. intros _.
  apply (client_last _ _ client); [apply run_backup_client|apply run_backup_loud].
Qed.

(** ** What is waited for *)

(** A receiver at work lacks a sender. *)
Definition lacking (p : process) : Prop :=
  match pr_receiver p with
  | Some (Receiving _ expected completed) => (size completed < size expected)%nat
  | _ => True
  end.

Lemma lacking_frame p p' : lacking p → pr_receiver p' = pr_receiver p → lacking p'.
Proof. unfold lacking. by intros H ->. Qed.

Lemma lacking_after root expected r p : pr_receiver p = Some (after_step root expected r) → lacking p.
Proof. intros Hr. unfold lacking. rewrite Hr. destruct r as [completed|e]; cbn; [|done]. by case_decide. Qed.

Lemma accept_lacking P mirror continue c : sound lacking P (accept_connection mirror continue c).
Proof.
  apply sound_keep. intros p r p'. unfold accept_connection.
  destruct (pr_receiver p) as [[]|]; [destruct (receive_step _ _ _ _ _ _ _)|..]; intros [= _ <-]; [|done..].
  split; [done|]. intros _. by eapply lacking_after.
Qed.

Lemma start_lacking opts p r p' : start_receiver opts p = (r, p') → lacking p'.
Proof.
  unfold start_receiver. destruct (open_receiver opts (pr_world p)) as [[[[root expected]|]|e] w]; intros [= _ <-]; [|done..].
  by apply (lacking_after root expected (Ok ∅)).
Qed.

(** What may end the wait for commands. *)
Definition ends_wait (h : happening) : Prop :=
  match h with
  | Accepted _ => False
  | Received c => tc_Type c = TargetCommandFinalizeBackupJob ∨ tc_Type c = TargetCommandAbortRun
  | StreamEnded _ => True
  end.

Definition awaits (W : process → Prop) {A} (m : T A) : Prop := ∀ p p', m p = (Waiting, p') → W p'.

Section Awaits.
Context (W : process → Prop).

Lemma awaits_bind {A B} (m : T A) (f : A → T B) : awaits W m → (∀ a, awaits W (f a)) → awaits W (m ≫= f).
Proof.
  intros Hm Hf p p' [(a & p1 & H1 & H2)|[(e & _ & [=])|[H1 _]]]%T_bind_run; [by eapply Hf|by eapply Hm].
Qed.

Lemma awaits_ret {A} (a : A) : awaits W (mret a).
Proof. by intros p p' H. Qed.

Lemma awaits_give {A} (r : result A) : awaits W (give r).
Proof. by intros p p' H. Qed.

Lemma awaits_attempt {A} (m : T A) : awaits W m → awaits W (attempt m).
Proof. intros Hm p p'. unfold attempt. destruct (m p) as [[]] eqn:H1; intros [= ->]. by eapply Hm. Qed.

Lemma awaits_volume {A} (m : M A) : awaits W (on_volume m).
Proof. intros p p'. unfold on_volume. by destruct (m (pr_world p)). Qed.

Lemma awaits_call client m : awaits W (control_call client m).
Proof. intros p p'. unfold control_call. by destruct (grpcClient client). Qed.

Lemma awaits_report client ev : awaits W (reportTarget client ev).
Proof.
  apply awaits_bind; [|intros; apply awaits_ret]. apply awaits_attempt. unfold ControlClient_ReportTarget.
  case_decide; [apply awaits_ret|apply awaits_call].
Qed.

Lemma awaits_failure {A} client f (m : T A) : awaits W m → awaits W (report_failure client f m).
Proof.
  intros Hm. apply awaits_bind; [by apply awaits_attempt|]. intros [a|e]; [apply awaits_ret|].
  apply awaits_bind; [apply awaits_report|intros; apply awaits_give].
Qed.

Lemma awaits_accept mirror continue c : awaits W (accept_connection mirror continue c).
Proof.
  intros p p'. unfold accept_connection.
  destruct (pr_receiver p) as [[]|]; [|done..]. by destruct (receive_step _ _ _ _ _ _ _).
Qed.

Lemma awaits_recover f client command : awaits W (recover_target f client command).
Proof.
  assert (∀ root, awaits W (available_or_zero root)) as Ha.
  { intros. apply awaits_bind; [apply awaits_attempt, awaits_volume|intros; apply awaits_ret]. }
  unfold recover_target. destruct (tc_RecoverSpace command); [|apply awaits_ret].
  apply awaits_bind; [apply Ha|]. intros before. apply awaits_bind; [apply awaits_volume|]. intros [removed err].
  apply awaits_bind; [apply Ha|]. intros after. destruct err; (apply awaits_bind; [apply awaits_report|]); intros _.
  - apply awaits_give.
  - apply awaits_call.
Qed.

Lemma awaits_ack f client id : awaits W (ack_finalize f client id).
Proof.
  unfold ack_finalize. case_decide; [apply awaits_ret|].
  apply awaits_bind; [apply awaits_attempt, awaits_call|intros; apply awaits_ret].
Qed.

Lemma awaits_finalize_target f client mirror timestamp sources id bytes :
  awaits W (finalize_target f client mirror timestamp sources id bytes).
Proof.
  unfold finalize_target. destruct mirror; [apply awaits_bind; [apply awaits_report|intros; apply awaits_ack]|].
  apply awaits_bind.
  { apply awaits_failure, awaits_bind; [apply awaits_volume|]. intros [points [e|]]; [apply awaits_give|apply awaits_ret]. }
  intros _. apply awaits_bind; [apply awaits_attempt, awaits_volume|]. intros scanned.
  apply awaits_bind; [apply awaits_report|intros; apply awaits_ack].
Qed.

Lemma awaits_open f bundle mirror sources : awaits W (open_backup f bundle mirror sources).
Proof.
  unfold open_backup. case_decide; [apply awaits_ret|]. apply awaits_bind; [apply awaits_give|]. intros _ p p'.
  unfold start_receiver. by destruct (open_receiver _ _).
Qed.
End Awaits.

(** A receiver is at work. *)
Definition receiving_still (p : process) : Prop := ∃ root expected completed,
  pr_receiver p = Some (Receiving root expected completed).

Lemma await_receiver_waits mirror continue next : awaits receiving_still (await_receiver mirror continue next).
Proof.
  induction next as [|h next IH]; intros p p'; cbn [await_receiver].
  - destruct (pr_receiver p) as [[root expected completed|]|] eqn:Hr; intros [= <-]. by exists root, expected, completed.
  - destruct (pr_receiver p) as [[root expected completed|]|] eqn:Hr; [|done..]. destruct h as [c|c|e]; [|by apply IH..].
    apply awaits_bind; [apply awaits_accept|done].
Qed.

Lemma wait_commands_waits W connection recover next : (∀ c, awaits W (connection c)) → (∀ c, awaits W (recover c)) →
  awaits (λ p, W p ∨ Forall (λ h, ¬ ends_wait h) next) (wait_commands connection recover next).
Proof.
  intros Hc Hr. induction next as [|h next IH]; intros p p' H; [by right|].
  assert (∀ h, ¬ ends_wait h → awaits (λ p, W p ∨ Forall (λ h, ¬ ends_wait h) (h :: next)) (wait_commands connection recover next)) as Hn.
  { intros h' Hh q q' [?|?]%IH; [by left|right; by apply Forall_cons]. }
  assert (∀ (c : T unit) h, ¬ ends_wait h → awaits W c → awaits (λ p, W p ∨ Forall (λ h, ¬ ends_wait h) (h :: next))
    (_ ← c; wait_commands connection recover next)) as Hb.
  { intros c h' Hh Hw. apply awaits_bind; [intros q q' Hq; left; by eapply Hw|]. intros _. by apply Hn. }
  destruct h as [c|c|[e|]]; cbn [wait_commands] in H; [|..|done|done].
  - eapply Hb, H; [by intros []|done].
  - case_decide as Hf; [by destruct (tc_Finalize c)|]. case_decide as Hs.
    + destruct (tc_RecoverSpace c); [|done]. eapply Hb, H; [|done]. cbn. rewrite Hs. by intros [?|?].
    + case_decide as Ha; [destruct (tc_Abort c); [case_decide|]; done|]. eapply Hn, H. by intros [?|?].
Qed.

(** C29: A target waits only for what has yet to come.  When a backup's target has not ended, either the transfer of a sender it
    expects is missing, or nothing that has happened ends the wait for the control service: no command to finalize or to
    abort, and no end of the stream. *)
Theorem target_waits_for f bundle client mirror sources flagSources next w p' :
  serve_backup f bundle client mirror sources flagSources next (start w) = (Waiting, p') →
  (∃ root expected completed, pr_receiver p' = Some (Receiving root expected completed) ∧
    (size completed < size expected)%nat) ∨
  (sf_controlGRPCEndpoint f ≠ "" ∧ Forall (λ h, ¬ ends_wait h) next).
Proof.
  intros H. assert (lacking p') as Hl.
  { apply T_bind_run in H as [([] & p1 & H1 & H2)|[(? & _ & [=])|[H1 _]]].
    - refine (proj1 (run_backup_sound lacking f client mirror flagSources next lacking_frame _ _ _ _ H2 _));
        [intros; apply accept_lacking|]. unfold open_backup in H1. case_decide; [by injection H1 as <-|].
      apply T_bind_Ok in H1 as (? & ? & _ & H1). by apply start_lacking in H1.
    - by apply (awaits_open (λ _, False)) in H1. }
  set (W := λ p, receiving_still p ∨ (sf_controlGRPCEndpoint f ≠ "" ∧ Forall (λ h, ¬ ends_wait h) next)).
  enough (W p') as [(root & expected & completed & Hr)|?]; [left|by right|].
  { exists root, expected, completed. unfold lacking in Hl. by rewrite Hr in Hl. }
  clear Hl. revert H. generalize (start w) as p. intros p. revert p p'. change (awaits W (serve_backup f bundle client mirror sources flagSources next)).
  assert (∀ continue h, awaits W (report_failure client f (await_receiver mirror continue h))) as Hw.
  { intros. apply awaits_failure. intros q q' Hq. left. by eapply await_receiver_waits. }
  unfold serve_backup. apply awaits_bind; [apply awaits_open|].
  intros _. unfold run_backup, collect_backup. apply awaits_bind.
  2: { intros [[[id bytes] timestamp] srcs]. apply awaits_finalize_target. }
  apply awaits_bind; [case_bool_decide; [apply awaits_ret|apply Hw]|]. intros _.
  apply awaits_bind; [apply awaits_report|]. intros _. apply awaits_bind.
  { unfold await_finalize. case_decide as He; [apply awaits_ret|]. apply awaits_bind.
    - apply awaits_failure. apply awaits_bind; [apply awaits_call|]. intros _ q q' Hq.
      apply (wait_commands_waits (λ _, False)) in Hq as [[]|Hq]; [by right|intros; apply awaits_accept|intros; apply awaits_recover].
    - intros [command rest]. destruct (tc_Finalize command); apply awaits_ret. }
  intros [[[[id bytes] timestamp] rest] ?].
  apply awaits_bind; [case_bool_decide; [apply Hw|apply awaits_ret]|]. intros _. apply awaits_ret.
Qed.
End Laws.

(** ** A target and its run *)

(** A control service that takes every message, and addresses that are free. *)
#[export] Instance kind_environment : TargetEnvironment := {| answer _ _ := Ok tt; Listen _ := Ok tt |}.

#[local] Existing Instance bare_certificates.

(** The volume of yesterday, with the secrets of the target. *)
Definition mounted : world :=
  yesterday
    <| w_nodes ::= λ m, list_to_map [(["tls"], Dir); (["tls"; "ca.crt"], File 2); (["tls"; "tls.crt"], File 3);
         (["tls"; "tls.key"], File 4); (["tls"; "control-ca.crt"], File 5)] ∪ m |>
    <| w_data ::= λ m, list_to_map [(2%nat, "ca"); (3%nat, "cert"); (4%nat, "key"); (5%nat, "control ca")] ∪ m |>
    <| w_next_ino := 6%nat |>.

Definition target_arguments : list string :=
  ["--target"; "/t"; "--run-id"; "run-9"; "--tls-dir"; "/tls"; "--control-grpc-endpoint"; "operator:9443";
   "--run-namespace"; "backup"; "--run-name"; "nightly"; "--target-namespace"; "backup"; "--target-name"; "vault";
   "--source"; "apps/db=apps/pg/data"].

Definition nightly_finalize : TargetCommand :=
  MkTargetCommand "command-1" TargetCommandFinalizeBackupJob
    (Some (MkFinalizeBackupJob "2024-05-02T02-00-00Z" [MkExpectedSource "apps" "db" "apps/pg/data"] 42)) None None.

Definition run_target (next : list happening) : outcome unit * process :=
  serveTarget "2024-05-02T01-59-00Z" target_arguments next (start mounted).

Definition reported_phases (sent : list outgoing) : list string :=
  omap (λ m, match m with ReportTarget_ ev => Some (te_Phase ev) | _ => None end) sent.

(** A night: the event that tells of it, and how it ends. *)
Definition night : outcome unit * process := run_target [Accepted (Ok db_sender); Received nightly_finalize].
Definition told_event : TargetEvent :=
  match pr_sent night.2 with _ :: ReportTarget_ ev :: _ => ev | _ => target_report (serve_target_defaults "") "" "" "" end.
Definition night_flags : ServeTargetFlags :=
  match Parse serve_target_flags target_arguments (serve_target_defaults "2024-05-02T01-59-00Z") with
  | Ok f => f | Err _ => serve_target_defaults "" end.

Lemma run_pair {A B} (p q : A * B) : p = q → p = (q.1, q.2).
Proof. intros ->. by destruct q. Qed.

(** A run that is known to end in some way. *)
Lemma run_ends {A B} (p : A * B) a : p.1 = a → p = (a, p.2).
Proof. destruct p. by intros <-. Qed.

Lemma completed_is_true_witness :
  te_Phase told_event = "Completed" ∧ reported_phases (pr_sent night.2) = ["Completed"; "Ready"] ∧
  let mirror := EqualFold (sf_strategy night_flags) "mirror" in
  ∃ sources flagSources,
    ParseExpectedTransferSourcesWithStrategy (sf_runNamespace night_flags) (sf_runName night_flags)
      (sf_runID night_flags) mirror (sf_sources night_flags) = Ok (sources, flagSources) ∧
    truly_complete [Accepted (Ok db_sender); Received nightly_finalize] night_flags mirror flagSources
      (collected mounted [Accepted (Ok db_sender); Received nightly_finalize] night_flags mirror sources flagSources)
      night.1 night.2
      told_event.
Proof.
  split; [by vm_compute|]. split; [by vm_compute|].
  apply (completed_is_true "2024-05-02T01-59-00Z" target_arguments _ mounted);
    [by vm_compute|apply run_pair; by unfold night, run_target| |by vm_compute..].
  assert (ReportTarget_ told_event = default (ReportTarget_ told_event) (pr_sent night.2 !! 1%nat)) as -> by by vm_compute.
  destruct (pr_sent night.2 !! 1%nat) as [m|] eqn:Hm; [by eapply list_elem_of_lookup_2|]. exfalso. revert Hm. by vm_compute.
Defined.

(** The run is aborted while the target waits. *)
Definition abort_run : TargetCommand :=
  MkTargetCommand "command-2" TargetCommandAbortRun None None (Some (MkAbortRun "source job failed")).
Definition aborted : outcome unit * process := run_target [Received abort_run].

Lemma failure_is_reported_witness :
  ∃ f, Parse serve_target_flags target_arguments (serve_target_defaults "2024-05-02T01-59-00Z") = Ok f ∧
    failure_told f (run_kind f) (ErrNew "target run aborted: source job failed") (pr_sent aborted.2).
Proof.
  apply (failure_is_reported "2024-05-02T01-59-00Z" target_arguments [Received abort_run] mounted
    (ErrNew "target run aborted: source job failed")).
  - unfold aborted, run_target. apply run_ends. by vm_compute.
  - by vm_compute.
Defined.

(** A transfer that fails at the target's end. *)
Definition broken_sender : Conn := sender "db" ".partial/run-9/apps/pg/data" "=new".

Definition no_bundle_run : outcome unit * process :=
  serve_backup night_flags (MkBundle "ca" "" "cert" "key")
    (MkControlClient "operator:9443" (MkBundle "ca" "" "cert" "key") "control ca" (ControlGRPCServerIdentity "krm")) false
    (senders ["apps/db=apps/pg/data"]) ["apps/pg/data"] [Accepted (Ok broken_sender); Received nightly_finalize] (start mounted).

Lemma target_waits_for_witness :
  (∃ root expected completed, pr_receiver no_bundle_run.2 = Some (Receiving root expected completed) ∧
    (size completed < size expected)%nat) ∨
  (sf_controlGRPCEndpoint night_flags ≠ "" ∧
   Forall (λ h, ¬ ends_wait h) [Accepted (Ok broken_sender); Received nightly_finalize]).
Proof.
  apply (target_waits_for night_flags (MkBundle "ca" "" "cert" "key")
    (MkControlClient "operator:9443" (MkBundle "ca" "" "cert" "key") "control ca" (ControlGRPCServerIdentity "krm")) false
    (senders ["apps/db=apps/pg/data"]) ["apps/pg/data"] _ mounted).
  unfold no_bundle_run. apply run_ends. by vm_compute.
Defined.

(** A transfer failed at the target's end, and the run is finalized all the same, because the sender's job ended well:
    the target is not done, and no command can end its wait: only a connection can. *)
Example a_lost_transfer_blocks_the_target :
  let '(r, p) := run_target [Accepted (Ok broken_sender); Received nightly_finalize; Received abort_run; StreamEnded None] in
  r = Waiting ∧ reported_phases (pr_sent p) = ["Ready"].
Proof. by vm_compute. Qed.
