(* ===== verification/SendSource.v ===== *)
(** * send-source and restore (internal/cli/cli.go)

    The processes at the other end of a transfer: they run rsync, against the tunnel to a target or on a directory that is
    mounted, and tell the control service how it goes.  The process that runs is an input, with what it writes and how it
    ends, and so are what the local ends of the tunnel do.  Events that the control service does
    not take are lost: the command only logs that. *)
From S2P Require Export ServeTarget.
From S2P Require Export Rsync.
From stdpp Require Import options.
From Stdlib Require Import Ascii.

(** ** Statistics *)

Definition sourceEventWithStats (event : SourceEvent) (stats : TransferStats) : SourceEvent :=
  MkSourceEvent (se_RunNamespace event) (se_RunName event) (se_RunKind event) (se_SourceNamespace event)
    (se_SourceName event) (se_Phase event)
    (ts_Percent stats) (ts_BytesTransferred stats) (ts_RateBytesPerSecond stats) (ts_FilesTransferred stats)
    (ts_TotalFiles stats) (ts_TotalFileSize stats) (ts_BytesSent stats) (ts_BytesReceived stats) (ts_Speedup stats)
    (ts_Summary stats)
    (se_StartedAt event) (se_CompletedAt event) (se_RsyncExitCode event) (se_Message event) (se_CaptureMethod event)
    (se_CaptureTime event) (se_VolumeSnapshotName event).

(** [f != 0] *)
Definition nonzero_float (f : spec_float) : bool := match f with S754_zero _ => false | _ => true end.

Definition updated (update existing : Z) : Z := if decide (update = 0) then existing else update.

Definition mergeTransferStats (existing update : TransferStats) : TransferStats :=
  if ts_Summary update then update
  else MkTransferStats
    (updated (ts_Percent update) (ts_Percent existing))
    (updated (ts_BytesTransferred update) (ts_BytesTransferred existing))
    (updated (ts_RateBytesPerSecond update) (ts_RateBytesPerSecond existing))
    (updated (ts_FilesTransferred update) (ts_FilesTransferred existing))
    (updated (ts_TotalFiles update) (ts_TotalFiles existing))
    (updated (ts_TotalFileSize update) (ts_TotalFileSize existing))
    (updated (ts_BytesSent update) (ts_BytesSent existing))
    (updated (ts_BytesReceived update) (ts_BytesReceived existing))
    (if nonzero_float (ts_Speedup update) then ts_Speedup update else ts_Speedup existing)
    (ts_Summary existing).

(** The callback returns early for these. *)
Definition nothing_new (stats : TransferStats) : bool :=
  negb (ts_Summary stats) && bool_decide (ts_Percent stats = 0) && bool_decide (ts_BytesTransferred stats = 0) &&
  bool_decide (ts_RateBytesPerSecond stats = 0).

(** ** The process *)

Record source_process := MkSourceProcess {
  sp_world : world;
  (** The oldest event first. *)
  sp_sent : list SourceEvent
}.

#[export] Instance source_process_eta : Eta source_process := λ r, MkSourceProcess (sp_world r) (sp_sent r).

Definition P (A : Type) : Type := source_process → result A * source_process.

#[export] Instance P_ret : MRet P := λ A a p, (Ok a, p).
#[export] Instance P_bind : MBind P := λ A B f m p,
  match m p with (Ok a, p) => f a p | (Err e, p) => (Err e, p) end.

Definition stop {A} (e : goerr) : P A := λ p, (Err e, p).
Definition known {A} (r : result A) : P A := λ p, (r, p).
Definition on_files {A} (m : M A) : P A := λ p, let '(r, w) := m (sp_world p) in (r, p <| sp_world := w |>).

(** What is not the command's own: whether there is an rsync, what listening locally gives, what rsync writes and how it ends,
    what the bridge meets, how printing ends, and the two times. *)
Record transfer_run := MkTransferRun {
  tr_lookPath : result unit;
  tr_listen : result unit;
  tr_writes : list rsync_write;
  tr_error : option run_error;
  tr_bridge : bridge_run;
  tr_print : result unit;
  tr_started : string;
  tr_completed : string
}.

(** An error that no process ended with. *)
Definition plain_error (r : result unit) : option run_error :=
  match r with Ok _ => None | Err e => Some (MkRunError e None) end.

Section SendSource.
Context {HX : X509} {HF : FloatConversion}.

(** [App.reportSource] *)
Definition reportSource (c : ControlClient) (event : SourceEvent) : P unit := λ p,
  (Ok tt, match grpcClient c with Ok _ => p <| sp_sent ::= λ l, l ++ [event] |> | Err _ => p end).

(** A transfer: the statistics that are passed on, in order, those that are returned, and the error. *)
Definition transfer : Type := list TransferStats * TransferStats * option run_error.

Definition no_transfer (err : option run_error) : transfer := ([], no_stats, err).

Definition process_transfer (run : transfer_run) : transfer :=
  let '(stats, err, progress) := runRsyncCommand true (tr_writes run) (tr_error run) in (progress, stats, err).

(** [Rsync] *)
Definition local_transfer (opts : dp_RsyncOptions) (run : transfer_run) : transfer :=
  match dp_Rsync opts with
  | Err e => no_transfer (Some (MkRunError e None))
  | Ok (DryRun _) => no_transfer (plain_error (tr_print run))
  | Ok (RunRsync _) => process_transfer run
  end.

(** The end of [sendSourceRsyncTunnel] and of [receiveRestoreRsyncTunnel]: the error of rsync hides that of the bridge.
    The statistics are not returned. *)
Definition through_tunnel (listening : string) (bridged : result unit) (run : transfer_run) : transfer :=
  match tr_listen run with
  | Err e => no_transfer (Some (MkRunError (wrap listening e) None))
  | Ok _ =>
      let '(progress, _, err) := process_transfer run in
      (progress, no_stats, match err with Some e => Some e | None => plain_error bridged end)
  end.

Definition send_transfer (opts : SourceSenderOptions) (run : transfer_run) : transfer :=
  match SendSource (tr_lookPath run) opts with
  | Err e => no_transfer (Some (MkRunError e None))
  | Ok (PrintLine _) => no_transfer (plain_error (tr_print run))
  | Ok (Tunnel _ header) =>
      through_tunnel "listen for local rsync bridge: " (bridgeLocalRsyncToTarget (th_Destination header) (tr_bridge run)) run
  end.

Definition receive_transfer (opts : RestoreWriterOptions) (run : transfer_run) : M transfer := λ w,
  match ReceiveRestore (tr_lookPath run) opts with
  | Err e => (Ok (no_transfer (Some (MkRunError e None))), w)
  | Ok (PrintLine _) => (Ok (no_transfer (plain_error (tr_print run))), w)
  | Ok (Tunnel _ header) =>
      match (destinationRoot ← Abs (rwo_Destination opts); MkdirAll destinationRoot) w with
      | (Err e, w) => (Ok (no_transfer (Some (MkRunError e None))), w)
      | (Ok _, w) =>
          (Ok (through_tunnel "listen for local restore rsync bridge: "
                 (bridgeLocalRsyncFromTarget (th_Snapshot header) (th_Source header) (tr_bridge run)) run), w)
      end
  end.

(** ** What is reported *)

(** The fields that every event of a process has. *)
Record reporter := MkReporter {
  rp_runNamespace : string;
  rp_runName : string;
  rp_runKind : string;
  rp_sourceNamespace : string;
  rp_sourceName : string
}.

Definition source_report (who : reporter) (phase started completed : string) (code : Z) (message : string) : SourceEvent :=
  MkSourceEvent (rp_runNamespace who) (rp_runName who) (rp_runKind who) (rp_sourceNamespace who) (rp_sourceName who) phase
    0 0 0 0 0 0 0 0 float_zero false started completed code message "" "" "".

(** The callback [reportProgress], for one statistic. *)
Definition reportProgress (c : ControlClient) (who : reporter) (transferStats stats : TransferStats) : P TransferStats :=
  let transferStats := mergeTransferStats transferStats stats in
  if nothing_new stats then mret transferStats
  else _ ← reportSource c (sourceEventWithStats (source_report who "Running" "" "" 0 "") stats); mret transferStats.

Fixpoint report_all (c : ControlClient) (who : reporter) (transferStats : TransferStats) (l : list TransferStats) :
    P TransferStats :=
  match l with
  | [] => mret transferStats
  | stats :: l => transferStats ← reportProgress c who transferStats stats; report_all c who transferStats l
  end.

(** The end of both commands. *)
Definition report_end (c : ControlClient) (who : reporter) (completedAt : string) (transferStats : TransferStats)
    (runErr : option run_error) : P unit :=
  let '(phase, message) := match runErr with
    | None => ("Succeeded", "") | Some e => ("Failed", error_text (re_error e)) end in
  _ ← reportSource c (sourceEventWithStats
        (source_report who phase "" completedAt (rsyncExitCode runErr) message) transferStats);
  match runErr with None => mret tt | Some e => stop (re_error e) end.

Definition report_start (c : ControlClient) (who : reporter) (startedAt : string) : P unit :=
  reportSource c (source_report who "Running" startedAt "" 0 "").

(** ** The commands *)

Definition sendSource (args : list string) (run : transfer_run) : P unit :=
  f ← known (Parse send_source_flags args send_source_defaults);
  if decide (xf_source f = "" ∨ xf_target f = "") then stop (ErrNew "--source and --target are required")
  else
    bundle ← (if decide (xf_tlsDir f = "") then mret empty_bundle else on_files (LoadBundle (xf_tlsDir f)));
    client ← on_files (dataPlaneControlClient (xf_controlGRPCEndpoint f) (xf_controlGRPCNamespace f) (xf_tlsDir f) bundle);
    let who := MkReporter (xf_runNamespace f) (xf_runName f) RunKindBackup (xf_sourceNamespace f) (xf_sourceName f) in
    _ ← report_start client who (tr_started run);
    if decide (xf_targetEndpoint f ≠ "") then
      if decide (xf_targetNamespace f = "" ∨ xf_targetName f = "")
      then stop (ErrNew "--target-namespace and --target-name are required with --target-endpoint")
      else
        let '(progress, _, runErr) := send_transfer (MkSourceSenderOptions (xf_source f) (xf_target f) (xf_targetEndpoint f)
          bundle (TargetIdentity (xf_runNamespace f) (xf_runName f) (xf_targetNamespace f) (xf_targetName f))
          (xf_deleteExtra f) (xf_oneFileSystem f) (xf_dryRun f)) run in
        transferStats ← report_all client who no_stats progress;
        report_end client who (tr_completed run) transferStats runErr
    else
      let '(progress, stats, runErr) := local_transfer (MkDpRsyncOptions (xf_source f) (xf_target f) (xf_deleteExtra f)
        (xf_oneFileSystem f) (xf_dryRun f)) run in
      transferStats ← report_all client who no_stats progress;
      report_end client who (tr_completed run) (mergeTransferStats transferStats stats) runErr.

(** Whether the flags name something to restore from. *)
Definition check_restore (f : RestoreFlags) : P unit :=
  if decide (rf_targetEndpoint f = "") then on_files (λ w,
    match Stat (rf_snapshot f) w with
    | (Err e, w) => (Err (wrap ("snapshot path " +:+ Quote (rf_snapshot f) +:+ " is not accessible: ") e), w)
    | (Ok info, w) =>
        if IsDir info then (Ok tt, w)
        else (Err (ErrNew ("snapshot path " +:+ Quote (rf_snapshot f) +:+ " is not a directory")), w)
    end)
  else if decide (rf_snapshotSource f = "") then stop (ErrNew "--snapshot-source is required with --target-endpoint")
  else if decide (rf_targetNamespace f = "" ∨ rf_targetName f = "")
  then stop (ErrNew "--target-namespace and --target-name are required with --target-endpoint")
  else if decide (rf_tlsDir f = "") then stop (ErrNew "--tls-dir is required with --target-endpoint")
  else mret tt.

Definition restore (args : list string) (run : transfer_run) : P unit :=
  f ← known (Parse restore_flags args restore_defaults);
  if decide (rf_snapshot f = "" ∨ rf_destination f = "") then stop (ErrNew "--snapshot and --destination are required")
  else
    _ ← check_restore f;
    bundle ← (if decide (rf_tlsDir f = "") then mret empty_bundle else on_files (LoadBundle (rf_tlsDir f)));
    client ← on_files (dataPlaneControlClient (rf_controlGRPCEndpoint f) (rf_controlGRPCNamespace f) (rf_tlsDir f) bundle);
    let who := MkReporter (rf_runNamespace f) (rf_runName f) RunKindRestore (rf_sourceNamespace f) (rf_sourceName f) in
    _ ← report_start client who (tr_started run);
    '(progress, stats, runErr) ← (if decide (rf_targetEndpoint f ≠ "")
      then on_files (receive_transfer (MkRestoreWriterOptions (rf_destination f) (rf_snapshot f) (rf_snapshotSource f)
        (rf_targetEndpoint f) bundle
        (TargetIdentity (rf_runNamespace f) (rf_runName f) (rf_targetNamespace f) (rf_targetName f))
        (rf_deleteExtra f) (rf_oneFileSystem f) (rf_dryRun f)) run)
      else mret (local_transfer (MkDpRsyncOptions (rf_snapshot f) (rf_destination f) (rf_deleteExtra f)
        (rf_oneFileSystem f) (rf_dryRun f)) run));
    transferStats ← report_all client who no_stats progress;
    let transferStats := if decide (rf_targetEndpoint f ≠ "") then transferStats else mergeTransferStats transferStats stats in
    report_end client who (tr_completed run) transferStats runErr.
End SendSource.
