(* ===== verification/SendSourceLaws.v ===== *)
(** * How a transfer is told

    The laws of [SendSource]: what a sender or a restore writer reports begins with a start, ends with how the command
    ends, and its last statistics are those of the whole output. *)
From S2P Require Export ServeTargetLaws OutputLaws SendSource.
From S2P Require Export Rsync.
From stdpp Require Import options.
From Stdlib Require Import Ascii.

Section Laws.
Context {HX : X509} {HF : FloatConversion}.

Lemma P_bind_run {A B} (m : P A) (f : A → P B) p r p' : (m ≫= f) p = (r, p') →
  (∃ a p1, m p = (Ok a, p1) ∧ f a p1 = (r, p')) ∨ ∃ e, m p = (Err e, p') ∧ r = Err e.
Proof.
  unfold mbind, P_bind. destruct (m p) as [[a|e] p1]; intros Hr; [left; by exists a, p1|right]. simplify_eq. by exists e.
Qed.

Lemma P_ret_bind {A B} (a : A) (f : A → P B) p : (mret a ≫= f) p = f a p.
Proof. done. Qed.

(** ** Statistics *)

Lemma updated_updated u x : updated u (updated u x) = updated u x.
Proof. unfold updated. by case_decide. Qed.

Lemma merge_again t s : mergeTransferStats (mergeTransferStats t s) s = mergeTransferStats t s.
Proof.
  unfold mergeTransferStats. destruct (ts_Summary s) eqn:Hs; [done|]. cbn. rewrite !updated_updated.
  by destruct (nonzero_float (ts_Speedup s)).
Qed.

(** The statistics of a process, and what they are when its output has a summary. *)
Definition process_stats (run : transfer_run) : TransferStats :=
  fold_left mergeTransferStats (runRsyncCommand true (tr_writes run) (tr_error run)).2 no_stats.

Definition output_stats (run : transfer_run) : TransferStats :=
  (runRsyncCommand true (tr_writes run) (tr_error run)).1.1.

Lemma process_progress run : ∃ l, (runRsyncCommand true (tr_writes run) (tr_error run)).2 = l ++ [output_stats run].
Proof. by eexists. Qed.

Lemma process_stats_merged run : mergeTransferStats (process_stats run) (output_stats run) = process_stats run.
Proof.
  unfold process_stats. destruct (process_progress run) as [l ->]. rewrite fold_left_app. cbn [fold_left]. apply merge_again.
Qed.

Lemma process_stats_summary run : ts_Summary (output_stats run) = true → process_stats run = output_stats run.
Proof.
  intros Hs. unfold process_stats. destruct (process_progress run) as [l ->]. rewrite fold_left_app. cbn [fold_left].
  unfold mergeTransferStats. by rewrite Hs.
Qed.

(** ** What is told *)

(** A command that begins: who tells, to whom, whether the transfer is only printed, what can keep rsync from
    starting, and what the bridge can end with. *)
Record session := MkSession {
  ss_who : reporter;
  ss_client : ControlClient;
  ss_dry : bool;
  ss_hindered : Prop;
  ss_bridged : result unit → Prop
}.

(** How the transfer of a session goes: the statistics that are passed on, those it ends with, and its error. *)
Inductive outcome (s : session) (run : transfer_run) : list TransferStats → TransferStats → option run_error → Prop :=
  | Printed : ss_dry s = true → outcome s run [] no_stats (plain_error (tr_print run))
  | Hindered e : ss_hindered s → outcome s run [] no_stats (Some (MkRunError e None))
  (** The statistics of the output replace those of its lines, when it has a summary; the error of rsync hides
      that of the bridge. *)
  | Ran stats bridged : ss_dry s = false → stats = process_stats run →
      (ts_Summary (output_stats run) = true → stats = output_stats run) → ss_bridged s bridged →
      outcome s run (runRsyncCommand true (tr_writes run) (tr_error run)).2 stats
        (match tr_error run with Some e => Some e | None => plain_error bridged end).

Definition running_events (who : reporter) (l : list TransferStats) : list SourceEvent :=
  sourceEventWithStats (source_report who "Running" "" "" 0 "") <$> filter (λ s, nothing_new s = false) l.

(** From the first event to the last. *)
Definition told_events (who : reporter) (run : transfer_run) (progress : list TransferStats) (stats : TransferStats)
    (err : option run_error) : list SourceEvent :=
  source_report who "Running" (tr_started run) "" 0 "" :: running_events who progress ++
    [sourceEventWithStats
       (match err with
        | None => source_report who "Succeeded" "" (tr_completed run) 0 ""
        | Some e => source_report who "Failed" "" (tr_completed run) (default 1 (re_exit e)) (error_text (re_error e))
        end) stats].

(** The control service can be called: there is an address, a key pair and a certificate to check the server with. *)
Definition reachable (c : ControlClient) : Prop :=
  cc_GRPCEndpoint c ≠ "" ∧ X509KeyPair (b_CertPEM (cc_TLSBundle c)) (b_KeyPEM (cc_TLSBundle c)) = Ok tt ∧
  CertsFromPEM (cc_ControlCAPEM c) ≠ [].

Definition tells (s : session) (run : transfer_run) (r : result unit) (sent : list SourceEvent) : Prop :=
  ∃ progress stats err, outcome s run progress stats err ∧
    r = match err with None => Ok tt | Some e => Err (re_error e) end ∧
    (reachable (ss_client s) → sent = told_events (ss_who s) run progress stats err) ∧
    (¬ reachable (ss_client s) → sent = []).

(** A command that tells all of what it does, or is refused before it begins: then it fails and tells nothing. *)
Definition verdict (begins : session → Prop) (run : transfer_run) (r : result unit) (sent : list SourceEvent) : Prop :=
  (∃ s, begins s ∧ tells s run r sent) ∨ (∀ s, ¬ begins s) ∧ sent = [] ∧ ∃ e, r = Err e.

Definition sent_to (c : ControlClient) (l : list SourceEvent) : list SourceEvent :=
  match grpcClient c with Ok _ => l | Err _ => [] end.

Lemma grpcClient_reachable c : is_ok (grpcClient c) = true ↔ reachable c.
Proof.
  unfold grpcClient, reachable, ClientCredentialsWithServerCA. case_decide as He; [naive_solver|].
  destruct (X509KeyPair _ _) as [[]|e]; cbn; [|naive_solver].
  destruct (CertsFromPEM _); cbn; naive_solver.
Qed.

Lemma sent_to_reachable c l : (reachable c → sent_to c l = l) ∧ (¬ reachable c → sent_to c l = []).
Proof. rewrite <-grpcClient_reachable. unfold sent_to. by destruct (grpcClient c). Qed.

Lemma sent_to_app c l l' : sent_to c (l ++ l') = sent_to c l ++ sent_to c l'.
Proof. unfold sent_to. by destruct (grpcClient c). Qed.

Lemma reportSource_run c ev p : reportSource c ev p = (Ok tt, p <| sp_sent ::= λ l, l ++ sent_to c [ev] |>).
Proof.
  unfold reportSource, sent_to. destruct (grpcClient c); [done|]. destruct p as [w l]. unfold update_field. cbn.
  by rewrite (right_id_L [] (++)).
Qed.

Lemma report_all_run c who l : ∀ t p, report_all c who t l p =
  (Ok (fold_left mergeTransferStats l t), p <| sp_sent ::= λ s, s ++ sent_to c (running_events who l) |>).
Proof.
  induction l as [|s l IH]; intros t p.
  { destruct p as [w s]. unfold sent_to, update_field. cbn. by destruct (grpcClient c); rewrite (right_id_L [] (++)). }
  cbn [report_all fold_left]. unfold mbind, P_bind, reportProgress, running_events. rewrite filter_cons.
  destruct (nothing_new s) eqn:Hn.
  - rewrite decide_False by done. cbn. by rewrite IH.
  - rewrite decide_True by done. unfold mbind, P_bind. rewrite reportSource_run. cbn. rewrite IH. unfold update_field. cbn.
    rewrite <-(assoc_L (++)), <-sent_to_app. done.
Qed.

Lemma report_end_run c who at_ t err p : report_end c who at_ t err p =
  (match err with None => Ok tt | Some e => Err (re_error e) end,
   p <| sp_sent ::= λ s, s ++ sent_to c
     [sourceEventWithStats
        (match err with
         | None => source_report who "Succeeded" "" at_ 0 ""
         | Some e => source_report who "Failed" "" at_ (default 1 (re_exit e)) (error_text (re_error e))
         end) t] |>).
Proof. unfold report_end, mbind, P_bind. destruct err; by rewrite reportSource_run. Qed.

(** What follows the first event. *)
Lemma told_end s run progress stats err (final : TransferStats → TransferStats) p r p' :
  (transferStats ← report_all (ss_client s) (ss_who s) no_stats progress;
   report_end (ss_client s) (ss_who s) (tr_completed run) (final transferStats) err) p = (r, p') →
  outcome s run progress stats err → final (fold_left mergeTransferStats progress no_stats) = stats →
  sp_sent p = sent_to (ss_client s) [source_report (ss_who s) "Running" (tr_started run) "" 0 ""] →
  tells s run r (sp_sent p').
Proof.
  intros H Hran Hf Hs. unfold mbind, P_bind in H. rewrite report_all_run, report_end_run in H. rewrite Hf in H.
  injection H as <- <-. unfold update_field. cbn [sp_sent].
  rewrite Hs, <-!sent_to_app. exists progress, stats, err. split; [done|]. split; [done|].
  rewrite <-(assoc_L (++)). apply sent_to_reachable.
Qed.

(** The transfers: what they pass on, and what becomes of the statistics in the end. *)
Definition accounts (s : session) (run : transfer_run) (keep : bool) (t : transfer) : Prop :=
  let '(progress, stats, err) := t in
  outcome s run progress ((if keep then λ t, t else λ t, mergeTransferStats t stats)
    (fold_left mergeTransferStats progress no_stats)) err.

Lemma printed_accounted s run keep : ss_dry s = true → accounts s run keep (no_transfer (plain_error (tr_print run))).
Proof. intros H. destruct keep; by apply Printed. Qed.

Lemma hindered_accounted s run keep e : ss_hindered s → accounts s run keep (no_transfer (Some (MkRunError e None))).
Proof. intros H. destruct keep; by apply Hindered. Qed.

Lemma process_error run : (runRsyncCommand true (tr_writes run) (tr_error run)).1.2 = tr_error run.
Proof. done. Qed.

Lemma local_accounted s opts run :
  dro_Source opts ≠ "" → dro_Destination opts ≠ "" → ss_dry s = dro_DryRun opts → ss_bridged s (Ok tt) →
  accounts s run false (local_transfer opts run).
Proof.
  intros Hs Hd Hdry Hb. unfold local_transfer, dp_Rsync. rewrite decide_False by tauto. cbn zeta.
  destruct (dro_DryRun opts) eqn:Hr; [by apply printed_accounted|]. unfold accounts, process_transfer.
  pose proof (process_stats_merged run) as Hm. pose proof (process_stats_summary run) as Hsum.
  pose proof (process_error run) as He.
  pose proof (λ stats, Ran s run stats (Ok tt) Hdry) as H. unfold process_stats, output_stats in *.
  destruct (runRsyncCommand _ _ _) as [[stats err] progress]. cbn in *. subst err.
  specialize (H _ eq_refl Hsum Hb). rewrite Hm. by destruct (tr_error run).
Qed.

Lemma tunnel_accounted s listening bridged run :
  ss_dry s = false → (∀ e, tr_listen run = Err e → ss_hindered s) → ss_bridged s bridged →
  accounts s run true (through_tunnel listening bridged run).
Proof.
  intros Hdry Hl Hb. unfold through_tunnel. destruct (tr_listen run) as [[]|e] eqn:He;
    [|by eapply hindered_accounted, Hl]. unfold process_transfer.
  pose proof (Ran s run _ bridged Hdry eq_refl (process_stats_summary run) Hb) as H. unfold process_stats in H.
  pose proof (process_error run) as Hp.
  destruct (runRsyncCommand _ _ _) as [[stats err] progress]. cbn in Hp, H. by subst err.
Qed.

(** ** The commands *)

Definition idle (w : world) : source_process := MkSourceProcess w [].

(** The key pair of a command, if it has a directory for one. *)
Definition bundle_of (dir : string) (w : world) (bundle : Bundle) (w' : world) : Prop :=
  if decide (dir = "") then bundle = empty_bundle ∧ w' = w else LoadBundle dir w = (Ok bundle, w').

(** The client of the control service: none without an address. *)
Inductive client_of (endpoint namespace dir : string) (bundle : Bundle) (w : world) : ControlClient → world → Prop :=
  | client_none : endpoint = "" → client_of endpoint namespace dir bundle w (MkControlClient "" empty_bundle "" zero_identity) w
  | client_some ca w' : endpoint ≠ "" → dir ≠ "" → read_secret dir SecretControlCAFile w = (Ok ca, w') →
      client_of endpoint namespace dir bundle w (MkControlClient endpoint bundle ca (ControlGRPCServerIdentity namespace)) w'.

(** What keeps rsync from starting at an address: there is no rsync, no certificate to connect with, or nowhere to
    listen locally. *)
Definition no_tunnel (run : transfer_run) (bundle : Bundle) (expected : Identity) : Prop :=
  (∃ e, tr_lookPath run = Err e) ∨ (∃ e, TLSConfig bundle expected "" = Err e) ∨ (∃ e, tr_listen run = Err e).

(** send-source begins: it has a source and a target, and what it needs to talk to the control service. *)
Inductive sender_begins (args : list string) (run : transfer_run) (w : world) : session → Prop :=
  | SenderBegins f bundle w1 c w2 :
      Parse send_source_flags args send_source_defaults = Ok f → xf_source f ≠ "" → xf_target f ≠ "" →
      bundle_of (xf_tlsDir f) w bundle w1 →
      client_of (xf_controlGRPCEndpoint f) (xf_controlGRPCNamespace f) (xf_tlsDir f) bundle w1 c w2 →
      sender_begins args run w (MkSession
        (MkReporter (xf_runNamespace f) (xf_runName f) RunKindBackup (xf_sourceNamespace f) (xf_sourceName f)) c (xf_dryRun f)
        (xf_targetEndpoint f ≠ "" ∧
         ((∃ e, NormalizeTargetSubpath (xf_target f) = Err e) ∨
          no_tunnel run bundle (TargetIdentity (xf_runNamespace f) (xf_runName f) (xf_targetNamespace f) (xf_targetName f))))
        (λ bridged, if decide (xf_targetEndpoint f = "") then bridged = Ok tt
                    else bridged = bridgeLocalRsyncToTarget (xf_target f) (tr_bridge run))).

(** What restore is given: a directory that is there, or an address with all that it takes. *)
Definition restorable (f : RestoreFlags) (w w' : world) : Prop :=
  if decide (rf_targetEndpoint f = "") then ∃ info, Stat (rf_snapshot f) w = (Ok info, w') ∧ IsDir info = true
  else w' = w ∧ rf_snapshotSource f ≠ "" ∧ rf_targetNamespace f ≠ "" ∧ rf_targetName f ≠ "" ∧ rf_tlsDir f ≠ "".

Inductive restore_begins (args : list string) (run : transfer_run) (w : world) : session → Prop :=
  | RestoreBegins f w0 bundle w1 c w2 :
      Parse restore_flags args restore_defaults = Ok f → rf_snapshot f ≠ "" → rf_destination f ≠ "" →
      restorable f w w0 → bundle_of (rf_tlsDir f) w0 bundle w1 →
      client_of (rf_controlGRPCEndpoint f) (rf_controlGRPCNamespace f) (rf_tlsDir f) bundle w1 c w2 →
      restore_begins args run w (MkSession
        (MkReporter (rf_runNamespace f) (rf_runName f) RunKindRestore (rf_sourceNamespace f) (rf_sourceName f)) c (rf_dryRun f)
        (rf_targetEndpoint f ≠ "" ∧
         ((∃ e, NormalizeRelativePath (rf_snapshot f) = Err e) ∨ (∃ e, NormalizeTargetSubpath (rf_snapshotSource f) = Err e) ∨
          no_tunnel run bundle (TargetIdentity (rf_runNamespace f) (rf_runName f) (rf_targetNamespace f) (rf_targetName f)) ∨
          ∃ e w3, (destinationRoot ← Abs (rf_destination f); MkdirAll destinationRoot) w2 = (Err e, w3)))
        (λ bridged, if decide (rf_targetEndpoint f = "") then bridged = Ok tt
                    else ∃ snapshot source, NormalizeRelativePath (rf_snapshot f) = Ok snapshot ∧
                           NormalizeTargetSubpath (rf_snapshotSource f) = Ok source ∧
                           bridged = bridgeLocalRsyncFromTarget snapshot source (tr_bridge run))).

(** A sender that has an address has somebody to expect there. *)
Definition addressed (f : SendSourceFlags) : Prop :=
  xf_targetEndpoint f ≠ "" → xf_targetNamespace f ≠ "" ∧ xf_targetName f ≠ "".

Lemma bundle_run dir p r p' :
  (if decide (dir = "") then mret empty_bundle else on_files (LoadBundle dir)) p = (r, p') →
  sp_sent p' = sp_sent p ∧ match r with
    | Ok bundle => bundle_of dir (sp_world p) bundle (sp_world p')
    | Err _ => ∀ bundle w', ¬ bundle_of dir (sp_world p) bundle w'
    end.
Proof.
  unfold bundle_of. case_decide; [by intros [= <- <-]|]. unfold on_files.
  destruct (LoadBundle dir (sp_world p)) as [r0 w0]. intros [= <- <-]. split; [done|]. by destruct r0.
Qed.

Lemma bundle_of_det dir w b1 w1 b2 w2 : bundle_of dir w b1 w1 → bundle_of dir w b2 w2 → b1 = b2 ∧ w1 = w2.
Proof. unfold bundle_of. case_decide; [naive_solver|]. intros -> [= <- <-]. done. Qed.

Lemma client_run endpoint namespace dir bundle p r p' :
  on_files (dataPlaneControlClient endpoint namespace dir bundle) p = (r, p') →
  sp_sent p' = sp_sent p ∧ match r with
    | Ok c => client_of endpoint namespace dir bundle (sp_world p) c (sp_world p')
    | Err _ => ∀ c w', ¬ client_of endpoint namespace dir bundle (sp_world p) c w'
    end.
Proof.
  unfold on_files, dataPlaneControlClient. repeat case_decide.
  - intros [= <- <-]. split; [done|]. by apply client_none.
  - intros [= <- <-]. split; [done|]. intros c w'. by destruct 1.
  - unfold mbind, M_bind. destruct (read_secret _ _ _) as [[ca|e] w0] eqn:Hr; intros [= <- <-]; (split; [done|]).
    + by apply client_some.
    + intros c w'. destruct 1; congruence.
Qed.

Lemma check_run f p r p' : check_restore f p = (r, p') →
  sp_sent p' = sp_sent p ∧ match r with
    | Ok _ => restorable f (sp_world p) (sp_world p')
    | Err _ => ∀ w', ¬ restorable f (sp_world p) w'
    end.
Proof.
  unfold check_restore, restorable. destruct (decide (rf_targetEndpoint f = "")) as [He|He].
  - unfold on_files. destruct (Stat _ _) as [[info|e] w0] eqn:Hs.
    + destruct (IsDir info) eqn:Hd; intros [= <- <-]; (split; [done|]); [by exists info|].
      intros w' (i & Hi & ?). congruence.
    + intros [= <- <-]. split; [done|]. by intros w' (i & Hi & _).
  - repeat case_decide; intros [= <- <-]; (split; [done|]); [..|tauto]; intros w'; naive_solver.
Qed.

Lemma restorable_det f w w1 w2 : restorable f w w1 → restorable f w w2 → w1 = w2.
Proof. unfold restorable. case_decide; [|naive_solver]. intros (? & -> & _) (? & [= _ ->] & _). done. Qed.

Lemma refused_verdict begins run e p : sp_sent p = [] → (∀ s, ¬ begins s) → verdict begins run (Err e) (sp_sent p).
Proof. intros Hp Hn. right. split; [done|]. split; [done|by exists e]. Qed.

Lemma started_run {B} c who at_ (f : unit → P B) p r p' : sp_sent p = [] →
  (report_start c who at_ ≫= f) p = (r, p') →
  ∃ p1, sp_sent p1 = sent_to c [source_report who "Running" at_ "" 0 ""] ∧ sp_world p1 = sp_world p ∧ f tt p1 = (r, p').
Proof.
  intros Hp. unfold report_start, mbind, P_bind. rewrite reportSource_run. intros H. eexists. split; [|split; [|exact H]].
  - unfold update_field. cbn. by rewrite Hp.
  - done.
Qed.

Lemma send_accounted s opts run :
  sso_Source opts ≠ "" → sso_Destination opts ≠ "" → sso_TargetEndpoint opts ≠ "" → ss_dry s = sso_DryRun opts →
  ((∃ e, NormalizeTargetSubpath (sso_Destination opts) = Err e) ∨ no_tunnel run (sso_TLSBundle opts) (sso_ExpectedTarget opts) →
   ss_hindered s) →
  ss_bridged s (bridgeLocalRsyncToTarget (sso_Destination opts) (tr_bridge run)) →
  accounts s run true (send_transfer opts run).
Proof.
  intros Hs Hd Ht Hdry Hh Hb. unfold send_transfer, SendSource, sendSourceRsyncTunnel, no_tunnel in *.
  rewrite decide_False by tauto.
  destruct (NormalizeTargetSubpath _) as [d|e] eqn:Hn; cbn [map_err mbind result_bind]; [|apply hindered_accounted, Hh; eauto].
  destruct (sso_DryRun opts) eqn:Hr; [by apply printed_accounted|].
  destruct (tr_lookPath run) as [[]|e] eqn:Hl; cbn [map_err mbind result_bind]; [|apply hindered_accounted, Hh; eauto].
  destruct (TLSConfig _ _ _) as [config|e] eqn:Hc; cbn [map_err mbind result_bind]; [|apply hindered_accounted, Hh; eauto].
  apply tunnel_accounted; [done| |done]. intros e He. apply Hh. eauto.
Qed.

Lemma receive_accounted s opts run w :
  rwo_Destination opts ≠ "" → rwo_Snapshot opts ≠ "" → rwo_Source opts ≠ "" → rwo_TargetEndpoint opts ≠ "" →
  ss_dry s = rwo_DryRun opts →
  ((∃ e, NormalizeRelativePath (rwo_Snapshot opts) = Err e) ∨ (∃ e, NormalizeTargetSubpath (rwo_Source opts) = Err e) ∨
   no_tunnel run (rwo_TLSBundle opts) (rwo_ExpectedTarget opts) ∨
   (∃ e w3, (destinationRoot ← Abs (rwo_Destination opts); MkdirAll destinationRoot) w = (Err e, w3)) → ss_hindered s) →
  (∀ snapshot source, NormalizeRelativePath (rwo_Snapshot opts) = Ok snapshot →
     NormalizeTargetSubpath (rwo_Source opts) = Ok source →
     ss_bridged s (bridgeLocalRsyncFromTarget snapshot source (tr_bridge run))) →
  ∃ t w', receive_transfer opts run w = (Ok t, w') ∧ accounts s run true t.
Proof.
  intros H1 H2 H3 H4 Hdry Hh Hb. unfold receive_transfer, ReceiveRestore, receiveRestoreRsyncTunnel, no_tunnel in *.
  rewrite decide_False by tauto.
  destruct (NormalizeRelativePath _) as [snapshot|e] eqn:Hn; cbn [map_err mbind result_bind].
  2: { eexists _, _. split; [done|]. apply hindered_accounted, Hh. eauto. }
  destruct (NormalizeTargetSubpath _) as [source|e] eqn:Hs; cbn [map_err mbind result_bind].
  2: { eexists _, _. split; [done|]. apply hindered_accounted, Hh. eauto. }
  destruct (rwo_DryRun opts) eqn:Hr; [eexists _, _; split; [done|by apply printed_accounted]|].
  destruct (tr_lookPath run) as [[]|e] eqn:Hl; cbn [map_err mbind result_bind].
  2: { eexists _, _. split; [done|]. apply hindered_accounted, Hh. eauto 6. }
  destruct (TLSConfig _ _ _) as [config|e] eqn:Hc; cbn [mbind result_bind].
  2: { eexists _, _. split; [done|]. apply hindered_accounted, Hh. eauto 7. }
  destruct ((destinationRoot ← Abs (rwo_Destination opts); MkdirAll destinationRoot) w) as [[x|e] w'] eqn:Hm.
  2: { eexists _, _. split; [done|]. apply hindered_accounted, Hh. eauto 7. }
  eexists _, _. split; [done|]. apply tunnel_accounted; [done| |by apply Hb]. intros e He. apply Hh. eauto 7.
Qed.

Lemma sendSource_told args run w r p' :
  sendSource args run (idle w) = (r, p') → (∀ f, Parse send_source_flags args send_source_defaults = Ok f → addressed f) →
  verdict (sender_begins args run w) run r (sp_sent p').
Proof.
  intros H Ha. unfold sendSource in H. destruct (Parse _ _ _) as [f|e] eqn:Hf.
  2: { injection H as <- <-. apply refused_verdict; [done|]. intros s [??????]. congruence. }
  specialize (Ha f eq_refl). change (known (Ok f) ≫= ?k) with (λ p, k f p) in H. cbv beta in H.
  destruct (decide (xf_source f = "" ∨ _)) as [Hr|Hr].
  { injection H as <- <-. apply refused_verdict; [done|]. intros s [f0 b w1 c w2 Hp Hs Ht Hb' Hc']. rewrite Hf in Hp. injection Hp as <-. by destruct Hr. }
  apply P_bind_run in H as [(bundle & p1 & [H1 Hb]%bundle_run & H)|(e & [H1 Hb]%bundle_run & ->)].
  2: { apply refused_verdict; [done|]. intros s [f0 b w1 c w2 Hp Hs Ht Hb' Hc']. rewrite Hf in Hp. injection Hp as <-. by eapply Hb. }
  apply P_bind_run in H as [(client & p2 & [H2 Hc]%client_run & H)|(e & [H2 Hc]%client_run & ->)].
  2: { apply refused_verdict; [by rewrite H2, H1|]. intros s [f0 b w1 c w2 Hp Hs Ht Hb' Hc']. rewrite Hf in Hp. injection Hp as <-.
       destruct (bundle_of_det _ _ _ _ _ _ Hb Hb') as [<- <-]. by eapply Hc. }
  assert (sp_sent p2 = []) as Hp2 by by rewrite H2, H1.
  cbv zeta in H. apply started_run in H as (p3 & H3 & _ & H); [|done].
  left. eexists. split; [eapply SenderBegins; [exact Hf|tauto|tauto|exact Hb|exact Hc]|].
  match goal with |- tells ?s0 _ _ _ => set (s := s0) in * end.
  destruct (decide (xf_targetEndpoint f ≠ "")) as [He|He].
  - destruct (decide (_ ∨ _)) as [[?|?]|_]; [by destruct (Ha He)..|].
    destruct (send_transfer _ run) as [[progress stats] err] eqn:Ht.
    match type of Ht with send_transfer ?o _ = _ => assert (accounts s run true (send_transfer o run)) as Hac end.
    { apply send_accounted; try done; try tauto. subst s. cbn. by rewrite decide_False. }
    rewrite Ht in Hac. by eapply (told_end s _ _ _ _ (λ t, t)).
  - destruct (local_transfer _ run) as [[progress stats] err] eqn:Ht.
    match type of Ht with local_transfer ?o _ = _ => assert (accounts s run false (local_transfer o run)) as Hac end.
    { apply local_accounted; try done; try tauto. subst s. cbn. by rewrite decide_True by by apply dec_stable. }
    rewrite Ht in Hac. by eapply (told_end s _ _ _ _ (λ t, mergeTransferStats t stats)).
Qed.

Lemma restore_told args run w r p' :
  restore args run (idle w) = (r, p') → verdict (restore_begins args run w) run r (sp_sent p').
Proof.
  intros H. unfold restore in H. destruct (Parse _ _ _) as [f|e] eqn:Hf.
  2: { injection H as <- <-. apply refused_verdict; [done|]. intros s [????????]. congruence. }
  change (known (Ok f) ≫= ?k) with (λ p, k f p) in H. cbv beta in H.
  destruct (decide (rf_snapshot f = "" ∨ _)) as [Hr|Hr].
  { injection H as <- <-. apply refused_verdict; [done|]. intros s [f0 w0 b w1 c w2 Hp Hs Ht Hk' Hb' Hc']. rewrite Hf in Hp. injection Hp as <-. by destruct Hr. }
  apply P_bind_run in H as [([] & p0 & [H0 Hk]%check_run & H)|(e & [H0 Hk]%check_run & ->)].
  2: { apply refused_verdict; [done|]. intros s [f0 w0 b w1 c w2 Hp Hs Ht Hk' Hb' Hc']. rewrite Hf in Hp. injection Hp as <-. by eapply Hk. }
  apply P_bind_run in H as [(bundle & p1 & [H1 Hb]%bundle_run & H)|(e & [H1 Hb]%bundle_run & ->)].
  2: { apply refused_verdict; [by rewrite H1, H0|]. intros s [f0 w0 b w1 c w2 Hp Hs Ht Hk' Hb' Hc']. rewrite Hf in Hp. injection Hp as <-.
       rewrite (restorable_det _ _ _ _ Hk Hk') in Hb. by eapply Hb. }
  apply P_bind_run in H as [(client & p2 & [H2 Hc]%client_run & H)|(e & [H2 Hc]%client_run & ->)].
  2: { apply refused_verdict; [by rewrite H2, H1, H0|]. intros s [f0 w0 b w1 c w2 Hp Hs Ht Hk' Hb' Hc']. rewrite Hf in Hp. injection Hp as <-.
       rewrite (restorable_det _ _ _ _ Hk Hk') in Hb.
       destruct (bundle_of_det _ _ _ _ _ _ Hb Hb') as [<- <-]. by eapply Hc. }
  assert (sp_sent p2 = []) as Hp2 by by rewrite H2, H1, H0.
  cbv zeta in H. apply started_run in H as (p3 & H3 & Hw3 & H); [|done].
  left. eexists. split; [eapply RestoreBegins; [exact Hf|tauto|tauto|exact Hk|exact Hb|exact Hc]|].
  match goal with |- tells ?s0 _ _ _ => set (s := s0) in * end.
  destruct (decide (rf_targetEndpoint f ≠ "")) as [He|He].
  - assert (rf_snapshotSource f ≠ "") as Hsrc by (unfold restorable in Hk; rewrite decide_False in Hk by done; tauto).
    match type of H with context [receive_transfer ?o run] =>
      destruct (receive_accounted s o run (sp_world p3)) as ([[progress stats] err] & w' & Ht & Hac) end;
      [cbn; tauto..|done| | |].
    { subst s. cbn. rewrite Hw3. tauto. }
    { intros snapshot source ??. subst s. cbn. rewrite decide_False by done. eauto. }
    unfold mbind at 1, P_bind at 1, on_files in H. rewrite Ht in H. cbn beta iota in H.
    eapply (told_end s _ _ _ _ (λ t, t)); [exact H|exact Hac|done|done].
  - rewrite P_ret_bind in H.
    destruct (local_transfer _ run) as [[progress stats] err] eqn:Ht.
    match type of Ht with local_transfer ?o _ = _ => assert (accounts s run false (local_transfer o run)) as Hac end.
    { apply local_accounted; try done; try tauto. subst s. cbn. by rewrite decide_True by by apply dec_stable. }
    rewrite Ht in Hac. by eapply (told_end s _ _ _ _ (λ t, mergeTransferStats t stats)).
Qed.

(** C28: a transfer is told to its end, whatever rsync writes and however the command ends.  send-source (when an address comes
    with the name of its target) and restore either fail before they begin and tell nothing, when the flags do not
    parse, a required one is missing, what is restored is not there, or the key pair or the control service's certificate cannot be
    read; or, unless the control service cannot be called, they tell it in the name of the flags' run and source: first
    that they run; then each statistic of rsync's output that says something; last whether the command succeeds, with its
    error, the exit code, and the statistics of the whole output when that has a summary.  Only a dry run, or one whose
    rsync could not start at an address (an invalid path, no rsync, no certificate, nowhere to listen or to write), tells of no
    output, and the latter fails. *)
Theorem transfer_is_told args run w r p' :
  ((∀ f, Parse send_source_flags args send_source_defaults = Ok f → addressed f) →
   sendSource args run (idle w) = (r, p') → verdict (sender_begins args run w) run r (sp_sent p')) ∧
  (restore args run (idle w) = (r, p') → verdict (restore_begins args run w) run r (sp_sent p')).
Proof. split; [intros Ha H; by eapply sendSource_told|apply restore_told]. Qed.
End Laws.

(** ** A transfer that is told *)

#[local] Existing Instance bare_certificates.

Definition sample_transfer : transfer_run :=
  MkTransferRun (Ok tt) (Ok tt) [MkRsyncWrite true sample_output (Ok tt)] None
    (MkBridgeRun (Ok tt) None (Ok tt) (Ok tt) (Ok tt)) (Ok tt) "2024-05-02T01:59:00Z" "2024-05-02T02:00:00Z".

(** With [named], the name of the target comes with its address. *)
Definition sender_arguments (named : bool) : list string :=
  ["--source"; "/data"; "--target"; ".partial/run-9/apps/pg/data"; "--target-endpoint"; "vault:873"; "--tls-dir"; "/tls";
   "--control-grpc-endpoint"; "operator:9443"; "--run-namespace"; "backup"; "--run-name"; "nightly";
   "--source-namespace"; "apps"; "--source-name"; "db"] ++
  (if named then ["--target-namespace"; "backup"; "--target-name"; "vault"] else []).

Definition sample_sender (named : bool) : result unit * source_process :=
  sendSource (sender_arguments named) sample_transfer (idle mounted).

Lemma transfer_is_told_witness :
  (se_Phase <$> sp_sent (sample_sender true).2) = ["Running"; "Running"; "Running"; "Running"; "Succeeded"] ∧
  verdict (sender_begins (sender_arguments true) sample_transfer mounted) sample_transfer (sample_sender true).1
    (sp_sent (sample_sender true).2).
Proof.
  split; [by vm_compute|].
  apply (transfer_is_told (sender_arguments true) sample_transfer mounted).
  - intros f Hf. assert (addressed match Parse send_source_flags (sender_arguments true) send_source_defaults with
      | Ok f => f | Err _ => f end) as Ha by (split; by vm_compute).
    by rewrite Hf in Ha.
  - apply run_pair. by unfold sample_sender.
Defined.

(** A sender whose address has no name has said that it runs before it refuses to. *)
Example an_unnamed_target :
  (sample_sender false).1 = Err (ErrNew "--target-namespace and --target-name are required with --target-endpoint") ∧
  (se_Phase <$> sp_sent (sample_sender false).2) = ["Running"].
Proof. split; by vm_compute. Qed.
