(* ===== verification/LiveApi.v ===== *)
(** * The live API (internal/liveapi/server.go)

    The HTTP server behind the web client: it lists and reads the custom resources, streams the events of the hub, and serves
    the client's files.  A handler is a program that asks the API server and may register a subscriber with the hub; it ends
    with a response.  What net/http, encoding/json and the flushing of a stream do with a response is not
    modelled: the payload of a response is the value that is encoded.  [NameChecks] are the checks of
    k8s.io/apimachinery. *)
From S2P Require Import FileSys.
From S2P Require Export Program EventHub.
From stdpp Require Import options.
From Stdlib Require Import Ascii.

(** ** Requests and responses *)

Record http_request := MkHttpRequest {
  hr_Method : string;
  hr_Path : string;
  hr_Query : gmap string (list string);
  hr_LastEventID : string;
  (** Whether the connection can be flushed. *)
  hr_Flusher : bool
}.

#[export] Instance http_request_eta : Eta http_request := λ r,
  MkHttpRequest (hr_Method r) (hr_Path r) (hr_Query r) (hr_LastEventID r) (hr_Flusher r).

(** [r.URL.Query()[key]] and [r.URL.Query().Get(key)] *)
Definition query_values (r : http_request) (key : string) : list string := default [] (hr_Query r !! key).
Definition query_Get (r : http_request) (key : string) : string := default "" (head (query_values r key)).

Inductive payload :=
  | ErrorBody (code message : string)
  | Events (l : list ControlEvent)
  | Object (k : kind) (o : object k)
  | Items (k : kind) (l : list (object k))
  | RestorePoints (l : list RestorePoint).

Inductive response :=
  | Reply (status : Z) (allow : list string) (body : payload)
  (** The events of a new subscription, which starts with a replay, as far as they are included. *)
  | EventStream (subscription : option RunKey) (replay : list ControlEvent) (include : ControlEvent → bool)
  | ServeFile (path : string)
  (** [ServeMux]: another path, or nothing that matches. *)
  | RedirectTo (path : string)
  | NoHandler.

Definition StatusOK : Z := 200.
Definition StatusBadRequest : Z := 400.
Definition StatusNotFound : Z := 404.
Definition StatusMethodNotAllowed : Z := 405.
Definition StatusInternalServerError : Z := 500.
Definition StatusNotImplemented : Z := 501.

Definition writeJSON (status : Z) (value : payload) : response := Reply status [] value.
Definition writeError (status : Z) (code message : string) : response := writeJSON status (ErrorBody code message).
Definition writeMethodNotAllowed (methods : list string) : response :=
  Reply StatusMethodNotAllowed methods (ErrorBody "method_not_allowed" "method not allowed").
Definition writeClientError (err : goerr) : response :=
  if errors_is KNotFound err then writeError StatusNotFound "not_found" "resource not found"
  else writeError StatusInternalServerError "kubernetes_error" (error_text err).
Definition endpoint_not_found : response := writeError StatusNotFound "not_found" "endpoint not found".

(** ** Filters *)

Definition splitNamespacedFilter (defaultNamespace filter : string) : string * string :=
  match Cut filter slash with
  | Some (before, after) => (before, after)
  | None => (defaultNamespace, filter)
  end.

Definition refMatches (defaultNamespace : string) (ref : ObjectReference) (filter : string) : bool :=
  let '(namespace, name) := splitNamespacedFilter defaultNamespace filter in
  bool_decide (NamespaceOr ref defaultNamespace = namespace) && bool_decide (or_Name ref = name).

Definition anyRefMatches (defaultNamespace : string) (refs : list ObjectReference) (filter : string) : bool :=
  existsb (λ ref, refMatches defaultNamespace ref filter) refs.

(** A filter that is not given lets everything through. *)
Definition passes (filter : string) (test : bool) : bool := bool_decide (filter = "") || test.

Definition namespacedObjectReference (ref : ObjectReference) (defaultNamespace : string) : NamespacedName :=
  MkNamespacedName (NamespaceOr ref defaultNamespace) (or_Name ref).

Definition machineHasSource (machine : RsyncMachine) (sources : list BackupSource) (sourceFilter : string) : bool :=
  existsb (λ source,
    let ref := ss_MachineRef (s_Spec source) in
    bool_decide (or_Name ref ≠ "") &&
    bool_decide (namespacedObjectReference ref (om_Namespace (s_Meta source)) = ref_of (m_Meta machine)) &&
    refMatches (om_Namespace (m_Meta machine))
      (MkObjectReference (om_Namespace (s_Meta source)) (om_Name (s_Meta source))) sourceFilter) sources.

Definition filterMachines (machines : list RsyncMachine) (sources : list BackupSource)
    (defaultNamespace sourceFilter : string) : list RsyncMachine :=
  if decide (sourceFilter = "") then machines
  else List.filter (λ machine,
    (bool_decide (defaultNamespace = "") || bool_decide (om_Namespace (m_Meta machine) = defaultNamespace)) &&
    machineHasSource machine sources sourceFilter) machines.

Definition backupJobMatchesMachine (run : BackupJob) (namespace machineFilter : string) : bool :=
  refMatches namespace (bs_MachineRef (bj_Spec run)) machineFilter ||
  anyRefMatches namespace (bjs_IncludedMachines (bj_Status run)) machineFilter.

Definition filterBackupJobs (runs : list BackupJob) (namespace phaseFilter machineFilter : string) : list BackupJob :=
  if decide (phaseFilter = "" ∧ machineFilter = "") then runs
  else List.filter (λ run,
    passes phaseFilter (bool_decide (bjs_Phase (bj_Status run) = phaseFilter)) &&
    passes machineFilter (backupJobMatchesMachine run namespace machineFilter)) runs.

(** The map of sources, of which a later one replaces an earlier one. *)
Definition sources_of_refs (sources : list BackupSource) : gmap NamespacedName BackupSource :=
  fold_left (λ m source, <[ref_of (s_Meta source) := source]> m) sources ∅.

Definition restore_on_machine (byRef : gmap NamespacedName BackupSource) (namespace machineFilter : string)
    (run : RestoreJob) : bool :=
  match byRef !! namespacedObjectReference (rs_SourceRef (rj_Spec run)) (om_Namespace (rj_Meta run)) with
  | Some source => refMatches namespace (ss_MachineRef (s_Spec source)) machineFilter
  | None => false
  end.

Definition filterRestoreJobs (runs : list RestoreJob) (sources : list BackupSource)
    (namespace phaseFilter machineFilter sourceFilter : string) : list RestoreJob :=
  if decide (phaseFilter = "" ∧ machineFilter = "" ∧ sourceFilter = "") then runs
  else
    let byRef := sources_of_refs sources in
    List.filter (λ run,
      passes phaseFilter (bool_decide (rjs_Phase (rj_Status run) = phaseFilter)) &&
      passes sourceFilter (refMatches namespace (rs_SourceRef (rj_Spec run)) sourceFilter) &&
      passes machineFilter (restore_on_machine byRef namespace machineFilter run)) runs.

Definition filterSources (sources : list BackupSource) (pvcFilter captureFilter : string) : list BackupSource :=
  if decide (pvcFilter = "" ∧ captureFilter = "") then sources
  else List.filter (λ source,
    passes pvcFilter (bool_decide (ss_PVC (s_Spec source) = pvcFilter)) &&
    passes captureFilter (bool_decide (CaptureOrDefault (ss_Consistency (s_Spec source)) = captureFilter))) sources.

Definition filterRestorePoints (points : list RestorePoint) (tierFilter snapshotFilter : string) : list RestorePoint :=
  if decide (tierFilter = "" ∧ snapshotFilter = "") then points
  else List.filter (λ point,
    passes tierFilter (bool_decide (rpt_Tier point = tierFilter)) &&
    passes snapshotFilter (bool_decide (rpt_Snapshot point = snapshotFilter))) points.

(** ** Files of the web client *)

Definition pathInside (root filePath : string) : bool :=
  match Rel root filePath with
  | Ok rel => bool_decide (rel ≠ "..") && negb (HasPrefix rel "../")
  | Err _ => false
  end.

(** The file that a URL path names. *)
Definition asset_path (cleanRoot urlPath : string) : string :=
  let requestPath := Clean ("/" +:+ TrimPrefix urlPath "/") in
  let requestPath := if decide (requestPath = "/") then "/index.html" else requestPath in
  path_Join [cleanRoot; TrimPrefix requestPath "/"].

Definition spaFileHandler (root : string) (disk : world) (r : http_request) : response :=
  let cleanRoot := Clean root in
  let indexPath := path_Join [cleanRoot; "index.html"] in
  if decide (hr_Method r ≠ "GET" ∧ hr_Method r ≠ "HEAD") then writeMethodNotAllowed ["GET"; "HEAD"]
  else
    let filePath := asset_path cleanRoot (hr_Path r) in
    if negb (pathInside cleanRoot filePath)
    then writeError StatusBadRequest "invalid_path" "static asset path escapes frontend root"
    else match (FileSys.Stat filePath disk).1 with
         | Ok info => if IsDir info then ServeFile indexPath else ServeFile filePath
         | Err _ => ServeFile indexPath
         end.

(** ** Parameters of a stream *)

Definition parseLastEventID (r : http_request) : result Z :=
  let value := TrimSpace (hr_LastEventID r) in
  let value := if decide (value = "") then TrimSpace (query_Get r "lastEventId") else value in
  if decide (value = "") then Ok 0
  else match ParseUint value with
       | Some sequence => Ok sequence
       | None => Err (ErrNew "last event id must be an unsigned integer")
       end.

Record eventFilter := MkEventFilter { ef_namespace : string; ef_kinds : gset string }.

Definition eventFilter_matches (f : eventFilter) (event : ControlEvent) : bool :=
  (bool_decide (ef_namespace f = "") || bool_decide (rk_Namespace (ce_Key event) = ef_namespace f)) &&
  (bool_decide (ef_kinds f = ∅) || bool_decide (rk_Kind (ce_Key event) ∈ ef_kinds f)).

Fixpoint parse_kinds (kinds : gset string) (values : list string) : result (gset string) :=
  match values with
  | [] => Ok kinds
  | value :: values =>
      let kind := TrimSpace value in
      if decide (kind = "") then parse_kinds kinds values
      else if decide (kind = RunKindBackup ∨ kind = RunKindRestore) then parse_kinds ({[kind]} ∪ kinds) values
      else Err (ErrNew ("unsupported run kind " +:+ Quote kind))
  end.

Section LiveApi.
Context {HN : NameChecks}.

Definition validNamespace (value : string) : bool := bool_decide (value ≠ "" ∧ IsDNS1123Label value = []).
Definition validObjectName (value : string) : bool := bool_decide (value ≠ "" ∧ IsDNS1123Subdomain value = []).

Definition parseEventFilter (r : http_request) : result eventFilter :=
  let namespace := TrimSpace (query_Get r "namespace") in
  if bool_decide (namespace ≠ "") && negb (validNamespace namespace)
  then Err (ErrNew "namespace must be a valid DNS label")
  else kinds ← parse_kinds ∅ (query_values r "kind"); Ok (MkEventFilter namespace kinds).

(** ** Routes *)

Record namespacedRoute := MkNamespacedRoute {
  nr_namespace : string;
  nr_resource : string;
  nr_name : string;
  nr_stream : bool;
  nr_restorePoints : bool
}.

Definition resources : list string := ["backups"; "restores"; "machines"; "sources"].

Definition parseNamespacedPath (path : string) : option namespacedRoute :=
  match Split (Trim path "/") slash with
  | api :: v1 :: namespaces :: namespace :: resource :: rest =>
      if decide (api ≠ "api" ∨ v1 ≠ "v1" ∨ namespaces ≠ "namespaces") then None
      else if negb (validNamespace namespace) then None
      else if decide (resource ∉ resources) then None
      else
        match rest with
        | [] => Some (MkNamespacedRoute namespace resource "" false false)
        | [name] => if validObjectName name then Some (MkNamespacedRoute namespace resource name false false) else None
        | [name; last] =>
            if validObjectName name then
              if decide ((resource = "backups" ∨ resource = "restores") ∧ last = "events")
              then Some (MkNamespacedRoute namespace resource name true false)
              else if decide (resource = "machines" ∧ (last = "restorepoints" ∨ last = "restore-points"))
              then Some (MkNamespacedRoute namespace resource name false true)
              else None
            else None
        | _ => None
        end
  | _ => None
  end.

(** ** The server *)

Record Server := MkServer {
  (** Whether there is a Kubernetes client. *)
  srv_Client : bool;
  srv_FrontendDir : string;
  (** The number of the next subscriber. *)
  srv_subscriber : nat
}.

Definition handler : Type := act EventHub response.
Definition answer (r : response) : handler := mret r.

(** The answer to a request of the API server, or its error as a response. *)
Definition on_client {A} (m : io A) (k : A → handler) : handler :=
  r ← try (lift m);
  match r with
  | Ok a => k a
  | Err e => answer (writeClientError e)
  end.

Definition ensureClient (s : Server) (k : handler) : handler :=
  if srv_Client s then k
  else answer (writeError StatusNotImplemented "cache_unavailable" "cached Kubernetes listing is not wired").

Definition listOptions (namespace : string) : option string := if decide (namespace = "") then None else Some namespace.

Definition list_objects (k : kind) (namespace : string) : io (list (object k)) := req (List_ k (listOptions namespace) ∅).

(** A handler that reads one object. *)
Definition write_object (k : kind) (namespace name : string) : handler :=
  on_client (req (Get k (MkNamespacedName namespace name))) (λ o, answer (writeJSON StatusOK (Object k o))).

(** *** Streams *)

Definition writeEventStream (r : http_request) (subscription : option RunKey) (replay : list ControlEvent)
    (include : ControlEvent → bool) : response :=
  if hr_Flusher r then EventStream subscription replay include
  else writeError StatusInternalServerError "streaming_unsupported" "streaming is not supported".

Definition writeEvents (s : Server) (r : http_request) (key : RunKey) : handler :=
  match parseLastEventID r with
  | Err e => answer (writeError StatusBadRequest "invalid_last_event_id" (error_text e))
  | Ok afterSequence =>
      hub ← get_obj;
      match SubscribeAfter (srv_subscriber s) true key afterSequence hub with
      | Err e => answer (writeError StatusBadRequest "invalid_request" (error_text e))
      | Ok (replay, hub) => _ ← put_obj hub; answer (writeEventStream r (Some key) replay (λ _, true))
      end
  end.

Definition writeFilteredEvents (s : Server) (r : http_request) : handler :=
  match parseLastEventID r with
  | Err e => answer (writeError StatusBadRequest "invalid_last_event_id" (error_text e))
  | Ok afterSequence =>
      match parseEventFilter r with
      | Err e => answer (writeError StatusBadRequest "invalid_filter" (error_text e))
      | Ok filter =>
          hub ← get_obj;
          match SubscribeAllAfter (srv_subscriber s) true afterSequence hub with
          | Err e => answer (writeError StatusBadRequest "invalid_request" (error_text e))
          | Ok (replay, hub) => _ ← put_obj hub; answer (writeEventStream r None replay (eventFilter_matches filter))
          end
      end
  end.

Definition writeSnapshot (key : RunKey) : handler :=
  hub ← get_obj;
  match SnapshotAfter hub key 0 with
  | Err e => answer (writeError StatusBadRequest "invalid_request" (error_text e))
  | Ok events => answer (writeJSON StatusOK (Events events))
  end.

(** *** Lists and objects *)

Definition writeMachines (s : Server) (r : http_request) (namespace : string) : handler :=
  ensureClient s (on_client (list_objects KRsyncMachine namespace) (λ machines,
    on_client (list_objects KBackupSource "") (λ sources,
      answer (writeJSON StatusOK (Items KRsyncMachine (filterMachines machines sources namespace (query_Get r "source"))))))).

Definition writeMachine (s : Server) (namespace name : string) : handler :=
  ensureClient s (write_object KRsyncMachine namespace name).

Definition writeBackupJobs (s : Server) (r : http_request) (namespace : string) : handler :=
  ensureClient s (on_client (list_objects KBackupJob namespace) (λ runs,
    answer (writeJSON StatusOK (Items KBackupJob
      (filterBackupJobs runs namespace (query_Get r "phase") (query_Get r "machine")))))).

(** Without a client the events of the run are what there is. *)
Definition write_run (s : Server) (k : kind) (runKind namespace name : string) : handler :=
  if negb (srv_Client s) then writeSnapshot (MkRunKey namespace name runKind) else write_object k namespace name.

Definition writeBackupJob (s : Server) (namespace name : string) : handler :=
  write_run s KBackupJob RunKindBackup namespace name.

Definition writeRestoreJobs (s : Server) (r : http_request) (namespace : string) : handler :=
  ensureClient s (on_client (list_objects KRestoreJob namespace) (λ runs,
    on_client (list_objects KBackupSource "") (λ sources,
      answer (writeJSON StatusOK (Items KRestoreJob
        (filterRestoreJobs runs sources namespace (query_Get r "phase") (query_Get r "machine") (query_Get r "source"))))))).

Definition writeRestoreJob (s : Server) (namespace name : string) : handler :=
  write_run s KRestoreJob RunKindRestore namespace name.

Definition writeRestorePoints (s : Server) (r : http_request) (namespace name : string) : handler :=
  ensureClient s (on_client (req (Get KRsyncMachine (MkNamespacedName namespace name))) (λ target,
    answer (writeJSON StatusOK (RestorePoints
      (filterRestorePoints (mst_RestorePoints (m_Status target)) (query_Get r "tier") (query_Get r "snapshot")))))).

Definition writeSources (s : Server) (r : http_request) (namespace : string) : handler :=
  ensureClient s (on_client (list_objects KBackupSource namespace) (λ sources,
    answer (writeJSON StatusOK (Items KBackupSource
      (filterSources sources (query_Get r "pvc") (query_Get r "capture")))))).

Definition writeSource (s : Server) (namespace name : string) : handler :=
  ensureClient s (write_object KBackupSource namespace name).

(** *** Handlers *)

Definition get_only (r : http_request) (k : handler) : handler :=
  if decide (hr_Method r = "GET") then k else answer (writeMethodNotAllowed ["GET"]).

Definition handleGlobalEvents (s : Server) (r : http_request) : handler := get_only r (writeFilteredEvents s r).

Definition handleNamespaced (s : Server) (r : http_request) : handler :=
  match parseNamespacedPath (hr_Path r) with
  | None => answer endpoint_not_found
  | Some route =>
      let namespace := nr_namespace route in
      let name := nr_name route in
      get_only r (
        if decide (nr_resource route = "backups") then
          if nr_stream route then writeEvents s r (MkRunKey namespace name RunKindBackup)
          else if decide (name = "") then writeBackupJobs s r namespace
          else writeBackupJob s namespace name
        else if decide (nr_resource route = "restores") then
          if nr_stream route then writeEvents s r (MkRunKey namespace name RunKindRestore)
          else if decide (name = "") then writeRestoreJobs s r namespace
          else writeRestoreJob s namespace name
        else if decide (nr_resource route = "machines") then
          if nr_restorePoints route then writeRestorePoints s r namespace name
          else if decide (name = "") then writeMachines s r namespace
          else writeMachine s namespace name
        else if decide (nr_resource route = "sources") then
          if decide (name = "") then writeSources s r namespace else writeSource s namespace name
        else answer endpoint_not_found)
  end.

Definition handleGlobalList (s : Server) (r : http_request) : handler :=
  get_only r (
    let namespace := query_Get r "namespace" in
    let resource := TrimPrefix (hr_Path r) "/api/v1/" in
    if decide (resource = "machines") then writeMachines s r namespace
    else if decide (resource = "backups") then writeBackupJobs s r namespace
    else if decide (resource = "restores") then writeRestoreJobs s r namespace
    else if decide (resource = "sources") then writeSources s r namespace
    else answer endpoint_not_found).

(** The handler that [ServeMux] chooses for a clean path: the longest pattern that matches, and a redirection for
    a pattern without its last slash.  Other paths it redirects to their clean form. *)
Definition Handler (s : Server) (disk : world) (r : http_request) : handler :=
  let path := hr_Path r in
  if HasPrefix path "/api/v1/namespaces/" then handleNamespaced s r
  else if decide (path = "/api/v1/events") then handleGlobalEvents s r
  else if decide (path ∈ ["/api/v1/machines"; "/api/v1/backups"; "/api/v1/restores"; "/api/v1/sources"])
  then handleGlobalList s r
  else if decide (path = "/api/v1/namespaces" ∨ path = "/api") then answer (RedirectTo (path +:+ "/"))
  else if HasPrefix path "/api/" then answer endpoint_not_found
  else if decide (srv_FrontendDir s = "") then answer NoHandler
  else answer (spaFileHandler (srv_FrontendDir s) disk r).
End LiveApi.
