(* ===== verification/LiveApiLaws.v ===== *)
(** * What the live API answers

    The laws of [LiveApi]: it reads and never writes, its paths are those of the resources, its lists hold what their filters
    ask for, and the files it serves are below its root. *)
From S2P Require Import FileSys.
From S2P Require Export Paths LiveApi Safety.
From stdpp Require Import options.
From Stdlib Require Import Ascii.

(** ** Reading only *)

Definition reads : shape := λ R c,
  match c with Get _ _ | List_ _ _ _ => True | _ => False end.

Section Reads.
Context {HN : NameChecks}.

Lemma on_client_reads {A} (m : io A) (k : A → handler) h : only reads m → (∀ a h, only reads (k a h)) →
  only reads (on_client m k h).
Proof.
  intros Hm Hk. apply act_only_bind; [by apply act_only_try, act_only_lift|].
  intros [a|e] h'; [apply Hk|done].
Qed.

Lemma list_reads k namespace : only reads (list_objects k namespace).
Proof. by apply only_req. Qed.

Lemma ensure_reads s k h : (∀ h, only reads (k h)) → only reads (ensureClient s k h).
Proof. intros Hk. unfold ensureClient. destruct (srv_Client s); [apply Hk|done]. Qed.

Lemma object_reads k namespace name h : only reads (write_object k namespace name h).
Proof. apply on_client_reads; [by apply only_req|done]. Qed.

Lemma events_reads s r key h : only reads (writeEvents s r key h).
Proof.
  unfold writeEvents. destruct (parseLastEventID r); [|done]. apply act_only_bind; [done|]. intros hub h'.
  case_match; [|done]. case_match. by apply act_only_bind.
Qed.

Lemma filtered_events_reads s r h : only reads (writeFilteredEvents s r h).
Proof.
  unfold writeFilteredEvents. destruct (parseLastEventID r); [|done]. destruct (parseEventFilter r); [|done].
  apply act_only_bind; [done|]. intros hub h'. case_match; [|done]. case_match. by apply act_only_bind.
Qed.

Lemma snapshot_reads key h : only reads (writeSnapshot key h).
Proof. apply act_only_bind; [done|]. intros hub h'. by case_match. Qed.

Lemma run_reads s k runKind namespace name h : only reads (write_run s k runKind namespace name h).
Proof. unfold write_run. destruct (srv_Client s); [apply object_reads|apply snapshot_reads]. Qed.

Lemma machines_reads s r namespace h : only reads (writeMachines s r namespace h).
Proof.
  apply ensure_reads. intros. apply on_client_reads; [apply list_reads|]. intros.
  by apply on_client_reads; [apply list_reads|].
Qed.

Lemma backups_reads s r namespace h : only reads (writeBackupJobs s r namespace h).
Proof. apply ensure_reads. intros. by apply on_client_reads; [apply list_reads|]. Qed.

Lemma restores_reads s r namespace h : only reads (writeRestoreJobs s r namespace h).
Proof.
  apply ensure_reads. intros. apply on_client_reads; [apply list_reads|]. intros.
  by apply on_client_reads; [apply list_reads|].
Qed.

Lemma points_reads s r namespace name h : only reads (writeRestorePoints s r namespace name h).
Proof. apply ensure_reads. intros. by apply on_client_reads; [apply only_req|]. Qed.

Lemma sources_reads s r namespace h : only reads (writeSources s r namespace h).
Proof. apply ensure_reads. intros. by apply on_client_reads; [apply list_reads|]. Qed.

Lemma ensured_object_reads s k namespace name h : only reads (ensureClient s (write_object k namespace name) h).
Proof. apply ensure_reads. intros. apply object_reads. Qed.

#[local] Hint Resolve events_reads filtered_events_reads run_reads machines_reads backups_reads restores_reads
  points_reads sources_reads ensured_object_reads : live.

Lemma get_only_reads r k h : only reads (k h) → only reads (get_only r k h).
Proof. unfold get_only. by case_decide. Qed.

Lemma namespaced_reads s r h : only reads (handleNamespaced s r h).
Proof.
  unfold handleNamespaced. destruct (parseNamespacedPath _); [|done]. apply get_only_reads.
  unfold writeBackupJob, writeRestoreJob, writeMachine, writeSource. repeat case_match; try done; auto with live.
Qed.

Lemma global_list_reads s r h : only reads (handleGlobalList s r h).
Proof. unfold handleGlobalList. apply get_only_reads. cbv zeta. repeat case_match; try done; auto with live. Qed.

Lemma get_only_silent r k h : hr_Method r ≠ "GET" → get_only r k h = Ret (Ok (writeMethodNotAllowed ["GET"]), h).
Proof. intros Hm. unfold get_only. by rewrite decide_False. Qed.

(** C30: The live API only reads.  Whatever a request is, the server asks the API server for nothing but to get and to list
    objects; and a request whose method is not GET asks nothing at all and leaves the event hub as it was. *)
Theorem api_only_reads s disk r hub :
  only reads (Handler s disk r hub) ∧
  (hr_Method r ≠ "GET" → ∃ resp, Handler s disk r hub = Ret (Ok resp, hub)).
Proof.
  unfold Handler, handleGlobalEvents. split.
  - repeat case_match; try done; [apply namespaced_reads|apply get_only_reads, filtered_events_reads|apply global_list_reads].
  - intros Hm. assert (∀ k, ∃ resp, get_only r k hub = Ret (Ok resp, hub)) as Hg.
    { intros k. rewrite get_only_silent by done. by eexists. }
    unfold handleNamespaced, handleGlobalList. cbv zeta.
    repeat (first [apply Hg|by eexists|case_match]).
Qed.
End Reads.

(** ** Files below the root *)

Lemma clean_segs_rooted acc segs : Forall plain_seg acc → Forall (λ p, ContainsByte p slash = false) segs →
  Forall plain_seg (clean_segs true acc segs).
Proof.
  intros Hacc Hs. revert acc Hacc. induction Hs as [|p segs Hp Hs IH]; intros acc Hacc; cbn.
  { by apply Forall_reverse. }
  case_decide as H1; [by apply IH|]. case_decide as H2.
  - destruct Hacc as [|top acc (? & ? & Ht & ?) Hacc]; [by apply IH|]. rewrite decide_False by done. by apply IH.
  - apply IH. apply Forall_cons. split; [|done]. split_and!; naive_solver.
Qed.

(** Where a path leads from the root: a segment goes down, [..] goes up and stays at the root there. *)
Definition walk_step (up : list string) (segment : string) : list string :=
  if decide (segment = "" ∨ segment = ".") then up else if decide (segment = "..") then tail up else segment :: up.

(** The file that is asked for: where the path leads, and index.html at the root itself. *)
Definition asked_for (urlPath : string) : list string :=
  match reverse (foldl walk_step [] (Split urlPath slash)) with [] => ["index.html"] | segs => segs end.

Lemma clean_segs_walk acc segs : Forall plain_seg acc → Forall (λ p, ContainsByte p slash = false) segs →
  clean_segs true acc segs = reverse (foldl walk_step acc segs).
Proof.
  intros Hacc Hs. revert acc Hacc. induction Hs as [|p segs Hp Hs IH]; intros acc Hacc; [done|]. cbn [clean_segs foldl].
  unfold walk_step at 2. case_decide as H1.
  { by apply IH. }
  case_decide as H2.
  - destruct Hacc as [|top acc (? & ? & Ht & ?) Hacc]; [by apply IH|]. rewrite decide_False by done. by apply IH.
  - apply IH. apply Forall_cons. split; [|done]. split_and!; naive_solver.
Qed.

(** A rooted path, cleaned, has no [..] left. *)
Lemma Clean_rooted x : let segs := reverse (foldl walk_step [] (Split x slash)) in
  Forall plain_seg segs ∧ Clean ("/" +:+ x) = "/" +:+ strings_Join segs "/".
Proof.
  cbn zeta. assert (Forall (λ p, ContainsByte p slash = false) (Split x slash)) as Hs
    by (apply Forall_forall; intros p Hp; by eapply Split_parts).
  rewrite <-clean_segs_walk by done. split; [by apply clean_segs_rooted|].
  unfold Clean. rewrite decide_False by (rewrite str_app_eq_nil; by intros []).
  assert (IsAbs ("/" +:+ x) = true) as -> by apply (HasPrefix_app "/").
  by rewrite (Split_app_slash "" x : Split ("/" +:+ x) slash = _).
Qed.

Lemma TrimPrefix_slash s : TrimPrefix ("/" +:+ s) "/" = s.
Proof. unfold TrimPrefix. rewrite str_app_cons, str_app_nil_l. cbn. by rewrite HasPrefix_nil. Qed.

Lemma walk_TrimPrefix urlPath :
  foldl walk_step [] (Split (TrimPrefix urlPath "/") slash) = foldl walk_step [] (Split urlPath slash).
Proof.
  destruct (HasPrefix urlPath "/") eqn:Hp.
  - apply HasPrefix_spec in Hp as [x ->]. rewrite TrimPrefix_slash. by rewrite (Split_app_slash "" x : Split ("/" +:+ x) slash = _).
  - unfold TrimPrefix. by rewrite Hp.
Qed.

Lemma asset_path_asked root rsegs urlPath : clean_root root rsegs → Forall plain_seg (asked_for urlPath) ∧
  asset_path root urlPath = "/" +:+ strings_Join (rsegs ++ asked_for urlPath) "/" ∧
  pathInside root (asset_path root urlPath) = true.
Proof.
  intros Hr. destruct (Clean_rooted (TrimPrefix urlPath "/")) as (Hl & Hc). rewrite walk_TrimPrefix in Hl, Hc.
  assert (asked_for urlPath ≠ [] ∧ Forall plain_seg (asked_for urlPath) ∧
    asset_path root urlPath = path_Join [root; strings_Join (asked_for urlPath) "/"]) as (Hne & Hp & ->).
  { unfold asset_path, asked_for. rewrite Hc. destruct (reverse _) as [|x l].
    - split; [done|]. split; [|done]. by repeat constructor.
    - split; [done|]. split; [done|]. rewrite decide_False.
      + by rewrite TrimPrefix_slash.
      + intros He. apply (f_equal (λ s, TrimPrefix s "/")) in He. rewrite TrimPrefix_slash in He.
        by apply (Join_plain_nonempty (x :: l)) in He. }
  split; [done|]. rewrite (path_Join_root root rsegs) by done. split; [done|].
  unfold pathInside. rewrite (Rel_below root rsegs) by done. pose proof (plain_not_dotdot_prefix _ Hne Hp) as Hn.
  rewrite bool_decide_true by naive_solver. cbn.
  destruct (HasPrefix (strings_Join (asked_for urlPath) "/") "../") eqn:He; naive_solver.
Qed.

(** C31: the web client's files are below their root, which is given as an absolute path without dots or needless slashes.  Whatever
    path a GET or HEAD asks for, it is followed segment by segment from the root, where [..] goes up and at the root
    stays: the file it leads to (index.html for the root itself) is the one that is served, when it is there and no
    directory, and otherwise the root's index.html.  So what is served is a path of plain segments below the root, and the
    check for paths that escape never fires. *)
Theorem served_inside root rsegs disk r : clean_root root rsegs → hr_Method r ∈ ["GET"; "HEAD"] →
  let segs := asked_for (hr_Path r) in
  let file segs := "/" +:+ strings_Join (rsegs ++ segs) "/" in
  Forall plain_seg segs ∧
  (∀ info, (FileSys.Stat (file segs) disk).1 = Ok info → FileSys.IsDir info = false →
     spaFileHandler root disk r = ServeFile (file segs)) ∧
  ((∀ info, (FileSys.Stat (file segs) disk).1 = Ok info → FileSys.IsDir info = true) →
     spaFileHandler root disk r = ServeFile (file ["index.html"])).
Proof.
  intros Hr Hm segs file. pose proof Hr as [Hrp Hroot].
  assert (Clean root = root) as Hcl by (rewrite Hroot; by apply Clean_plain_abs).
  assert (path_Join [root; "index.html"] = file ["index.html"]) as Hi.
  { apply (path_Join_root root rsegs ["index.html"]); [done|done|]. by repeat constructor. }
  unfold spaFileHandler. rewrite Hcl. cbv zeta.
  rewrite decide_False by (apply elem_of_cons in Hm as [->|Hm%list_elem_of_singleton]; naive_solver).
  destruct (asset_path_asked root rsegs (hr_Path r) Hr) as (Hp & Ha & ->). cbn [negb]. rewrite Ha, Hi.
  split; [exact Hp|]. unfold file, segs in *. split.
  - intros info Hs Hd. by rewrite Hs, Hd.
  - intros Hall. destruct (FileSys.Stat _ disk).1 as [info|e]; [|done]. by rewrite (Hall info eq_refl).
Qed.

(** ** Routes *)

Section Routes.
Context {HN : NameChecks}.

(** What a route can be. *)
Record valid_route (r : namespacedRoute) : Prop := {
  vr_namespace : validNamespace (nr_namespace r) = true;
  vr_resource : nr_resource r ∈ resources;
  vr_name : nr_name r = "" ∨ validObjectName (nr_name r) = true;
  vr_stream : nr_stream r = true → nr_name r ≠ "" ∧ (nr_resource r = "backups" ∨ nr_resource r = "restores");
  vr_restorePoints : nr_restorePoints r = true → nr_name r ≠ "" ∧ nr_resource r = "machines"
}.

(** The ways to spell what comes after the name. *)
Definition route_ends (r : namespacedRoute) : list (list string) :=
  if nr_stream r then [["events"]]
  else if nr_restorePoints r then [["restorepoints"]; ["restore-points"]]
  else [[]].

Definition route_segments (r : namespacedRoute) (last : list string) : list string :=
  ["api"; "v1"; "namespaces"; nr_namespace r; nr_resource r] ++ (if decide (nr_name r = "") then [] else nr_name r :: last).

(** Kubernetes names have no slash. *)
Context (Hlabel : ∀ s, IsDNS1123Label s = [] → ContainsByte s slash = false).
Context (Hsubdomain : ∀ s, IsDNS1123Subdomain s = [] → ContainsByte s slash = false).

Lemma validObjectName_nonempty s : validObjectName s = true → s ≠ "".
Proof. intros H%bool_decide_eq_true. apply H. Qed.

Lemma validNamespace_ne s : validNamespace s = true → s ≠ "".
Proof. intros H%bool_decide_eq_true. apply H. Qed.

(** The last segments of a path, for the resource and the name before them. *)
Definition route_rest (namespace resource : string) (rest : list string) : option namespacedRoute :=
  match rest with
  | [] => Some (MkNamespacedRoute namespace resource "" false false)
  | [name] => if validObjectName name then Some (MkNamespacedRoute namespace resource name false false) else None
  | [name; last] =>
      if validObjectName name then
        if decide ((resource = "backups" ∨ resource = "restores") ∧ last = "events")
        then Some (MkNamespacedRoute namespace resource name true false)
        else if decide (resource = "machines" ∧ (last = "restorepoints" ∨ last = "restore-points"))
        then Some (MkNamespacedRoute namespace resource name false true)
        else None
      else None
  | _ => None
  end.

Lemma route_rest_spec namespace resource rest route :
  validNamespace namespace = true → resource ∈ resources →
  route_rest namespace resource rest = Some route ↔
  valid_route route ∧ nr_namespace route = namespace ∧ nr_resource route = resource ∧
  ∃ last, last ∈ route_ends route ∧ rest = (if decide (nr_name route = "") then [] else nr_name route :: last).
Proof.
  intros Hns Hres. split.
  - destruct rest as [|name [|last []]]; cbn [route_rest]; [intros [= <-]| |..|done].
    + split; [split; cbn; try done; by left|]. split_and!; [done..|]. exists []. by split; [left|].
    + destruct (validObjectName name) eqn:Hn; [|done]. intros [= <-].
      split; [split; cbn; try done; by right|]. split_and!; [done..|]. exists []. cbn.
      rewrite decide_False by by apply validObjectName_nonempty. by split; [left|].
    + destruct (validObjectName name) eqn:Hn; [|done]. pose proof (validObjectName_nonempty _ Hn) as Hne.
      case_decide as He; [intros [= <-]|case_decide as Hp; [intros [= <-]|done]].
      * destruct He as [He ->]. split; [split; cbn; try done; by right|]. split_and!; [done..|]. exists ["events"]. cbn.
        rewrite decide_False by done. by split; [left|].
      * destruct Hp as [-> Hl]. split; [split; cbn; try done; by right|]. split_and!; [done..|]. exists [last]. cbn.
        rewrite decide_False by done. split; [|done]. destruct Hl as [->| ->]; [left|right; left].
  - intros ([Hv1 Hv2 Hv3 Hv4 Hv5] & <- & <- & last & Hin & ->). destruct route as [ns res name stream points].
    cbn in *. case_decide as Hname.
    { subst. destruct stream; [by destruct (Hv4 eq_refl)|]. destruct points; [by destruct (Hv5 eq_refl)|]. done. }
    destruct Hv3 as [?|Hv3]; [done|]. unfold route_ends in Hin. cbn in Hin.
    destruct stream, points; cbn [route_rest].
    + exfalso. destruct (Hv4 eq_refl) as [_ [->| ->]]; by destruct (Hv5 eq_refl).
    + apply list_elem_of_singleton in Hin as ->. cbn [route_rest]. rewrite Hv3, decide_True; [done|].
      split; [by apply Hv4|done].
    + destruct (Hv5 eq_refl) as [_ ->].
      apply elem_of_cons in Hin as [->| ->%list_elem_of_singleton]; cbn [route_rest]; rewrite Hv3;
        (rewrite decide_False by naive_solver); (rewrite decide_True by naive_solver); done.
    + apply list_elem_of_singleton in Hin as ->. cbn [route_rest]. by rewrite Hv3.
Qed.

(** C32: Paths and routes correspond.  A path is taken exactly when, without the slashes around it, it spells a
    route: the namespace of a valid name, one of the four resources, then nothing, or a valid name, or a name and the
    stream of its events or its restore points; and the route it is taken for is that one. *)
Theorem namespaced_path_roundtrip path route :
  parseNamespacedPath path = Some route ↔
  valid_route route ∧ ∃ last, last ∈ route_ends route ∧ Trim path "/" = strings_Join (route_segments route last) "/".
Proof using All.
  assert (∀ last, valid_route route → last ∈ route_ends route →
    Split (strings_Join (route_segments route last) "/") slash = route_segments route last) as Hsplit.
  { intros last [H1 H2 H3 _ _] Hin. apply (Split_Join _ slash); [done|].
    assert (Forall (λ p, ContainsByte p slash = false) last) as Hlast.
    { unfold route_ends in Hin. repeat case_match; rewrite !elem_of_cons, elem_of_nil in Hin;
        naive_solver (by repeat constructor). }
    unfold route_segments. cbn [app]. rewrite !Forall_cons. split_and!; try done.
    - apply bool_decide_eq_true in H1 as [_ H1]. by apply Hlabel.
    - unfold resources in H2. rewrite !elem_of_cons, elem_of_nil in H2. by destruct H2 as [->|[->|[->|[->|[]]]]].
    - case_decide as Hn; [done|]. apply Forall_cons. split; [|done]. apply Hsubdomain.
      destruct H3 as [?|H3]; [done|]. by apply bool_decide_eq_true in H3 as [_ H3]. }
  pose proof (Join_Split (Trim path "/") slash) as Hjoin. unfold parseNamespacedPath. split.
  - destruct (Split (Trim path "/") slash) as [|api [|v1 [|nss [|ns [|res rest]]]]] eqn:Hs; try done.
    case_decide as Hpre; [done|]. destruct (validNamespace ns) eqn:Hns; [|done]. cbn [negb].
    case_decide as Hres; [done|]. intros H.
    apply (route_rest_spec ns res rest route Hns Hres) in H as (Hv & <- & <- & last & Hin & ->).
    split; [done|]. exists last. split; [done|]. rewrite <-Hjoin.
    assert (api = "api" ∧ v1 = "v1" ∧ nss = "namespaces") as (-> & -> & ->).
    { destruct (decide (api = "api")), (decide (v1 = "v1")), (decide (nss = "namespaces")); tauto. }
    done.
  - intros (Hv & last & Hin & ->). rewrite Hsplit by done. unfold route_segments. cbn [app].
    rewrite decide_False by naive_solver. rewrite (vr_namespace route Hv). cbn [negb].
    rewrite decide_False by (intros Hn; by apply Hn, (vr_resource route Hv)).
    apply (route_rest_spec _ _ _ route (vr_namespace route Hv) (vr_resource route Hv)).
    split; [done|]. split_and!; [done..|]. by exists last.
Qed.
End Routes.

(** ** Lists *)

(** The machine a filter names, seen from a namespace. *)
Definition filter_ref (namespace filter : string) : NamespacedName :=
  let '(ns, name) := splitNamespacedFilter namespace filter in MkNamespacedName ns name.

Lemma refMatches_spec namespace ref filter :
  refMatches namespace ref filter = true ↔ namespacedObjectReference ref namespace = filter_ref namespace filter.
Proof.
  unfold refMatches, filter_ref, namespacedObjectReference. destruct (splitNamespacedFilter namespace filter) as [ns name].
  rewrite andb_true_iff, !bool_decide_eq_true. split; [by intros [-> ->]|by intros [= -> ->]].
Qed.

Lemma passes_spec filter test : passes filter test = true ↔ filter = "" ∨ test = true.
Proof. unfold passes. by rewrite orb_true_iff, bool_decide_eq_true. Qed.

(** The machines of a run, as the run itself means them. *)
Definition machines_of (run : BackupJob) : list NamespacedName :=
  (λ ref, namespacedObjectReference ref (om_Namespace (bj_Meta run))) <$>
    bs_MachineRef (bj_Spec run) :: bjs_IncludedMachines (bj_Status run).

Lemma backupJobMatchesMachine_spec run machine :
  backupJobMatchesMachine run (om_Namespace (bj_Meta run)) machine = true ↔
  filter_ref (om_Namespace (bj_Meta run)) machine ∈ machines_of run.
Proof.
  unfold backupJobMatchesMachine, anyRefMatches, machines_of.
  rewrite orb_true_iff, refMatches_spec, existsb_exists, fmap_cons, elem_of_cons, list_elem_of_fmap.
  setoid_rewrite refMatches_spec. split.
  - intros [<-|(ref & Hin & Hm)]; [by left|right]. exists ref. split; [done|]. by apply list_elem_of_In.
  - intros [->|(ref & Hm & Hin)]; [by left|right]. exists ref. split; [by apply list_elem_of_In|done].
Qed.

Lemma List_filter_sublist {A} (f : A → bool) l : List.filter f l `sublist_of` l.
Proof. induction l as [|x l IH]; cbn; [constructor|]. destruct (f x); by constructor. Qed.

(** A list of backups holds what is asked for.  In a namespace, the runs that are listed with a phase and a machine are, in
    their order, exactly those of that phase which name that machine, in their spec or among the machines they
    include, as the run itself resolves the names; a filter that is not given lets every run through. *)
Theorem listed_backups namespace phase machine runs :
  Forall (λ run, om_Namespace (bj_Meta run) = namespace) runs →
  let listed := filterBackupJobs runs namespace phase machine in
  listed `sublist_of` runs ∧
  ∀ run, run ∈ listed ↔ run ∈ runs ∧ (phase = "" ∨ bjs_Phase (bj_Status run) = phase) ∧
    (machine = "" ∨ filter_ref namespace machine ∈ machines_of run).
Proof.
  intros Hns. cbv zeta. unfold filterBackupJobs. case_decide as Hempty.
  { destruct Hempty as [-> ->]. split; [done|]. intros run. split; [|by intros []]. intros ?. split; [done|]. split; by left. }
  split; [apply List_filter_sublist|]. intros run.
  rewrite list_elem_of_In, filter_In, <-list_elem_of_In, andb_true_iff, !passes_spec, bool_decide_eq_true.
  split; intros (Hin & Hp & Hm); (split; [done|]; split; [done|]); rewrite Forall_forall in Hns;
    specialize (Hns run Hin); (destruct Hm as [?|Hm]; [by left|right]); rewrite <-Hns in *;
    by apply backupJobMatchesMachine_spec.
Qed.

(** ** Requests *)

Definition named_meta (namespace name : string) : ObjectMeta := (inhabitant : ObjectMeta) <| om_Namespace := namespace |> <| om_Name := name |>.

(** A run whose machine is named without its namespace, which is that of the run. *)
Definition listed_run : BackupJob :=
  (inhabitant : BackupJob) <| bj_Meta := named_meta "backup" "nightly" |>
    <| bj_Spec := MkBackupJobSpec (MkObjectReference "" "vault") "" |>.

(** The list of all namespaces does not find it by its machine's full name: it resolves the reference against the
    namespace of the request, which is empty. *)
Example global_list_misses :
  filterBackupJobs [listed_run] "backup" "" "backup/vault" = [listed_run] ∧
  filterBackupJobs [listed_run] "" "" "backup/vault" = [] ∧ filterBackupJobs [listed_run] "" "" "vault" = [listed_run].
Proof. split_and!; by vm_compute. Qed.

Lemma listed_backups_witness :
  listed_run ∈ filterBackupJobs [listed_run] "backup" "" "vault" ∧
  let listed := filterBackupJobs [listed_run] "backup" "" "vault" in
  listed `sublist_of` [listed_run] ∧
  ∀ run, run ∈ listed ↔ run ∈ [listed_run] ∧ ("" = "" ∨ bjs_Phase (bj_Status run) = "") ∧
    ("vault" = "" ∨ filter_ref "backup" "vault" ∈ machines_of run).
Proof. split; [left|]. apply (listed_backups "backup" "" "vault" [listed_run]). by repeat constructor. Defined.

#[local] Existing Instance sample_checks.

Lemma dns_name_slash s : dns_name s = true → ContainsByte s slash = false.
Proof.
  induction s as [|c s IH]; [done|]. cbn. intros [Hc Hs]%andb_true_iff. rewrite IH by done.
  destruct (decide (slash = c)) as [<-|Hn]; [done|]. by rewrite bool_decide_false.
Qed.

Lemma sample_names s : IsDNS1123Label s = [] → ContainsByte s slash = false.
Proof. cbn. destruct (dns_name s) eqn:Hs; [|done]. intros _. by apply dns_name_slash. Qed.

Definition nightly_stream : namespacedRoute := MkNamespacedRoute "backup" "backups" "nightly" true false.

Lemma namespaced_path_roundtrip_witness :
  parseNamespacedPath "/api/v1/namespaces/backup/backups/nightly/events" = Some nightly_stream ∧
  valid_route nightly_stream ∧ ∃ last, last ∈ route_ends nightly_stream ∧
    Trim "/api/v1/namespaces/backup/backups/nightly/events" "/" = strings_Join (route_segments nightly_stream last) "/".
Proof.
  split; [by vm_compute|].
  apply (namespaced_path_roundtrip sample_names sample_names "/api/v1/namespaces/backup/backups/nightly/events" nightly_stream).
  by vm_compute.
Defined.

Definition web_disk : world :=
  MkWorld (list_to_map [([], Dir); (["web"], Dir); (["web"; "index.html"], File 0)]) {[0%nat := "page"]} 1 [] []
    (λ p, 0) (λ m, (100, 10)).

(** A path that tries to leave. *)
Definition dotted_request : http_request := MkHttpRequest "GET" "/../assets/../../etc/passwd" ∅ "" true.

Definition styled_request : http_request := MkHttpRequest "GET" "/../assets/./x/../style.css" ∅ "" true.

Definition styled_disk : world := web_disk <| w_nodes ::= λ m,
  <[["web"; "assets"] := Dir]> (<[["web"; "assets"; "style.css"] := File 0]> m) |>.

Lemma served_inside_witness :
  asked_for (hr_Path dotted_request) = ["etc"; "passwd"] ∧
  spaFileHandler "/web" web_disk dotted_request = ServeFile "/web/index.html" ∧
  spaFileHandler "/web" styled_disk styled_request = ServeFile "/web/assets/style.css".
Proof.
  assert (clean_root "/web" ["web"]) as Hr by (split; [by repeat constructor|done]).
  split; [by vm_compute|]. split.
  - apply (served_inside "/web" ["web"] web_disk dotted_request); [exact Hr|left|]. intros info. vm_compute. discriminate.
  - apply (served_inside "/web" ["web"] styled_disk styled_request) with (info := File 0); [exact Hr|left|..]; by vm_compute.
Defined.

Lemma api_only_reads_witness :
  let r := dotted_request <| hr_Method := "POST" |> in
  only reads (Handler (MkServer true "/web" 0) web_disk r (NewEventHub 4)) ∧
  ∃ resp, Handler (MkServer true "/web" 0) web_disk r (NewEventHub 4) = Ret (Ok resp, NewEventHub 4).
Proof.
  cbv zeta. destruct (api_only_reads (MkServer true "/web" 0) web_disk (dotted_request <| hr_Method := "POST" |>)
    (NewEventHub 4)) as [H1 H2]. split; [exact H1|]. by apply H2.
Defined.
