(* ===== verification/ControlTLS.v ===== *)
(** * The manager's own certificate (internal/manager/control_tls.go, image.go)

    The control server's key pair and its authority live in a Secret.  When the manager starts it takes the one that is there,
    when that is still good, and makes it otherwise; replicas that start together agree on one through the API
    server.  Making keys is a request to the environment. *)
From S2P Require Import ServeTarget.
From S2P Require Export Peers Safety.
From stdpp Require Import options.
From Stdlib Require Import Ascii.

Definition controlTLSSecretLabels : gmap string string :=
  {["app.kubernetes.io/name" := "kube-rsync-machine"; "app.kubernetes.io/component" := "control-grpc"]}.

(** What crypto/x509 says of private keys and of certificates that sign, and the key of an authority, encoded. *)
Class Authorities `{!X509} := {
  ParsePKCS8PrivateKey : string → result unit;
  IsEd25519 : string → bool;
  IsCA : Certificate → bool;
  CA_keyPEM : CA → string
}.

Section ControlTLS.
Context `{!X509, !Authorities}.

(** [tlsutil.CAFromPEM]; the authority is its certificate here. *)
Definition CAFromPEM (certPEM keyPEM : string) : result Certificate :=
  cert ← parseCertificate certPEM;
  match pem_Decode keyPEM with
  | Some (ty, bytes) =>
      if decide (ty = "PRIVATE KEY") then
        _ ← ParsePKCS8PrivateKey bytes;
        if negb (IsEd25519 bytes) then Err (ErrNew "CA private key must be Ed25519")
        else if negb (IsCA cert) then Err (ErrNew "certificate is not a CA")
        else Ok cert
      else Err (ErrNew "CA private key PEM block is required")
  | None => Err (ErrNew "CA private key PEM block is required")
  end.

Definition validControlGRPCBundle (bundle : Bundle) (namespace : string) (now : Time) : result unit :=
  _ ← CAFromPEM (b_CACertPEM bundle) (b_CAKeyPEM bundle);
  _ ← X509KeyPair (b_CertPEM bundle) (b_KeyPEM bundle);
  tls_VerifyIdentity bundle (ControlGRPCServerIdentity namespace) now.

Definition mintControlGRPCServerBundle (namespace : string) (ttl : Z) : io Bundle :=
  ca ← io_on_err (wrap "mint control grpc ca: ") (req (NewCA "krm-control-ca" ttl));
  bundle ← io_on_err (wrap "mint control grpc server certificate: ") (req (Mint ca (ControlGRPCServerIdentity namespace) ttl));
  mret (MkBundle (b_CACertPEM bundle) (CA_keyPEM ca) (b_CertPEM bundle) (b_KeyPEM bundle)).

Definition stored_bundle (secret : Secret) : Bundle :=
  MkBundle (map_get (sec_Data secret) SecretCAFile) (map_get (sec_Data secret) SecretCAKeyFile)
    (map_get (sec_Data secret) SecretCertFile) (map_get (sec_Data secret) SecretKeyFile).

Definition control_secret (namespace name : string) (bundle : Bundle) : Secret :=
  MkSecret (new_meta namespace name controlTLSSecretLabels) SecretTypeTLS (SecretData bundle).

(** A Secret that is not good is given a new bundle. *)
Definition repaired_secret (secret : Secret) (bundle : Bundle) : Secret :=
  MkSecret ((sec_Meta secret) <| om_Labels ::= λ labels, controlTLSSecretLabels ∪ labels |>) SecretTypeTLS (SecretData bundle).

(** A Secret that is not there is made.  [retry] is what follows when another replica made it first. *)
Definition create_control_secret (retry : io (option Bundle)) (namespace name : string) (ttl : Z) : io (option Bundle) :=
  bundle ← mintControlGRPCServerBundle namespace ttl;
  created ← io_try (req (Create KSecret (control_secret namespace name bundle)));
  match created with
  | Ok _ => mret (Some bundle)
  | Err e =>
      if errors_is KAlreadyExists e then retry
      else io_throw (wrap "create control grpc tls secret: " e)
  end.

(** The Secret that is there: its bundle when that is good, and another one otherwise. *)
Definition use_control_secret (namespace : string) (ttl : Z) (secret : Secret) : io (option Bundle) :=
  now ← ask Now;
  let bundle := stored_bundle secret in
  match validControlGRPCBundle bundle namespace now with
  | Ok _ => mret (Some bundle)
  | Err _ =>
      bundle ← mintControlGRPCServerBundle namespace ttl;
      _ ← io_on_err (wrap "repair control grpc tls secret: ") (req (Update KSecret (repaired_secret secret bundle)));
      mret (Some bundle)
  end.

(** At most [attempts] times; nothing when the last one has to be repeated. *)
Fixpoint EnsureControlGRPCTLSSecret (attempts : nat) (namespace name : string) (ttl : Z) : io (option Bundle) :=
  match attempts with
  | O => mret None
  | S attempts =>
      if decide (namespace = "") then io_throw (ErrNew "control grpc tls namespace is required")
      else if decide (name = "") then io_throw (ErrNew "control grpc tls secret name is required")
      else if decide (ttl ≤ 0) then io_throw (ErrNew "control grpc tls certificate ttl must be positive")
      else
        found ← io_try (req (Get KSecret (MkNamespacedName namespace name)));
        match found with
        | Ok secret => use_control_secret namespace ttl secret
        | Err e =>
            if errors_is KNotFound e
            then create_control_secret (EnsureControlGRPCTLSSecret attempts namespace name ttl) namespace name ttl
            else io_throw (wrap "get control grpc tls secret: " e)
        end
  end.
End ControlTLS.

(** ** The image of the manager's own Pod (image.go) *)

(** A container's status, as far as it is read: its name and the image it runs. *)
Record own_pod := MkOwnPod {
  op_ContainerStatuses : list (string * string);
  op_Containers : list Container
}.

(** [strings.Cut(s, "://")], what follows. *)
Definition without_scheme (imageID : string) : string :=
  match CutText imageID "://" with Some (_, value) => value | None => imageID end.

Fixpoint pullableDigestImage (statuses : list (string * string)) (containerName : string) : string :=
  match statuses with
  | [] => ""
  | (name, image) :: statuses =>
      if decide (containerName ≠ "" ∧ name ≠ containerName) then pullableDigestImage statuses containerName
      else
        let imageID := TrimSpace image in
        if decide (imageID = "" ∨ Contains imageID "@sha256:" = false) then pullableDigestImage statuses containerName
        else without_scheme imageID
  end.

Fixpoint podSpecContainerImage (containers : list Container) (containerName : string) : string :=
  match containers with
  | [] => ""
  | container :: containers =>
      if decide (containerName = "" ∨ c_Name container = containerName) then c_Image container
      else podSpecContainerImage containers containerName
  end.

(** [get] is how getting the Pod ends.  An image is returned beside an error, too. *)
Definition ResolveOwnPodImage (get : result own_pod) (namespace podName containerName fallback : string) :
    string * option goerr :=
  if decide (namespace = "" ∨ podName = "") then (fallback, None)
  else
    match get with
    | Err e =>
        if errors_is KNotFound e then (fallback, None)
        else (fallback, Some (wrap ("get own pod " +:+ namespace +:+ "/" +:+ podName +:+ ": ") e))
    | Ok pod =>
        let image := pullableDigestImage (op_ContainerStatuses pod) containerName in
        if decide (image ≠ "") then (image, None)
        else
          let image := podSpecContainerImage (op_Containers pod) containerName in
          if decide (image ≠ "") then (image, None) else (fallback, None)
    end.
