(* ===== verification/ControlTLSLaws.v ===== *)
(** * One key pair for the control server

    The laws of [ControlTLS]: the bundle that a manager starts with is the one the cluster's Secret holds at that moment, and
    an attempt is repeated only when another replica has made the Secret in between. *)
From S2P Require Import Cluster.
From S2P Require Export ControlTLS.
From stdpp Require Import options.
From Stdlib Require Import Ascii.

(** What is stored is what is read again. *)
Lemma stored_SecretData b : MkBundle (map_get (SecretData b) SecretCAFile) (map_get (SecretData b) SecretCAKeyFile)
  (map_get (SecretData b) SecretCertFile) (map_get (SecretData b) SecretKeyFile) = b.
Proof.
  destruct b as [ca key cert priv]. unfold SecretData, map_get. cbn [b_CAKeyPEM b_CACertPEM b_CertPEM b_KeyPEM].
  case_decide as Hk; [|subst key]; by f_equal.
Qed.

Section Laws.
Context {HX : X509} {HA : Authorities}.

(** The Secret that holds the bundle: it was read and is good, or it has just been written. *)
Definition agreed (namespace name : string) (bundle : Bundle) (h : list event) : Prop :=
  ∃ secret, stored_bundle secret = bundle ∧
    ((∃ now h', h = Ev Now now :: Ev (Get KSecret (MkNamespacedName namespace name)) (Ok secret) :: h' ∧
       validControlGRPCBundle bundle namespace now = Ok tt) ∨
     (∃ o h', h = Ev (Create KSecret secret) (Ok o) :: h' ∧
       ref_of (sec_Meta secret) = MkNamespacedName namespace name) ∨
     (∃ o h' found, h = Ev (Update KSecret secret) (Ok o) :: h' ∧ ref_of (sec_Meta secret) = ref_of (sec_Meta found) ∧
       Ev (Get KSecret (MkNamespacedName namespace name)) (Ok found) ∈ h')).

(** The other outcome: every attempt made a Secret that was there already. *)
Definition outrun (e : event) : Prop := ∃ secret err, e = Ev (Create KSecret secret) (Err err) ∧ errors_is KAlreadyExists err = true.

Definition outcome_ok (namespace name : string) (attempts : nat) (h0 : list event) (r : result (option Bundle))
    (h : list event) : Prop :=
  match r with
  | Ok (Some bundle) => agreed namespace name bundle h
  | Ok None => ∃ l, h = l ++ h0 ∧ ∃ races, races `sublist_of` l ∧ length races = attempts ∧ Forall outrun races
  | Err _ => True
  end.

Notation any := (λ (_ : list event) (R : Set) (_ : request R), True).

Lemma mint_safe namespace ttl h (Q : result Bundle → list event → Prop) :
  (∀ b h', grew h h' → Q (Ok b) h') → (∀ e h', Q (Err e) h') →
  safe no_promise any (mintControlGRPCServerBundle namespace ttl) h Q.
Proof.
  intros Hb He. unfold mintControlGRPCServerBundle. apply io_safe_bind, io_safe_on_err. split; [done|].
  intros [ca|e] _; [|by apply He]. cbn. split; [done|].
  intros [b|e] _; [|by apply He]. cbn. apply Hb. by eexists [_; _].
Qed.

Lemma use_safe namespace name ttl secret h h1 : h = Ev (Get KSecret (MkNamespacedName namespace name)) (Ok secret) :: h1 →
  safe no_promise any (use_control_secret namespace ttl secret) h
    (λ r h', match r with Ok o => ∃ b, o = Some b ∧ agreed namespace name b h' | Err _ => True end).
Proof.
  intros ->. unfold use_control_secret. apply io_safe_bind. split; [done|]. intros now _. cbn [safe].
  destruct (validControlGRPCBundle _ _ _) as [[]|e] eqn:Hv.
  - eexists. split; [done|]. exists secret. split; [done|]. left. by exists now, h1.
  - apply io_safe_bind, mint_safe; [|done]. intros b h' [l ->]. apply io_safe_bind, io_safe_on_err. split; [done|].
    intros [o|e'] _; [|done]. exists b. split; [done|]. exists (repaired_secret secret b).
    split; [apply stored_SecretData|]. right; right. exists o, (l ++ Ev Now now :: Ev (Get KSecret (MkNamespacedName namespace name)) (Ok secret) :: h1), secret.
    split; [done|]. split; [done|]. apply elem_of_app. right. right. by left.
Qed.

Lemma ensure_safe attempts namespace name ttl h :
  safe no_promise any (EnsureControlGRPCTLSSecret attempts namespace name ttl) h
    (outcome_ok namespace name attempts h).
Proof.
  revert h. induction attempts as [|n IH]; intros h; cbn [EnsureControlGRPCTLSSecret].
  { exists []. split; [done|]. by exists []. }
  do 3 (case_decide; [done|]). apply io_safe_bind, io_safe_try. split; [done|]. intros [secret|e] _; cbn [safe].
  { eapply safe_mono; [by eapply use_safe|]. intros [o|e'] h'; [|done]. by intros (b & -> & Hb). }
  case_match; [|done]. apply io_safe_bind, mint_safe; [|done]. intros b h' [l ->].
  apply io_safe_bind, io_safe_try. split; [done|]. intros [o|e'] _; cbn [safe].
  { exists (control_secret namespace name b). split; [apply stored_SecretData|]. right; left. by exists o, (l ++ Ev (Get KSecret (MkNamespacedName namespace name)) (Err e) :: h). }
  case_match eqn:He; [|done]. eapply safe_mono; [apply IH|]. intros [[b'|]|e''] h'; [done| |done].
  intros (l' & -> & races & Hsub & Hlen & Hall).
  exists (l' ++ Ev (Create KSecret (control_secret namespace name b)) (Err e') :: l ++ [Ev (Get KSecret (MkNamespacedName namespace name)) (Err e)]).
  split; [by rewrite <-!(assoc_L (++)); cbn; rewrite <-(assoc_L (++))|].
  exists (races ++ [Ev (Create KSecret (control_secret namespace name b)) (Err e')]). split; [|split].
  - apply sublist_app; [done|]. apply sublist_skip, sublist_nil_l.
  - rewrite length_app. cbn. lia.
  - apply Forall_app. split; [done|]. apply Forall_singleton. by eexists _, _.
Qed.

(** C19: The replicas of the manager agree on one key pair.  Whatever the API server answers, the bundle that a manager goes on with
    is the one its Secret holds: it was read, and is good at that moment for the control server's identity, or the
    last thing that was done is to create or to repair the Secret with exactly this bundle, and that was accepted.  And only when
    each of the attempts lost against a Secret that was made in between is there none. *)
Theorem control_bundle_is_stored attempts namespace name ttl tr r :
  runs (EnsureControlGRPCTLSSecret attempts namespace name ttl) tr r → outcome_ok namespace name attempts [] r (rev tr).
Proof.
  intros Hr. pose proof (safe_runs _ _ _ [] _ tr r (ensure_safe attempts namespace name ttl []) Hr) as H.
  rewrite app_nil_r in H. apply H. apply Forall_forall. by intros [] _.
Qed.
End Laws.

(** ** A first start *)

#[local] Existing Instance bare_certificates.
#[local] Instance bare_authorities : Authorities := {|
  ParsePKCS8PrivateKey _ := Ok tt; IsEd25519 _ := true; IsCA _ := true; CA_keyPEM ca := ca +:+ " key"
|}.

(** A cluster without a Secret, and what its first manager does. *)
Definition first_start : list event * result (option Bundle) :=
  exec (server (λ _, [])) (EnsureControlGRPCTLSSecret 3 "operator" "control-tls" 3600) [].

Lemma control_bundle_is_stored_witness :
  first_start.2 = Ok (Some (MkBundle "ca" "ca key" "certificate" "key")) ∧
  outcome_ok "operator" "control-tls" 3 [] first_start.2 (rev first_start.1).
Proof.
  split; [by vm_compute|]. apply (control_bundle_is_stored 3 "operator" "control-tls" 3600).
  apply exec_runs.
Defined.

(** The image of the manager's Pod. *)
Example images :
  ResolveOwnPodImage (Ok (MkOwnPod [("proxy", "registry/proxy@sha256:1"); ("manager", "docker-pullable://registry/krm@sha256:2")] []))
    "operator" "krm-0" "manager" "krm:latest" = ("registry/krm@sha256:2", None) ∧
  ResolveOwnPodImage (Ok (MkOwnPod [("manager", "sha256:2")] [])) "operator" "krm-0" "manager" "krm:latest" = ("krm:latest", None).
Proof. split; by vm_compute. Qed.
